(* ===== verification/_CoqProject ===== *)
-Q . S2P
Prelude.v
GoStrings.v
K8s.v
Apis.v
Selectors.v
Store.v
StoreFacts.v
Patch.v
Persist.v
Concrete.v
StoreSpec.v
Watch.v
WatchSpec.v
Recovery.v
Core.v
Driver.v
Mapping.v
Build.v
Reconciler.v
ConcreteApi.v
Cascade.v
Pvc.v
Sandbox.v
Claim.v
SandboxSpec.v
ClaimSpec.v
WarmPool.v
WarmPoolSpec.v
Manager.v
ManagerSpec.v
Workers.v
Scenarios.v
Runtime.v
RuntimeSpec.v
Paths.v
Config.v
Router.v
RouterSpec.v
Mux.v
Agent.v
Facade.v
Writers.v
RouterWire.v
FacadeRoutes.v
FacadeSpec.v
FacadeApi.v
Discovery.v
Docker.v
DockerSpec.v
Image.v
VRouter.v
App.v
AppSpec.v
Commits.v
System.v
Serve.v
DbFile.v
Cli.v
PortForward.v
PortForwardSpec.v
