(* ===== verification/Prelude.v ===== *)
(** * local-agent-sandbox: a verification development

    [lasd] is a single-process stand-in for a Kubernetes cluster that runs agent
    sandboxes.  A client talks to a Kubernetes REST facade; the facade reads and
    writes an in-memory, etcd-shaped object store; reconcilers watch the store
    and drive a container backend; a reverse proxy and a port-forward server
    carry the client's traffic to the containers; a small HTTP agent runs inside
    each container.  The store is written through to a database from which it is
    rebuilt after a crash.

    ** How the files correspond to the code

    Interfaces to code that is linked but not in the repository are type classes
    with named laws; every class has a concrete instance, so that each theorem
    with hypotheses is applied to evaluated inputs by a lemma [..._witness].

    - This file: results [res] for Go's value-error pairs, shared lemmas on lists,
      options and maps, the hint database [las].
    - [GoStrings.v]: the standard library on strings (strconv, strings, filepath,
      hex), [Paths.v] path/filepath on Unix.  [K8s.v]: unstructured objects, JSON, API errors, the clock, random
      draws and the two orders Go leaves open.  [Concrete.v], [ConcreteApi.v]:
      their instances.
    - Store ([internal/apis], [internal/store]).  [Apis.v] is scheme.go,
      [Selectors.v] selectors.go, [Store.v] store.go and meta.go with the writing
      half of watch.go, [Patch.v] patch.go, [Persist.v] persist.go, [Watch.v]
      watch.go.  The record [store] has the fields of the Go struct and each method is the
      body of one critical section of its mutex.  [StoreFacts.v] reduces every
      mutation to one [write] and shows the invariants are kept; [StoreSpec.v],
      [WatchSpec.v] and [Recovery.v] (with [New] of app.go) hold the contracts;
      [DbFile.v] is the database file's life: opening, the flush timer, closing,
      and what a failure of the process or of the machine leaves.
    - Container backend ([internal/driver]).  [Driver.v] is the interface of
      driver.go as the class [Driver] with [DriverLaws], and the in-memory driver
      of fake.go; [Mapping.v] is mapping.go; [Docker.v] and [DockerSpec.v] are
      docker.go over the client library's interface, [Image.v] is image.go.
    - Reconcilers ([internal/reconciler]).  [Core.v] has the typed structs,
      [Build.v] is build.go, [Reconciler.v] reconcile.go and convert.go with the
      delete hook, [Cascade.v] its correctness, [Pvc.v] pvc.go, [Sandbox.v]
      sandbox.go, [Claim.v] claim.go, [WarmPool.v] warmpool.go and template.go,
      [Manager.v] manager.go, [Workers.v] its watching and working goroutines as
      an interleaving of steps over a work queue; the files [SandboxSpec.v], [ClaimSpec.v], [WarmPoolSpec.v] and
      [ManagerSpec.v] state what they guarantee and [Scenarios.v] applies it.
      A [world] is the store, the backend and two clocks; a handler is a function
      of the world.
    - Facade ([internal/kubefacade]).  [Mux.v] models the routing rules of
      net/http.ServeMux, [Facade.v] is server.go, resources.go and write.go,
      [Discovery.v] discovery.go and openapi.go, [Writers.v] the response
      recorder, write.go and the event stream of a watch; [FacadeRoutes.v],
      [FacadeSpec.v] and [FacadeApi.v] hold the theorems.
    - Data plane.  [Router.v], [RouterSpec.v], and for the answers on the
      connection [RouterWire.v]: [internal/router]; [PortForward.v],
      [PortForwardSpec.v]: [internal/portforward]; [Runtime.v], [RuntimeSpec.v]:
      the safe path, the handlers and the tokenizer of the agent of [runtime/],
      and [Agent.v] its server and main function.
    - Process.  [VRouter.v]: [internal/vrouter]; [App.v], [AppSpec.v]:
      the parts of [internal/app] and the commands gc, purge and ls of
      [cmd/lasd]; [Config.v]: [internal/config] and [internal/kubeconfig];
      [Commits.v] says what every operation writes, and [System.v] makes one
      transition system of the server's requests, reconcilers, watches, container
      events and crashes; [Serve.v]: [New] and [Run] of app.go as a whole and the
      commands doctor, status and kubeconfig; [Cli.v]: flags, command bodies and
      main of [cmd/lasd].

    ** What the theorems show

    - Store: any run of operations is a log of versioned writes, of which the
      content, the version counter, the watch history and the watchers' view are
      images; updates are optimistically concurrent; watches deliver each event
      once and in order; a restart rebuilds the same objects and version; what was
      flushed survives a failure of the machine, and two servers do not share a
      data directory.
    - Reconcilers: the container of a running sandbox is the one its spec maps
      to and every mounted claim has a volume; suspension, expiry and garbage collection
      leave what they promise; a warm sandbox is adopted by one claim whatever
      runs between the adopting reads and writes; a claim mirrors its own
      sandbox; a pool reaches its size in one pass; the delete cascade removes
      only and all it owns; a sandbox that is not Ready keeps coming back.  No
      two workers of a controller process the same key, no requested key is lost
      or overtaken without bound, and requeue delays neither overflow nor miss a
      deadline.
    - Facade and data plane: requests reach the handler of the resource their
      path names, an object lives from POST to DELETE as a client expects, writes are
      confined, list-then-watch converges; a proxied request goes to the
      loopback port of a Ready sandbox and its answer arrives unchanged, a refused
      one is told why in JSON; bridges are transparent; the agent
      sends each request to its handler, keeps what was uploaded, touches no file
      outside its root in a whole session, and tokenizes exactly its grammar.
    - Composition: the Docker driver meets the interface the reconcilers are
      proved against; a Ready sandbox is routable.  In every execution of the
      whole server the store is the replay of the writes committed so far and a
      restart would rebuild it; a new process after a crash serves the same
      objects and exactly the containers of stored sandboxes survive; and for
      each way [Run] can end, what it leaves behind; for each command line,
      which containers, volumes and files it may change and which server it
      talks to.

    ** Bounds and fuel

    - The delete hook deletes objects whose deletion runs the hook again.
      [Delete_n] bounds the nesting; three levels give the result of any larger
      bound on every well-formed world ([Cascade.Delete_fuel]).
    - Adoption is the code's own loop of five attempts.
    - Name generation retries while the drawn name is taken.  The code's loop has
      no bound; the model's is a parameter, and the loop ends within it whenever
      one of that many draws is free ([StoreSpec.generateUniqueName_spec]).
    - Everything else recurses on its data.

    ** What is not modelled, and why

    - The work queue is client-go's: a parameter with its documented behaviour.
      The manager's goroutines are the steps of [Workers.v]; the shutdown of the
      queues is left out, as the process ends with it.
    - What bbolt leaves of unsynced transactions when the machine itself fails is
      an arbitrary argument of that step of [DbFile.v], as bbolt promises nothing;
      the bucket library is a parameter.
    - Symbolic links in the agent's root: its check of paths is lexical, and so
      is the theorem about it.
    - Listeners, signals, directories and the Docker socket answer through
      arguments of [Serve.New_app] and [Serve.Run].  The answers are given in the
      order of the calls; requests served before the start-up is finished and
      while it runs are arbitrary changes of the world.
    - The bytes of a tar archive and of the kubeconfig are their libraries'.
    - Loggers, the JSON encoder, the buffering of a connection and the proxying
      itself are libraries'; what is sent, and to whom, is modelled.
    - Parsing a command line, reading a kubeconfig and aligning the table of
      [ls] are cobra's, clientcmd's and tabwriter's; the first two are
      parameters of [Cli.v].
    - The driver laws are hypotheses of the reconcilers' theorems.  The in-memory
      driver has them without condition, Docker's on a daemon that keeps the
      documented behaviour of its API ([DockerSpec.docker_contract]). *)

From stdpp Require Export base tactics gmap strings list fin_maps numbers sorting.

(** ** Notation scope of the development *)

Declare Scope las_scope.
Delimit Scope las_scope with las.

(** Hints of the development: lemmas that close its routine side goals. *)
Create HintDb las discriminated.

(** String concatenation computes on constructors. *)
#[global] Arguments String.append !_ _ : simpl nomatch.

(** ** Results: Go's [(value, error)] pairs

    A Go function that returns [(v, nil)] or [(zero, err)] is a [res]. *)

Inductive res (E A : Type) : Type :=
| Ok (a : A)
| Err (e : E).
Arguments Ok {E A} a.
Arguments Err {E A} e.

#[export] Instance res_eq_dec {E A} (HE : EqDecision E) (HA : EqDecision A) :
  EqDecision (res E A).
Proof.
  intros [a|e] [b|f]; first [destruct (decide (a = b)) | destruct (decide (e = f)) | idtac];
    first [left; congruence | right; congruence].
Defined.

#[export] Instance res_ret E : MRet (res E) := λ _ a, Ok a.
#[export] Instance res_bind E : MBind (res E) :=
  λ _ _ f r, match r with Ok a => f a | Err e => Err e end.
#[export] Instance res_fmap E : FMap (res E) :=
  λ _ _ f r, match r with Ok a => Ok (f a) | Err e => Err e end.

Definition is_ok {E A} (r : res E A) : bool :=
  match r with Ok _ => true | Err _ => false end.

Definition ok_val {E A} (r : res E A) : option A :=
  match r with Ok a => Some a | Err _ => None end.

Definition of_opt {E A} (e : E) (o : option A) : res E A :=
  match o with Some a => Ok a | None => Err e end.

(** A pair whose second half is known. *)
Lemma pair_snd {A B} (p : A * B) b : p.2 = b → p = (p.1, b).
Proof. destruct p; simpl; congruence. Qed.

(** A pair known to carry a result, without computing its first half. *)
Lemma ok_pair {W E A} (d : A) (p : W * res E A) :
  is_ok p.2 = true → p = (p.1, Ok (default d (ok_val p.2))).
Proof. by destruct p as [w [a|e]]. Qed.

Lemma res_bind_ok {E A B} (r : res E A) (f : A → res E B) b :
  r ≫= f = Ok b ↔ ∃ a, r = Ok a ∧ f a = Ok b.
Proof. destruct r; simpl; naive_solver. Qed.

(** ** Filtering lists *)

Lemma filter_ext_elem {A} (Q R : A → Prop) `{∀ x, Decision (Q x), ∀ x, Decision (R x)} (l : list A) :
  (∀ x, x ∈ l → Q x ↔ R x) → filter Q l = filter R l.
Proof.
  induction l as [|x l IH]; intros HQ; [done|]. rewrite !filter_cons.
  rewrite IH by (intros; apply HQ; by right).
  destruct (HQ x (list_elem_of_here _ _)). repeat case_decide; naive_solver.
Qed.

Lemma filter_all {A} (Q : A → Prop) `{∀ x, Decision (Q x)} (l : list A) :
  (∀ x, x ∈ l → Q x) → filter Q l = l.
Proof.
  induction l as [|x l IH]; intros HQ; [done|]. rewrite filter_cons.
  rewrite decide_True by (apply HQ; left). f_equal. apply IH. intros; apply HQ; by right.
Qed.

Lemma filter_none {A} (Q : A → Prop) `{∀ x, Decision (Q x)} (l : list A) :
  (∀ x, x ∈ l → ¬ Q x) → filter Q l = [].
Proof.
  induction l as [|x l IH]; intros HQ; [done|]. rewrite filter_cons.
  rewrite decide_False by (apply HQ; left). apply IH. intros; apply HQ; by right.
Qed.

(** Filling a map by ranging over another one copies it. *)
Lemma foldl_insert_union {K A} `{Countable K} (l : list (K * A)) (m0 : gmap K A) :
  NoDup l.*1 → foldl (λ m p, <[p.1 := p.2]> m) m0 l = list_to_map l ∪ m0.
Proof.
  revert m0; induction l as [|[k x] l IH]; intros m0 Hnd; simpl.
  { by rewrite (left_id_L ∅ (∪)). }
  apply NoDup_cons in Hnd as [Hni Hnd]. rewrite IH by done.
  rewrite <-insert_union_l, insert_union_r; [done|]. by apply not_elem_of_list_to_map_1.
Qed.

Lemma foldl_insert_perm {K A} `{Countable K} (l : list (K * A)) (m : gmap K A) :
  l ≡ₚ map_to_list m → foldl (λ m p, <[p.1 := p.2]> m) ∅ l = m.
Proof.
  intros Hl. assert (NoDup l.*1) as Hnd by (rewrite Hl; apply NoDup_fst_map_to_list).
  rewrite foldl_insert_union, (right_id_L ∅ (∪)), (list_to_map_proper _ _ Hnd Hl) by done.
  apply list_to_map_to_list.
Qed.

(** ** State passing

    Handlers that mutate shared state are functions [S → S * A]; [let!]
    threads the state the way a sequence of Go statements does. *)

Definition ST (S A : Type) : Type := S → S * A.
Definition st_ret {S A} (a : A) : ST S A := λ s, (s, a).
Definition st_bind {S A B} (m : ST S A) (k : A → ST S B) : ST S B :=
  λ s, let '(s', a) := m s in k a s'.
Definition st_get {S} : ST S S := λ s, (s, s).
Definition st_put {S} (s : S) : ST S unit := λ _, (s, tt).

Notation "'let!' x ':=' m 'in' k" := (st_bind m (λ x, k))
  (at level 10, x name, m at level 100, k at level 200) : las_scope.
Notation "'do!' m 'in' k" := (st_bind m (λ _, k))
  (at level 10, m at level 100, k at level 200) : las_scope.

(** [for _, x := range l { body }] on a mutable state. *)
Fixpoint st_for {S A} (l : list A) (body : A → ST S unit) : ST S unit :=
  match l with
  | [] => st_ret tt
  | x :: l' => st_bind (body x) (λ _, st_for l' body)
  end.

Lemma st_for_cons {S A} (x : A) l (body : A → ST S unit) s :
  st_for (x :: l) body s = st_for l body (body x s).1.
Proof. simpl. unfold st_bind. by destruct (body x s) as [s' []]. Qed.

Lemma st_for_app {S A} (l1 l2 : list A) (body : A → ST S unit) s :
  st_for (l1 ++ l2) body s = st_for l2 body (st_for l1 body s).1.
Proof.
  revert s; induction l1 as [|x l1 IH]; intros s; simpl.
  - by destruct (st_for l2 body s).
  - unfold st_bind. destruct (body x s). apply IH.
Qed.

(** The loop rule: an invariant every iteration preserves. *)
Lemma st_for_inv {S A} (I : S → Prop) (l : list A) (body : A → ST S unit) s :
  (∀ x s, x ∈ l → I s → I (body x s).1) → I s → I (st_for l body s).1.
Proof.
  revert s; induction l as [|x l IH]; intros s Hb Hs; [done|].
  rewrite st_for_cons. apply IH; [|apply Hb; [left|done]].
  intros y t Hy. apply Hb. by right.
Qed.

(** ** Fixed-width integers

    Go integers are [Z] with their wrap-around written out. *)

Definition u64_mod : Z := 2 ^ 64.
Definition u32_mod : Z := 2 ^ 32.
Definition wrap_u64 (z : Z) : Z := z `mod` u64_mod.
Definition wrap_u32 (z : Z) : Z := z `mod` u32_mod.
Definition wrap_i64 (z : Z) : Z := (z + 2 ^ 63) `mod` u64_mod - 2 ^ 63.

(** the nearest 64-bit integer *)
Definition clamp_i64 (z : Z) : Z := Z.max (- 2 ^ 63) (Z.min z (2 ^ 63 - 1)).

Lemma wrap_u64_small z : (0 ≤ z < u64_mod)%Z → wrap_u64 z = z.
Proof. apply Z.mod_small. Qed.

Lemma wrap_i64_small z : (- 2 ^ 63 ≤ z < 2 ^ 63)%Z → wrap_i64 z = z.
Proof. intros. unfold wrap_i64, u64_mod in *. rewrite Z.mod_small; lia. Qed.

Lemma wrap_u32_range z : (0 ≤ wrap_u32 z < u32_mod)%Z.
Proof. by apply Z.mod_pos_bound. Qed.

(** [nat] lengths embed in [Z]. *)
Coercion Z.of_nat : nat >-> Z.
