(* ===== verification/GoStrings.v ===== *)
(** Go's standard library as the program uses it on strings: [strconv],
    [strings], [path/filepath], [encoding/hex] and [fmt] verbs.  A Go string is
    a byte string, here Rocq's [string] of 8-bit [ascii]s. *)

From S2P Require Import Prelude.
From Stdlib Require Import Ascii DecimalString DecimalN NArith.
Local Open Scope string_scope.

(** ** Bytes *)

Definition byte_val (c : ascii) : Z := Z.of_N (N_of_ascii c).
Definition slash : ascii := "/".
Definition dquote : string := String (ascii_of_nat 34) EmptyString.

(** [s[:n]] and [s[n:]] *)
Fixpoint str_take (n : nat) (s : string) : string :=
  match n, s with
  | S n, String c s => String c (str_take n s)
  | _, _ => EmptyString
  end.
Fixpoint str_drop (n : nat) (s : string) : string :=
  match n, s with
  | S n, String _ s => str_drop n s
  | _, _ => s
  end.

Definition chars (s : string) : list ascii := String.list_ascii_of_string s.
Definition of_chars (l : list ascii) : string := String.string_of_list_ascii l.

Lemma chars_of_chars l : chars (of_chars l) = l.
Proof. apply String.list_ascii_of_string_of_list_ascii. Qed.
Lemma of_chars_chars s : of_chars (chars s) = s.
Proof. apply String.string_of_list_ascii_of_string. Qed.
Lemma chars_app s t : chars (s +:+ t) = (chars s ++ chars t)%list.
Proof. induction s as [|c s IH]; simpl; [done|by rewrite IH]. Qed.
Lemma of_chars_app l k : of_chars (l ++ k)%list = of_chars l +:+ of_chars k.
Proof. induction l as [|c s IH]; simpl; [done|by rewrite IH]. Qed.
Lemma chars_inj s t : chars s = chars t → s = t.
Proof. intros H. by rewrite <-(of_chars_chars s), H, of_chars_chars. Qed.
Lemma str_app_inj_l s t u : s +:+ t = s +:+ u → t = u.
Proof. induction s; simpl; [done|]; intros [=]; auto. Qed.
Lemma str_app_assoc s t u : (s +:+ t) +:+ u = s +:+ (t +:+ u).
Proof. induction s as [|c s IH]; simpl; [done|by rewrite IH]. Qed.
Lemma str_app_nil_r s : s +:+ "" = s.
Proof. induction s as [|c s IH]; simpl; [done|by rewrite IH]. Qed.

(** ** strconv *)

(** [strconv.FormatUint(n, 10)] *)
Definition format_uint (n : Z) : string :=
  NilZero.string_of_uint (N.to_uint (Z.to_N n)).

(** [strconv.Itoa], the [%d] verb *)
Definition itoa (n : Z) : string :=
  if (n <? 0)%Z then "-" +:+ format_uint (- n) else format_uint n.

(** The digits of a decimal numeral; the empty string and any other byte are
    errors, leading zeros are accepted. *)
Definition parse_digits (s : string) : option Z :=
  if decide (s = "") then None
  else (λ d, Z.of_N (N.of_uint d)) <$> NilEmpty.uint_of_string s.

(** [strconv.ParseUint(s, 10, 64)] *)
Definition parse_uint64 (s : string) : option Z :=
  n ← parse_digits s; if (n <? u64_mod)%Z then Some n else None.

(** [strconv.Atoi] on a 64-bit platform: an optional sign, then digits, in the
    range of [int]. *)
Definition atoi (s : string) : option Z :=
  let in_range n := if (- 2 ^ 63 <=? n)%Z && (n <? 2 ^ 63)%Z then Some n else None in
  match s with
  | String "-" s' => n ← parse_digits s'; in_range (- n)%Z
  | String "+" s' => n ← parse_digits s'; in_range n
  | _ => n ← parse_digits s; in_range n
  end.

(** The first result of [strconv.Atoi] when its error is dropped: 0 for a
    numeral it cannot read, the nearest bound for one out of range. *)
Definition atoi_value (s : string) : Z :=
  let value n := Z.max (- 2 ^ 63) (Z.min n (2 ^ 63 - 1)) in
  default 0%Z
    match s with
    | String "-" s' => (λ n, value (- n)%Z) <$> parse_digits s'
    | String "+" s' => value <$> parse_digits s'
    | _ => value <$> parse_digits s
    end.

Lemma to_uint_nonnil n : N.to_uint n ≠ Decimal.Nil.
Proof.
  intros H. assert (n = 0)%N as ->; [|done].
  by rewrite <-(Unsigned.of_to n), H.
Qed.

Lemma parse_digits_format n :
  (0 ≤ n)%Z → parse_digits (format_uint n) = Some n.
Proof.
  intros Hn. unfold parse_digits, format_uint, NilZero.string_of_uint.
  pose proof (to_uint_nonnil (Z.to_N n)) as Hnil.
  destruct (N.to_uint (Z.to_N n)) eqn:E; try done; rewrite <-E in *;
    (rewrite decide_False; [|rewrite E; done]);
    rewrite NilEmpty.usu; simpl; rewrite Unsigned.of_to; f_equal; lia.
Qed.

Lemma format_uint_inj n m :
  (0 ≤ n)%Z → (0 ≤ m)%Z → format_uint n = format_uint m → n = m.
Proof.
  intros Hn Hm E. apply parse_digits_format in Hn, Hm. rewrite E in Hn. congruence.
Qed.

Lemma format_uint_nonempty n : format_uint n ≠ "".
Proof.
  unfold format_uint, NilZero.string_of_uint.
  pose proof (to_uint_nonnil (Z.to_N n)).
  by destruct (N.to_uint _).
Qed.

Lemma parse_uint64_format n :
  (0 ≤ n < u64_mod)%Z → parse_uint64 (format_uint n) = Some n.
Proof.
  intros Hn. unfold parse_uint64. rewrite parse_digits_format by lia. simpl.
  by rewrite (proj2 (Z.ltb_lt _ _)) by lia.
Qed.

Lemma parse_uint64_range s n : parse_uint64 s = Some n → (0 ≤ n < u64_mod)%Z.
Proof.
  unfold parse_uint64, parse_digits. case_decide; [done|].
  destruct (NilEmpty.uint_of_string s); simpl; [|done].
  destruct (Z.ltb_spec (Z.of_N (N.of_uint u)) u64_mod); [|done].
  intros [= <-]. lia.
Qed.

(** ** strings *)

(** [strings.Index(s, "/")]-style search for one byte. *)
Fixpoint index_byte (c : ascii) (s : string) : option nat :=
  match s with
  | EmptyString => None
  | String d s' => if ascii_dec d c then Some 0 else S <$> index_byte c s'
  end.

(** [s] has no byte [c]. *)
Definition no_byte (c : ascii) (s : string) : bool :=
  match index_byte c s with None => true | Some _ => false end.

(** Cutting at the first occurrence of [c]. *)
Fixpoint cut (c : ascii) (s : string) : option (string * string) :=
  match s with
  | EmptyString => None
  | String d s' =>
      if ascii_dec d c then Some ("", s')
      else '(a, b) ← cut c s'; Some (String d a, b)
  end.

(** [strings.Split(s, c)] for a one-byte separator. *)
Fixpoint split_byte (c : ascii) (s : string) : list string :=
  match s with
  | EmptyString => [""]
  | String d s' =>
      if ascii_dec d c then "" :: split_byte c s'
      else match split_byte c s' with
           | x :: xs => String d x :: xs
           | [] => [String d ""]
           end
  end.

(** [strings.Join(l, sep)] *)
Fixpoint str_join (sep : string) (l : list string) : string :=
  match l with
  | [] => ""
  | [x] => x
  | x :: l' => x +:+ sep +:+ str_join sep l'
  end.

(** [strings.TrimLeft(s, cutset)] for a one-byte cutset. *)
Fixpoint trim_left (c : ascii) (s : string) : string :=
  match s with
  | String d s' => if ascii_dec d c then trim_left c s' else s
  | EmptyString => ""
  end.

Definition has_prefix (p s : string) : bool := String.prefix p s.

Definition lower_byte (c : ascii) : ascii :=
  let n := N_of_ascii c in
  if ((65 <=? n) && (n <=? 90))%N then ascii_of_N (n + 32) else c.

(** [strings.ToLower] on ASCII bytes (other bytes are left alone). *)
Fixpoint to_lower (s : string) : string :=
  match s with
  | EmptyString => ""
  | String c s' => String (lower_byte c) (to_lower s')
  end.

(** Byte-wise comparison of Go strings, the [<] operator. *)
Fixpoint str_ltb (s t : string) : bool :=
  match s, t with
  | _, EmptyString => false
  | EmptyString, String _ _ => true
  | String c s', String d t' =>
      if ascii_dec c d then str_ltb s' t' else (N_of_ascii c <? N_of_ascii d)%N
  end.

Lemma no_byte_cons c d s :
  no_byte c (String d s) = true ↔ d ≠ c ∧ no_byte c s = true.
Proof.
  unfold no_byte; simpl. destruct (ascii_dec d c); [naive_solver|].
  destruct (index_byte c s); naive_solver.
Qed.

Lemma no_byte_app c s t :
  no_byte c (s +:+ t) = true ↔ no_byte c s = true ∧ no_byte c t = true.
Proof.
  induction s as [|d s IH]; simpl; [naive_solver|].
  rewrite !no_byte_cons, IH. naive_solver.
Qed.

Lemma cut_app c s t : no_byte c s = true → cut c (s +:+ String c t) = Some (s, t).
Proof.
  induction s as [|d s IH]; simpl.
  - by destruct (ascii_dec c c).
  - rewrite no_byte_cons. intros [Hd Hs]. destruct (ascii_dec d c); [done|].
    by rewrite IH.
Qed.

Lemma cut_sep s t : no_byte slash s = true → cut slash (s +:+ "/" +:+ t) = Some (s, t).
Proof. apply cut_app. Qed.

Lemma cut_Some c s a b :
  cut c s = Some (a, b) → s = a +:+ String c b ∧ no_byte c a = true.
Proof.
  revert a b; induction s as [|d s IH]; intros a b; simpl; [done|].
  destruct (ascii_dec d c) as [->|Hd]; [by intros [= <- <-]|].
  destruct (cut c s) as [[a' b']|] eqn:E; simpl; [|done].
  intros [= <- <-]. destruct (IH a' b' eq_refl) as [-> Ha].
  split; [done|]. by rewrite no_byte_cons.
Qed.

Lemma cut_None c s : cut c s = None ↔ no_byte c s = true.
Proof.
  induction s as [|d s IH]; simpl; [done|]. rewrite no_byte_cons.
  destruct (ascii_dec d c); [naive_solver|].
  destruct (cut c s) as [[]|]; naive_solver.
Qed.

(** [strings.SplitN(s, c, 2)] *)
Definition split_n2 (c : ascii) (s : string) : list string :=
  match cut c s with Some (a, b) => [a; b] | None => [s] end.

(** ** encoding/hex and the [%08x] verb *)

Definition hex_digit (n : Z) : ascii :=
  ascii_of_N (Z.to_N (if (n <? 10)%Z then 48 + n else 87 + n)).

Definition hex_byte (b : Z) : string :=
  String (hex_digit (Z.shiftr b 4)) (String (hex_digit (Z.land b 15)) "").

(** ["%q"]: quotes, backslashes and control characters are escaped; other
    bytes are printed as they are, as Go does for printable UTF-8 text. *)
Definition backslash : string := String "092" "".
Definition quote_char (c : ascii) : string :=
  let n := byte_val c in
  if decide (n = 34) then backslash +:+ dquote
  else if decide (n = 92) then backslash +:+ backslash
  else if decide (n = 7) then backslash +:+ "a" else if decide (n = 8) then backslash +:+ "b"
  else if decide (n = 12) then backslash +:+ "f" else if decide (n = 10) then backslash +:+ "n"
  else if decide (n = 13) then backslash +:+ "r" else if decide (n = 9) then backslash +:+ "t"
  else if decide (n = 11) then backslash +:+ "v"
  else if decide (n < 32 ∨ n = 127)%Z then backslash +:+ "x" +:+ hex_byte n
  else String c "".
Definition go_quote (s : string) : string :=
  dquote +:+ foldr (λ c acc, quote_char c +:+ acc) dquote (chars s).

(** [hex.EncodeToString] *)
Fixpoint hex_encode (bs : list Z) : string :=
  match bs with [] => "" | b :: bs' => hex_byte b +:+ hex_encode bs' end.

(** [fmt.Sprintf("%08x", n)] for a 32-bit [n]: its big-endian bytes in hex. *)
Definition be_bytes32 (n : Z) : list Z :=
  [Z.land (Z.shiftr n 24) 255; Z.land (Z.shiftr n 16) 255;
   Z.land (Z.shiftr n 8) 255; Z.land n 255].
Definition hex08 (n : Z) : string := hex_encode (be_bytes32 n).

Lemma hex_encode_length bs : String.length (hex_encode bs) = (2 * length bs)%nat.
Proof. induction bs as [|b bs IH]; simpl; [done|]. rewrite IH. lia. Qed.

(** ** path/filepath on Unix *)

(** One component pushed on the (reversed) stack of a rooted path. *)
Definition clean_push (stack : list string) (c : string) : list string :=
  if decide (c = "" ∨ c = ".") then stack
  else if decide (c = "..") then tail stack
  else c :: stack.

(** [filepath.Clean] of a rooted path given by its components. *)
Definition clean_components (l : list string) : list string :=
  reverse (foldl clean_push [] l).

Definition rooted (l : list string) : string := "/" +:+ str_join "/" l.

(** [filepath.Clean(p)] for an absolute [p]. *)
Definition clean_abs (p : string) : string :=
  rooted (clean_components (split_byte slash p)).

(** [filepath.Join(base, elem)] for an absolute [base]: empty elements are
    ignored, the rest is joined and cleaned. *)
Definition path_join (base elem : string) : string :=
  if decide (elem = "") then clean_abs base else clean_abs (base +:+ "/" +:+ elem).

(** ** [<] on strings is a strict total order *)

Lemma str_ltb_irrefl s : str_ltb s s = false.
Proof. induction s as [|c s IH]; simpl; [done|]. by destruct (ascii_dec c c). Qed.

Lemma N_of_ascii_inj c d : N_of_ascii c = N_of_ascii d → c = d.
Proof. intros E. by rewrite <-(ascii_N_embedding c), E, ascii_N_embedding. Qed.

Lemma str_ltb_trans s t u :
  str_ltb s t = true → str_ltb t u = true → str_ltb s u = true.
Proof.
  revert t u; induction s as [|c s IH]; intros [|d t] [|e u]; simpl; try done.
  repeat case_match; simplify_eq; intros; rewrite ?N.ltb_lt in *; eauto; lia.
Qed.

Lemma str_ltb_total s t : str_ltb s t = false → str_ltb t s = false → s = t.
Proof.
  revert t; induction s as [|c s IH]; intros [|d t]; simpl; try done.
  repeat case_match; simplify_eq; intros; [f_equal; eauto|].
  rewrite !N.ltb_ge in *. exfalso. eauto using N_of_ascii_inj, N.le_antisymm.
Qed.

Lemma str_ltb_asym s t : str_ltb s t = true → str_ltb t s = false.
Proof.
  intros H. destruct (str_ltb t s) eqn:E; [|done].
  pose proof (str_ltb_trans _ _ _ H E). by rewrite str_ltb_irrefl in *.
Qed.

Lemma str_ltb_neg_trans s t u :
  str_ltb t s = false → str_ltb u t = false → str_ltb u s = false.
Proof.
  intros H1 H2. destruct (str_ltb u s) eqn:E; [|done].
  destruct (str_ltb s t) eqn:E2.
  - pose proof (str_ltb_trans _ _ _ E E2). congruence.
  - pose proof (str_ltb_total _ _ E2 H1). congruence.
Qed.

Lemma to_lower_byte_idem c : lower_byte (lower_byte c) = lower_byte c.
Proof. destruct c as [[] [] [] [] [] [] [] []]; reflexivity. Qed.
Lemma to_lower_idem s : to_lower (to_lower s) = to_lower s.
Proof. induction s as [|c s IH]; simpl; [done|]. by rewrite to_lower_byte_idem, IH. Qed.

#[export] Hint Resolve str_ltb_asym str_ltb_neg_trans : las.
