(* ===== verification/K8s.v ===== *)
(** Interfaces to the code the program links but does not contain.

    - [gval]: Go's [any] as produced by the JSON decoder;
    - [Unstructured]: the accessors of [unstructured.Unstructured], one getter
      and one setter per metadata field the program touches, with their
      documented laws [UnstructuredLaws];
    - [Codec]: [MarshalJSON]/[UnmarshalJSON];
    - [api_error]: the constructors of [apierrors] the program uses;
    - [GoRuntime]: the two places where Go leaves an order open, ranging over a
      map and the unstable [sort.Slice];
    - [Oracle]: the clock and the random generators.

    Each class has an instance on concrete data, so that theorems proved
    against the interface can be applied. *)

From S2P Require Import Prelude GoStrings.
From stdpp Require Import sorting.
Local Open Scope string_scope.

(** ** Go's [any] *)

Inductive gval : Type :=
| GNil
| GBool (b : bool)
| GInt (z : Z)
| GFloat (bits : Z)
| GStr (s : string)
| GList (l : list gval)
| GMap (m : gmap string gval).

(** [reflect.DeepEqual] on JSON values. *)
#[export] Instance gval_eq_dec : EqDecision gval.
Proof.
  refine (fix go (x y : gval) : Decision (x = y) :=
    let _ : EqDecision gval := @go in
    match x, y with
    | GNil, GNil => left eq_refl
    | GBool a, GBool b => cast_if (decide (a = b))
    | GInt a, GInt b => cast_if (decide (a = b))
    | GFloat a, GFloat b => cast_if (decide (a = b))
    | GStr a, GStr b => cast_if (decide (a = b))
    | GList a, GList b => cast_if (decide (a = b))
    | GMap a, GMap b => cast_if (decide (a = b))
    | _, _ => right _
    end); abstract congruence.
Defined.

(** ** metav1.OwnerReference *)

Record OwnerReference := mkOwnerRef {
  or_APIVersion : string;
  or_Kind : string;
  or_Name : string;
  or_UID : string;
  or_Controller : option bool;
  or_BlockOwnerDeletion : option bool;
}.

#[export] Instance owner_ref_eq_dec : EqDecision OwnerReference.
Proof. solve_decision. Defined.

(** ** unstructured.Unstructured

    The fields of an object the program reads or writes.  [FSpec] is the value
    of [obj.Object["spec"]] ([None] is Go's [nil]); [FStatus] is
    [NestedFieldCopy(obj.Object, "status")] with its [found] flag. *)

Inductive field :=
| FAPIVersion | FKind | FNamespace | FName | FGenerateName | FUID
| FResourceVersion | FGeneration | FCreationTimestamp | FDeletionTimestamp
| FLabels | FAnnotations | FOwnerReferences | FSpec | FStatus.

#[export] Instance field_eq_dec : EqDecision field.
Proof. solve_decision. Defined.

(** Times are nanoseconds; [None] is the zero time (or a nil pointer). *)
Definition ftype (f : field) : Type :=
  match f with
  | FGeneration => Z
  | FCreationTimestamp | FDeletionTimestamp => option Z
  | FLabels | FAnnotations => gmap string string
  | FOwnerReferences => list OwnerReference
  | FSpec | FStatus => option gval
  | _ => string
  end.

(** Timestamps are stored as RFC 3339 strings, to the second. *)
Definition trunc_sec (t : Z) : Z := (t - t `mod` 1000000000)%Z.

Definition fnorm (f : field) : ftype f → ftype f :=
  match f with
  | FCreationTimestamp => λ t, trunc_sec <$> t
  | FDeletionTimestamp => λ t, trunc_sec <$> t
  | _ => λ v, v
  end.

Class Unstructured (U : Type) := {
  uget : ∀ f : field, U → ftype f;
  uset : ∀ f : field, ftype f → U → U;
  (** [&unstructured.Unstructured{}] *)
  u_new : U;
}.

Class UnstructuredLaws (U : Type) `{Unstructured U} := {
  get_set_eq : ∀ f v u, uget f (uset f v u) = fnorm f v;
  get_set_ne : ∀ f g v u, f ≠ g → uget f (uset g v u) = uget f u;
  get_norm : ∀ f u, fnorm f (uget f u) = uget f u;
}.

Section accessors.
Context {U : Type} `{Unstructured U}.
Definition GetNamespace (u : U) : string := uget FNamespace u.
Definition SetNamespace (v : string) (u : U) : U := uset FNamespace v u.
Definition GetName (u : U) : string := uget FName u.
Definition SetName (v : string) (u : U) : U := uset FName v u.
Definition GetGenerateName (u : U) : string := uget FGenerateName u.
Definition GetUID (u : U) : string := uget FUID u.
Definition SetUID (v : string) (u : U) : U := uset FUID v u.
Definition GetResourceVersion (u : U) : string := uget FResourceVersion u.
Definition SetResourceVersion (v : string) (u : U) : U := uset FResourceVersion v u.
Definition GetGeneration (u : U) : Z := uget FGeneration u.
Definition SetGeneration (v : Z) (u : U) : U := uset FGeneration v u.
Definition GetCreationTimestamp (u : U) : option Z := uget FCreationTimestamp u.
Definition SetCreationTimestamp (v : option Z) (u : U) : U := uset FCreationTimestamp v u.
Definition GetDeletionTimestamp (u : U) : option Z := uget FDeletionTimestamp u.
Definition GetLabels (u : U) : gmap string string := uget FLabels u.
Definition SetLabels (v : gmap string string) (u : U) : U := uset FLabels v u.
Definition GetAnnotations (u : U) : gmap string string := uget FAnnotations u.
Definition GetOwnerReferences (u : U) : list OwnerReference := uget FOwnerReferences u.
Definition SetOwnerReferences (v : list OwnerReference) (u : U) : U := uset FOwnerReferences v u.
Definition GetKind (u : U) : string := uget FKind u.
Definition SetKind (v : string) (u : U) : U := uset FKind v u.
Definition GetAPIVersion (u : U) : string := uget FAPIVersion u.
Definition SetAPIVersion (v : string) (u : U) : U := uset FAPIVersion v u.
Definition SpecOf (u : U) : option gval := uget FSpec u.
Definition StatusOf (u : U) : option gval := uget FStatus u.
(** [SetNestedField(u.Object, v, "status")] and [RemoveNestedField] *)
Definition SetStatusField (v : option gval) (u : U) : U := uset FStatus v u.
End accessors.

(** [uget_simpl] computes a field of an object built by setters. *)
Ltac uget_unfold :=
  unfold GetNamespace, SetNamespace, GetName, SetName, GetGenerateName, GetUID,
    SetUID, GetResourceVersion, SetResourceVersion, GetGeneration, SetGeneration,
    GetCreationTimestamp, SetCreationTimestamp, GetDeletionTimestamp, GetLabels,
    SetLabels, GetAnnotations, GetOwnerReferences, SetOwnerReferences, GetKind,
    SetKind, GetAPIVersion, SetAPIVersion, SpecOf, StatusOf, SetStatusField in *.

Ltac uget_simpl :=
  uget_unfold;
  repeat first
    [ rewrite get_set_eq in * | rewrite get_set_ne in * by discriminate ];
  rewrite ?get_norm in *; simpl fnorm in *.

(** ** JSON documents *)

(** A document is a byte string ([[]byte]).  The encoder writes a float that is
    integral without a fraction; [whole_float] is that integer. *)
Class Codec (U : Type) := {
  MarshalJSON : U → option string;
  UnmarshalJSON : string → option U;
  whole_float : Z → option Z;
}.

Section codec.
Context {U : Type} `{Unstructured U} `{!Codec U}.

(** A value as it comes back from its encoding: integral floats are read as
    integers. *)
Fixpoint renum (v : gval) : gval :=
  match v with
  | GFloat x => match whole_float x with Some n => GInt n | None => GFloat x end
  | GList l => GList (map renum l)
  | GMap m => GMap (renum <$> m)
  | v => v
  end.

Definition fjson (f : field) : ftype f → ftype f :=
  match f with FSpec | FStatus => fmap renum | _ => λ v, v end.

(** [v] has the fields of [u] as they come back from its encoding.  A generation
    that is not an integer reads as 0 before and may not afterwards. *)
Definition read_as (u v : U) : Prop :=
  ∀ f, (f = FGeneration → GetGeneration u ≠ 0%Z) → uget f v = fjson f (uget f u).
End codec.

(** The decoder refuses a document without [kind]; anything else that was
    encoded decodes. *)
Class CodecLaws (U : Type) `{Unstructured U, Codec U} := {
  unmarshal_marshal : ∀ u b,
    MarshalJSON u = Some b → GetKind u ≠ ""%string → ∃ v, UnmarshalJSON b = Some v ∧ read_as u v;
  unmarshal_kind : ∀ b u, UnmarshalJSON b = Some u → GetKind u ≠ ""%string;
}.

(** ** apierrors *)

Record GroupResource := mkGR { gr_Group : string; gr_Resource : string }.
#[export] Instance group_resource_eq_dec : EqDecision GroupResource.
Proof. solve_decision. Defined.

Inductive api_error :=
| NotFound (gr : GroupResource) (name : string)
| AlreadyExists (gr : GroupResource) (name : string)
| Conflict (gr : GroupResource) (name : string)
| BadRequest (msg : string)
| InternalError (msg : string)
| MethodNotSupported (gr : GroupResource) (action : string)
| OtherError (msg : string)
| Diverged.
#[export] Instance api_error_eq_dec : EqDecision api_error.
Proof. solve_decision. Defined.

Definition IsNotFound (e : api_error) : bool :=
  match e with NotFound _ _ => true | _ => false end.
Definition IsAlreadyExists (e : api_error) : bool :=
  match e with AlreadyExists _ _ => true | _ => false end.
Definition IsConflict (e : api_error) : bool :=
  match e with Conflict _ _ => true | _ => false end.

(** ** Orders Go leaves open *)

Class GoRuntime := {
  range_map : ∀ {K V} `{Countable K}, gmap K V → list (K * V);
  range_map_perm : ∀ {K V} `{Countable K} (m : gmap K V),
    range_map m ≡ₚ map_to_list m;
  sort_slice : ∀ {A}, (A → A → bool) → list A → list A;
  sort_slice_perm : ∀ {A} (less : A → A → bool) l, sort_slice less l ≡ₚ l;
  (** sorted, when [less] is a strict weak order *)
  sort_slice_sorted : ∀ {A} (less : A → A → bool) l,
    (∀ x y, less x y = true → less y x = false) →
    (∀ x y z, less y x = false → less z y = false → less z x = false) →
    StronglySorted (λ x y, less y x = false) (sort_slice less l);
}.

Fixpoint insert_sorted {A} (less : A → A → bool) (x : A) (l : list A) : list A :=
  match l with
  | [] => [x]
  | y :: l' => if less y x then y :: insert_sorted less x l' else x :: l
  end.
Definition insertion_sort {A} (less : A → A → bool) (l : list A) : list A :=
  foldr (insert_sorted less) [] l.

Lemma insert_sorted_perm {A} (less : A → A → bool) x l :
  insert_sorted less x l ≡ₚ x :: l.
Proof.
  induction l as [|y l IH]; simpl; [done|].
  destruct (less y x); [|done]. rewrite IH. apply Permutation_swap.
Qed.

Lemma insertion_sort_perm {A} (less : A → A → bool) l :
  insertion_sort less l ≡ₚ l.
Proof.
  induction l as [|x l IH]; simpl; [done|]. by rewrite insert_sorted_perm, IH.
Qed.

Lemma insert_sorted_sorted {A} (less : A → A → bool) x l :
  (∀ x y, less x y = true → less y x = false) →
  (∀ x y z, less y x = false → less z y = false → less z x = false) →
  StronglySorted (λ x y, less y x = false) l →
  StronglySorted (λ x y, less y x = false) (insert_sorted less x l).
Proof.
  intros Hasym Htrans. induction 1 as [|y l Hl IH Hy]; simpl.
  { repeat constructor. }
  destruct (less y x) eqn:E.
  - constructor; [done|]. rewrite Forall_forall in *. intros z Hz.
    rewrite (insert_sorted_perm less x l) in Hz.
    apply elem_of_cons in Hz as [->|Hz]; auto.
  - constructor; [by constructor|]. constructor; [done|].
    rewrite Forall_forall in *. eauto.
Qed.

Lemma insertion_sort_sorted {A} (less : A → A → bool) l :
  (∀ x y, less x y = true → less y x = false) →
  (∀ x y z, less y x = false → less z y = false → less z x = false) →
  StronglySorted (λ x y, less y x = false) (insertion_sort less l).
Proof.
  intros Ha Ht. induction l as [|x l IH]; simpl; [constructor|].
  by apply insert_sorted_sorted.
Qed.

(** One legal scheduler: maps in [map_to_list] order, insertion sort. *)
Definition default_runtime : GoRuntime := {|
  range_map := λ K V _ _ m, map_to_list m;
  range_map_perm := λ K V _ _ m, reflexivity _;
  sort_slice := @insertion_sort;
  sort_slice_perm := @insertion_sort_perm;
  sort_slice_sorted := @insertion_sort_sorted;
|}.

(** ** Clock and randomness

    Reads of the clock and of the random generators are indexed by the global
    resourceVersion at which they happen, so every store transition sees its
    own, arbitrary, values. *)
Class Oracle := {
  now_at : Z → Z;
  uid_at : Z → string;
  (** the [j]-th [mathrand.IntN] draw of the transition *)
  rand_at : Z → nat → Z;
  (** bound on the attempts of [generateUniqueName] the model unrolls *)
  gen_fuel : nat;
}.
