(* ===== verification/Apis.v ===== *)
(** [internal/apis/scheme.go]: resource identifiers and the registry of served
    resources. *)

From S2P Require Import Prelude GoStrings K8s.
Local Open Scope string_scope.

(** ** GVR *)

Record GVR := mkGVR { Group : string; Version : string; Resource_ : string }.

#[export] Instance gvr_eq_dec : EqDecision GVR.
Proof. solve_decision. Defined.

#[export] Instance gvr_countable : Countable GVR.
Proof.
  refine (inj_countable' (λ g, (Group g, Version g, Resource_ g))
           (λ p, mkGVR p.1.1 p.1.2 p.2) _).
  abstract (by intros []).
Defined.

Module GVR.
(** [func (g GVR) String()] *)
Definition to_string (g : GVR) : string :=
  Group g +:+ "/" +:+ Version g +:+ "/" +:+ Resource_ g.

Definition GroupResource (g : GVR) : K8s.GroupResource :=
  mkGR (Group g) (Resource_ g).

Definition GroupVersion (g : GVR) : string :=
  if decide (Group g = "") then Version g else Group g +:+ "/" +:+ Version g.
End GVR.

(** ** Group and version constants *)

Definition GroupAgents := "agents.x-k8s.io".
Definition GroupExtensions := "extensions.agents.x-k8s.io".
Definition GroupDiscovery := "discovery.k8s.io".
Definition GroupGateway := "gateway.networking.k8s.io".
Definition VersionV1Beta1 := "v1beta1".

Definition ExtensionsGV : string := GroupExtensions +:+ "/" +:+ VersionV1Beta1.
Definition AgentsGV : string := GroupAgents +:+ "/" +:+ VersionV1Beta1.

Definition SandboxGVR := mkGVR GroupAgents VersionV1Beta1 "sandboxes".
Definition SandboxClaimGVR := mkGVR GroupExtensions VersionV1Beta1 "sandboxclaims".
Definition TemplateGVR := mkGVR GroupExtensions VersionV1Beta1 "sandboxtemplates".
Definition WarmPoolGVR := mkGVR GroupExtensions VersionV1Beta1 "sandboxwarmpools".
Definition NamespaceGVR := mkGVR "" "v1" "namespaces".
Definition PodGVR := mkGVR "" "v1" "pods".
Definition ServiceGVR := mkGVR "" "v1" "services".
Definition PVCGVR := mkGVR "" "v1" "persistentvolumeclaims".
Definition EndpointSliceGVR := mkGVR GroupDiscovery "v1" "endpointslices".
Definition GatewayGVR := mkGVR GroupGateway "v1" "gateways".

(** ** Resources and the registry *)

Record Resource := mkResource {
  r_GVR : GVR;
  r_Kind : string;
  r_ListKind : string;
  r_Singular : string;
  r_ShortNames : list string;
  r_Namespaced : bool;
  r_HasStatus : bool;
  r_HasScale : bool;
  r_Verbs : list string;
}.

#[export] Instance resource_eq_dec : EqDecision Resource.
Proof. solve_decision. Defined.

Definition defaultVerbs : list string :=
  ["create"; "delete"; "deletecollection"; "get"; "list"; "patch"; "update"; "watch"].

Module Registry.
Record t := mk {
  byGVR : gmap GVR Resource;
  byGVKind : gmap string Resource;
  byResource : gmap string Resource;
  list_ : list Resource;
}.

Definition empty : t := mk ∅ ∅ ∅ [].

(** The body of the constructor's loop: default verbs, then the indexes. *)
Definition add (reg : t) (r0 : Resource) : t :=
  let r := if decide (r_Verbs r0 = [])
           then mkResource (r_GVR r0) (r_Kind r0) (r_ListKind r0) (r_Singular r0)
                  (r_ShortNames r0) (r_Namespaced r0) (r_HasStatus r0)
                  (r_HasScale r0) defaultVerbs
           else r0 in
  let gv := GVR.GroupVersion (r_GVR r) in
  let byRes := <[gv +:+ "/" +:+ r_Singular r := r]>
                 (<[gv +:+ "/" +:+ Resource_ (r_GVR r) := r]> (byResource reg)) in
  mk (<[r_GVR r := r]> (byGVR reg))
     (<[gv +:+ "/" +:+ r_Kind r := r]> (byGVKind reg))
     (foldl (λ m sn, <[gv +:+ "/" +:+ sn := r]> m) byRes (r_ShortNames r))
     (list_ reg ++ [r])%list.

Definition of_list (rs : list Resource) : t := foldl add empty rs.

Definition default_resources : list Resource := [
  mkResource SandboxGVR "Sandbox" "SandboxList" "sandbox" ["sandbox"; "sb"] true true false [];
  mkResource SandboxClaimGVR "SandboxClaim" "SandboxClaimList" "sandboxclaim" ["sbc"] true true false [];
  mkResource TemplateGVR "SandboxTemplate" "SandboxTemplateList" "sandboxtemplate" ["sbt"] true false false [];
  mkResource WarmPoolGVR "SandboxWarmPool" "SandboxWarmPoolList" "sandboxwarmpool" ["sbwp"] true true true [];
  mkResource NamespaceGVR "Namespace" "NamespaceList" "namespace" ["ns"] false true false [];
  mkResource PodGVR "Pod" "PodList" "pod" ["po"] true true false [];
  mkResource ServiceGVR "Service" "ServiceList" "service" ["svc"] true true false [];
  mkResource PVCGVR "PersistentVolumeClaim" "PersistentVolumeClaimList" "persistentvolumeclaim" ["pvc"] true true false [];
  mkResource EndpointSliceGVR "EndpointSlice" "EndpointSliceList" "endpointslice" ["eps"] true false false [];
  mkResource GatewayGVR "Gateway" "GatewayList" "gateway" ["gtw"] true true false []
].

Definition NewDefaultRegistry : t := of_list default_resources.

Definition Get (reg : t) (g : GVR) : option Resource := byGVR reg !! g.

Definition ResolveResource (reg : t) (group version resource : string) : option Resource :=
  let gv := if decide (group = "") then version else group +:+ "/" +:+ version in
  byResource reg !! (gv +:+ "/" +:+ to_lower resource).

Section ordered.
Context `{GoRuntime}.

Definition All (reg : t) : list Resource :=
  sort_slice (λ a b, str_ltb (GVR.to_string (r_GVR a)) (GVR.to_string (r_GVR b)))
    (list_ reg).

(** The loop of [Groups]: [seen] and the accumulated groups. *)
Definition groups_step (acc : gset string * list string) (res : Resource)
  : gset string * list string :=
  let g := Group (r_GVR res) in
  if decide (g = "" ∨ g ∈ acc.1) then acc
  else ({[g]} ∪ acc.1, (acc.2 ++ [g])%list).

Definition Groups (reg : t) : list string :=
  sort_slice str_ltb (foldl groups_step (∅, []) (list_ reg)).2.

Definition ResourcesForGroupVersion (reg : t) (group version : string) : list Resource :=
  sort_slice (λ a b, str_ltb (Resource_ (r_GVR a)) (Resource_ (r_GVR b)))
    (filter (λ r, Group (r_GVR r) = group ∧ Version (r_GVR r) = version) (list_ reg)).
End ordered.
End Registry.

(** ** Laws of identifiers *)

(** A group and a version have no slash, so [String()] determines the GVR. *)
Definition well_named (g : GVR) : bool :=
  no_byte slash (Group g) && no_byte slash (Version g).

Lemma gvr_string_inj g h :
  well_named g = true → well_named h = true →
  GVR.to_string g = GVR.to_string h → g = h.
Proof.
  unfold well_named, GVR.to_string. rewrite !andb_true_iff.
  destruct g as [g1 g2 g3], h as [h1 h2 h3]; cbn [Group Version Resource_]. intros [Hg1 Hg2] [Hh1 Hh2] E.
  apply (f_equal (cut slash)) in E. rewrite !cut_sep in E by done.
  apply (inj Some), pair_eq in E as [-> E]. apply (f_equal (cut slash)) in E.
  rewrite !cut_sep in E by done. by apply (inj Some), pair_eq in E as [-> ->].
Qed.

(** ** The registry *)

Section registry_facts.
Context `{GoRuntime}.

(** The names a client may use for a resource. *)
Definition aliases (r : Resource) : list string :=
  Resource_ (r_GVR r) :: r_Singular r :: r_ShortNames r.

Definition resolves_to (reg : Registry.t) (r : Resource) (a : string) : bool :=
  bool_decide (Registry.ResolveResource reg (Group (r_GVR r)) (Version (r_GVR r)) a = Some r).

Lemma list_add reg r : length (Registry.list_ (Registry.add reg r)) = S (length (Registry.list_ reg)).
Proof. unfold Registry.add; simpl. rewrite length_app. simpl. lia. Qed.

(** every served resource is reachable under its plural, its singular and
    each short name, and under no other resource's names. *)
Lemma default_registry_resolves :
  Forall (λ r, forallb (resolves_to Registry.NewDefaultRegistry r) (aliases r) = true ∧
               Registry.Get Registry.NewDefaultRegistry (r_GVR r) = Some r)
    (Registry.list_ Registry.NewDefaultRegistry).
Proof. repeat constructor; vm_compute; reflexivity. Qed.

Lemma all_perm reg : Registry.All reg ≡ₚ Registry.list_ reg.
Proof. apply sort_slice_perm. Qed.

Lemma groups_step_spec rs : ∀ acc,
  list_to_set acc.2 = acc.1 → NoDup acc.2 →
  let acc' := foldl Registry.groups_step acc rs in
  list_to_set acc'.2 = acc'.1 ∧ NoDup acc'.2 ∧
  (∀ g, g ∈ acc'.2 ↔ g ∈ acc.2 ∨ (g ≠ "" ∧ ∃ r, r ∈ rs ∧ Group (r_GVR r) = g)).
Proof.
  induction rs as [|r rs IH]; intros [sn gs]; simpl; intros Hs Hnd.
  { split_and!; try done. set_solver. }
  destruct (decide (Group (r_GVR r) = "" ∨ Group (r_GVR r) ∈ sn)) as [Hd|Hd].
  - assert (Registry.groups_step (sn, gs) r = (sn, gs)) as ->.
    { unfold Registry.groups_step. simpl. by rewrite decide_True. }
    destruct (IH (sn, gs)) as (?&?&Hin); try done. split_and!; try done.
    intros g. rewrite Hin. simpl. subst sn. set_solver.
  - assert (Registry.groups_step (sn, gs) r
            = ({[Group (r_GVR r)]} ∪ sn, gs ++ [Group (r_GVR r)])%list) as ->.
    { unfold Registry.groups_step. simpl. by rewrite decide_False. }
    assert (Group (r_GVR r) ≠ "" ∧ Group (r_GVR r) ∉ sn) as [Hne Hni] by tauto.
    destruct (IH ({[Group (r_GVR r)]} ∪ sn, gs ++ [Group (r_GVR r)])%list)
      as (?&?&Hin); simpl.
    + rewrite list_to_set_app_L. set_solver.
    + apply NoDup_app. subst sn. split_and!; [done|set_solver|apply NoDup_singleton].
    + split_and!; try done. intros g. rewrite Hin. simpl. set_solver.
Qed.
End registry_facts.
