(* ===== verification/Selectors.v ===== *)
(** [internal/store/selectors.go]: label and field selectors. *)

From S2P Require Import Prelude GoStrings K8s.
Local Open Scope string_scope.

(** [k8s.io/apimachinery/pkg/labels] and [.../fields]. *)
Class SelectorLib := {
  LabelSel : Type;
  labels_Everything : LabelSel;
  labels_Parse : string → option LabelSel;
  labels_Empty : LabelSel → bool;
  labels_Matches : LabelSel → gmap string string → bool;
  FieldSel : Type;
  fields_Everything : FieldSel;
  fields_ParseSelector : string → option FieldSel;
  fields_Empty : FieldSel → bool;
  (** the [Field] of each of [sel.Requirements()] *)
  fields_Requirements : FieldSel → list string;
  fields_Matches : FieldSel → gmap string string → bool;
}.

(** [Everything] is an empty selector, and a field selector reads only the
    fields it has requirements on. *)
Class SelectorLaws `{SelectorLib} := {
  labels_everything_empty : labels_Empty labels_Everything = true;
  fields_everything_empty : fields_Empty fields_Everything = true;
  fields_matches_local : ∀ sel m1 m2,
    (∀ f, f ∈ fields_Requirements sel → m1 !! f = m2 !! f) →
    fields_Matches sel m1 = fields_Matches sel m2;
}.

(** [Selectors]; a nil selector is [None]. *)
Record Selectors `{SelectorLib} := mkSelectors {
  sel_Label : option LabelSel;
  sel_Field : option FieldSel;
}.

Section selectors.
Context `{SelectorLib}.
Context {U : Type} `{Unstructured U}.

Definition no_selectors : Selectors := mkSelectors _ None None.

Definition supported_field (f : string) : bool :=
  bool_decide (f = "metadata.name" ∨ f = "metadata.namespace").

Definition ParseSelectors (labelSelector fieldSelector : string) : res string Selectors :=
  let ls := if decide (labelSelector = "") then Some labels_Everything
            else labels_Parse labelSelector in
  match ls with
  | None => Err "labels"
  | Some ls =>
      if decide (fieldSelector = "") then Ok (mkSelectors _ (Some ls) (Some fields_Everything))
      else match fields_ParseSelector fieldSelector with
           | None => Err "fields"
           | Some fs =>
               match list_find (λ f, supported_field f = false) (fields_Requirements fs) with
               | Some (_, f) => Err ("field label " +:+ f +:+ " not supported")
               | None => Ok (mkSelectors _ (Some ls) (Some fs))
               end
           end
  end.

Definition Matches (sel : Selectors) (u : U) : bool :=
  let label_ok := match sel_Label sel with
                  | Some l => if labels_Empty l then true else labels_Matches l (GetLabels u)
                  | None => true
                  end in
  if label_ok then
    match sel_Field sel with
    | Some f =>
        if fields_Empty f then true
        else fields_Matches f (<["metadata.name" := GetName u]>
                                {["metadata.namespace" := GetNamespace u]})
    | None => true
    end
  else false.

Lemma Matches_none u : Matches no_selectors u = true.
Proof. done. Qed.

Context `{!SelectorLaws}.

Lemma Matches_everything sel u : ParseSelectors "" "" = Ok sel → Matches sel u = true.
Proof.
  unfold ParseSelectors. rewrite !decide_True by done. intros [= <-]. unfold Matches. simpl.
  by rewrite labels_everything_empty, fields_everything_empty.
Qed.

(** An accepted field selector reads nothing but the name and namespace: on an
    object the selectors answer as on any field set that agrees there. *)
Lemma ParseSelectors_fields l f sel fs m u :
  ParseSelectors l f = Ok sel → f ≠ "" → sel_Field sel = Some fs →
  m !! "metadata.name" = Some (GetName u) → m !! "metadata.namespace" = Some (GetNamespace u) →
  fields_Matches fs m =
  fields_Matches fs (<["metadata.name" := GetName u]> {["metadata.namespace" := GetNamespace u]}).
Proof.
  unfold ParseSelectors. intros Hp Hf Hs Hn Hns.
  destruct (if decide (l = "") then _ else _) as [ls|]; [|done].
  rewrite decide_False in Hp by done.
  destruct (fields_ParseSelector f) as [fs'|]; [|done].
  destruct (list_find _ _) as [[]|] eqn:Hl; [done|].
  injection Hp as <-. simpl in Hs. injection Hs as ->.
  apply fields_matches_local. intros x Hx.
  apply list_find_None in Hl. rewrite Forall_forall in Hl.
  pose proof (Hl x Hx) as Hsup. simpl in Hsup. unfold supported_field in Hsup.
  apply not_false_iff_true, bool_decide_eq_true in Hsup.
  destruct Hsup as [-> | ->]; rewrite ?Hn, ?Hns.
  - by rewrite lookup_insert_eq.
  - rewrite lookup_insert_ne by done. by rewrite lookup_singleton_eq.
Qed.
End selectors.
