(* ===== verification/Store.v ===== *)
(** [internal/store/store.go], [meta.go] and the writing half of [watch.go]:
    the etcd-shaped object store.

    A store value is the content of the Go struct; every method is the body of
    one critical section of [s.mu], so a function of the state.  Objects are
    values: the deep copies the code takes are identities here. *)

From S2P Require Import Prelude GoStrings K8s Apis.
From Stdlib Require Import Ascii.
Local Open Scope string_scope.

(** ** Events, subscriptions *)

Inductive EventType := Added | Modified | Deleted | ErrorEvent.
#[export] Instance event_type_eq_dec : EqDecision EventType.
Proof. solve_decision. Defined.

Record Event {U : Type} := mkEvent {
  ev_Type : EventType;
  ev_Object : U;
  ev_RV : Z;
  ev_GVR : GVR;
}.
Arguments Event U : clear implicits.
Arguments mkEvent {U} _ _ _ _.

Record resourceMeta := mkMeta { namespaced : bool; groupRes : GroupResource }.

(** A Go channel of events: its buffer and whether it was closed. *)
Record chan {U : Type} := mkChan { ch_buf : list (Event U); ch_closed : bool }.
Arguments chan U : clear implicits.
Arguments mkChan {U} _ _.

(** [make(chan Event, 512)] *)
Definition sub_cap : nat := 512.

(** [store.Persister]; the store ignores the errors of the two writes. *)
Class Persister (P : Type) := {
  SaveObject : GVR → string → string → Z → P → P * option string;
  RemoveObject : GVR → string → Z → P → P * option string;
  LoadSnapshot : P → res string (gmap GVR (gmap string string) * Z);
}.

(** ** newUUID and randSuffix (meta.go) *)

(** The two masked bytes of an RFC 4122 version-4 UUID. *)
Definition uuid_bytes (b : list Z) : list Z :=
  alter (λ x, Z.lor (Z.land x 15) 64) 6 (alter (λ x, Z.lor (Z.land x 63) 128) 8 b).

Definition newUUID (b : list Z) : string :=
  let b := uuid_bytes b in
  let sl i j := hex_encode (take (j - i) (drop i b)) in
  sl 0 4 +:+ "-" +:+ sl 4 6 +:+ "-" +:+ sl 6 8 +:+ "-" +:+ sl 8 10 +:+ "-" +:+ sl 10 16.

Definition nameSuffixAlphabet : string := "bcdfghjklmnpqrstvwxz2456789".

(** [draw i] is the [i]-th value of [mathrand.IntN]. *)
Definition randSuffix (n : nat) (draw : nat → Z) : string :=
  of_chars
    (map (λ i, default "b"%char
                 (chars nameSuffixAlphabet !! Z.to_nat (draw i `mod` 27)))
       (seq 0 n)).

(** ** The store *)

Record Store {U P : Type} := mkStore {
  data : gmap GVR (gmap string U);
  resources : gmap GVR resourceMeta;
  rv : Z;
  history : list (Event U);
  histCap : nat;
  (** [subs]: the resource of each live subscription; its channel is in
      [chans], where it outlives the subscription *)
  subs : gmap nat GVR;
  chans : gmap nat (chan U);
  nextSub : nat;
  persist : option P;
}.
Arguments Store U P : clear implicits.
Arguments mkStore {U P} _ _ _ _ _ _ _ _ _.

(** [key] builds the map key for an object. *)
Definition key (nsd : bool) (namespace name : string) : string :=
  if nsd then namespace +:+ "/" +:+ name else "/" +:+ name.

Section ops.
Context {U P : Type} `{Unstructured U} `{Codec U} `{Persister P}.
Context `{Oracle} `{GoRuntime}.
Implicit Types (s : Store U P) (g : GVR) (k : string) (u : U).

Definition set_data (d : gmap GVR (gmap string U)) s : Store U P :=
  mkStore d (resources s) (rv s) (history s) (histCap s) (subs s) (chans s)
    (nextSub s) (persist s).

(** [New]: an empty store; [HistoryCap] defaults to 8192. *)
Definition New (persister : option P) (historyCap : Z) (startRV : Z) : Store U P :=
  mkStore ∅ ∅ startRV [] (Z.to_nat (if (historyCap <=? 0)%Z then 8192 else historyCap))
    ∅ ∅ 0 persister.

Definition Register (g : GVR) (nsd : bool) s : Store U P :=
  mkStore
    (match data s !! g with Some _ => data s | None => <[g := ∅]> (data s) end)
    (<[g := mkMeta nsd (GVR.GroupResource g)]> (resources s))
    (rv s) (history s) (histCap s) (subs s) (chans s) (nextSub s) (persist s).

Definition CurrentRV s : Z := rv s.

(** [s.rv++; return s.rv] on [uint64]. *)
Definition nextRV s : Store U P * Z :=
  let r := wrap_u64 (rv s + 1) in
  (mkStore (data s) (resources s) r (history s) (histCap s) (subs s) (chans s)
     (nextSub s) (persist s), r).

Definition conflictErr (gr : GroupResource) (name : string) : api_error :=
  Conflict gr name.

Definition meta s g : res api_error resourceMeta :=
  match resources s !! g with
  | Some rm => Ok rm
  | None => Err (InternalError ("store: GVR " +:+ GVR.to_string g +:+ " not registered"))
  end.

(** [s.data[gvr]] and [s.data[gvr][k]]: a missing map reads as empty. *)
Definition objects s g : gmap string U := default ∅ (data s !! g).
Definition lookup_obj s g k : option U := objects s g !! k.

(** *** generateUniqueName *)

Definition name_candidate s (prefix : string) (attempt : nat) : string :=
  prefix +:+ randSuffix 5 (λ i, rand_at (rv s) (5 * attempt + i)).

Fixpoint gen_loop s g rm (ns prefix : string) (fuel attempt : nat) : option string :=
  match fuel with
  | 0 => None
  | S fuel =>
      let candidate := name_candidate s prefix attempt in
      match lookup_obj s g (key (namespaced rm) ns candidate) with
      | None => Some candidate
      | Some _ => gen_loop s g rm ns prefix fuel (S attempt)
      end
  end.

Definition generateUniqueName s g rm (ns prefix : string) : option string :=
  gen_loop s g rm ns prefix gen_fuel 0.

(** *** putLocked and emitLocked *)

Definition putLocked g k u (r : Z) s : Store U P :=
  mkStore (<[g := <[k := u]> (objects s g)]> (data s)) (resources s) (rv s)
    (history s) (histCap s) (subs s) (chans s) (nextSub s)
    (match persist s with
     | Some p =>
         match MarshalJSON u with
         | Some bytes => Some (SaveObject g k bytes r p).1
         | None => Some p
         end
     | None => None
     end).

(** Appending to the history and trimming its front. *)
Definition push_history (cap : nat) (h : list (Event U)) (e : Event U) : list (Event U) :=
  let h := (h ++ [e])%list in
  if decide (cap < length h)%nat then drop (length h - cap) h else h.

(** Offering [e] to a subscriber of its resource: a send that would block
    closes the channel instead. *)
Definition offer (e : Event U) (c : chan U) : chan U :=
  if decide (length (ch_buf c) < sub_cap)%nat
  then mkChan (ch_buf c ++ [e])%list (ch_closed c)
  else mkChan (ch_buf c) true.

Definition full (c : chan U) : bool := bool_decide (sub_cap ≤ length (ch_buf c))%nat.

(** Whether subscription [id] on [gsub] is dropped by [e]. *)
Definition dropped (cs : gmap nat (chan U)) (e : Event U) (id : nat) (gsub : GVR) : bool :=
  bool_decide (gsub = ev_GVR e) &&
  match cs !! id with Some c => full c | None => false end.

Definition fan_out (sb : gmap nat GVR) (e : Event U) (cs : gmap nat (chan U))
  : gmap nat (chan U) :=
  map_imap (λ id c,
    Some (match sb !! id with
          | Some gsub => if decide (gsub = ev_GVR e) then offer e c else c
          | None => c
          end)) cs.

Definition emitLocked (e : Event U) s : Store U P :=
  mkStore (data s) (resources s) (rv s)
    (push_history (histCap s) (history s) e) (histCap s)
    (filter (λ p, dropped (chans s) e p.1 p.2 = false) (subs s))
    (fan_out (subs s) e (chans s)) (nextSub s) (persist s).

(** *** Create *)

(** The name the object is stored under, and the object carrying it. *)
Definition resolve_name s g rm (ns : string) u : res api_error (string * U) :=
  let name := GetName u in
  if decide (name = "") then
    if decide (GetGenerateName u = "") then
      Err (BadRequest "store: object has neither metadata.name nor metadata.generateName")
    else match generateUniqueName s g rm ns (GetGenerateName u) with
         | Some n => Ok (n, SetName n u)
         | None => Err Diverged
         end
  else Ok (name, u).

(** System metadata of a new object, given the transition's version [r]. *)
Definition stamp_new (r0 r : Z) u : U :=
  let u := if decide (GetUID u = "") then SetUID (uid_at r0) u else u in
  let u := SetResourceVersion (format_uint r) u in
  let u := SetGeneration 1 u in
  match GetCreationTimestamp u with
  | None => SetCreationTimestamp (Some (now_at r0)) u
  | Some _ => u
  end.

Definition Create g u s : Store U P * res api_error U :=
  match meta s g with
  | Err e => (s, Err e)
  | Ok rm =>
      let ns := if namespaced rm then GetNamespace u else "" in
      let u := if namespaced rm then u else SetNamespace "" u in
      match resolve_name s g rm ns u with
      | Err e => (s, Err e)
      | Ok (name, u) =>
          let k := key (namespaced rm) ns name in
          match lookup_obj s g k with
          | Some _ => (s, Err (AlreadyExists (groupRes rm) name))
          | None =>
              let '(s1, r) := nextRV s in
              let u := stamp_new (rv s) r u in
              let s2 := putLocked g k u r s1 in
              (emitLocked (mkEvent Added u r g) s2, Ok u)
          end
      end
  end.

Definition Get g (namespace name : string) s : res api_error U :=
  match meta s g with
  | Err e => Err e
  | Ok rm => of_opt (NotFound (groupRes rm) name)
               (lookup_obj s g (key (namespaced rm) namespace name))
  end.

(** *** Update *)

Definition mergeForUpdate (old incoming : U) (isStatus : bool) : U :=
  if isStatus then SetStatusField (StatusOf incoming) old
  else
    let result := SetUID (GetUID old) incoming in
    let result := SetCreationTimestamp (GetCreationTimestamp old) result in
    let result := SetStatusField (StatusOf old) result in
    if decide (SpecOf old = SpecOf result)
    then SetGeneration (GetGeneration old) result
    else SetGeneration (GetGeneration old + 1) result.

(** The precondition carried by a resourceVersion. *)
Definition rv_precondition (incoming old : U) : bool :=
  bool_decide (GetResourceVersion incoming = "" ∨
               GetResourceVersion incoming = GetResourceVersion old).

Definition Update g u (isStatus : bool) s : Store U P * res api_error U :=
  match meta s g with
  | Err e => (s, Err e)
  | Ok rm =>
      let ns := if namespaced rm then GetNamespace u else "" in
      let name := GetName u in
      let k := key (namespaced rm) ns name in
      match lookup_obj s g k with
      | None => (s, Err (NotFound (groupRes rm) name))
      | Some old =>
          if rv_precondition u old then
            let merged := mergeForUpdate old u isStatus in
            let '(s1, r) := nextRV s in
            let merged := SetResourceVersion (format_uint r) merged in
            let s2 := putLocked g k merged r s1 in
            (emitLocked (mkEvent Modified merged r g) s2, Ok merged)
          else (s, Err (conflictErr (groupRes rm) name))
      end
  end.

(** *** Delete: the critical section, then the hook outside the lock *)

Definition delete_locked g (namespace name : string) s : Store U P * res api_error U :=
  match meta s g with
  | Err e => (s, Err e)
  | Ok rm =>
      let ns := if namespaced rm then namespace else "" in
      let k := key (namespaced rm) ns name in
      match lookup_obj s g k with
      | None => (s, Err (NotFound (groupRes rm) name))
      | Some old =>
          let s0 := set_data (<[g := delete k (objects s g)]> (data s)) s in
          let '(s1, r) := nextRV s0 in
          let s2 := mkStore (data s1) (resources s1) (rv s1) (history s1)
                      (histCap s1) (subs s1) (chans s1) (nextSub s1)
                      (match persist s1 with
                       | Some p => Some (RemoveObject g k r p).1
                       | None => None
                       end) in
          let deleted := SetResourceVersion (format_uint r) old in
          (emitLocked (mkEvent Deleted deleted r g) s2, Ok deleted)
      end
  end.

Definition Delete {W : Type} (get_store : W → Store U P) (put_store : Store U P → W → W)
  (hook : option (GVR → U → W → W)) g (namespace name : string) (w : W)
  : W * res api_error U :=
  let '(s, r) := delete_locked g namespace name (get_store w) in
  let w := put_store s w in
  match r with
  | Err e => (w, Err e)
  | Ok deleted =>
      (match hook with Some h => h g deleted w | None => w end, Ok deleted)
  end.

(** *** List, with [sel.Matches] given as a predicate *)

Record ListResult := mkListResult { lr_Items : list U; lr_RV : Z }.

Definition List g (namespace : string) (matches : U → bool) s : res api_error ListResult :=
  match meta s g with
  | Err e => Err e
  | Ok rm =>
      let keep u :=
        if namespaced rm && bool_decide (namespace ≠ "") &&
           bool_decide (GetNamespace u ≠ namespace)
        then false else matches u in
      Ok (mkListResult (filter (λ u, keep u = true) (range_map (objects s g)).*2) (rv s))
  end.

(** *** LoadFrom *)

Fixpoint load_objs g (l : list (string * string)) s : Store U P * option api_error :=
  match l with
  | [] => (s, None)
  | (k, bytes) :: l' =>
      match UnmarshalJSON bytes with
      | None => (s, Some (OtherError ("store: load " +:+ GVR.to_string g +:+ "/" +:+ k)))
      | Some u => load_objs g l' (set_data (<[g := <[k := u]> (objects s g)]> (data s)) s)
      end
  end.

Fixpoint load_gvrs (l : list (GVR * gmap string string)) s : Store U P * option api_error :=
  match l with
  | [] => (s, None)
  | (g, objs) :: l' =>
      match resources s !! g with
      | None => load_gvrs l' s
      | Some _ =>
          match load_objs g (range_map objs) s with
          | (s', Some e) => (s', Some e)
          | (s', None) => load_gvrs l' s'
          end
      end
  end.

Definition LoadFrom (snap : gmap GVR (gmap string string)) s : Store U P * option api_error :=
  load_gvrs (range_map snap) s.
End ops.
