(* ===== verification/StoreFacts.v ===== *)
(** Facts about the store: every mutating method is one [write] of a single
    shape, writes preserve the well-formedness invariant [wf], and the store is
    a faithful image of its event log ([represents]). *)

From S2P Require Import Prelude GoStrings K8s Apis Store.

Section facts.
Context {U P : Type} `{UnstructuredLaws U} `{Codec U} `{Persister P}.
Context `{Oracle} `{GoRuntime}.
Implicit Types (s : Store U P) (g : GVR) (k : string) (u : U).

(** ** The common shape of the mutations *)

(** A committed transition: an object stored, or removed, under a key. *)
Inductive write : Type :=
| WPut (t : EventType) (g : GVR) (k : string) (u : U)
| WDel (g : GVR) (k : string) (u : U).

Definition w_gvr (w : write) : GVR := match w with WPut _ g _ _ | WDel g _ _ => g end.
Definition w_key (w : write) : string := match w with WPut _ _ k _ | WDel _ k _ => k end.
Definition w_obj (w : write) : U := match w with WPut _ _ _ u | WDel _ _ u => u end.
Definition w_type (w : write) : EventType := match w with WPut t _ _ _ => t | _ => Deleted end.
(** what the key maps to afterwards *)
Definition w_result (w : write) : option U := match w with WPut _ _ _ u => Some u | _ => None end.

Definition next_rv s : Z := wrap_u64 (rv s + 1).

Definition w_event (w : write) s : Event U :=
  mkEvent (w_type w) (w_obj w) (next_rv s) (w_gvr w).

Definition remove_at g k (r : Z) s : Store U P :=
  mkStore (<[g := delete k (objects s g)]> (data s)) (resources s) r
    (history s) (histCap s) (subs s) (chans s) (nextSub s)
    (match persist s with Some p => Some (RemoveObject g k r p).1 | None => None end).

Definition apply_write (w : write) s : Store U P :=
  match w with
  | WPut _ g k u => emitLocked (w_event w s) (putLocked g k u (next_rv s) (nextRV s).1)
  | WDel g k _ => emitLocked (w_event w s) (remove_at g k (next_rv s) s)
  end.

(** Which writes a store may commit. *)
Definition valid_write (w : write) s : Prop :=
  is_Some (resources s !! w_gvr w) ∧
  GetResourceVersion (w_obj w) = format_uint (next_rv s) ∧
  match w with
  | WPut Added g k _ => lookup_obj s g k = None
  | WPut Modified g k _ => is_Some (lookup_obj s g k)
  | WPut _ _ _ _ => False
  | WDel g k _ => is_Some (lookup_obj s g k)
  end.

#[export] Instance valid_write_dec w s : Decision (valid_write w s).
Proof.
  unfold valid_write. destruct w as [[] g k u|g k u]; apply _.
Defined.

Lemma meta_ok s g rm : meta s g = Ok rm ↔ resources s !! g = Some rm.
Proof. unfold meta. destruct (resources s !! g); naive_solver. Qed.

Lemma stamp_new_rv r0 r u : GetResourceVersion (stamp_new r0 r u) = format_uint r.
Proof.
  unfold stamp_new. case_decide; case_match; uget_simpl; done.
Qed.

(** *** The three methods are writes *)

Lemma Create_cases g u s s' r :
  Create g u s = (s', r) →
  (∃ e, r = Err e ∧ s' = s) ∨
  (∃ rm name u1,
     let ns := if namespaced rm then GetNamespace u else ""%string in
     let u0 := if namespaced rm then u else SetNamespace "" u in
     let v := stamp_new (rv s) (next_rv s) u1 in
     let w := WPut Added g (key (namespaced rm) ns name) v in
     meta s g = Ok rm ∧ resolve_name s g rm ns u0 = Ok (name, u1) ∧
     valid_write w s ∧ r = Ok v ∧ s' = apply_write w s).
Proof.
  unfold Create. destruct (meta s g) as [rm|] eqn:Hm; [|naive_solver].
  destruct (resolve_name s g rm _ _) as [[name u1]|] eqn:Hn; [|naive_solver].
  destruct (lookup_obj s g _) eqn:Hl; [naive_solver|].
  intros [= <- <-]. right. exists rm, name, u1. split_and!; try done.
  apply meta_ok in Hm. split_and!; [by eexists|apply stamp_new_rv|done].
Qed.

Lemma Update_cases g u st s s' r :
  Update g u st s = (s', r) →
  (∃ e, r = Err e ∧ s' = s) ∨
  (∃ rm old,
     let ns := if namespaced rm then GetNamespace u else ""%string in
     let k := key (namespaced rm) ns (GetName u) in
     let v := SetResourceVersion (format_uint (next_rv s)) (mergeForUpdate old u st) in
     let w := WPut Modified g k v in
     meta s g = Ok rm ∧ lookup_obj s g k = Some old ∧ rv_precondition u old = true ∧
     valid_write w s ∧ r = Ok v ∧ s' = apply_write w s).
Proof.
  unfold Update. destruct (meta s g) as [rm|] eqn:Hm; [|naive_solver].
  destruct (lookup_obj s g _) as [old|] eqn:Hl; [|naive_solver].
  destruct (rv_precondition u old) eqn:Hp; [|naive_solver].
  intros [= <- <-]. right. exists rm, old. split_and!; try done.
  apply meta_ok in Hm. split_and!; [by eexists|by simpl; uget_simpl|by eexists].
Qed.

Lemma delete_cases g ns name s s' r :
  delete_locked g ns name s = (s', r) →
  (∃ e, r = Err e ∧ s' = s) ∨
  (∃ rm old,
     let k := key (namespaced rm) (if namespaced rm then ns else ""%string) name in
     let v := SetResourceVersion (format_uint (next_rv s)) old in
     let w := WDel g k v in
     meta s g = Ok rm ∧ lookup_obj s g k = Some old ∧
     valid_write w s ∧ r = Ok v ∧ s' = apply_write w s).
Proof.
  unfold delete_locked. destruct (meta s g) as [rm|] eqn:Hm; [|naive_solver].
  destruct (lookup_obj s g _) as [old|] eqn:Hl; [|naive_solver].
  intros [= <- <-]. right. exists rm, old. split_and!; try done.
  apply meta_ok in Hm. split_and!; [by eexists|by simpl; uget_simpl|by eexists].
Qed.

(** *** Components of a store after a write *)

Lemma lookup_insert_objects s g k u d g' k' :
  d = <[g := <[k := u]> (objects s g)]> (data s) →
  default ∅ (d !! g') !! k' =
    if decide (g = g' ∧ k = k') then Some u else lookup_obj s g' k'.
Proof.
  intros ->. unfold lookup_obj, objects. destruct (decide (g = g')) as [<-|Hg].
  - rewrite lookup_insert_eq. simpl. rewrite lookup_insert.
    repeat case_decide; naive_solver.
  - rewrite lookup_insert_ne by done. rewrite decide_False by naive_solver. done.
Qed.

Lemma lookup_delete_objects s g k d g' k' :
  d = <[g := delete k (objects s g)]> (data s) →
  default ∅ (d !! g') !! k' =
    if decide (g = g' ∧ k = k') then None else lookup_obj s g' k'.
Proof.
  intros ->. unfold lookup_obj, objects. destruct (decide (g = g')) as [<-|Hg].
  - rewrite lookup_insert_eq. simpl. rewrite lookup_delete.
    repeat case_decide; naive_solver.
  - rewrite lookup_insert_ne by done. rewrite decide_False by naive_solver. done.
Qed.

Lemma lookup_apply w s g k :
  lookup_obj (apply_write w s) g k =
    if decide (w_gvr w = g ∧ w_key w = k) then w_result w else lookup_obj s g k.
Proof.
  destruct w; [exact (lookup_insert_objects s _ _ _ _ _ _ eq_refl)
              |exact (lookup_delete_objects s _ _ _ _ _ eq_refl)].
Qed.

Lemma rv_apply w s : rv (apply_write w s) = next_rv s.
Proof. by destruct w. Qed.
Lemma resources_apply w s : resources (apply_write w s) = resources s.
Proof. by destruct w. Qed.
Lemma history_apply w s :
  history (apply_write w s) = push_history (histCap s) (history s) (w_event w s).
Proof. by destruct w. Qed.
Lemma histCap_apply w s : histCap (apply_write w s) = histCap s.
Proof. by destruct w. Qed.
Lemma nextSub_apply w s : nextSub (apply_write w s) = nextSub s.
Proof. by destruct w. Qed.
Lemma chans_apply w s :
  chans (apply_write w s) = fan_out (subs s) (w_event w s) (chans s).
Proof. by destruct w. Qed.
Lemma subs_apply w s :
  subs (apply_write w s) =
    filter (λ p, dropped (chans s) (w_event w s) p.1 p.2 = false) (subs s).
Proof. by destruct w. Qed.
Lemma data_apply_some w s g :
  is_Some (data s !! g) → is_Some (data (apply_write w s) !! g).
Proof.
  intros Hd. destruct w as [t g' k u|g' k u]; simpl;
    (destruct (decide (g' = g)) as [->|]; [rewrite lookup_insert_eq; eauto
      |by rewrite lookup_insert_ne]).
Qed.
End facts.
Arguments write U : clear implicits.

Create Rewrite HintDb las_apply.
#[export] Hint Rewrite @rv_apply @resources_apply @history_apply @histCap_apply
  @nextSub_apply @chans_apply @subs_apply @lookup_apply : las_apply.

(** ** The well-formedness invariant *)

Section invariant.
Context {U P : Type} `{UnstructuredLaws U} `{Codec U} `{Persister P}.
Context `{Oracle} `{GoRuntime}.
Implicit Types (s : Store U P) (g : GVR) (k : string) (u : U).

Record wf s : Prop := {
  (** a registered resource has a map *)
  wf_reg : ∀ g, is_Some (resources s !! g) → is_Some (data s !! g);
  (** a stored object belongs to a registered resource and carries a version
      the store has issued *)
  wf_obj : ∀ g k u, lookup_obj s g k = Some u →
    is_Some (resources s !! g) ∧
    ∃ n, (0 ≤ n ≤ rv s)%Z ∧ GetResourceVersion u = format_uint n;
  (** no two stored objects share a version *)
  wf_uniq : ∀ g k u g' k' u',
    lookup_obj s g k = Some u → lookup_obj s g' k' = Some u' →
    GetResourceVersion u = GetResourceVersion u' → g = g' ∧ k = k';
  wf_range : (0 ≤ rv s < u64_mod)%Z;
  wf_cap : (0 < histCap s)%nat;
  (** the history holds the events of the last versions, one each *)
  wf_hist_len : (length (history s) ≤ histCap s)%nat;
  wf_hist_pos : (length (history s) ≤ rv s)%Z;
  wf_hist : ev_RV <$> history s =
    seqZ (rv s + 1 - length (history s)) (length (history s));
  (** a subscription has an open channel; buffers are bounded *)
  wf_subs : ∀ id g, subs s !! id = Some g →
    ∃ c, chans s !! id = Some c ∧ ch_closed c = false;
  wf_chans : ∀ id c, chans s !! id = Some c →
    (id < nextSub s)%nat ∧ (length (ch_buf c) ≤ sub_cap)%nat;
}.

(** Room for one more version: the counter does not wrap. *)
Definition room s : Prop := (rv s + 1 < u64_mod)%Z.

Lemma next_rv_eq s : (0 ≤ rv s)%Z → room s → next_rv s = (rv s + 1)%Z.
Proof. unfold room, next_rv. intros. apply wrap_u64_small. lia. Qed.

(** *** The history *)

Lemma push_history_eq (cap : nat) (h : list (Event U)) e :
  push_history cap h e = drop (S (length h) - cap) (h ++ [e]).
Proof.
  unfold push_history. rewrite length_app. simpl.
  replace (length h + 1)%nat with (S (length h)) by lia.
  case_decide as Hd; [done|]. by replace (S (length h) - cap)%nat with 0%nat by lia.
Qed.

Lemma seqZ_snoc (a : Z) (n : nat) :
  seqZ a n ++ [(a + n)%Z] = seqZ a (S n).
Proof.
  replace (Z.of_nat (S n)) with (n + 1)%Z by lia.
  by rewrite seqZ_app by lia.
Qed.

Lemma drop_seqZ (j : nat) (a : Z) (n : nat) :
  drop j (seqZ a n) = seqZ (a + j) (n - j)%nat.
Proof.
  revert a n; induction j as [|j IH]; intros a n.
  { rewrite drop_0. f_equal; lia. }
  destruct n as [|n]; [by rewrite !seqZ_nil by lia|].
  rewrite (seqZ_cons a) by lia. rewrite skipn_cons.
  replace (Z.pred (S n)) with (Z.of_nat n) by lia.
  rewrite IH. f_equal; lia.
Qed.

Lemma push_history_rvs s (e : Event U) :
  wf s → ev_RV e = (rv s + 1)%Z →
  let h := push_history (histCap s) (history s) e in
  (length h ≤ histCap s)%nat ∧ (length h ≤ rv s + 1)%Z ∧
  ev_RV <$> h = seqZ (rv s + 2 - length h) (length h).
Proof.
  intros W He. simpl. pose proof (wf_hist _ W) as Hh. pose proof (wf_hist_pos _ W) as Hp.
  rewrite push_history_eq. set (n := length (history s)) in *.
  set (d := (S n - histCap s)%nat).
  assert (length (drop d (history s ++ [e])) = S n - d)%nat as Hlen.
  { rewrite length_drop, length_app. simpl. lia. }
  rewrite Hlen, fmap_drop, fmap_app, Hh, list_fmap_singleton, He.
  replace [(rv s + 1)%Z] with [(rv s + 1 - n + n)%Z] by (f_equal; lia).
  rewrite seqZ_snoc, drop_seqZ. pose proof (wf_hist_len _ W).
  split_and!; [lia|lia|f_equal; lia].
Qed.

(** *** Subscriptions *)

Lemma fan_out_lookup (sb : gmap nat GVR) (e : Event U) cs id :
  fan_out sb e cs !! id =
    (λ c, match sb !! id with
          | Some gs => if decide (gs = ev_GVR e) then offer e c else c
          | None => c end) <$> cs !! id.
Proof. unfold fan_out. rewrite map_lookup_imap. by destruct (cs !! id). Qed.

Lemma offer_length (e : Event U) c :
  (length (ch_buf c) ≤ sub_cap)%nat → (length (ch_buf (offer e c)) ≤ sub_cap)%nat.
Proof.
  unfold offer. case_decide; simpl; [|done]. rewrite length_app. simpl. lia.
Qed.

Lemma subs_after s w id g :
  wf s → subs (apply_write w s) !! id = Some g →
  subs s !! id = Some g ∧
  ∃ c, chans s !! id = Some c ∧
    (g = w_gvr w → (length (ch_buf c) < sub_cap)%nat).
Proof.
  intros W. rewrite subs_apply, map_lookup_filter_Some. simpl. intros [Hs Hd].
  split; [done|]. destruct (wf_subs _ W _ _ Hs) as (c & Hc & Hop).
  exists c. split; [done|]. intros ->. revert Hd. unfold dropped, full. rewrite Hc.
  rewrite bool_decide_true by (by destruct w). simpl.
  rewrite bool_decide_eq_false. lia.
Qed.

(** *** Preservation *)

Lemma write_wf w s : wf s → room s → valid_write w s → wf (apply_write w s).
Proof.
  intros W Hr (Hreg & Hrv & Hv). pose proof (wf_range _ W) as Hrange.
  pose proof (next_rv_eq s ltac:(lia) Hr) as Hn.
  assert (Hnew : ∀ g k u, lookup_obj s g k = Some u →
            GetResourceVersion u ≠ format_uint (next_rv s)).
  { intros g k u (_ & n & Hn' & ->)%(wf_obj _ W) E.
    apply format_uint_inj in E; lia. }
  destruct (push_history_rvs s (w_event w s) W) as (Hl & Hp & Hh); [by simpl; rewrite Hn|].
  constructor; autorewrite with las_apply.
  - intros g Hg. apply data_apply_some, (wf_reg _ W), Hg.
  - intros g k u. rewrite lookup_apply. case_decide as Hd.
    + destruct Hd as [<- <-]. intros Hu. split; [done|].
      exists (next_rv s). split; [lia|]. destruct w; simplify_eq/=; done.
    + intros (Hg & n & ? & ?)%(wf_obj _ W). split; [done|]. exists n. split; [lia|done].
  - intros g k u g' k' u'. rewrite !lookup_apply.
    repeat case_decide; intros Hu Hu' E; try naive_solver; destruct w; simplify_eq/=;
      first [exfalso; eapply Hnew; [eassumption|congruence] | by eapply (wf_uniq _ W)].
  - unfold room in Hr. lia.
  - apply (wf_cap _ W).
  - done.
  - lia.
  - rewrite Hh, Hn. f_equal. lia.
  - intros id g Hs. rewrite <-(subs_apply w s) in Hs.
    apply subs_after in Hs as (Hs & c & Hc & Hroom); [|done].
    rewrite fan_out_lookup, Hc, Hs. simpl. eexists. split; [done|].
    destruct (wf_subs _ W _ _ Hs) as (c' & Hc' & Hop). simplify_eq.
    case_decide as Hg; [|done]. unfold offer. rewrite decide_True; [done|].
    apply Hroom. rewrite Hg. by destruct w.
  - intros id c. rewrite fan_out_lookup. destruct (chans s !! id) as [c0|] eqn:Hc; [|done].
    destruct (wf_chans _ W _ _ Hc). intros [= <-]. split; [done|].
    repeat case_match; auto using offer_length.
Qed.
(** *** Start-up: [New], then [Register] *)

Lemma New_wf (p : option P) cap r :
  (0 ≤ r < u64_mod)%Z → wf (New p cap r).
Proof.
  intros Hr. unfold New. constructor; simpl; try done; try lia.
  - by intros g [x Hx].
  - case_match; lia.
Qed.

Lemma lookup_Register g b s g' k :
  lookup_obj (Register g b s) g' k = lookup_obj s g' k.
Proof.
  unfold lookup_obj, objects, Register. simpl. destruct (data s !! g) eqn:E; [done|].
  destruct (decide (g = g')) as [<-|]; [by rewrite lookup_insert_eq, E|].
  by rewrite lookup_insert_ne.
Qed.

Lemma Register_wf g b s : wf s → wf (Register g b s).
Proof.
  intros W. constructor;
    first [exact (wf_range _ W) | exact (wf_cap _ W) | exact (wf_hist_len _ W)
          | exact (wf_hist_pos _ W) | exact (wf_hist _ W) | exact (wf_subs _ W)
          | exact (wf_chans _ W) | unfold Register; simpl].
  - intros g'. destruct (decide (g = g')) as [<-|Hg].
    + intros _. destruct (data s !! g) eqn:E; [by rewrite E|]. by rewrite lookup_insert_eq.
    + rewrite lookup_insert_ne by done. intros Hr%(wf_reg _ W).
      destruct (data s !! g); [done|]. by rewrite lookup_insert_ne.
  - intros g' k u. rewrite (lookup_Register g b s). intros (Hr & ?)%(wf_obj _ W).
    split; [|done]. destruct (decide (g = g')) as [<-|]; [by rewrite lookup_insert_eq|].
    by rewrite lookup_insert_ne.
  - intros g1 k u g2 k' u'. rewrite !(lookup_Register g b s). apply (wf_uniq _ W).
Qed.

(** The registrations the facade makes for every served resource. *)
Definition RegisterAll (rs : list Resource) s : Store U P :=
  foldl (λ s r, Register (r_GVR r) (r_Namespaced r) s) s rs.

Lemma RegisterAll_wf rs s : wf s → wf (RegisterAll rs s).
Proof. revert s; induction rs; simpl; eauto using Register_wf. Qed.
End invariant.
