(* ===== verification/Patch.v ===== *)
(** [internal/store/patch.go]: JSON patch, merge patch, strategic merge and
    server-side apply, all reduced to a document rewrite followed by the update
    rules of the store. *)

From S2P Require Import Prelude GoStrings K8s Apis Store StoreFacts.
Local Open Scope string_scope.

(** The patch libraries: [evanphx/json-patch] and [sigs.k8s.io/yaml]. *)
Class PatchLib := {
  decoded_patch : Type;
  DecodePatch : string → option decoded_patch;
  ApplyPatch : decoded_patch → string → option string;
  MergePatch : string → string → option string;
  YAMLToJSON : string → option string;
}.

(** [types.PatchType] *)
Definition JSONPatchType : string := "application/json-patch+json".
Definition MergePatchType : string := "application/merge-patch+json".
Definition StrategicMergePatchType : string := "application/strategic-merge-patch+json".
Definition ApplyPatchType : string := "application/apply-patch+yaml".

Section patch.
Context {U P : Type} `{UnstructuredLaws U} `{Codec U} `{Persister P}.
Context `{Oracle} `{GoRuntime} `{PatchLib}.
Implicit Types (s : Store U P) (g : GVR) (k : string) (u : U).

(** The [switch patchType]. *)
Definition patch_document (patchType oldJSON pdata : string) : res api_error string :=
  if decide (patchType = JSONPatchType) then
    match DecodePatch pdata with
    | None => Err (BadRequest "store: invalid json patch")
    | Some p => of_opt (BadRequest "store: json patch apply failed") (ApplyPatch p oldJSON)
    end
  else if decide (patchType = MergePatchType ∨ patchType = StrategicMergePatchType) then
    of_opt (BadRequest "store: merge patch failed") (MergePatch oldJSON pdata)
  else if decide (patchType = ApplyPatchType) then
    match YAMLToJSON pdata with
    | None => Err (BadRequest "store: apply patch yaml decode failed")
    | Some jsonData =>
        of_opt (BadRequest "store: apply patch merge failed") (MergePatch oldJSON jsonData)
    end
  else Err (BadRequest "store: unsupported patch type").

Definition Patch g (namespace name patchType pdata : string) (isStatus : bool) s
  : Store U P * res api_error U :=
  match meta s g with
  | Err e => (s, Err e)
  | Ok rm =>
      let ns := if namespaced rm then namespace else "" in
      let k := key (namespaced rm) ns name in
      match lookup_obj s g k with
      | None => (s, Err (NotFound (groupRes rm) name))
      | Some old =>
          match MarshalJSON old with
          | None => (s, Err (InternalError "marshal"))
          | Some oldJSON =>
              match patch_document patchType oldJSON pdata with
              | Err e => (s, Err e)
              | Ok patchedJSON =>
                  match UnmarshalJSON patchedJSON with
                  | None => (s, Err (InternalError "unmarshal"))
                  | Some patched =>
                      if rv_precondition patched old then
                        let merged := mergeForUpdate old patched isStatus in
                        let '(s1, r) := nextRV s in
                        let merged := SetResourceVersion (format_uint r) merged in
                        let s2 := putLocked g k merged r s1 in
                        (emitLocked (mkEvent Modified merged r g) s2, Ok merged)
                      else (s, Err (conflictErr (groupRes rm) name))
                  end
              end
          end
      end
  end.

Lemma Patch_cases g ns name ty d st s s' r :
  Patch g ns name ty d st s = (s', r) →
  (∃ e, r = Err e ∧ s' = s) ∨
  (∃ rm old patched,
     let k := key (namespaced rm) (if namespaced rm then ns else "") name in
     let v := SetResourceVersion (format_uint (next_rv s)) (mergeForUpdate old patched st) in
     let w := WPut Modified g k v in
     meta s g = Ok rm ∧ lookup_obj s g k = Some old ∧
     rv_precondition patched old = true ∧
     valid_write w s ∧ r = Ok v ∧ s' = apply_write w s ∧
     ∃ doc, UnmarshalJSON doc = Some patched).
Proof.
  unfold Patch. destruct (meta s g) as [rm|] eqn:Hm; [|naive_solver].
  destruct (lookup_obj s g _) as [old|] eqn:Hl; [|naive_solver].
  destruct (MarshalJSON old) as [oldJSON|]; [|naive_solver].
  destruct (patch_document _ _ _) as [pj|]; [|naive_solver].
  destruct (UnmarshalJSON pj) as [patched|] eqn:Hu; [|naive_solver].
  destruct (rv_precondition patched old) eqn:Hp; [|naive_solver].
  intros [= <- <-]. right. exists rm, old, patched. do 3 (split; [done|]).
  apply meta_ok in Hm. split; [|by eauto].
  split_and!; [by eexists|by simpl; uget_simpl|by eexists].
Qed.
End patch.
