(* ===== verification/Persist.v ===== *)
(** [internal/store/persist.go]: the bbolt persister, one bucket per resource
    plus the version high-water mark, and recovery of a store from it. *)

From S2P Require Import Prelude GoStrings K8s Apis Store StoreFacts.
From Stdlib Require Import Ascii.
Local Open Scope string_scope.

(** ** bbolt

    A transaction works on a database value; [bolt_view] is its content.
    Every operation may fail. *)
Class Bolt (DB : Type) := {
  bolt_view : DB → gmap string (gmap string string);
  bolt_CreateBucketIfNotExists : string → DB → option DB;
  bolt_Put : string → string → string → DB → option DB;
  bolt_Delete : string → string → DB → option DB;
  bolt_Commit : DB → option DB;
  (** iteration order of [tx.ForEach] and [b.ForEach] *)
  bolt_ForEach : DB → list (string * gmap string string);
  bucket_ForEach : gmap string string → list (string * string);
}.

Class BoltLaws (DB : Type) `{Bolt DB} := {
  bolt_create_view : ∀ b db db', bolt_CreateBucketIfNotExists b db = Some db' →
    bolt_view db' = match bolt_view db !! b with
                    | Some _ => bolt_view db
                    | None => <[b := ∅]> (bolt_view db) end;
  bolt_put_view : ∀ b k v db db' m, bolt_view db !! b = Some m →
    bolt_Put b k v db = Some db' → bolt_view db' = <[b := <[k := v]> m]> (bolt_view db);
  bolt_delete_view : ∀ b k db db' m, bolt_view db !! b = Some m →
    bolt_Delete b k db = Some db' → bolt_view db' = <[b := delete k m]> (bolt_view db);
  bolt_commit_view : ∀ db db', bolt_Commit db = Some db' → bolt_view db' = bolt_view db;
  bolt_foreach_perm : ∀ db, bolt_ForEach db ≡ₚ map_to_list (bolt_view db);
  bucket_foreach_perm : ∀ m, bucket_ForEach m ≡ₚ map_to_list m;
}.

(** ** encoding/binary: big-endian 64-bit *)

Definition be_byte (n : Z) (i : nat) : ascii :=
  ascii_of_N (Z.to_N (Z.land (Z.shiftr n (8 * (7 - i))) 255)).

Definition PutUint64 (n : Z) : string := of_chars (map (be_byte n) (seq 0 8)).

Definition Uint64 (s : string) : Z :=
  foldl (λ acc c, (acc * 256 + byte_val c)%Z) 0%Z (chars s).

(** ** Bucket names *)

Definition metaBucket : string := "__meta__".
Definition rvKey : string := "rv".
Definition bucketName (g : GVR) : string := GVR.to_string g.

(** The scan of [parseGVRBucket]: positions of the first two slashes. *)
Fixpoint scan_slashes (name : string) (i : nat) (first : option nat)
  : option nat * option nat :=
  match name with
  | EmptyString => (first, None)
  | String c rest =>
      if ascii_dec c slash then
        match first with
        | None => scan_slashes rest (S i) (Some i)
        | Some _ => (first, Some i)
        end
      else scan_slashes rest (S i) first
  end.

Definition parseGVRBucket (name : string) : option GVR :=
  match scan_slashes name 0 None with
  | (Some first, Some second) =>
      let version := str_take (second - S first) (str_drop (S first) name) in
      let resource := str_drop (S second) name in
      if decide (version = "" ∨ resource = "") then None
      else Some (mkGVR (str_take first name) version resource)
  | _ => None
  end.

(** [parseRV]: unparseable or empty yields 0. *)
Definition parseRV (s : string) : Z :=
  if decide (s = "") then 0%Z else default 0%Z (parse_uint64 s).

(** ** BoltPersister *)

Section persister.
Context {DB : Type} `{Bolt DB}.

Definition putRV (r : Z) (db : DB) : option DB :=
  db ← bolt_CreateBucketIfNotExists metaBucket db;
  bolt_Put metaBucket rvKey (PutUint64 r) db.

(** [db.Update]: commit on success, roll back on error. *)
Definition bolt_Update (tx : DB → option DB) (db : DB) : DB * option string :=
  match tx db ≫= bolt_Commit with
  | Some db' => (db', None)
  | None => (db, Some "bolt")
  end.

Definition bolt_SaveObject (g : GVR) (k doc : string) (r : Z) : DB → DB * option string :=
  bolt_Update (λ db,
    db ← bolt_CreateBucketIfNotExists (bucketName g) db;
    db ← bolt_Put (bucketName g) k doc db;
    putRV r db).

Definition bolt_RemoveObject (g : GVR) (k : string) (r : Z) : DB → DB * option string :=
  bolt_Update (λ db,
    db ← match bolt_view db !! bucketName g with
         | Some _ => bolt_Delete (bucketName g) k db
         | None => Some db
         end;
    putRV r db).

(** One bucket of [Load]. *)
Definition load_bucket (acc : gmap GVR (gmap string string) * Z)
  (nb : string * gmap string string) : gmap GVR (gmap string string) * Z :=
  if decide (nb.1 = metaBucket) then
    match nb.2 !! rvKey with
    | Some v => if decide (String.length v = 8) then (acc.1, Uint64 v) else acc
    | None => acc
    end
  else match parseGVRBucket nb.1 with
       | None => acc
       | Some g => (<[g := foldl (λ m p, <[p.1 := p.2]> m) ∅ (bucket_ForEach nb.2)]> acc.1, acc.2)
       end.

Definition bolt_Load (db : DB) : res string (gmap GVR (gmap string string) * Z) :=
  Ok (foldl load_bucket (∅, 0%Z) (bolt_ForEach db)).

#[export] Instance bolt_persister : Persister DB := {
  SaveObject := bolt_SaveObject;
  RemoveObject := bolt_RemoveObject;
  LoadSnapshot := bolt_Load;
}.
End persister.

(** ** Bucket names round-trip *)

Lemma str_take_app s t : str_take (String.length s) (s +:+ t) = s.
Proof. induction s as [|c s IH]; simpl; [by destruct t|by rewrite IH]. Qed.
Lemma str_drop_app s t : str_drop (String.length s) (s +:+ t) = t.
Proof. by induction s. Qed.
Lemma str_drop_app_S s c t : str_drop (S (String.length s)) (s +:+ String c t) = t.
Proof. induction s as [|d s IH]; [done|]. exact IH. Qed.
Lemma str_length_app s t : String.length (s +:+ t) = (String.length s + String.length t)%nat.
Proof. induction s as [|c s IH]; simpl; [done|by rewrite IH]. Qed.

Lemma scan_no_slash s t i first :
  no_byte slash s = true →
  scan_slashes (s +:+ t) i first = scan_slashes t (String.length s + i) first.
Proof.
  revert i; induction s as [|c s IH]; intros i; simpl; [done|].
  rewrite no_byte_cons. intros [Hc Hs]. destruct (ascii_dec c slash); [done|].
  rewrite IH by done. f_equal. lia.
Qed.

Lemma parse_bucket_roundtrip g :
  well_named g = true → Version g ≠ "" → Resource_ g ≠ "" →
  parseGVRBucket (bucketName g) = Some g.
Proof.
  destruct g as [gr ve re]. unfold well_named, bucketName, GVR.to_string, parseGVRBucket.
  cbn [Group Version Resource_]. rewrite andb_true_iff. intros [Hg Hv] Hve Hre.
  change ("/" +:+ ve +:+ "/" +:+ re) with (String slash (ve +:+ String slash re)).
  rewrite scan_no_slash by done. simpl scan_slashes at 1.
  rewrite scan_no_slash by done. simpl scan_slashes at 1.
  rewrite !Nat.add_0_r.
  set (name := gr +:+ String slash (ve +:+ String slash re)).
  assert (str_drop (S (String.length ve + S (String.length gr))) name = re) as ->.
  { assert (name = (gr +:+ String slash ve) +:+ String slash re) as ->
      by (by unfold name; rewrite str_app_assoc).
    rewrite <-(str_drop_app_S (gr +:+ String slash ve) slash re) at 2.
    f_equal. rewrite str_length_app. simpl. lia. }
  unfold name. rewrite str_drop_app_S, str_take_app.
  replace (String.length ve + S (String.length gr) - S (String.length gr))%nat
    with (String.length ve) by lia.
  rewrite str_take_app. by rewrite decide_False by naive_solver.
Qed.

(** ** Big-endian round trip *)

Lemma byte_val_be n i : byte_val (be_byte n i) = Z.land (Z.shiftr n (8 * (7 - i))) 255.
Proof.
  unfold byte_val, be_byte. set (b := Z.land _ _).
  assert (0 ≤ b < 256)%Z as Hb.
  { unfold b. change 255%Z with (Z.ones 8). rewrite Z.land_ones by lia.
    apply Z.mod_pos_bound. lia. }
  rewrite N_ascii_embedding by lia. lia.
Qed.

Lemma PutUint64_length n : String.length (PutUint64 n) = 8%nat.
Proof. reflexivity. Qed.

Lemma Uint64_PutUint64 n : (0 ≤ n < u64_mod)%Z → Uint64 (PutUint64 n) = n.
Proof.
  intros Hn. unfold Uint64, PutUint64. rewrite chars_of_chars. simpl.
  rewrite !byte_val_be. simpl. change 255%Z with (Z.ones 8).
  rewrite !Z.land_ones, !Z.shiftr_div_pow2 by lia. unfold u64_mod in Hn.
  Z.to_euclidean_division_equations. lia.
Qed.

Lemma parseRV_format n : (0 ≤ n < u64_mod)%Z → parseRV (format_uint n) = n.
Proof.
  intros Hn. unfold parseRV. rewrite decide_False by apply format_uint_nonempty.
  by rewrite parse_uint64_format.
Qed.
