(* ===== verification/Concrete.v ===== *)
(** Concrete instances of the interfaces: objects as records, documents as an
    injective encoding of objects, a key-value map for the database, a clock.
    They show the interfaces' laws can hold and let theorems be applied to
    evaluated inputs. *)

From S2P Require Import Prelude GoStrings K8s Apis Selectors Store StoreFacts Patch Persist.
From stdpp Require Import countable.
From Stdlib Require Import Ascii.
Local Open Scope string_scope.

(** ** Objects *)

Record cobj := mkObj {
  c_apiVersion : string; c_kind : string; c_namespace : string; c_name : string;
  c_generateName : string; c_uid : string; c_rv : string; c_generation : Z;
  c_created : option Z; c_deleted : option Z;
  c_labels : gmap string string; c_annotations : gmap string string;
  c_owners : list OwnerReference;
  c_spec : option gval; c_status : option gval;
}.

#[export] Instance cobj_eq_dec : EqDecision cobj.
Proof. solve_decision. Defined.

Definition new_obj : cobj := mkObj "" "" "" "" "" "" "" 0 None None ∅ ∅ [] None None.

#[export] Instance cobj_unstructured : Unstructured cobj := {
  uget := λ f o,
    match f return ftype f with
    | FAPIVersion => c_apiVersion o | FKind => c_kind o
    | FNamespace => c_namespace o | FName => c_name o
    | FGenerateName => c_generateName o | FUID => c_uid o
    | FResourceVersion => c_rv o | FGeneration => c_generation o
    | FCreationTimestamp => trunc_sec <$> c_created o
    | FDeletionTimestamp => trunc_sec <$> c_deleted o
    | FLabels => c_labels o | FAnnotations => c_annotations o
    | FOwnerReferences => c_owners o | FSpec => c_spec o | FStatus => c_status o
    end;
  uset := λ f,
    match f return ftype f → cobj → cobj with
    | FAPIVersion => λ v o, mkObj v (c_kind o) (c_namespace o) (c_name o) (c_generateName o) (c_uid o) (c_rv o) (c_generation o) (c_created o) (c_deleted o) (c_labels o) (c_annotations o) (c_owners o) (c_spec o) (c_status o)
    | FKind => λ v o, mkObj (c_apiVersion o) v (c_namespace o) (c_name o) (c_generateName o) (c_uid o) (c_rv o) (c_generation o) (c_created o) (c_deleted o) (c_labels o) (c_annotations o) (c_owners o) (c_spec o) (c_status o)
    | FNamespace => λ v o, mkObj (c_apiVersion o) (c_kind o) v (c_name o) (c_generateName o) (c_uid o) (c_rv o) (c_generation o) (c_created o) (c_deleted o) (c_labels o) (c_annotations o) (c_owners o) (c_spec o) (c_status o)
    | FName => λ v o, mkObj (c_apiVersion o) (c_kind o) (c_namespace o) v (c_generateName o) (c_uid o) (c_rv o) (c_generation o) (c_created o) (c_deleted o) (c_labels o) (c_annotations o) (c_owners o) (c_spec o) (c_status o)
    | FGenerateName => λ v o, mkObj (c_apiVersion o) (c_kind o) (c_namespace o) (c_name o) v (c_uid o) (c_rv o) (c_generation o) (c_created o) (c_deleted o) (c_labels o) (c_annotations o) (c_owners o) (c_spec o) (c_status o)
    | FUID => λ v o, mkObj (c_apiVersion o) (c_kind o) (c_namespace o) (c_name o) (c_generateName o) v (c_rv o) (c_generation o) (c_created o) (c_deleted o) (c_labels o) (c_annotations o) (c_owners o) (c_spec o) (c_status o)
    | FResourceVersion => λ v o, mkObj (c_apiVersion o) (c_kind o) (c_namespace o) (c_name o) (c_generateName o) (c_uid o) v (c_generation o) (c_created o) (c_deleted o) (c_labels o) (c_annotations o) (c_owners o) (c_spec o) (c_status o)
    | FGeneration => λ v o, mkObj (c_apiVersion o) (c_kind o) (c_namespace o) (c_name o) (c_generateName o) (c_uid o) (c_rv o) v (c_created o) (c_deleted o) (c_labels o) (c_annotations o) (c_owners o) (c_spec o) (c_status o)
    | FCreationTimestamp => λ v o, mkObj (c_apiVersion o) (c_kind o) (c_namespace o) (c_name o) (c_generateName o) (c_uid o) (c_rv o) (c_generation o) v (c_deleted o) (c_labels o) (c_annotations o) (c_owners o) (c_spec o) (c_status o)
    | FDeletionTimestamp => λ v o, mkObj (c_apiVersion o) (c_kind o) (c_namespace o) (c_name o) (c_generateName o) (c_uid o) (c_rv o) (c_generation o) (c_created o) v (c_labels o) (c_annotations o) (c_owners o) (c_spec o) (c_status o)
    | FLabels => λ v o, mkObj (c_apiVersion o) (c_kind o) (c_namespace o) (c_name o) (c_generateName o) (c_uid o) (c_rv o) (c_generation o) (c_created o) (c_deleted o) v (c_annotations o) (c_owners o) (c_spec o) (c_status o)
    | FAnnotations => λ v o, mkObj (c_apiVersion o) (c_kind o) (c_namespace o) (c_name o) (c_generateName o) (c_uid o) (c_rv o) (c_generation o) (c_created o) (c_deleted o) (c_labels o) v (c_owners o) (c_spec o) (c_status o)
    | FOwnerReferences => λ v o, mkObj (c_apiVersion o) (c_kind o) (c_namespace o) (c_name o) (c_generateName o) (c_uid o) (c_rv o) (c_generation o) (c_created o) (c_deleted o) (c_labels o) (c_annotations o) v (c_spec o) (c_status o)
    | FSpec => λ v o, mkObj (c_apiVersion o) (c_kind o) (c_namespace o) (c_name o) (c_generateName o) (c_uid o) (c_rv o) (c_generation o) (c_created o) (c_deleted o) (c_labels o) (c_annotations o) (c_owners o) v (c_status o)
    | FStatus => λ v o, mkObj (c_apiVersion o) (c_kind o) (c_namespace o) (c_name o) (c_generateName o) (c_uid o) (c_rv o) (c_generation o) (c_created o) (c_deleted o) (c_labels o) (c_annotations o) (c_owners o) (c_spec o) v
    end;
  u_new := new_obj;
}.

Lemma trunc_sec_idem t : trunc_sec (trunc_sec t) = trunc_sec t.
Proof.
  unfold trunc_sec. rewrite Zminus_mod_idemp_r, Z.sub_diag, Zmod_0_l. lia.
Qed.

Lemma trunc_opt_idem (t : option Z) : trunc_sec <$> (trunc_sec <$> t) = trunc_sec <$> t.
Proof. destruct t; simpl; [|done]. by rewrite trunc_sec_idem. Qed.

#[export] Instance cobj_laws : UnstructuredLaws cobj.
Proof.
  constructor.
  - by intros [].
  - by intros [] [].
  - intros []; simpl; intros; try done; apply trunc_opt_idem.
Qed.

(** ** Documents *)

#[export] Instance owner_ref_countable : Countable OwnerReference.
Proof.
  refine (inj_countable'
    (λ o, (or_APIVersion o, or_Kind o, or_Name o, or_UID o, or_Controller o, or_BlockOwnerDeletion o))
    (λ '(a, b, c, d, e, f), mkOwnerRef a b c d e f) _).
  abstract (by intros []).
Defined.

Fixpoint gval_enc (v : gval) : gen_tree (bool + Z + Z + string) :=
  match v with
  | GNil => GenNode 0 []
  | GBool b => GenLeaf (inl (inl (inl b)))
  | GInt z => GenLeaf (inl (inl (inr z)))
  | GFloat z => GenLeaf (inl (inr z))
  | GStr x => GenLeaf (inr x)
  | GList l => GenNode 1 (map gval_enc l)
  | GMap m => GenNode 2 (map (λ p, GenNode 3 [GenLeaf (inr p.1); p.2]) (map_to_list (gval_enc <$> m)))
  end.

Fixpoint gval_dec (t : gen_tree (bool + Z + Z + string)) : gval :=
  match t with
  | GenLeaf (inl (inl (inl b))) => GBool b
  | GenLeaf (inl (inl (inr z))) => GInt z
  | GenLeaf (inl (inr z)) => GFloat z
  | GenLeaf (inr x) => GStr x
  | GenNode 1 l => GList (map gval_dec l)
  | GenNode 2 l =>
      GMap (list_to_map (omap (λ t, match t with
        | GenNode 3 [GenLeaf (inr k); v] => Some (k, gval_dec v)
        | _ => None end) l))
  | _ => GNil
  end.

Fixpoint gval_size (v : gval) : nat :=
  match v with
  | GList l => S (sum_list (map gval_size l))
  | GMap m => S (map_fold (λ _ w n, gval_size w + n)%nat 0%nat m)
  | _ => 0
  end.

Lemma map_fold_size_lt (m : gmap string gval) k w :
  m !! k = Some w →
  (gval_size w < S (map_fold (λ _ w n, gval_size w + n)%nat 0%nat m))%nat.
Proof.
  intros Hk. rewrite (map_fold_delete_L _ _ k w m); [lia| |done]. intros. lia.
Qed.

Lemma sum_size_lt l x :
  x ∈ l → (gval_size x < S (sum_list (map gval_size l)))%nat.
Proof. induction 1; simpl in *; lia. Qed.

Lemma gval_ind' (Q : gval → Prop) :
  Q GNil → (∀ b, Q (GBool b)) → (∀ z, Q (GInt z)) → (∀ z, Q (GFloat z)) →
  (∀ x, Q (GStr x)) → (∀ l, Forall Q l → Q (GList l)) →
  (∀ m, map_Forall (λ _, Q) m → Q (GMap m)) → ∀ v, Q v.
Proof.
  intros Hn Hb Hz Hf Hs Hl Hm v.
  remember (gval_size v) as n eqn:E. revert v E.
  induction n as [n IH] using lt_wf_ind. intros [| | | | |l|m] ->; auto.
  - apply Hl, Forall_forall. intros x Hx. eapply IH; [|done]. apply sum_size_lt. by apply list_elem_of_In.
  - apply Hm. intros k x Hk. eapply IH; [|done]. simpl. by eapply map_fold_size_lt.
Qed.

Lemma gval_dec_enc v : gval_dec (gval_enc v) = v.
Proof.
  induction v as [| | | | |l IH|m IH] using gval_ind'; simpl; try done; f_equal.
  - induction IH as [|x l Hx _ IHl]; simpl; [done|]. by rewrite Hx, IHl.
  - transitivity (list_to_map (K := string) (M := gmap string gval) (map_to_list m));
      [|apply list_to_map_to_list].
    f_equal. rewrite map_to_list_fmap. 
    assert (Forall (λ p, gval_dec (gval_enc p.2) = p.2) (map_to_list m)) as Hall.
    { apply Forall_forall. intros [k w] Hin%list_elem_of_In%elem_of_map_to_list. by apply (IH k). }
    induction Hall as [|[k w] l Hx _ IHl]; [done|]. simpl in Hx |- *.
    rewrite Hx. f_equal. exact IHl.
Qed.

#[export] Instance gval_countable : Countable gval.
Proof. refine (inj_countable' gval_enc gval_dec gval_dec_enc). Defined.

(** A positive as a byte string. *)
Fixpoint pos_bytes (p : positive) : string :=
  match p with
  | xI p => String "1" (pos_bytes p)
  | xO p => String "0" (pos_bytes p)
  | xH => EmptyString
  end.
Fixpoint bytes_pos (s : string) : positive :=
  match s with
  | EmptyString => xH
  | String c s => if ascii_dec c "1" then xI (bytes_pos s) else xO (bytes_pos s)
  end.
Lemma bytes_pos_bytes p : bytes_pos (pos_bytes p) = p.
Proof. induction p; simpl; congruence. Qed.

#[export] Instance cobj_countable : Countable cobj.
Proof.
  refine (inj_countable'
    (λ o, ((c_apiVersion o, c_kind o, c_namespace o, c_name o, c_generateName o),
           (c_uid o, c_rv o, c_generation o, c_created o, c_deleted o),
           (c_labels o, c_annotations o, c_owners o, c_spec o, c_status o)))
    (λ '((a, b, c, d, e), (f, g, h, i, j), (k, l, m, n, o)),
      mkObj a b c d e f g h i j k l m n o) _).
  abstract (by intros []).
Defined.

#[export] Instance cobj_codec : Codec cobj := {
  MarshalJSON := λ o, Some (pos_bytes (encode o));
  UnmarshalJSON := λ b,
    o ← decode (bytes_pos b); if decide (c_kind o = "") then None else Some o;
  whole_float := λ _, None;
}.

Lemma renum_id (v : gval) : renum (U := cobj) v = v.
Proof.
  induction v as [| | | | |l IH|m IH] using gval_ind'; cbn; try done; f_equal.
  - induction IH as [|x l Hx _ IHl]; cbn; [done|]. by rewrite Hx, IHl.
  - apply map_eq. intros k. rewrite lookup_fmap. destruct (m !! k) as [x|] eqn:Hk; cbn; [|done]. by rewrite (IH _ _ Hk).
Qed.

Lemma read_as_refl (u : cobj) : read_as u u.
Proof.
  intros f _. destruct f; try done; cbn.
  - destruct (c_spec u) as [v|]; cbn; [|done]. by rewrite renum_id.
  - destruct (c_status u) as [v|]; cbn; [|done]. by rewrite renum_id.
Qed.

#[export] Instance cobj_codec_laws : CodecLaws cobj.
Proof.
  constructor.
  - intros u b. simpl. intros [= <-] Hk. exists u. rewrite bytes_pos_bytes, decode_encode. simpl.
    rewrite decide_False by done. split; [done|apply read_as_refl].
  - intros b u. simpl. destruct (decode _) as [o|]; simpl; [|done]. by case_decide; intros [= <-].
Qed.

(** ** Patches

    The patch document is itself an encoded object: a merge patch takes its
    non-empty labels, annotations and spec, and its name, version and status
    when given; a JSON patch replaces the document. *)

Definition merge_objs (old p : cobj) : cobj :=
  let pick (a b : string) := if decide (b = "") then a else b in
  mkObj (c_apiVersion old) (c_kind old) (pick (c_namespace old) (c_namespace p))
    (pick (c_name old) (c_name p)) (c_generateName old) (c_uid old)
    (pick (c_rv old) (c_rv p)) (c_generation old) (c_created old) (c_deleted old)
    (c_labels p ∪ c_labels old) (c_annotations p ∪ c_annotations old) (c_owners old)
    (match c_spec p with Some v => Some v | None => c_spec old end)
    (match c_status p with Some v => Some v | None => c_status old end).

#[export] Instance cobj_patchlib : PatchLib := {
  decoded_patch := cobj;
  DecodePatch := λ b, decode (bytes_pos b);
  ApplyPatch := λ p _, MarshalJSON p;
  MergePatch := λ doc b,
    old ← decode (bytes_pos doc); p ← decode (bytes_pos b); MarshalJSON (merge_objs old p);
  YAMLToJSON := Some;
}.

(** ** Selectors

    A selector is a list of [key=value] requirements; the parsers accept one
    requirement. *)

Definition demo_sel_matches (l : list (string * string)) (m : gmap string string) : bool :=
  forallb (λ p, bool_decide (m !! p.1 = Some p.2)) l.

#[export] Instance demo_selectors : SelectorLib := {
  LabelSel := list (string * string);
  labels_Everything := [];
  labels_Parse := λ s, p ← cut "=" s; Some [p];
  labels_Empty := λ l, bool_decide (l = []);
  labels_Matches := demo_sel_matches;
  FieldSel := list (string * string);
  fields_Everything := [];
  fields_ParseSelector := λ s, p ← cut "=" s; Some [p];
  fields_Empty := λ l, bool_decide (l = []);
  fields_Requirements := map fst;
  fields_Matches := demo_sel_matches;
}.

#[export] Instance demo_selector_laws : SelectorLaws.
Proof.
  constructor; [done|done|]. unfold fields_Requirements, fields_Matches; simpl.
  intros sel m1 m2 Hm. induction sel as [|[k v] sel IH]; simpl; [done|].
  rewrite Hm by (simpl; left). f_equal. apply IH. intros f Hf. apply Hm. by right.
Defined.

(** ** Clock and random generators *)

#[export] Instance demo_oracle : Oracle := {|
  now_at := λ r, (1000000000 * r)%Z;
  uid_at := λ r, "uid-" +:+ format_uint r;
  rand_at := λ r j, (r + Z.of_nat j)%Z;
  gen_fuel := 8;
|}.

#[export] Instance demo_runtime : GoRuntime := default_runtime.

(** ** Database *)

Record demo_db := mkDB { db_view : gmap string (gmap string string) }.

#[export] Instance demo_bolt : Bolt demo_db := {
  bolt_view := db_view;
  bolt_CreateBucketIfNotExists := λ b db,
    Some (match db_view db !! b with Some _ => db | None => mkDB (<[b := ∅]> (db_view db)) end);
  bolt_Put := λ b k v db, m ← db_view db !! b; Some (mkDB (<[b := <[k := v]> m]> (db_view db)));
  bolt_Delete := λ b k db, m ← db_view db !! b; Some (mkDB (<[b := delete k m]> (db_view db)));
  bolt_Commit := Some;
  bolt_ForEach := λ db, map_to_list (db_view db);
  bucket_ForEach := map_to_list;
}.

#[export] Instance demo_bolt_laws : BoltLaws demo_db.
Proof.
  constructor; simpl.
  - intros b db db' [= <-]. by destruct (db_view db !! b).
  - intros b k v db db' m ->. by intros [= <-].
  - intros b k db db' m ->. by intros [= <-].
  - by intros db db' [= <-].
  - done.
  - done.
Qed.

(** ** A freshly started store, without a database, with a history of four events *)

Definition demo_store : Store cobj demo_db :=
  RegisterAll Registry.default_resources (New None 4 0).

Lemma demo_store_wf : wf demo_store.
Proof. apply RegisterAll_wf, New_wf. done. Qed.

(** An object with a kind, a namespace, a name and a version precondition. *)
Definition demo_obj (kind ns name rv : string) : cobj :=
  mkObj "v1" kind ns name "" "" rv 0 None None ∅ ∅ [] None None.

(** Decidable goals on concrete data, by evaluation of the decision. *)
Ltac demo_decide := apply (bool_decide_unpack _); vm_compute; exact I.
