(* ===== verification/StoreSpec.v ===== *)
(** What the store promises: sequences of operations are a log of versioned
    events, updates are optimistically concurrent, the status and spec halves
    of an object are independent, reads see writes, keys agree with names. *)

From S2P Require Import Prelude GoStrings K8s Apis Store StoreFacts Patch Persist Concrete.
Local Open Scope string_scope.

Section spec.
Context {U P : Type} `{UnstructuredLaws U} `{Codec U} `{Persister P}.
Context `{Oracle} `{GoRuntime} `{PatchLib}.
Implicit Types (s : Store U P) (g : GVR) (k : string) (u : U).

(** ** Operations and their sequences *)

Inductive op : Type :=
| OpCreate (g : GVR) (u : U)
| OpUpdate (g : GVR) (u : U) (isStatus : bool)
| OpDelete (g : GVR) (ns name : string)
| OpPatch (g : GVR) (ns name patchType pdata : string) (isStatus : bool).

Definition exec (o : op) s : Store U P * res api_error U :=
  match o with
  | OpCreate g u => Create g u s
  | OpUpdate g u st => Update g u st s
  | OpDelete g ns name => delete_locked g ns name s
  | OpPatch g ns name ty d st => Patch g ns name ty d st s
  end.

Definition run (ops : list op) s : Store U P := foldl (λ s o, (exec o s).1) s ops.

(** An operation fails and changes nothing, or commits one write. *)
Lemma exec_cases o s s' r :
  exec o s = (s', r) →
  (∃ e, r = Err e ∧ s' = s) ∨
  (∃ w, valid_write w s ∧ s' = apply_write w s ∧ r = Ok (w_obj w)).
Proof.
  destruct o; simpl; intros E.
  - apply Create_cases in E as [?|(?&?&?&?&?&?&?&?)]; [by left|right; eauto].
  - apply Update_cases in E as [?|(?&?&?&?&?&?&?&?)]; [by left|right; eauto].
  - apply delete_cases in E as [?|(?&?&?&?&?&?&?)]; [by left|right; eauto].
  - apply Patch_cases in E as [?|(?&?&?&?&?&?&?&?&?&?)]; [by left|right; eauto].
Qed.

(** ** The store as an event log *)

Definition replay_step g k (o : option U) (w : write U) : option U :=
  if decide (w_gvr w = g ∧ w_key w = k) then w_result w else o.

Definition replay g k (o : option U) (log : list (write U)) : option U :=
  foldl (replay_step g k) o log.

(** The events of a log whose first version is [r0 + 1]. *)
Definition log_events (r0 : Z) (log : list (write U)) : list (Event U) :=
  imap (λ i w, mkEvent (w_type w) (w_obj w) (r0 + i + 1)%Z (w_gvr w)) log.

(** [s] is what replaying [log] on [s0] gives. *)
Record represents s0 s (log : list (write U)) : Prop := {
  rep_rv : rv s = (rv s0 + length log)%Z;
  rep_obj : ∀ g k, lookup_obj s g k = replay g k (lookup_obj s0 g k) log;
  rep_hist : history s = drop (length log - histCap s0) (log_events (rv s0) log);
  rep_cap : histCap s = histCap s0;
  rep_res : resources s = resources s0;
}.

(** The events a subscription to [gsub] is sent. *)
Definition addressed (gsub : GVR) (r0 : Z) (log : list (write U)) : list (Event U) :=
  filter (λ e, ev_GVR e = gsub) (log_events r0 log).

(** [evs] sent to a channel: those that fit are behind what it held, and the first
    that does not closes it. *)
Definition fits (c0 : chan U) (evs : list (Event U)) : Prop := (length evs ≤ sub_cap - length (ch_buf c0))%nat.
#[export] Instance fits_dec c0 evs : Decision (fits c0 evs).
Proof. unfold fits. apply _. Defined.
Definition delivered (c0 : chan U) (evs : list (Event U)) : chan U :=
  mkChan (ch_buf c0 ++ take (sub_cap - length (ch_buf c0)) evs)
    (if decide (fits c0 evs) then ch_closed c0 else true).

(** What the watchers of [s0] have seen in [s]: a live subscription the events of
    its resource, in order, until one did not fit; nobody else anything. *)
Record watched s0 s (log : list (write U)) : Prop := {
  wt_chan : ∀ id gsub c0, subs s0 !! id = Some gsub → chans s0 !! id = Some c0 →
    chans s !! id = Some (delivered c0 (addressed gsub (rv s0) log)) ∧
    (fits c0 (addressed gsub (rv s0) log) → subs s !! id = Some gsub) ∧
    (¬ fits c0 (addressed gsub (rv s0) log) → subs s !! id = None);
  wt_other : ∀ id, subs s0 !! id = None → chans s !! id = chans s0 !! id ∧ subs s !! id = None;
}.

Lemma length_log_events r0 log : length (log_events r0 log) = length log.
Proof. apply length_imap. Qed.

Lemma log_events_snoc r0 log w :
  log_events r0 (log ++ [w]) =
  (log_events r0 log ++ [mkEvent (w_type w) (w_obj w) (r0 + length log + 1)%Z (w_gvr w)])%list.
Proof. unfold log_events. rewrite imap_app. simpl. by rewrite Nat.add_0_r. Qed.

Lemma drop_snoc_push (cap : nat) (l : list (Event U)) e :
  (0 < cap)%nat →
  push_history cap (drop (length l - cap) l) e =
  drop (S (length l) - cap) (l ++ [e])%list.
Proof.
  intros Hcap. rewrite push_history_eq, length_drop.
  rewrite drop_app_le by (rewrite length_drop; lia).
  rewrite (drop_app_le l) by lia. f_equal. rewrite drop_drop. f_equal. lia.
Qed.

Lemma represents_write s0 s log w :
  wf s → room s → represents s0 s log → valid_write w s →
  represents s0 (apply_write w s) (log ++ [w]).
Proof.
  intros W Hr [Hrv Hobj Hhist Hcap Hres] Hw.
  pose proof (wf_range _ W). pose proof (next_rv_eq s ltac:(lia) Hr) as Hn.
  constructor; autorewrite with las_apply.
  - rewrite Hn, Hrv, length_app. simpl. lia.
  - intros g k. rewrite lookup_apply. unfold replay. rewrite foldl_app. simpl.
    unfold replay_step at 1. by rewrite Hobj.
  - rewrite Hhist, Hcap, log_events_snoc, length_app. simpl.
    rewrite <-(length_log_events (rv s0) log), drop_snoc_push
      by (rewrite <-Hcap; apply (wf_cap _ W)).
    rewrite length_log_events. unfold w_event. rewrite Hn, Hrv.
    by replace (length log + 1)%nat with (S (length log)) by lia.
  - done.
  - done.
Qed.

Lemma watched_nil s0 : watched s0 s0 [].
Proof.
  constructor; [|done]. intros id gsub c0 Hs Hc. unfold delivered, fits, addressed. cbn.
  rewrite decide_True by lia. rewrite take_nil, app_nil_r. destruct c0. split_and!; [done|done|]. intros Hn. lia.
Qed.

Lemma addressed_snoc gsub r0 log w :
  let e := mkEvent (w_type w) (w_obj w) (r0 + length log + 1)%Z (w_gvr w) in
  addressed gsub r0 (log ++ [w]) = (addressed gsub r0 log ++ if decide (w_gvr w = gsub) then [e] else [])%list.
Proof.
  cbv zeta. unfold addressed. rewrite log_events_snoc, filter_app, filter_cons. cbn [ev_GVR].
  by destruct (decide (w_gvr w = gsub)).
Qed.

(** Offering one more event to a channel that took all earlier ones. *)
Lemma delivered_snoc c0 evs e : fits c0 evs →
  offer e (delivered c0 evs) = delivered c0 (evs ++ [e]) ∧
  (full (delivered c0 evs) = false ↔ fits c0 (evs ++ [e])).
Proof.
  unfold delivered, offer, full, fits. cbn [ch_buf ch_closed]. intros Hf.
  assert (length (evs ++ [e])%list = S (length evs)) as Hl by (rewrite length_app; cbn [length]; lia).
  rewrite (take_ge evs) by lia. rewrite length_app. split.
  - case_decide as Hd.
    + rewrite decide_True by lia. rewrite decide_True by lia. rewrite take_ge by lia.
      by rewrite app_assoc.
    + rewrite decide_False by lia. f_equal. rewrite take_app_le by lia. by rewrite take_ge by lia.
  - rewrite bool_decide_eq_false. lia.
Qed.

Lemma delivered_over c0 evs evs' : ¬ fits c0 evs → delivered c0 (evs ++ evs') = delivered c0 evs ∧ ¬ fits c0 (evs ++ evs').
Proof.
  unfold delivered, fits. intros Hf. assert (length (evs ++ evs')%list = length evs + length evs')%nat as Hl by apply length_app.
  rewrite !decide_False by lia.
  rewrite take_app_le by lia. split; [done|lia].
Qed.

Lemma watched_write s0 s log w :
  wf s → room s → represents s0 s log → watched s0 s log → watched s0 (apply_write w s) (log ++ [w]).
Proof.
  intros W Hr R [Hlive Hother]. pose proof (wf_range _ W). pose proof (next_rv_eq s ltac:(lia) Hr) as Hn.
  assert (w_event w s = mkEvent (w_type w) (w_obj w) (rv s0 + length log + 1)%Z (w_gvr w)) as He
    by (unfold w_event; by rewrite Hn, (rep_rv _ _ _ R)).
  constructor; autorewrite with las_apply; rewrite He.
  - intros id gsub c0 Hs Hc. destruct (Hlive id gsub c0 Hs Hc) as (Hch & Hin & Hout).
    rewrite addressed_snoc. set (e := mkEvent _ _ _ _). set (evs := addressed gsub _ _) in *.
    rewrite fan_out_lookup, Hch. cbn [fmap option_fmap option_map].
    destruct (decide (fits c0 evs)) as [Hf|Hf].
    + rewrite (Hin Hf). destruct (delivered_snoc c0 evs e Hf) as [Ho Hfull].
      destruct (decide (w_gvr w = gsub)) as [<-|Hg].
      * rewrite decide_True by done. rewrite Ho. split; [done|].
        split; intros Hf'; [apply map_lookup_filter_Some_2; [by apply Hin|]|apply map_lookup_filter_None_2; right; intros ? Hx].
        all: unfold dropped; cbn [fst snd]; rewrite Hch.
        -- by rewrite (proj2 Hfull Hf'), andb_false_r.
        -- rewrite (Hin Hf) in Hx. injection Hx as <-. rewrite bool_decide_eq_true_2 by done. cbn [andb].
           intros Hx. by apply Hf', Hfull.
      * rewrite decide_False by (intros ->; done). rewrite app_nil_r. split; [done|].
        split; [intros _|done]. apply map_lookup_filter_Some_2; [by apply Hin|].
        unfold dropped. cbn [fst snd ev_GVR e]. by rewrite bool_decide_eq_false_2 by (intros ->; done).
    + rewrite (Hout Hf). destruct (delivered_over c0 evs (if decide (w_gvr w = gsub) then [e] else []) Hf) as [-> Hf'].
      split; [done|]. split; [done|]. intros _. apply map_lookup_filter_None_2. left. by apply Hout.
  - intros id Hs. destruct (Hother id Hs) as [Hc Hn']. rewrite fan_out_lookup, Hc, Hn'. split.
    + by destruct (chans s0 !! id).
    + apply map_lookup_filter_None_2. by left.
Qed.

(** One operation, on a well-formed store with room for a version. *)
Lemma exec_wf o s : wf s → room s → wf (exec o s).1.
Proof.
  intros W Hr. destruct (exec o s) as [s' r] eqn:E. simpl.
  destruct (exec_cases _ _ _ _ E) as [(e & _ & ->)|(w & Hw & -> & _)]; [done|].
  by apply write_wf.
Qed.

Lemma exec_rv o s : wf s → room s → (rv s ≤ rv (exec o s).1 ≤ rv s + 1)%Z.
Proof.
  intros W Hr. pose proof (wf_range _ W). destruct (exec o s) as [s' r] eqn:E. simpl.
  destruct (exec_cases _ _ _ _ E) as [(e & _ & ->)|(w & Hw & -> & _)]; [lia|].
  rewrite rv_apply, next_rv_eq by (done || lia). lia.
Qed.

Lemma run_represents ops s0 s log :
  wf s → represents s0 s log → watched s0 s log → (rv s + length ops < u64_mod)%Z →
  ∃ log', represents s0 (run ops s) (log ++ log') ∧ watched s0 (run ops s) (log ++ log') ∧ wf (run ops s) ∧
          (length log' ≤ length ops)%nat.
Proof.
  revert s log; induction ops as [|o ops IH]; intros s log W R V Hr; simpl.
  { exists []. rewrite app_nil_r. split_and!; [done|done|done|simpl; lia]. }
  simpl in Hr. assert (room s) as Hroom by (unfold room; lia).
  pose proof (exec_wf o s W Hroom) as W'. pose proof (exec_rv o s W Hroom) as Hrv.
  destruct (exec o s) as [s' r] eqn:E. simpl in *.
  destruct (exec_cases _ _ _ _ E) as [(e & _ & ->)|(w & Hw & -> & _)].
  - destruct (IH s log W R V ltac:(lia)) as (log' & ? & ? & ? & ?). exists log'. split_and!; [done..|lia].
  - destruct (IH (apply_write w s) (log ++ [w])%list W' ltac:(by apply represents_write)
      ltac:(by apply watched_write) ltac:(lia)) as (log' & R' & V' & ? & ?).
    exists (w :: log'). rewrite <-app_assoc in R', V'. split_and!; [done..|simpl; lia].
Qed.

(** C1. Event sourcing: after any sequence of operations on a well-formed
    store whose history is empty, the content is the replay of a log of
    committed writes, the resourceVersion counts them, the history is the
    log's most recent [histCap] events with consecutive versions, and the
    channel of each watcher the store had has received exactly the log's events
    of its resource, in order, up to the first that did not fit, which closed it
    and ended its subscription. *)
Theorem store_refines_log ops s0 :
  wf s0 → history s0 = [] → (rv s0 + length ops < u64_mod)%Z →
  ∃ log, represents s0 (run ops s0) log ∧ watched s0 (run ops s0) log ∧ wf (run ops s0) ∧
         (length log ≤ length ops)%nat.
Proof.
  intros W Hh Hr. assert (represents s0 s0 []) as R.
  { constructor; rewrite ?Hh; try done; simpl; lia. }
  destruct (run_represents ops s0 s0 [] W R (watched_nil s0) Hr) as (log & ? & ? & ? & ?). by exists log.
Qed.

(** ** Optimistic concurrency *)

(** C2. No lost update: of two writers that read the same object, once one
    has committed the other's update is refused with a conflict and changes
    nothing. *)
Theorem no_lost_update g rm old u1 u2 st1 st2 s s1 v :
  wf s → room s → resources s !! g = Some rm →
  let k u := key (namespaced rm) (if namespaced rm then GetNamespace u else "") (GetName u) in
  k u1 = k u2 → lookup_obj s g (k u1) = Some old →
  GetResourceVersion u2 = GetResourceVersion old →
  Update g u1 st1 s = (s1, Ok v) →
  Update g u2 st2 s1 = (s1, Err (Conflict (groupRes rm) (GetName u2))).
Proof.
  intros W Hr Hg k Hk Hold Hrv E.
  apply Update_cases in E as [(e & ? & _)|(rm' & old' & Hm & Hl & _ & _ & [= ->] & ->)]; [done|].
  apply meta_ok in Hm. assert (rm' = rm) as -> by congruence.
  unfold Update, meta. rewrite resources_apply, Hg, lookup_apply. simpl.
  fold (k u1) (k u2). rewrite decide_True by done. unfold rv_precondition.
  rewrite bool_decide_false; [done|]. rewrite Hrv. uget_simpl.
  destruct (wf_obj _ W _ _ _ Hold) as (_ & n & Hn & Hf). uget_unfold.
  pose proof (wf_range _ W). rewrite Hf, next_rv_eq by (done || lia).
  intros [Hempty|Heq]; [by eapply format_uint_nonempty|].
  apply format_uint_inj in Heq; lia.
Qed.
(** ** Read your writes *)

Lemma Get_apply w s g ns name rm :
  resources s !! g = Some rm →
  Get g ns name (apply_write w s) =
    of_opt (NotFound (groupRes rm) name)
      (if decide (w_gvr w = g ∧ w_key w = key (namespaced rm) ns name)
       then w_result w else lookup_obj s g (key (namespaced rm) ns name)).
Proof. intros Hg. unfold Get, meta. by rewrite resources_apply, Hg, lookup_apply. Qed.

Lemma key_cluster ns ns' name : key false ns name = key false ns' name.
Proof. done. Qed.

Lemma key_if b ns name : key b (if b then ns else "") name = key b ns name.
Proof. by destruct b. Qed.

(** Every operation is visible to the next read of its key and invisible
    to reads of any other key of any resource; a failed operation is
    invisible. *)
Theorem read_your_writes o s s' r g ns name rm :
  resources s !! g = Some rm → exec o s = (s', r) →
  match r with
  | Err _ => Get g ns name s' = Get g ns name s
  | Ok v => ∃ w, s' = apply_write w s ∧ w_obj w = v ∧
      (if decide (w_gvr w = g ∧ w_key w = key (namespaced rm) ns name)
       then Get g ns name s' = of_opt (NotFound (groupRes rm) name) (w_result w)
       else Get g ns name s' = Get g ns name s)
  end.
Proof.
  intros Hg E. destruct (exec_cases _ _ _ _ E) as [(e & -> & ->)|(w & Hw & -> & ->)]; [done|].
  exists w. split_and!; try done. case_decide as Hd.
  - rewrite (Get_apply _ _ _ _ _ rm Hg). by rewrite decide_True.
  - rewrite (Get_apply _ _ _ _ _ rm Hg), decide_False by done.
    unfold Get, meta. by rewrite Hg.
Qed.

(** Create on every branch: an unregistered resource, a missing name and a
    taken key are refused with the matching error and leave the store alone;
    otherwise the object is stored with a fresh version, generation 1, a uid
    and a creation time, keeping those the client supplied. *)
Theorem Create_spec g u s :
  wf s → room s → GetName u ≠ "" →
  match resources s !! g with
  | None => ∃ m, Create g u s = (s, Err (InternalError m))
  | Some rm =>
      let ns := if namespaced rm then GetNamespace u else "" in
      let k := key (namespaced rm) ns (GetName u) in
      match lookup_obj s g k with
      | Some _ => Create g u s = (s, Err (AlreadyExists (groupRes rm) (GetName u)))
      | None => ∃ s' v, Create g u s = (s', Ok v) ∧ lookup_obj s' g k = Some v ∧
          rv s' = (rv s + 1)%Z ∧ GetResourceVersion v = format_uint (rv s + 1) ∧
          GetGeneration v = 1%Z ∧ GetName v = GetName u ∧ GetNamespace v = ns ∧
          GetUID v = (if decide (GetUID u = "") then uid_at (rv s) else GetUID u) ∧
          GetCreationTimestamp v =
            match GetCreationTimestamp u with
            | None => Some (trunc_sec (now_at (rv s))) | t => t end ∧
          SpecOf v = SpecOf u ∧ StatusOf v = StatusOf u
      end
  end.
Proof.
  intros W Hr Hname. pose proof (wf_range _ W). pose proof (next_rv_eq s ltac:(lia) Hr) as Hn.
  unfold Create, meta. destruct (resources s !! g) as [rm|] eqn:Hg; [|by eexists].
  unfold resolve_name.
  assert (GetName (if namespaced rm then u else SetNamespace "" u) = GetName u) as ->.
  { destruct (namespaced rm); [done|]. by uget_simpl. }
  rewrite decide_False by done. simpl. destruct (lookup_obj s g _) eqn:Hl; [done|].
  eexists _, _. split; [done|].
  change (nextRV s).2 with (next_rv s). fold (next_rv s). rewrite Hn.
  split; [exact (eq_trans (lookup_apply (WPut Added g _ _) s g _) (decide_True _ _ (conj eq_refl eq_refl)))|].
  split; [by rewrite <-Hn|].
  unfold stamp_new. destruct (namespaced rm); repeat case_decide; uget_simpl;
    destruct (uget FCreationTimestamp u) eqn:Hc; uget_simpl; rewrite ?Hc; by split_and!.
Qed.
(** The fields a spec update does not take from the request. *)
Definition server_owned (f : field) : bool :=
  match f with
  | FStatus | FUID | FCreationTimestamp | FGeneration | FResourceVersion => true
  | _ => false
  end.

(** The two halves of an update.  On success a status update changes the
    status and the version only; a spec update keeps status, uid and creation
    time, takes every other field from the request, and bumps the generation
    exactly when the spec changed. *)
Theorem Update_halves g u st s s' v rm old :
  resources s !! g = Some rm →
  let ns := if namespaced rm then GetNamespace u else "" in
  lookup_obj s g (key (namespaced rm) ns (GetName u)) = Some old →
  Update g u st s = (s', Ok v) →
  GetResourceVersion v = format_uint (next_rv s) ∧
  (if st then
     StatusOf v = StatusOf u ∧
     ∀ f, f ≠ FStatus → f ≠ FResourceVersion → uget f v = uget f old
   else
     StatusOf v = StatusOf old ∧ GetUID v = GetUID old ∧
     GetCreationTimestamp v = GetCreationTimestamp old ∧
     GetGeneration v = (GetGeneration old + if decide (SpecOf old = SpecOf u) then 0 else 1)%Z ∧
     ∀ f, server_owned f = false → uget f v = uget f u).
Proof.
  intros Hg ns Hold E.
  apply Update_cases in E as [(e & ? & _)|(rm' & old' & Hm & Hl & _ & _ & [= ->] & ->)]; [done|].
  apply meta_ok in Hm. subst ns. simplify_eq. split; [by uget_simpl|].
  unfold mergeForUpdate. destruct st; cbv iota.
  - split; [by uget_simpl|]. intros f ??. uget_unfold. cbv iota.
    by rewrite !get_set_ne.
  - assert (SpecOf (SetStatusField (StatusOf old) (SetCreationTimestamp
      (GetCreationTimestamp old) (SetUID (GetUID old) u))) = SpecOf u) as -> by (by uget_simpl).
    case_decide; uget_simpl; split_and!; try done; try lia.
    all: intros f Hf; rewrite !get_set_ne; [done|by intros ->..].
Qed.

(** ** List *)

(** List returns each stored object of the namespace (of all namespaces,
    when none is given) that matches the selectors, exactly once, and the
    version the snapshot was taken at. *)
Theorem List_sound_complete g ns matches s rm lr :
  resources s !! g = Some rm → List g ns matches s = Ok lr →
  lr_RV lr = rv s ∧
  (∃ l, l ≡ₚ map_to_list (objects s g) ∧
     lr_Items lr = filter (λ u, matches u = true ∧
       (namespaced rm = true → ns ≠ "" → GetNamespace u = ns)) l.*2) ∧
  (∀ u, u ∈ lr_Items lr ↔
     (∃ k, lookup_obj s g k = Some u) ∧ matches u = true ∧
     (namespaced rm = true → ns ≠ "" → GetNamespace u = ns)).
Proof.
  intros Hg. unfold List, meta. rewrite Hg. intros [= <-]. simpl. split; [done|].
  assert (Hkeep : ∀ u,
    (if namespaced rm && bool_decide (ns ≠ "") && bool_decide (GetNamespace u ≠ ns)
     then false else matches u) = true ↔
    matches u = true ∧ (namespaced rm = true → ns ≠ "" → GetNamespace u = ns)).
  { intros u. destruct (namespaced rm); simpl; [|naive_solver].
    repeat case_bool_decide; simpl; naive_solver. }
  split.
  - exists (range_map (objects s g)). split; [apply range_map_perm|].
    by apply list_filter_iff.
  - intros u. rewrite list_elem_of_filter, Hkeep, range_map_perm.
    rewrite list_elem_of_fmap. split.
    + intros [? ([k u'] & -> & Hu%elem_of_map_to_list)]. simpl in *. eauto.
    + intros [(k & Hk) ?]. split; [done|]. exists (k, u). split; [done|].
      by apply elem_of_map_to_list.
Qed.

(** ** Generated names *)

Lemma randSuffix_length n draw : String.length (randSuffix n draw) = n.
Proof.
  unfold randSuffix, of_chars.
  assert (∀ l, String.length (String.string_of_list_ascii l) = length l) as ->.
  { induction l; simpl; congruence. }
  by rewrite length_map, length_seq.
Qed.

(** A loop that returns has skipped exactly the taken draws. *)
Lemma gen_loop_spec s g rm ns prefix fuel a n :
  gen_loop s g rm ns prefix fuel a = Some n →
  ∃ j, (a ≤ j < a + fuel)%nat ∧ n = name_candidate s prefix j ∧
       lookup_obj s g (key (namespaced rm) ns n) = None ∧
       ∀ i, (a ≤ i < j)%nat → is_Some (lookup_obj s g (key (namespaced rm) ns (name_candidate s prefix i))).
Proof.
  revert a; induction fuel as [|fuel IH]; intros a Hgen; [done|]. simpl in Hgen.
  destruct (lookup_obj s g (key (namespaced rm) ns (name_candidate s prefix a))) eqn:E.
  - apply IH in Hgen as (j & ? & ? & ? & Hb). exists j. split_and!; [lia|lia|done|done|].
    intros i Hi. destruct (decide (i = a)) as [->|]; [eauto|apply Hb; lia].
  - injection Hgen as <-. exists a. split_and!; [lia|lia|done|done|]. intros i Hi. lia.
Qed.

Lemma gen_loop_total s g rm ns prefix fuel a j :
  (a ≤ j < a + fuel)%nat →
  lookup_obj s g (key (namespaced rm) ns (name_candidate s prefix j)) = None →
  is_Some (gen_loop s g rm ns prefix fuel a).
Proof.
  revert a; induction fuel as [|fuel IH]; intros a Hj Hn; [lia|]. simpl.
  destruct (lookup_obj s g (key (namespaced rm) ns (name_candidate s prefix a))) eqn:E; [|eauto].
  apply IH; [|done]. destruct (decide (a = j)) as [->|]; [congruence|lia].
Qed.

(** C40. generateUniqueName terminates as soon as one of the random draws is
    free, and returns the first free one: every earlier draw is taken.  It is the
    prefix followed by five characters, and no object of the namespace has that
    name. *)
Theorem generateUniqueName_spec s g rm ns prefix j :
  let taken i := is_Some (lookup_obj s g (key (namespaced rm) ns (name_candidate s prefix i))) in
  (j < gen_fuel)%nat → ¬ taken j →
  ∃ i suffix, (i ≤ j)%nat ∧ generateUniqueName s g rm ns prefix = Some (name_candidate s prefix i) ∧
    (∀ i', (i' < i)%nat → taken i') ∧ ¬ taken i ∧
    name_candidate s prefix i = prefix +:+ suffix ∧ String.length suffix = 5%nat.
Proof.
  cbv zeta. intros Hj Hfree. rewrite <-eq_None_not_Some in Hfree.
  destruct (gen_loop_total s g rm ns prefix gen_fuel 0 j) as [n Hn]; [lia|done|].
  destruct (gen_loop_spec _ _ _ _ _ _ _ _ Hn) as (i & _ & -> & Hf & Hb).
  exists i. eexists. split_and!; [|exact Hn| | |reflexivity|apply randSuffix_length].
  - destruct (decide (i ≤ j)%nat) as [|Hij]; [done|]. destruct (Hb j) as [x Hx]; [lia|]. congruence.
  - intros i' Hi. apply Hb. lia.
  - rewrite Hf. by intros [? ?].
Qed.

(** ** Keys and names *)

(** An object sits under the key of its own namespace and name. *)
Definition keyed s : Prop := ∀ g k u rm,
  lookup_obj s g k = Some u → resources s !! g = Some rm →
  k = key (namespaced rm) (GetNamespace u) (GetName u).

(** A patch document that keeps the object's name and namespace. *)
Definition keeps_name (o : op) : Prop :=
  match o with
  | OpPatch _ _ _ ty d st => st = true ∨ ∀ old oldJSON pj patched,
      MarshalJSON old = Some oldJSON → patch_document ty oldJSON d = Ok pj →
      UnmarshalJSON pj = Some patched →
      GetName patched = GetName old ∧ GetNamespace patched = GetNamespace old
  | _ => True
  end.

Lemma merge_status_name old u :
  GetName (mergeForUpdate old u true) = GetName old ∧
  GetNamespace (mergeForUpdate old u true) = GetNamespace old.
Proof. unfold mergeForUpdate. by uget_simpl. Qed.

Lemma merge_spec_name old u :
  GetName (mergeForUpdate old u false) = GetName u ∧
  GetNamespace (mergeForUpdate old u false) = GetNamespace u.
Proof. unfold mergeForUpdate. case_decide; by uget_simpl. Qed.

Lemma keyed_put s w rm :
  keyed s → resources s !! w_gvr w = Some rm →
  (∀ u, w_result w = Some u → w_key w = key (namespaced rm) (GetNamespace u) (GetName u)) →
  keyed (apply_write w s).
Proof.
  intros K Hg Hw g k u rm'. rewrite lookup_apply, resources_apply. case_decide as Hd.
  - destruct Hd as [<- <-]. intros Hu Hrm. simplify_eq. auto.
  - apply K.
Qed.

Lemma stamp_new_name r0 r u :
  GetName (stamp_new r0 r u) = GetName u ∧ GetNamespace (stamp_new r0 r u) = GetNamespace u.
Proof. unfold stamp_new. case_decide; case_match; by uget_simpl. Qed.

Lemma resolve_name_spec s g rm ns u name u1 :
  resolve_name s g rm ns u = Ok (name, u1) →
  GetName u1 = name ∧ GetNamespace u1 = GetNamespace u.
Proof.
  unfold resolve_name. repeat case_decide; [done| |naive_solver].
  destruct (generateUniqueName _ _ _ _ _); [|done]. intros [= <- <-]. by uget_simpl.
Qed.
Lemma exec_keyed o s : keyed s → keeps_name o → keyed (exec o s).1.
Proof.
  intros K Ho. destruct (exec o s) as [s' r] eqn:E. simpl.
  destruct o as [g u|g u st|g ns name|g ns name ty d st]; simpl in E.
  - apply Create_cases in E as [(?&_&->)|(rm&name&u1&Hm&Hn&_&_&->)]; [done|].
    apply meta_ok in Hm. apply (keyed_put _ _ rm); [done|done|].
    intros v [= <-]. simpl. rewrite (proj1 (stamp_new_name _ _ _)), (proj2 (stamp_new_name _ _ _)).
    apply resolve_name_spec in Hn as [-> ->]. destruct (namespaced rm); [done|]. by uget_simpl.
  - apply Update_cases in E as [(?&_&->)|(rm&old&Hm&Hl&_&_&_&->)]; [done|].
    apply meta_ok in Hm. apply (keyed_put _ _ rm); [done|done|].
    intros v [= <-]. simpl. uget_simpl. rewrite key_if in *.
    destruct st.
    + destruct (merge_status_name old u) as [En Ens]. uget_unfold. rewrite En, Ens.
      exact (K _ _ _ _ Hl Hm).
    + destruct (merge_spec_name old u) as [En Ens]. uget_unfold. by rewrite En, Ens.
  - apply delete_cases in E as [(?&_&->)|(rm&old&Hm&_&_&_&->)]; [done|].
    apply meta_ok in Hm. by apply (keyed_put _ _ rm).
  - unfold Patch in E. destruct (meta s g) as [rm|] eqn:Hm; [|by simplify_eq].
    apply meta_ok in Hm. destruct (lookup_obj s g _) as [old|] eqn:Hl; [|by simplify_eq].
    destruct (MarshalJSON old) as [oj|] eqn:Hoj; [|by simplify_eq].
    destruct (patch_document ty oj d) as [pj|] eqn:Hpj; [|by simplify_eq].
    destruct (UnmarshalJSON pj) as [patched|] eqn:Hpd; [|by simplify_eq].
    destruct (rv_precondition patched old); [|by simplify_eq]. injection E as <- _.
    match goal with |- keyed (emitLocked _ (putLocked _ ?k ?v _ _)) =>
      change (keyed (apply_write (WPut Modified g k v) s)) end.
    apply (keyed_put _ _ rm); [done|done|]. intros v [= <-]. simpl.
    uget_simpl. pose proof (K _ _ _ rm Hl Hm) as Hk. rewrite Hk. uget_unfold. destruct st.
    + destruct (merge_status_name old patched) as [En Ens]. uget_unfold. by rewrite En, Ens.
    + destruct Ho as [?|Ho]; [done|].
      destruct (Ho _ _ _ _ Hoj Hpj Hpd) as [Hn Hns].
      destruct (merge_spec_name old patched) as [En Ens]. uget_unfold.
      by rewrite En, Ens, Hn, Hns.
Qed.

(** Keys agree with names: every operation preserves the fact that an
    object sits under the key made of its own namespace and name, provided a
    spec patch keeps the two fields. *)
Theorem keys_agree o s : keyed s → keeps_name o → keyed (exec o s).1.
Proof. apply exec_keyed. Qed.

Lemma key_inj ns ns' n n' :
  no_byte slash ns = true → no_byte slash ns' = true →
  key true ns n = key true ns' n' → ns = ns' ∧ n = n'.
Proof.
  unfold key. intros Hns Hns' E. apply (f_equal (cut slash)) in E.
  rewrite !cut_sep in E by done. by apply (inj Some), pair_eq in E.
Qed.

(** The object a read returns is the one asked for. *)
Lemma Get_named g ns name s rm u :
  keyed s → resources s !! g = Some rm → Get g ns name s = Ok u →
  no_byte slash ns = true → no_byte slash (GetNamespace u) = true →
  GetName u = name ∧ (namespaced rm = true → GetNamespace u = ns).
Proof.
  intros K Hg. unfold Get, meta. rewrite Hg.
  destruct (lookup_obj s g _) as [u'|] eqn:Hl; simpl; [|done]. intros [= <-] Hns Hu.
  pose proof (K _ _ _ _ Hl Hg) as Hk. destruct (namespaced rm).
  - apply key_inj in Hk as [-> ->]; done.
  - unfold key in Hk. injection Hk as ->. done.
Qed.
End spec.

(** ** Witnesses *)

Definition demo_ops : list (op (U := cobj)) := [
  OpCreate PodGVR (demo_obj "Pod" "default" "a" "");
  OpUpdate PodGVR (demo_obj "Pod" "default" "a" "7") false;
  OpUpdate PodGVR (demo_obj "Pod" "default" "a" "1") false;
  OpDelete PodGVR "default" "a"].

(** A store with one fresh subscription and no other. *)
Definition one_watcher (g : GVR) (s : Store cobj demo_db) : Store cobj demo_db :=
  mkStore (data s) (resources s) (rv s) (history s) (histCap s) {[0 := g]} {[0 := mkChan [] false]} 1 (persist s).

Lemma one_watcher_wf g s : wf s → wf (one_watcher g s).
Proof.
  intros [? ? ? ? ? ? ? ? _ _]. constructor; cbn [subs chans nextSub one_watcher]; try assumption.
  - intros id g' [<- <-]%lookup_singleton_Some. by eexists.
  - intros id c [<- <-]%lookup_singleton_Some. cbn. lia.
Qed.

(** The fresh store with a watcher of the pods. *)
Definition demo_watched : Store cobj demo_db := one_watcher PodGVR demo_store.

(** The refused update leaves no event. *)
Lemma store_refines_log_witness :
  rv (run demo_ops demo_watched) = 3%Z ∧
  ∃ log, represents demo_watched (run demo_ops demo_watched) log ∧ (length log ≤ 4)%nat ∧
    chans (run demo_ops demo_watched) !! 0 = Some (delivered (mkChan [] false) (addressed PodGVR 0 log)) ∧
    (λ c, ev_Type <$> ch_buf c) <$> chans (run demo_ops demo_watched) !! 0 = Some [Added; Modified; Deleted].
Proof.
  split; [vm_compute; reflexivity|].
  destruct (store_refines_log demo_ops demo_watched (one_watcher_wf PodGVR _ demo_store_wf)) as (log & R & V & _ & Hl);
    [reflexivity|vm_compute; reflexivity|].
  exists log. split; [exact R|]. split; [exact Hl|]. split; [|vm_compute; reflexivity].
  apply (wt_chan _ _ _ V 0 PodGVR (mkChan [] false)); reflexivity.
Defined.

(** A store holding the pod [default/a] at version 1. *)
Definition demo_pod_store : Store cobj demo_db :=
  (Create PodGVR (demo_obj "Pod" "default" "a" "") demo_store).1.

Lemma demo_pod_store_wf : wf demo_pod_store.
Proof.
  apply (exec_wf (OpCreate PodGVR (demo_obj "Pod" "default" "a" "")) demo_store demo_store_wf).
  vm_compute. reflexivity.
Qed.

Definition demo_meta (g : GVR) (b : bool) : resourceMeta := mkMeta b (GVR.GroupResource g).

(** The result of a concrete operation. *)
Definition demo_ok {W} (p : W * res api_error cobj) : cobj := default new_obj (ok_val p.2).

Lemma demo_ok_pair {W} (p : W * res api_error cobj) : is_ok p.2 = true → p = (p.1, Ok (demo_ok p)).
Proof. apply ok_pair. Qed.

Lemma no_lost_update_witness :
  let u := demo_obj "Pod" "default" "a" "1" in
  let s1 := (Update PodGVR u false demo_pod_store).1 in
  Update PodGVR u true s1 = (s1, Err (Conflict (groupRes (demo_meta PodGVR true)) (GetName u))).
Proof.
  intros u s1.
  apply (no_lost_update PodGVR (demo_meta PodGVR true) (demo_ok (Create PodGVR (demo_obj "Pod" "default" "a" "") demo_store))
    u u false true demo_pod_store s1 (demo_ok (Update PodGVR u false demo_pod_store)) demo_pod_store_wf).
  - vm_compute. reflexivity.
  - vm_compute. reflexivity.
  - reflexivity.
  - vm_compute. reflexivity.
  - vm_compute. reflexivity.
  - apply (demo_ok_pair (Update PodGVR u false demo_pod_store)). vm_compute. reflexivity.
Defined.

Ltac demo_solve :=
  first [apply pair_snd; vm_compute; reflexivity | vm_compute; reflexivity].

Lemma read_your_writes_witness :
  let o := OpDelete PodGVR "default" "a" in
  let s' := (exec o demo_pod_store).1 in
  Get PodGVR "default" "a" s' = Err (NotFound (mkGR "" "pods") "a") ∧
  ∃ w, s' = apply_write w demo_pod_store ∧ w_obj w = demo_ok (exec o demo_pod_store) ∧
    (if decide (w_gvr w = PodGVR ∧ w_key w = key true "default" "a")
     then Get PodGVR "default" "a" s' = of_opt (NotFound (mkGR "" "pods") "a") (w_result w)
     else Get PodGVR "default" "a" s' = Get PodGVR "default" "a" demo_pod_store).
Proof.
  intros o s'. split; [vm_compute; reflexivity|].
  apply (read_your_writes o demo_pod_store s' (Ok (demo_ok (exec o demo_pod_store)))
           PodGVR "default" "a" (demo_meta PodGVR true)); demo_solve.
Defined.

Lemma Create_spec_witness :
  let u := demo_obj "Pod" "default" "b" "" in
  ∃ s' v, Create PodGVR u demo_pod_store = (s', Ok v) ∧
    lookup_obj s' PodGVR "default/b" = Some v ∧ GetGeneration v = 1%Z ∧ GetUID v = "uid-1".
Proof.
  intros u.
  assert (room demo_pod_store) as Hroom by (vm_compute; reflexivity).
  pose proof (Create_spec PodGVR u demo_pod_store demo_pod_store_wf Hroom ltac:(discriminate)) as Hc.
  cbv zeta in Hc.
  replace (resources demo_pod_store !! PodGVR) with (Some (demo_meta PodGVR true)) in Hc
    by (vm_compute; reflexivity).
  replace (lookup_obj demo_pod_store PodGVR _) with (@None cobj) in Hc by (vm_compute; reflexivity).
  destruct Hc as (s' & v & Hcr & Hl & _ & _ & Hg & _ & _ & Hu & _).
  exists s', v. split_and!; [exact Hcr|exact Hl|exact Hg|rewrite Hu; vm_compute; reflexivity].
Defined.

Lemma Update_halves_witness :
  let u := demo_obj "Pod" "default" "a" "1" in
  let r := Update PodGVR u true demo_pod_store in
  GetResourceVersion (demo_ok r) = format_uint (next_rv demo_pod_store) ∧
  StatusOf (demo_ok r) = StatusOf u ∧
  ∀ f, f ≠ FStatus → f ≠ FResourceVersion →
    uget f (demo_ok r) = uget f (demo_ok (Create PodGVR (demo_obj "Pod" "default" "a" "") demo_store)).
Proof.
  intros u r.
  apply (Update_halves PodGVR u true demo_pod_store r.1 (demo_ok r) (demo_meta PodGVR true)); demo_solve.
Defined.

Lemma List_witness :
  let lr := mkListResult [demo_ok (Create PodGVR (demo_obj "Pod" "default" "a" "") demo_store)] 1 in
  lr_RV lr = 1%Z ∧
  ∀ u, u ∈ lr_Items lr ↔
    (∃ k, lookup_obj demo_pod_store PodGVR k = Some u) ∧ true = true ∧
    (true = true → "default" ≠ "" → GetNamespace u = "default").
Proof.
  intros lr.
  destruct (List_sound_complete PodGVR "default" (λ _, true) demo_pod_store (demo_meta PodGVR true) lr)
    as (H1 & _ & H2); [vm_compute; reflexivity|vm_compute; reflexivity|].
  split; [vm_compute; reflexivity|exact H2].
Defined.

Lemma generateUniqueName_witness :
  ∃ suffix, generateUniqueName demo_pod_store PodGVR (demo_meta PodGVR true) "default" "a-" = Some ("a-" +:+ suffix) ∧
    String.length suffix = 5%nat.
Proof.
  destruct (generateUniqueName_spec demo_pod_store PodGVR (demo_meta PodGVR true) "default" "a-" 0)
    as (i & suffix & _ & Hg & _ & _ & Hc & Hl); [simpl; lia|vm_compute; by intros [? ?]|].
  exists suffix. split; [|exact Hl]. rewrite <-Hc. exact Hg.
Defined.

Lemma demo_pod_store_keyed : keyed demo_pod_store.
Proof.
  apply (exec_keyed (OpCreate PodGVR (demo_obj "Pod" "default" "a" "")) demo_store); [|exact I].
  intros g k u rm Hl. exfalso. revert Hl. unfold demo_store.
  assert (∀ rs s, (∀ g k, lookup_obj s g k = None) →
            lookup_obj (RegisterAll rs s) g k = @None cobj) as ->; [|done|done].
  induction rs as [|x rs IH]; intros s Hs; simpl; [done|]. apply IH. intros. by rewrite lookup_Register.
Defined.

Lemma keys_agree_witness :
  keyed (exec (OpUpdate PodGVR (demo_obj "Pod" "default" "a" "1") false) demo_pod_store).1.
Proof. apply keys_agree; [exact demo_pod_store_keyed|exact I]. Defined.

(** ** A spec patch may rename an object *)

(** The patch path stores the patched document under the key of the request
    without comparing the names: a merge patch of [metadata.name] leaves an
    object called [b] under the key of [a]. *)
Definition rename_patch : string :=
  default "" (MarshalJSON (demo_obj "Pod" "default" "b" "")).

Definition renamed_store : Store cobj demo_db :=
  (Patch PodGVR "default" "a" MergePatchType rename_patch false demo_pod_store).1.

(** Patch does not preserve the agreement of keys and names: after a merge
    patch of the name, reading [a] returns an object named [b], and reading [b]
    finds nothing. *)
Theorem Patch_can_rename :
  keyed demo_pod_store ∧ ¬ keyed renamed_store ∧
  (GetName <$> ok_val (Get PodGVR "default" "a" renamed_store)) = Some "b" ∧
  Get PodGVR "default" "b" renamed_store = Err (NotFound (mkGR "" "pods") "b").
Proof.
  split_and!; [exact demo_pod_store_keyed| |vm_compute; reflexivity|vm_compute; reflexivity].
  intros K.
  pose (u := demo_ok (Patch PodGVR "default" "a" MergePatchType rename_patch false demo_pod_store)).
  assert (lookup_obj renamed_store PodGVR "default/a" = Some u) as Hl by (vm_compute; reflexivity).
  assert (resources renamed_store !! PodGVR = Some (demo_meta PodGVR true)) as Hr
    by (vm_compute; reflexivity).
  pose proof (K _ _ _ _ Hl Hr) as Hk. revert Hk. vm_compute. discriminate.
Qed.
