(* ===== verification/Watch.v ===== *)
(** [internal/store/watch.go]: watches.

    [Watch] computes the bootstrap events and registers a subscription in one
    critical section; the goroutine [pump] then delivers the bootstrap and the
    live events of the subscription's channel, filtered.  A watch in progress is
    a [pump_state]; the goroutine's turns are [pump_next], interleaved with the
    store's transitions in [wstep]. *)

From S2P Require Import Prelude GoStrings K8s Apis Selectors Store StoreFacts Patch Persist.
From S2P Require Import StoreSpec Concrete.
Local Open Scope string_scope.

Record WatchOptions `{SelectorLib} := mkWatchOptions {
  wo_Namespace : string;
  wo_Selectors : Selectors;
  wo_StartRV : Z;
  wo_HasStartRV : bool;
}.

Section watch.
Context {U P : Type} `{UnstructuredLaws U} `{Codec U} `{Persister P}.
Context `{Oracle} `{GoRuntime} `{PatchLib} `{SelectorLib}.
Implicit Types (s : Store U P) (g : GVR) (k : string) (u : U).

(** The goroutine's variables: its subscription, the bootstrap events still to
    deliver, and what it has sent on [out]. *)
Record pump_state := mkPump {
  p_id : nat;
  p_gvr : GVR;
  p_boot : list (Event U);
  p_currentRV : Z;
  p_opts : WatchOptions;
  p_namespaced : bool;
  p_out : list (Event U);
  p_done : bool;
}.

Definition oldestHistoryRV s : Z :=
  match history s with [] => 0%Z | e :: _ => ev_RV e end.

Definition replayFromHistory (opts : WatchOptions) s : bool :=
  wo_HasStartRV opts && (0 <? wo_StartRV opts)%Z &&
  ((oldestHistoryRV s <=? wo_StartRV opts)%Z || bool_decide (history s = [])).

(** The snapshot branch's test on a stored object. *)
Definition snapshot_skips (nsd : bool) (opts : WatchOptions) u : bool :=
  (nsd && bool_decide (wo_Namespace opts ≠ "") &&
     bool_decide (GetNamespace u ≠ wo_Namespace opts)) ||
  (wo_HasStartRV opts && (0 <? wo_StartRV opts)%Z &&
     (parseRV (GetResourceVersion u) <=? wo_StartRV opts)%Z).

Definition bootstrap g (nsd : bool) (opts : WatchOptions) s : list (Event U) :=
  if replayFromHistory opts s
  then filter (λ e, (wo_StartRV opts < ev_RV e)%Z ∧ ev_GVR e = g) (history s)
  else map (λ u, mkEvent Added u (parseRV (GetResourceVersion u)) g)
         (filter (λ u, snapshot_skips nsd opts u = false) (range_map (objects s g)).*2).

Definition subscribe g s : Store U P :=
  mkStore (data s) (resources s) (rv s) (history s) (histCap s)
    (<[nextSub s := g]> (subs s)) (<[nextSub s := mkChan [] false]> (chans s))
    (S (nextSub s)) (persist s).

Definition Watch g (opts : WatchOptions) s : Store U P * res api_error pump_state :=
  match meta s g with
  | Err e => (s, Err e)
  | Ok rm =>
      (subscribe g s,
       Ok (mkPump (nextSub s) g (bootstrap g (namespaced rm) opts s) (rv s) opts
             (namespaced rm) [] false))
  end.

(** *** pump *)

Definition match_event (p : pump_state) (e : Event U) : bool :=
  if p_namespaced p && bool_decide (wo_Namespace (p_opts p) ≠ "") &&
     bool_decide (GetNamespace (ev_Object e) ≠ wo_Namespace (p_opts p))
  then false else Matches (wo_Selectors (p_opts p)) (ev_Object e).

Definition removeSub (id : nat) s : Store U P :=
  mkStore (data s) (resources s) (rv s) (history s) (histCap s)
    (delete id (subs s)) (chans s) (nextSub s) (persist s).

Definition with_chan (id : nat) (c : chan U) s : Store U P :=
  mkStore (data s) (resources s) (rv s) (history s) (histCap s)
    (subs s) (<[id := c]> (chans s)) (nextSub s) (persist s).

Definition send (p : pump_state) (e : Event U) : pump_state :=
  mkPump (p_id p) (p_gvr p) (p_boot p) (p_currentRV p) (p_opts p) (p_namespaced p)
    (p_out p ++ [e])%list (p_done p).
Definition set_boot (p : pump_state) (b : list (Event U)) : pump_state :=
  mkPump (p_id p) (p_gvr p) b (p_currentRV p) (p_opts p) (p_namespaced p)
    (p_out p) (p_done p).
Definition finish (p : pump_state) : pump_state :=
  mkPump (p_id p) (p_gvr p) (p_boot p) (p_currentRV p) (p_opts p) (p_namespaced p)
    (p_out p) true.

(** One turn of the goroutine; [None] when it has returned or blocks on an
    empty open channel.  A closed channel is drained before it reads as
    closed. *)
Definition pump_next (p : pump_state) s : option (pump_state * Store U P) :=
  if p_done p then None
  else match p_boot p with
  | e :: rest =>
      let p' := set_boot p rest in
      Some (if match_event p e then send p' e else p', s)
  | [] =>
      match chans s !! p_id p with
      | Some (mkChan (e :: buf) closed) =>
          let s' := with_chan (p_id p) (mkChan buf closed) s in
          Some (if (ev_RV e <=? p_currentRV p)%Z then p
                else if match_event p e then send p e else p, s')
      | Some (mkChan [] true) => Some (finish p, removeSub (p_id p) s)
      | _ => None
      end
  end.

(** [ctx.Done()]: the goroutine returns from any of its selects. *)
Definition pump_cancel (p : pump_state) s : pump_state * Store U P :=
  (finish p, removeSub (p_id p) s).

(** *** Interleavings of one watch with the rest of the program

    The ghost component is the log of the writes committed since [Watch]. *)
Inductive wstep : (Store U P * pump_state * list (write U)) →
                  (Store U P * pump_state * list (write U)) → Prop :=
| step_write s p log w : room s → valid_write w s →
    wstep (s, p, log) (apply_write w s, p, (log ++ [w])%list)
| step_pump s p log s' p' : pump_next p s = Some (p', s') →
    wstep (s, p, log) (s', p', log)
| step_cancel s p log s' p' : p_done p = false → pump_cancel p s = (p', s') →
    wstep (s, p, log) (s', p', log)
(** other watches come, take from their channels and go *)
| step_other s p log g : wstep (s, p, log) (subscribe g s, p, log)
| step_other_take s p log id e buf c : id ≠ p_id p →
    chans s !! id = Some (mkChan (e :: buf) c) →
    wstep (s, p, log) (with_chan id (mkChan buf c) s, p, log)
| step_other_gone s p log id : id ≠ p_id p → wstep (s, p, log) (removeSub id s, p, log).

Inductive wreach (c0 : Store U P * pump_state * list (write U)) :
  (Store U P * pump_state * list (write U)) → Prop :=
| wreach_refl : wreach c0 c0
| wreach_step c c' : wreach c0 c → wstep c c' → wreach c0 c'.

(** The live events of the watched resource in a log started at version [r0]. *)
Definition live_events (p : pump_state) (log : list (write U)) : list (Event U) :=
  filter (λ e, ev_GVR e = p_gvr p) (log_events (p_currentRV p) log).

Definition wanted (p : pump_state) (l : list (Event U)) : list (Event U) :=
  filter (λ e, match_event p e = true) l.

(** *** The invariant of a watch started with bootstrap [boot0] *)

Record watch_inv (boot0 : list (Event U)) (c : Store U P * pump_state * list (write U)) : Prop := {
  wi_wf : wf c.1.1;
  wi_rv : rv c.1.1 = (p_currentRV c.1.2 + length c.2)%Z;
  (** what was sent, plus what waits in the bootstrap and in the channel, is
      the bootstrap followed by a prefix of the live events: all of them while
      the subscription lives *)
  wi_flow : ∃ ch rest,
    chans c.1.1 !! p_id c.1.2 = Some ch ∧
    Forall (λ e, (p_currentRV c.1.2 < ev_RV e)%Z) (ch_buf ch) ∧
    (p_out c.1.2 ++ wanted c.1.2 (p_boot c.1.2 ++ ch_buf ch) ++ wanted c.1.2 rest =
     wanted c.1.2 (boot0 ++ live_events c.1.2 c.2))%list ∧
    (is_Some (subs c.1.1 !! p_id c.1.2) →
       rest = [] ∧ subs c.1.1 !! p_id c.1.2 = Some (p_gvr c.1.2));
}.
End watch.
