(* ===== verification/WatchSpec.v ===== *)
(** What a watch delivers: the bootstrap and every later event of its resource,
    in order and exactly once; a watch resumed inside the history misses
    nothing; a cache fed by a watch converges to the store; and the starting
    versions for which the resumed watch does miss events. *)

From S2P Require Import Prelude GoStrings K8s Apis Selectors Store StoreFacts Patch Persist.
From S2P Require Import StoreSpec Watch Concrete.
Local Open Scope string_scope.

Section invariant.
Context {U P : Type} `{UnstructuredLaws U} `{Codec U} `{Persister P}.
Context `{Oracle} `{GoRuntime} `{PatchLib} `{SelectorLib}.
Implicit Types (s : Store U P) (g : GVR) (p : pump_state (U := U)) (log : list (write U)).

(** ** Every step preserves well-formedness *)

Lemma subscribe_wf g s : wf s → wf (subscribe g s).
Proof.
  intros W. constructor; try apply W.
  - intros id g' Hid. unfold subscribe in *; simpl in *.
    destruct (decide (nextSub s = id)) as [<-|Hne].
    + exists (mkChan [] false). by rewrite lookup_insert_eq.
    + rewrite lookup_insert_ne in Hid by done. apply (wf_subs _ W) in Hid as (c & ?).
      exists c. by rewrite lookup_insert_ne.
  - intros id c. unfold subscribe; simpl. destruct (decide (nextSub s = id)) as [<-|Hne].
    + rewrite lookup_insert_eq. intros [= <-]. simpl. lia.
    + rewrite lookup_insert_ne by done. intros [??]%(wf_chans _ W). lia.
Qed.

Lemma removeSub_wf id s : wf s → wf (removeSub id s).
Proof.
  intros W. constructor; try apply W.
  intros id' g' Hid. simpl in Hid. apply lookup_delete_Some in Hid as [_ Hid].
  by apply (wf_subs _ W) in Hid.
Qed.

Lemma take_wf id e buf b s :
  wf s → chans s !! id = Some (mkChan (e :: buf) b) → wf (with_chan id (mkChan buf b) s).
Proof.
  intros W Hc. constructor; try apply W.
  - intros id' g' Hid. simpl in *. destruct (wf_subs _ W _ _ Hid) as (c & Hc' & Hop).
    destruct (decide (id = id')) as [<-|Hne].
    + exists (mkChan buf b). rewrite lookup_insert_eq. by simplify_eq.
    + exists c. by rewrite lookup_insert_ne.
  - intros id' c. simpl. destruct (decide (id = id')) as [<-|Hne].
    + rewrite lookup_insert_eq. intros [= <-].
      destruct (wf_chans _ W _ _ Hc). simpl in *. lia.
    + rewrite lookup_insert_ne by done. apply (wf_chans _ W).
Qed.

(** ** The parts of a watch no step changes *)

Record same_watch p p' : Prop := {
  sw_id : p_id p' = p_id p;
  sw_gvr : p_gvr p' = p_gvr p;
  sw_rv : p_currentRV p' = p_currentRV p;
  sw_opts : p_opts p' = p_opts p;
  sw_nsd : p_namespaced p' = p_namespaced p;
}.

Lemma same_match p p' e : same_watch p p' → match_event p' e = match_event p e.
Proof. intros [_ _ _ Ho Hn]. unfold match_event. by rewrite Ho, Hn. Qed.

Lemma same_wanted p p' l : same_watch p p' → wanted p' l = wanted p l.
Proof. intros Hs. apply list_filter_iff. intros e. by rewrite (same_match p p'). Qed.

Lemma same_live p p' log : same_watch p p' → live_events p' log = live_events p log.
Proof. intros [_ Hg Hr _ _]. unfold live_events. by rewrite Hg, Hr. Qed.

Lemma wanted_app p l1 l2 : wanted p (l1 ++ l2) = (wanted p l1 ++ wanted p l2)%list.
Proof. apply filter_app. Qed.

Lemma wanted_cons p e l :
  wanted p (e :: l) = if match_event p e then e :: wanted p l else wanted p l.
Proof.
  unfold wanted. rewrite filter_cons. destruct (match_event p e) eqn:E.
  all: first [by rewrite decide_True | by rewrite decide_False | done].
Qed.

Lemma live_snoc p log w :
  live_events p (log ++ [w]) =
  (live_events p log ++
   if decide (w_gvr w = p_gvr p)
   then [mkEvent (w_type w) (w_obj w) (p_currentRV p + length log + 1)%Z (w_gvr w)]
   else [])%list.
Proof.
  unfold live_events. rewrite log_events_snoc, filter_app. f_equal.
Qed.

(** One turn of the goroutine, case by case. *)
Lemma pump_next_cases p s p' s' :
  pump_next p s = Some (p', s') →
  p_done p = false ∧ same_watch p p' ∧
  ((∃ e rest, p_boot p = e :: rest ∧ s' = s ∧ p_boot p' = rest ∧
      p_out p' = (p_out p ++ wanted p [e])%list) ∨
   (∃ e buf b, p_boot p = [] ∧ chans s !! p_id p = Some (mkChan (e :: buf) b) ∧
      s' = with_chan (p_id p) (mkChan buf b) s ∧ p_boot p' = [] ∧
      p_out p' = (p_out p ++ if decide (ev_RV e ≤ p_currentRV p)%Z then [] else wanted p [e])%list) ∨
   (p_boot p = [] ∧ chans s !! p_id p = Some (mkChan [] true) ∧
      s' = removeSub (p_id p) s ∧ p_boot p' = [] ∧ p_out p' = p_out p)).
Proof.
  unfold pump_next. destruct (p_done p); [done|]. rewrite ?wanted_cons.
  destruct (p_boot p) as [|e rest] eqn:Hb.
  - destruct (chans s !! p_id p) as [[[|e buf] b]|] eqn:Hc; [destruct b| |]; try done.
    + intros [= <- <-]. split_and!; [done|done|]. right; right. simpl. by rewrite ?Hb.
    + intros [= <- <-]. split_and!; [done| |].
      { by repeat case_match. }
      right; left. exists e, buf, b. rewrite wanted_cons.
      destruct (Z.leb_spec (ev_RV e) (p_currentRV p)) as [Hl|Hl].
      * rewrite decide_True, app_nil_r by done. simpl. by rewrite ?Hb.
      * rewrite decide_False by lia. destruct (match_event p e); simpl;
          rewrite ?Hb, ?app_nil_r; done.
  - intros [= <- <-]. split_and!; [done|by case_match|]. left. exists e, rest.
    rewrite wanted_cons. destruct (match_event p e); simpl; rewrite ?app_nil_r; done.
Qed.

(** ** The invariant *)

Lemma watch_inv_start g opts s s1 p :
  wf s → Watch g opts s = (s1, Ok p) → watch_inv (p_boot p) (s1, p, []).
Proof.
  intros W. unfold Watch. destruct (meta s g) as [rm|]; [|done]. intros [= <- <-].
  constructor; simpl.
  - by apply subscribe_wf.
  - lia.
  - exists (mkChan [] false), []. rewrite !lookup_insert_eq. unfold live_events. simpl.
    rewrite ?filter_nil, ?app_nil_r. by split_and!.
Qed.

(** A step that leaves this watch's subscription and channel, and the
    version, alone. *)
Lemma watch_inv_frame boot0 s s' p log :
  watch_inv boot0 (s, p, log) → wf s' → rv s' = rv s →
  chans s' !! p_id p = chans s !! p_id p → subs s' !! p_id p = subs s !! p_id p →
  watch_inv boot0 (s', p, log).
Proof.
  intros [W Hr (ch & rest & Hf)] W' Hrv Hc Hs. simpl in *.
  constructor; simpl; [done|by rewrite Hrv|]. exists ch, rest. by rewrite Hc, Hs.
Qed.

Lemma watch_inv_write boot0 s p log w :
  watch_inv boot0 (s, p, log) → room s → valid_write w s →
  watch_inv boot0 (apply_write w s, p, log ++ [w])%list.
Proof.
  intros [W Hr (ch & rest & Hc & Hbuf & Hflow & Hsub)] Hroom Hw. simpl in *.
  pose proof (wf_range _ W). pose proof (next_rv_eq s ltac:(lia) Hroom) as Hn.
  pose proof (write_wf w s W Hroom Hw) as W'. constructor; simpl.
  - done.
  - rewrite rv_apply, Hn, Hr, length_app. simpl. lia.
  - set (e := w_event w s).
    assert (Hlive : live_events p (log ++ [w]) =
      (live_events p log ++ if decide (w_gvr w = p_gvr p) then [e] else [])%list).
    { rewrite live_snoc. unfold e, w_event. rewrite Hn, Hr.
      by replace (p_currentRV p + length log + 1)%Z with (p_currentRV p + length log + 1)%Z by lia. }
    rewrite Hlive, app_assoc, wanted_app, <-Hflow, chans_apply, fan_out_lookup, Hc.
    assert (ev_GVR e = w_gvr w) as Heg by (by destruct w).
    assert (p_currentRV p < ev_RV e)%Z as Hrve by (simpl; lia).
    destruct (subs s !! p_id p) as [gs|] eqn:Hs.
    + destruct (Hsub (mk_is_Some _ _ eq_refl)) as [-> [= ->]].
      cbn [fmap option_fmap option_map]. fold e. rewrite Heg.
      destruct (decide (w_gvr w = p_gvr p)) as [Hg|Hg].
      * rewrite decide_True by done. unfold offer. case_decide as Hlen.
        -- eexists (mkChan _ _), []. split_and!; [done| | |].
           ++ simpl. apply Forall_app. split; [done|]. by repeat constructor.
           ++ simpl. change (wanted p []) with (@nil (Event U)).
              rewrite !wanted_app, ?app_nil_r, <-!app_assoc. done.
           ++ intros _. split; [done|]. rewrite subs_apply. apply map_lookup_filter_Some.
              split; [done|]. simpl. unfold dropped, full. rewrite Hc.
              rewrite (bool_decide_false (_ ≤ _)%nat) by lia. by rewrite andb_false_r.
        -- eexists (mkChan _ _), [e]. split_and!; [done|done| |].
           ++ simpl. change (wanted p []) with (@nil (Event U)).
              by rewrite ?app_nil_r, <-?app_assoc.
           ++ intros [g' Hg']. exfalso. apply subs_after in Hg' as (Hg1 & c & Hc' & Hlt); [|done].
              simplify_eq. apply Hlen, Hlt. done.
      * rewrite decide_False by done. eexists ch, []. split_and!; [done|done| |].
        -- by rewrite !app_nil_r.
        -- intros _. split; [done|]. rewrite subs_apply. apply map_lookup_filter_Some.
           split; [done|]. simpl. unfold dropped. fold e. rewrite Heg.
           by rewrite bool_decide_false.
    + eexists ch, (rest ++ if decide (w_gvr w = p_gvr p) then [e] else [])%list.
      split_and!; [done|done| |].
      * by rewrite (wanted_app p rest), <-!app_assoc.
      * intros [g' Hg']. exfalso. apply subs_after in Hg' as (Hg' & _); [|done]. congruence.
Qed.

Lemma watch_inv_pump boot0 s p log p' s' :
  watch_inv boot0 (s, p, log) → pump_next p s = Some (p', s') →
  watch_inv boot0 (s', p', log).
Proof.
  intros [W Hr (ch & rest & Hc & Hbuf & Hflow & Hsub)] E. simpl in *.
  apply pump_next_cases in E as (_ & Hsame & Hcases).
  pose proof Hsame as [Hid Hg Hcr _ _].
  assert (Hgoal : ∀ ch', wf s' → rv s' = rv s →
    chans s' !! p_id p = Some ch' → Forall (λ e, (p_currentRV p < ev_RV e)%Z) (ch_buf ch') →
    (is_Some (subs s' !! p_id p) → is_Some (subs s !! p_id p) ∧
       subs s' !! p_id p = subs s !! p_id p) →
    (p_out p' ++ wanted p (p_boot p' ++ ch_buf ch') =
     p_out p ++ wanted p (p_boot p ++ ch_buf ch))%list →
    watch_inv boot0 (s', p', log)).
  { intros ch' W' Hrv Hc' Hb' Hs' Hout. constructor; simpl.
    - done.
    - by rewrite Hrv, Hr, Hcr.
    - exists ch', rest. rewrite Hid, Hcr, Hg. split_and!; [done|done| |].
      + rewrite !(same_wanted p p'), (same_live p p') by done.
        by rewrite app_assoc, Hout, <-app_assoc.
      + intros [? ->]%Hs'. by apply Hsub. }
  destruct Hcases as [(e & r & Hb & -> & Hb' & Ho)|[(e & buf & b & Hb & Hc1 & -> & Hb' & Ho)|
    (Hb & Hc1 & -> & Hb' & Ho)]].
  - apply (Hgoal ch); try done. rewrite Hb', Ho, Hb, <-app_assoc. f_equal.
    by rewrite <-wanted_app.
  - assert (ch = mkChan (e :: buf) b) as -> by congruence. clear Hc1.
    apply Forall_cons in Hbuf as [He Hbuf].
    apply (Hgoal (mkChan buf b)); try done.
    + by apply (take_wf _ e).
    + simpl. by rewrite lookup_insert_eq.
    + rewrite Hb', Ho, Hb, decide_False by lia. simpl. rewrite <-app_assoc. f_equal.
      by rewrite <-wanted_app.
  - apply (Hgoal ch); try done.
    + by apply removeSub_wf.
    + simpl. rewrite lookup_delete_eq. by intros [].
    + by rewrite Hb', Ho, Hb.
Qed.

Lemma watch_inv_step boot0 c c' : watch_inv boot0 c → wstep c c' → watch_inv boot0 c'.
Proof.
  intros I Hst. pose proof I as [W Hr (ch & rest & Hc & Hbuf & Hflow & Hsub)].
  destruct Hst as [s p log w|s p log s' p' E|s p log s' p' _ [= <- <-]|s p log g|s p log id e buf b Hne Hch
    |s p log id Hne]; simpl in *.
  - by apply watch_inv_write.
  - by eapply watch_inv_pump.
  - constructor; simpl; [by apply removeSub_wf|done|].
    exists ch, rest. split_and!; try done. rewrite lookup_delete_eq. by intros [].
  - destruct (wf_chans _ W _ _ Hc). apply (watch_inv_frame boot0 s); try done.
    + by apply subscribe_wf.
    + simpl. rewrite lookup_insert_ne by lia. done.
    + simpl. rewrite lookup_insert_ne by lia. done.
  - apply (watch_inv_frame boot0 s); try done.
    + by apply (take_wf _ e).
    + simpl. by rewrite lookup_insert_ne.
  - apply (watch_inv_frame boot0 s); try done.
    + by apply removeSub_wf.
    + simpl. by rewrite lookup_delete_ne.
Qed.

Lemma wreach_inv boot0 c c' : watch_inv boot0 c → wreach c c' → watch_inv boot0 c'.
Proof. intros I. induction 1; eauto using watch_inv_step. Qed.

(** ** Delivery *)

(** [p] has nothing more to deliver and is still subscribed. *)
Definition drained s p : Prop :=
  is_Some (subs s !! p_id p) ∧ p_boot p = [] ∧
  (ch_buf <$> chans s !! p_id p) = Some [].

Lemma wreach_same p0 c c' :
  wreach c c' → same_watch p0 c.1.2 → same_watch p0 c'.1.2.
Proof.
  intros Hreach Hp0. induction Hreach as [|c1 c2 _ IH Hst]; [done|].
  destruct Hst as [s p log w|s p log s' p' E|s p log s' p' _ [= <- <-]|s p log g'|s p log id e buf b Hne Hch
    |s p log id Hne]; simpl in *; try done.
  - apply pump_next_cases in E as (_ & Hsame & _). destruct IH, Hsame. constructor; congruence.
  - destruct IH. by constructor.
Qed.

Lemma wreach_flow g opts s s1 p s' p' log :
  wf s → Watch g opts s = (s1, Ok p) → wreach (s1, p, []) (s', p', log) →
  watch_inv (p_boot p) (s', p', log) ∧ same_watch p p'.
Proof.
  intros W E Hreach. split.
  - eapply wreach_inv; [by eapply watch_inv_start|done].
  - by apply (wreach_same p _ _ Hreach).
Qed.

(** C6. A watch delivers in order and exactly once: under any interleaving of
    the goroutine with writers, other watches, slow-consumer drops and
    cancellation, what it has sent is a prefix of the matching bootstrap
    events followed by the matching events committed since; it is all of
    them whenever the watch is still subscribed and has nothing pending. *)
Theorem watch_exactly_once g opts s s1 p s' p' log :
  wf s → Watch g opts s = (s1, Ok p) → wreach (s1, p, []) (s', p', log) →
  p_out p' `prefix_of` wanted p (p_boot p ++ live_events p log) ∧
  (drained s' p' → p_out p' = wanted p (p_boot p ++ live_events p log)).
Proof.
  intros W E Hreach. destruct (wreach_flow _ _ _ _ _ _ _ _ W E Hreach)
    as [[_ _ (ch & rest & Hc & _ & Hflow & Hsub)] Hsame]. simpl in *.
  rewrite <-!(same_wanted p p'), <-!(same_live p p') by done. split.
  - rewrite <-Hflow. by eexists.
  - intros (Hs & Hb & Hbuf). rewrite <-Hflow. destruct (Hsub Hs) as [-> _].
    rewrite Hc in Hbuf. simpl in Hbuf. injection Hbuf as ->. rewrite Hb. unfold wanted.
    simpl. by rewrite !filter_nil, !app_nil_r.
Qed.
End invariant.

(** ** Resuming and caching *)

Section clients.
Context {U P : Type} `{UnstructuredLaws U} `{Codec U} `{Persister P}.
Context `{Oracle} `{GoRuntime} `{PatchLib} `{SelectorLib}.
Implicit Types (s : Store U P) (g : GVR) (p : pump_state (U := U)) (log : list (write U)).

Lemma log_events_app r0 (l1 l2 : list (write U)) :
  log_events r0 (l1 ++ l2) = (log_events r0 l1 ++ log_events (r0 + length l1) l2)%list.
Proof.
  unfold log_events. rewrite imap_app. f_equal. apply imap_ext. intros i w _. simpl.
  f_equal. lia.
Qed.

Lemma log_events_RV r0 (log : list (write U)) :
  ev_RV <$> log_events r0 log = seqZ (r0 + 1) (length log).
Proof.
  revert r0; induction log as [|w log IH]; intros r0; [done|].
  change (w :: log) with ([w] ++ log)%list. rewrite log_events_app, fmap_app, IH.
  simpl. rewrite (seqZ_cons (r0 + 1)) by lia. simpl. f_equal; [lia|].
  f_equal; lia.
Qed.

Lemma log_events_above r0 log e : e ∈ log_events r0 log → (r0 < ev_RV e)%Z.
Proof.
  intros He. assert (ev_RV e ∈ ev_RV <$> log_events r0 log) as Hin by set_solver.
  rewrite log_events_RV in Hin. apply elem_of_seqZ in Hin. lia.
Qed.

(** The bootstrap of a resumed watch is what the whole log has to say. *)
Lemma replay_bootstrap s0 s log g nsd opts :
  represents s0 s log → wf s →
  wo_HasStartRV opts = true → (0 < wo_StartRV opts)%Z → history s ≠ [] →
  (oldestHistoryRV s ≤ wo_StartRV opts)%Z →
  bootstrap g nsd opts s =
    filter (λ e, (wo_StartRV opts < ev_RV e)%Z ∧ ev_GVR e = g) (log_events (rv s0) log).
Proof.
  intros R W Hst H0s Hne Hold. unfold bootstrap, replayFromHistory.
  rewrite Hst. rewrite (proj2 (Z.ltb_lt _ _) H0s), (proj2 (Z.leb_le _ _) Hold). simpl.
  set (d := (length log - histCap s0)%nat).
  rewrite <-(take_drop d (log_events (rv s0) log)), filter_app.
  pose proof (rep_hist _ _ _ R) as Hh. fold d in Hh. rewrite <-Hh.
  rewrite (filter_none _ (take d _)); [done|]. intros e He [Hlt _].
  pose proof (wf_hist _ W) as Hw. pose proof (rep_rv _ _ _ R) as Hrv.
  assert (length (history s) = length log - d)%nat as Hlen.
  { by rewrite Hh, length_drop, length_log_events. }
  assert (oldestHistoryRV s = rv s0 + 1 + d)%Z as Ho.
  { unfold oldestHistoryRV. destruct (history s) as [|e0 h]; [done|].
    rewrite fmap_cons, seqZ_cons in Hw by (simpl; lia). simpl in Hw, Hlen.
    injection Hw as -> _. lia. }
  assert (ev_RV e ∈ take d (ev_RV <$> log_events (rv s0) log)) as Hin.
  { rewrite <-fmap_take. by apply list_elem_of_fmap_2. }
  rewrite log_events_RV in Hin. apply elem_of_take in Hin as (i & Hi & Hid).
  apply lookup_seqZ in Hi. lia.
Qed.

(** Resuming inside the history: a watch started at a version [r] between
    the oldest retained event and the present delivers, once drained, exactly
    the matching events of its resource with version above [r], those of the
    past and those committed while it runs. *)
Theorem resumed_watch_complete s0 s log g opts s1 p s' p' log' :
  represents s0 s log → wf s →
  wo_HasStartRV opts = true → (0 < wo_StartRV opts ≤ rv s)%Z → history s ≠ [] →
  (oldestHistoryRV s ≤ wo_StartRV opts)%Z →
  Watch g opts s = (s1, Ok p) → wreach (s1, p, []) (s', p', log') → drained s' p' →
  p_out p' = wanted p (filter (λ e, (wo_StartRV opts < ev_RV e)%Z ∧ ev_GVR e = g)
                         (log_events (rv s0) (log ++ log'))).
Proof.
  intros R W Hst [Hpos Hle] Hne Hold E Hreach Hdr.
  destruct (wreach_flow _ _ _ _ _ _ _ _ W E Hreach)
    as [[_ _ (ch & rest & Hc & _ & Hflow & Hsub)] Hsame]. simpl in *.
  destruct Hdr as (Hs & Hb & Hbuf). destruct (Hsub Hs) as [-> _].
  rewrite Hc in Hbuf. simpl in Hbuf. injection Hbuf as Hbuf. rewrite Hb, Hbuf in Hflow.
  change (wanted p' ([] ++ [])) with (@nil (Event U)) in Hflow.
  change (wanted p' []) with (@nil (Event U)) in Hflow. rewrite !app_nil_r in Hflow.
  rewrite Hflow, (same_wanted p p'), (same_live p p') by done. f_equal.
  rewrite log_events_app, filter_app. unfold Watch in E.
  destruct (meta s g) as [rm|]; [|done]. injection E as <- <-. simpl.
  rewrite (replay_bootstrap s0 s log g (namespaced rm) opts) by done.
  f_equal. unfold live_events. simpl. rewrite <-(rep_rv _ _ _ R).
  apply filter_ext_elem. intros e He%log_events_above.
  split; [intros ->; split; [lia|done]|by intros []].
Qed.
End clients.

(** ** A client cache *)

Section cache.
Context {U P : Type} `{UnstructuredLaws U} `{Codec U} `{Persister P}.
Context `{Oracle} `{GoRuntime} `{PatchLib} `{SelectorLib}.
Implicit Types (s : Store U P) (g : GVR) (p : pump_state (U := U)) (log : list (write U)).

(** What a client that mirrors a resource does with an event. *)
Definition client_apply (nsd : bool) (c : gmap string U) (e : Event U) : gmap string U :=
  let k := key nsd (GetNamespace (ev_Object e)) (GetName (ev_Object e)) in
  match ev_Type e with
  | Deleted => delete k c
  | _ => <[k := ev_Object e]> c
  end.

Definition client_cache nsd (l : list (Event U)) c : gmap string U :=
  foldl (client_apply nsd) c l.

(** The write's key is its object's. *)
Definition well_keyed (nsd : bool) g (w : write U) : Prop :=
  w_gvr w = g → w_key w = key nsd (GetNamespace (w_obj w)) (GetName (w_obj w)).

(** No namespace, no selectors, no starting version. *)
Definition watch_all : WatchOptions := mkWatchOptions _ "" no_selectors 0 false.

Lemma objects_apply w s g :
  objects (apply_write w s) g =
    if decide (w_gvr w = g)
    then match w_result w with
         | Some u => <[w_key w := u]> (objects s g)
         | None => delete (w_key w) (objects s g)
         end
    else objects s g.
Proof.
  apply map_eq. intros k. fold (lookup_obj (apply_write w s) g k). rewrite lookup_apply.
  repeat case_decide; try naive_solver; destruct w; simpl in *;
    rewrite ?lookup_insert, ?lookup_delete, ?decide_True, ?decide_False by naive_solver; done.
Qed.

Lemma client_write w s nsd r :
  valid_write w s → well_keyed nsd (w_gvr w) w →
  client_apply nsd (objects s (w_gvr w)) (mkEvent (w_type w) (w_obj w) r (w_gvr w)) =
  objects (apply_write w s) (w_gvr w).
Proof.
  intros (_ & _ & Hw) Hk. rewrite objects_apply, decide_True by done.
  unfold client_apply. simpl. rewrite <-(Hk eq_refl).
  destruct w as [[] | ]; simpl in *; done.
Qed.

Lemma wreach_objects s1 p c g nsd :
  wreach (s1, p, []) c → p_gvr p = g → Forall (well_keyed nsd g) c.2 →
  same_watch p c.1.2 ∧
  objects c.1.1 g = client_cache nsd (live_events c.1.2 c.2) (objects s1 g).
Proof.
  intros Hreach Hg. induction Hreach as [|c c' Hreach IH Hst]; [done|]. intros Hk.
  assert (same_watch p c'.1.2) as Hsame.
  { by apply (wreach_same p _ _ (wreach_step _ _ _ Hreach Hst)). }
  split; [done|].
  destruct Hst as [s q log w Hr Hw|s q log s' q' E|s q log s' q' _ [= <- <-]|s q log g'
    |s q log id e buf b Hne Hch|s q log id Hne]; simpl in *;
    try (destruct (IH Hk) as [Hs1 IH']); try done.
  - apply Forall_app in Hk as [Hk Hkw]. destruct (IH Hk) as [Hs1 IH'].
    apply Forall_cons in Hkw as [Hkw _]. rewrite live_snoc. unfold client_cache.
    rewrite foldl_app. fold (client_cache nsd (live_events q log) (objects s1 g)).
    rewrite <-IH'. destruct Hs1 as [_ Hg' _ _ _]. rewrite Hg', Hg. case_decide as Hd.
    + subst g. simpl. rewrite <-Hd in *. symmetry. by apply client_write.
    + simpl. by rewrite objects_apply, decide_False.
  - rewrite (same_live q q') by (apply pump_next_cases in E; tauto).
    rewrite <-IH'. apply pump_next_cases in E as (_ & _ & E).
    by destruct E as [(?&?&?&->&_)|[(?&?&?&?&?&->&_)|(?&?&->&_)]].
Qed.

Lemma client_snapshot (nsd : bool) (l : list (string * U)) g c :
  NoDup l.*1 →
  Forall (λ q : string * U, q.1 = key nsd (GetNamespace q.2) (GetName q.2)) l →
  client_cache nsd (map (λ u, mkEvent Added u (parseRV (GetResourceVersion u)) g) l.*2) c =
  list_to_map l ∪ c.
Proof.
  revert c; induction l as [|[k u] l IH]; intros c Hnd Hk; simpl.
  { by rewrite (left_id_L ∅ (∪)). }
  apply NoDup_cons in Hnd as [Hni Hnd]. apply Forall_cons in Hk as [Hku Hk]. simpl in Hku.
  rewrite <-insert_union_l, insert_union_r.
  - unfold client_cache in *. simpl. unfold client_apply at 2. simpl. rewrite <-Hku.
    by apply IH.
  - by apply not_elem_of_list_to_map_1.
Qed.

Lemma wanted_all p l : p_opts p = watch_all → wanted p l = l.
Proof.
  intros Ho. apply filter_all. intros e _. unfold match_event. rewrite Ho. simpl.
  by rewrite andb_false_r.
Qed.

(** A client that lists-and-watches converges: folding the events of an
    unfiltered watch into an empty map yields, whenever the watch is drained,
    exactly the objects the store then holds for the resource. *)
Theorem watch_cache_converges g rm s s1 p s' p' log :
  wf s → keyed s → resources s !! g = Some rm →
  Watch g watch_all s = (s1, Ok p) → wreach (s1, p, []) (s', p', log) →
  Forall (well_keyed (namespaced rm) g) log → drained s' p' →
  client_cache (namespaced rm) (p_out p') ∅ = objects s' g.
Proof.
  intros W K Hg E Hreach Hlog Hdr.
  destruct (wreach_flow _ _ _ _ _ _ _ _ W E Hreach)
    as [[_ _ (ch & rest & Hc & _ & Hflow & Hsub)] Hsame]. simpl in *.
  destruct Hdr as (Hs & Hb & Hbuf). destruct (Hsub Hs) as [-> _].
  rewrite Hc in Hbuf. simpl in Hbuf. injection Hbuf as Hbuf. rewrite Hb, Hbuf in Hflow.
  unfold Watch, meta in E. rewrite Hg in E. injection E as <- <-.
  rewrite !wanted_all in Hflow by apply Hsame. simpl in Hflow. rewrite !app_nil_r in Hflow.
  edestruct (wreach_objects _ _ _ g (namespaced rm) Hreach) as [_ Hobj]; [done|done|].
  simpl in Hobj. rewrite Hflow, Hobj. unfold client_cache. rewrite foldl_app. f_equal.
  unfold bootstrap, replayFromHistory. simpl. rewrite filter_all
    by (intros; unfold snapshot_skips; simpl; by rewrite andb_false_r).
  set (l := range_map (objects s g)).
  assert (l ≡ₚ map_to_list (objects s g)) as Hperm by apply range_map_perm.
  assert (NoDup l.*1) as Hnd by (rewrite Hperm; apply NoDup_fst_map_to_list).
  pose proof (client_snapshot (namespaced rm) l g ∅ Hnd) as Hsnap.
  unfold client_cache in Hsnap. rewrite Hsnap by (apply Forall_forall;
    intros [k u] Hin; rewrite Hperm in Hin;
    apply elem_of_map_to_list in Hin; by apply (K g k u rm)).
  rewrite (right_id_L ∅ (∪)), (list_to_map_proper l _ Hnd Hperm).
  apply list_to_map_to_list.
Qed.
End cache.

(** ** Witnesses *)

Definition pod (name rv : string) : cobj := demo_obj "Pod" "default" name rv.

(** A watch on [g] from the store's present. *)
Definition demo_watch (g : GVR) (opts : WatchOptions) (s : Store cobj demo_db)
  : Store cobj demo_db * pump_state :=
  let r := Watch g opts s in
  (r.1, default (mkPump 0 g [] 0 opts true [] true) (ok_val r.2)).

Lemma demo_watch_ok g opts s :
  is_ok (Watch g opts s).2 = true →
  Watch g opts s = ((demo_watch g opts s).1, Ok (demo_watch g opts s).2).
Proof. intros Hok. by apply ok_pair. Qed.

(** The write a concrete operation commits. *)
Definition demo_write_of (o : op (U := cobj)) (s : Store cobj demo_db) : write cobj :=
  match o with
  | OpCreate g u => WPut Added g (key true (GetNamespace u) (GetName u)) (demo_ok (exec o s))
  | OpUpdate g u _ => WPut Modified g (key true (GetNamespace u) (GetName u)) (demo_ok (exec o s))
  | OpDelete g ns n => WDel g (key true ns n) (demo_ok (exec o s))
  | OpPatch g ns n _ _ _ => WPut Modified g (key true ns n) (demo_ok (exec o s))
  end.

Definition demo_delete_a : write cobj := demo_write_of (OpDelete PodGVR "default" "a") demo_pod_store.

(** A watch that delivers the snapshot of [demo_pod_store], then the deletion of
    its pod. *)
Section trace.
Context (opts : WatchOptions) (boot : nat).
Let s1 := (demo_watch PodGVR opts demo_pod_store).1.
Let p0 := (demo_watch PodGVR opts demo_pod_store).2.
Definition turn (c : pump_state * Store cobj demo_db) := default c (pump_next c.1 c.2).
Definition after_boot := Nat.iter boot turn (p0, s1).
Definition after_write := (after_boot.1, apply_write demo_delete_a after_boot.2).
Definition after_live := turn after_write.

Lemma turn_reach c p s : wreach c (p.2, p.1, s) → wreach c ((turn p).2, (turn p).1, s).
Proof.
  intros Hr. unfold turn. destruct (pump_next p.1 p.2) as [[p' s']|] eqn:E; [|done].
  simpl. eapply wreach_step; [done|]. by apply step_pump.
Qed.

Lemma turns_reach c p s n : wreach c (p.2, p.1, s) →
  wreach c ((Nat.iter n turn p).2, (Nat.iter n turn p).1, s).
Proof. induction n; simpl; eauto using turn_reach. Qed.

Lemma trace_reach :
  room after_boot.2 → valid_write demo_delete_a after_boot.2 →
  wreach (s1, p0, []) (after_live.2, after_live.1, [demo_delete_a]).
Proof.
  intros Hr Hv. apply (turn_reach _ after_write [demo_delete_a]). unfold after_write. simpl.
  eapply wreach_step.
  - apply (turns_reach _ (p0, s1) [] boot). constructor.
  - exact (step_write _ _ [] _ Hr Hv).
Qed.
End trace.

#[local] Opaque demo_pod_store demo_store demo_watch after_live demo_delete_a apply_write.

Ltac demo_drained := split; [demo_decide|split; vm_compute; reflexivity].

Lemma watch_exactly_once_witness :
  let t := after_live watch_all 1 in
  let p := (demo_watch PodGVR watch_all demo_pod_store).2 in
  ev_Type <$> p_out t.1 = [Added; Deleted] ∧
  p_out t.1 `prefix_of` wanted p (p_boot p ++ live_events p [demo_delete_a]) ∧
  (drained t.2 t.1 → p_out t.1 = wanted p (p_boot p ++ live_events p [demo_delete_a])).
Proof.
  intros t p. split; [vm_compute; reflexivity|].
  apply (watch_exactly_once PodGVR watch_all demo_pod_store
           (demo_watch PodGVR watch_all demo_pod_store).1 p t.2 t.1 [demo_delete_a]).
  - exact demo_pod_store_wf.
  - apply demo_watch_ok. vm_compute. reflexivity.
  - apply (trace_reach _ _); [vm_compute; reflexivity|demo_decide].
Defined.

Definition resume_at (r : Z) : WatchOptions := mkWatchOptions _ "" no_selectors r true.

Definition demo_create_a : write cobj :=
  demo_write_of (OpCreate PodGVR (pod "a" "")) demo_store.

Lemma demo_pod_represents : represents demo_store demo_pod_store [demo_create_a].
Proof.
  change demo_pod_store with (apply_write demo_create_a demo_store).
  apply (represents_write demo_store demo_store [] demo_create_a).
  - exact demo_store_wf.
  - vm_compute. reflexivity.
  - constructor; [vm_compute; reflexivity|intros; exact eq_refl|vm_compute; reflexivity|exact eq_refl|exact eq_refl].
  - demo_decide.
Qed.

Lemma resumed_watch_witness :
  let t := after_live (resume_at 1) 0 in
  let p := (demo_watch PodGVR (resume_at 1) demo_pod_store).2 in
  ev_Type <$> p_out t.1 = [Deleted] ∧
  p_out t.1 = wanted p (filter (λ e, (1 < ev_RV e)%Z ∧ ev_GVR e = PodGVR)
                          (log_events 0 ([demo_create_a] ++ [demo_delete_a]))).
Proof.
  intros t p. split; [vm_compute; reflexivity|].
  apply (resumed_watch_complete demo_store demo_pod_store [demo_create_a] PodGVR (resume_at 1)
           (demo_watch PodGVR (resume_at 1) demo_pod_store).1 p t.2 t.1 [demo_delete_a]).
  - exact demo_pod_represents.
  - exact demo_pod_store_wf.
  - reflexivity.
  - split; vm_compute; [reflexivity|discriminate].
  - vm_compute. discriminate.
  - vm_compute. discriminate.
  - apply demo_watch_ok. vm_compute. reflexivity.
  - apply (trace_reach _ _); [vm_compute; reflexivity|demo_decide].
  - demo_drained.
Defined.

Lemma watch_cache_witness :
  let t := after_live watch_all 1 in
  client_cache true (p_out t.1) ∅ = objects t.2 PodGVR ∧ objects t.2 PodGVR = ∅.
Proof.
  intros t. split; [|vm_compute; reflexivity].
  apply (watch_cache_converges PodGVR (demo_meta PodGVR true) demo_pod_store
           (demo_watch PodGVR watch_all demo_pod_store).1
           (demo_watch PodGVR watch_all demo_pod_store).2 t.2 t.1 [demo_delete_a]).
  - exact demo_pod_store_wf.
  - exact demo_pod_store_keyed.
  - vm_compute. reflexivity.
  - apply demo_watch_ok. vm_compute. reflexivity.
  - apply (trace_reach _ _); [vm_compute; reflexivity|demo_decide].
  - repeat constructor.
  - demo_drained.
Defined.

(** ** A resumed watch that misses an event the history still holds *)

Definition gap_ops : list (op (U := cobj)) := [
  OpCreate PodGVR (pod "a" ""); OpDelete PodGVR "default" "a";
  OpCreate PodGVR (pod "b" ""); OpCreate PodGVR (pod "c" ""); OpCreate PodGVR (pod "d" "")].

Definition gap_store : Store cobj demo_db := run gap_ops demo_store.

(** The test that chooses between history and snapshot is off by one: a
    client at version 1 needs the events from version 2 on, and the history
    (four events, versions 2 to 5) still holds all of them, the deletion of [a]
    included; but the watch takes the snapshot branch and delivers no deletion,
    so a client that had seen [a] keeps it for ever. *)
Theorem watch_gap_below_history :
  oldestHistoryRV gap_store = 2%Z ∧
  (ev_Type <$> filter (λ e, (1 < ev_RV e)%Z ∧ ev_GVR e = PodGVR) (history gap_store)) =
    [Deleted; Added; Added; Added] ∧
  replayFromHistory (resume_at 1) gap_store = false ∧
  (∀ e, e ∈ p_boot (demo_watch PodGVR (resume_at 1) gap_store).2 → ev_Type e = Added) ∧
  client_cache true (p_boot (demo_watch PodGVR (resume_at 1) gap_store).2)
    (objects demo_pod_store PodGVR) ≠ objects gap_store PodGVR.
Proof.
  split_and!; try (vm_compute; reflexivity).
  - intros e He. assert (Forall (λ e, ev_Type e = Added)
      (p_boot (demo_watch PodGVR (resume_at 1) gap_store).2)) as Hall.
    { vm_compute. repeat constructor. }
    rewrite Forall_forall in Hall. by apply Hall.
  - intros E. apply (f_equal (λ m : gmap string cobj, bool_decide (is_Some (m !! "default/a")))) in E. revert E.
    vm_compute. discriminate.
Qed.
