(* ===== verification/Recovery.v ===== *)
(** Start-up from the state database ([internal/app/app.go], [New]), and what a
    restart gives back.

    Every write is a transaction of the database, whose error the store drops.
    So a run has two logs: the writes the store committed, and those the database
    has of them, each in the form it is read back in.  [sound] says that the
    store is the replay of the first and the database that of the second,
    whichever transactions failed; a restart makes the second the first. *)

From S2P Require Import Prelude GoStrings K8s Apis Selectors Store StoreFacts Patch Persist.
From S2P Require Import StoreSpec Watch WatchSpec Concrete.
Local Open Scope string_scope.

(** ** Writes, and what the database has of them *)

(** A log: the writes the store committed, each with what was saved of it. *)
Notation wlog U := (list (write U * option (write U))%type).

Section forms.
Context {U P : Type} `{Unstructured U} `{!Codec U} `{Persister P} `{Oracle} `{GoRuntime}.
Implicit Types (s : Store U P) (u : U) (w : write U).

(** The object a stored document is decoded to. *)
Definition reread (u : U) : U := default u (MarshalJSON u ≫= UnmarshalJSON).

(** What the transaction of a write leaves in the database: nothing when the
    object cannot be encoded or the transaction fails. *)
Definition saved_form s w : option (write U) :=
  match persist s, w with
  | None, _ => None
  | Some db, WPut t g k u =>
      doc ← MarshalJSON u;
      match (SaveObject g k doc (next_rv s) db).2 with None => Some (WPut t g k (reread u)) | Some _ => None end
  | Some db, WDel g k _ => match (RemoveObject g k (next_rv s) db).2 with None => Some w | Some _ => None end
  end.

(** A write that leaves an object that can be decoded again. *)
Definition durable w : Prop :=
  match w with WPut _ _ _ u => GetKind u ≠ "" | WDel _ _ _ => True end.

End forms.

Section recovery.
Context {U DB : Type} `{UnstructuredLaws U} `{!Codec U} `{!CodecLaws U}.
Context `{Bolt DB} `{!BoltLaws DB}.
Context `{Oracle} `{GoRuntime} `{PatchLib}.
Implicit Types (s : Store U DB) (g : GVR) (k : string) (u : U) (db : DB) (w : write U).

(** [app.New]: the snapshot is loaded into a new store with the default
    registrations. *)
Definition Restart (rs : list Resource) db : Store U DB * option api_error :=
  match LoadSnapshot db with
  | Err e => (New (Some db) 0 0, Some (OtherError ("app: load state: " +:+ e)))
  | Ok (snap, r) => LoadFrom snap (RegisterAll rs (New (Some db) 0 r))
  end.

(** ** Names of buckets *)

(** Resources whose bucket name can be parsed back. *)
Definition bucket_ok g : Prop :=
  well_named g = true ∧ Version g ≠ "" ∧ Resource_ g ≠ "".

Definition bucket db g : gmap string string := default ∅ (bolt_view db !! bucketName g).

Lemma bucket_name_inj g h : bucket_ok g → bucket_ok h → bucketName g = bucketName h → g = h.
Proof.
  intros (Hg & Hv & Hr) (Hg' & Hv' & Hr') E.
  pose proof (parse_bucket_roundtrip g Hg Hv Hr) as Hp. rewrite E in Hp.
  rewrite parse_bucket_roundtrip in Hp; congruence.
Qed.

Lemma bucket_not_meta g : bucket_ok g → bucketName g ≠ metaBucket.
Proof.
  intros (Hg & Hv & Hr) E. pose proof (parse_bucket_roundtrip g Hg Hv Hr) as Hp.
  rewrite E in Hp. vm_compute in Hp. done.
Qed.

(** ** The two transactions: done, or without effect *)

Lemma tx_cases tx db db' o : bolt_Update tx db = (db', o) →
  match o with
  | None => ∃ d, tx db = Some d ∧ bolt_view db' = bolt_view d
  | Some _ => db' = db
  end.
Proof.
  unfold bolt_Update. destruct (tx db) as [d|]; cbn; [|by intros [= <- <-]].
  destruct (bolt_Commit d) as [d'|] eqn:E; intros [= <- <-]; [|done].
  exists d. split; [done|]. by apply bolt_commit_view.
Qed.

Lemma create_bucket b db db' : bolt_CreateBucketIfNotExists b db = Some db' →
  bolt_view db' = <[b := default ∅ (bolt_view db !! b)]> (bolt_view db).
Proof.
  intros E. rewrite (bolt_create_view _ _ _ E). destruct (bolt_view db !! b) eqn:Hb; cbn; [|done].
  by rewrite insert_id.
Qed.

Lemma putRV_done r db db' : putRV r db = Some db' →
  bolt_view db' !! metaBucket ≫= (.!! rvKey) = Some (PutUint64 r) ∧
  ∀ b, b ≠ metaBucket → bolt_view db' !! b = bolt_view db !! b.
Proof.
  unfold putRV. destruct (bolt_CreateBucketIfNotExists _ db) as [d1|] eqn:E1; [|done]. cbn.
  intros E2. apply create_bucket in E1 as V1.
  rewrite (bolt_put_view _ _ _ _ _ (default ∅ (bolt_view db !! metaBucket)) ltac:(by rewrite V1, lookup_insert_eq) E2), V1.
  split; [by rewrite lookup_insert_eq; cbn; rewrite lookup_insert_eq|].
  intros b Hb. by rewrite !lookup_insert_ne.
Qed.

Definition version_saved db (r : Z) : Prop := bolt_view db !! metaBucket ≫= (.!! rvKey) = Some (PutUint64 r).

Lemma save_done g k doc r db db' : bucket_ok g → SaveObject g k doc r db = (db', None) →
  version_saved db' r ∧
  bolt_view db' !! bucketName g = Some (<[k := doc]> (bucket db g)) ∧
  ∀ b, b ≠ metaBucket → b ≠ bucketName g → bolt_view db' !! b = bolt_view db !! b.
Proof.
  intros Hg (d & Htx & V)%tx_cases. unfold version_saved. rewrite V. clear V.
  destruct (bolt_CreateBucketIfNotExists _ db) as [d1|] eqn:E1; [|done]. cbn in Htx.
  apply create_bucket in E1 as V1.
  destruct (bolt_Put (bucketName g) k doc d1) as [d2|] eqn:E2; [|done]. cbn in Htx.
  assert (bolt_view d1 !! bucketName g = Some (bucket db g)) as Hb by (by rewrite V1, lookup_insert_eq).
  pose proof (bolt_put_view _ _ _ _ _ _ Hb E2) as V2. apply putRV_done in Htx as (Hrv & V3).
  pose proof (bucket_not_meta g Hg). split_and!; [done| |].
  - by rewrite V3, V2, lookup_insert_eq.
  - intros b Hm Hn. by rewrite V3, V2, lookup_insert_ne, V1, lookup_insert_ne.
Qed.

Lemma remove_done g k r db db' : bucket_ok g → RemoveObject g k r db = (db', None) →
  version_saved db' r ∧
  (delete k <$> bolt_view db !! bucketName g = bolt_view db' !! bucketName g) ∧
  ∀ b, b ≠ metaBucket → b ≠ bucketName g → bolt_view db' !! b = bolt_view db !! b.
Proof.
  intros Hg (d & Htx & V)%tx_cases. unfold version_saved. rewrite V. clear V. pose proof (bucket_not_meta g Hg).
  set (step := match bolt_view db !! bucketName g with Some _ => _ | None => _ end) in Htx.
  assert (∀ d2, step = Some d2 → (delete k <$> bolt_view db !! bucketName g = bolt_view d2 !! bucketName g) ∧
      ∀ b, b ≠ bucketName g → bolt_view d2 !! b = bolt_view db !! b) as Hstep.
  { intros d2. unfold step. destruct (bolt_view db !! bucketName g) as [m|] eqn:Hb; [|intros [= <-]; by rewrite Hb].
    intros E. rewrite (bolt_delete_view _ _ _ _ _ Hb E).
    split; [by rewrite lookup_insert_eq|intros; by rewrite lookup_insert_ne]. }
  clearbody step. destruct step as [d2|]; [|done]. cbn in Htx. destruct (Hstep d2 eq_refl) as [Hd V2].
  apply putRV_done in Htx as (Hrv & V3). split_and!; [done|by rewrite V3|]. intros b Hm Hn. by rewrite V3, V2.
Qed.

Lemma reread_spec u doc : MarshalJSON u = Some doc → GetKind u ≠ "" →
  UnmarshalJSON doc = Some (reread u) ∧ read_as u (reread u).
Proof.
  intros Hm Hk. destruct (unmarshal_marshal u doc Hm Hk) as (v & Hv & Hr). unfold reread. by rewrite Hm; cbn; rewrite Hv.
Qed.

Inductive saved_as : write U → write U → Prop :=
| saved_put t g k u v : v = u ∨ read_as u v → saved_as (WPut t g k u) (WPut t g k v)
| saved_del g k u : saved_as (WDel g k u) (WDel g k u).

Implicit Types (log : wlog U) (L : list (write U)).
Definition acknowledged log : list (write U) := log.*1.
Definition saved log : list (write U) := omap snd log.

(** The version a write gave out. *)
Definition w_rv w : Z := default 0%Z (parse_uint64 (GetResourceVersion (w_obj w))).
Definition last_rv L : Z := from_option w_rv 0%Z (last L).

Definition entry_ok (R : gmap GVR resourceMeta) w : Prop :=
  is_Some (R !! w_gvr w) ∧ GetResourceVersion (w_obj w) = format_uint (w_rv w) ∧ durable w.

Lemma read_as_kind u v : read_as u v → GetKind v = GetKind u.
Proof. intros Hr. exact (Hr FKind ltac:(done)). Qed.
Lemma read_as_rv u v : read_as u v → GetResourceVersion v = GetResourceVersion u.
Proof. intros Hr. exact (Hr FResourceVersion ltac:(done)). Qed.

Lemma saved_as_rv w w' : saved_as w w' →
  w_gvr w' = w_gvr w ∧ w_key w' = w_key w ∧ w_rv w' = w_rv w ∧
  GetResourceVersion (w_obj w') = GetResourceVersion (w_obj w) ∧ (durable w → durable w').
Proof.
  destruct 1 as [t g k u v [->|Hr]|]; [done| |done]. unfold w_rv. cbn.
  by rewrite (read_as_rv _ _ Hr), (read_as_kind _ _ Hr).
Qed.

Lemma saved_as_entry R w w' : saved_as w w' → entry_ok R w → entry_ok R w'.
Proof.
  intros (Hg & _ & Hv & Hr & Hd)%saved_as_rv (He & Hrv & Hdur). unfold entry_ok. rewrite Hg, Hv, Hr. auto.
Qed.

Lemma saved_form_as s w w' : durable w → saved_form s w = Some w' → saved_as w w'.
Proof.
  unfold saved_form. destruct (persist s) as [db|]; [|done]. destruct w as [t g k u|g k u]; intros Hd.
  - destruct (MarshalJSON u) as [doc|] eqn:Hm; [|done]. cbn. destruct (bolt_SaveObject _ _ _ _ _).2; [done|].
    intros [= <-]. constructor. right. by eapply reread_spec.
  - destruct (RemoveObject _ _ _ _).2; [done|]. intros [= <-]. constructor.
Qed.

Lemma valid_rv w s : (0 ≤ rv s)%Z → room s → valid_write w s → w_rv w = (rv s + 1)%Z.
Proof.
  intros Hpos Hr (_ & E & _). unfold w_rv. rewrite E, next_rv_eq by done.
  unfold room in Hr. by rewrite parse_uint64_format by lia.
Qed.

Lemma replay_snoc g k L w : replay g k None (L ++ [w]) = replay_step g k (replay g k None L) w.
Proof. unfold replay. by rewrite foldl_app. Qed.

Lemma last_rv_snoc L w : last_rv (L ++ [w]) = w_rv w.
Proof. unfold last_rv. by rewrite last_snoc. Qed.

(** What a replay ends with is the result of the last write to that key. *)
Lemma replay_last g k L u :
  replay g k None L = Some u →
  ∃ i v, L !! i = Some v ∧ w_gvr v = g ∧ w_key v = k ∧ w_result v = Some u ∧
    ∀ j v', (i < j)%nat → L !! j = Some v' → ¬ (w_gvr v' = g ∧ w_key v' = k).
Proof.
  induction L as [|x L IH] using rev_ind; [done|]. rewrite replay_snoc.
  unfold replay_step. destruct (decide (w_gvr x = g ∧ w_key x = k)) as [[Hg Hk]|Hne].
  - intros Hw. exists (length L), x. split; [by rewrite lookup_app_r, Nat.sub_diag|].
    split_and!; [done..|]. intros j v' Hj Hl. apply lookup_lt_Some in Hl. rewrite length_app in Hl. cbn in Hl. lia.
  - intros (i & v & Hi & Hg & Hk & Hr & Hlast)%IH. pose proof (lookup_lt_Some _ _ _ Hi) as Hlt. exists i, v.
    split; [by rewrite lookup_app_l|]. split_and!; [done..|]. intros j v' Hj [Hl|[Hl Hs]]%lookup_app_Some.
    + by eapply Hlast.
    + by apply list_lookup_singleton_Some in Hs as [_ <-].
Qed.

Lemma result_obj w u : w_result w = Some u → w_obj w = u.
Proof. destruct w; [by intros [= ->]|done]. Qed.

(** Versions of a log: given out in order, none twice. *)
Definition ordered L : Prop := ∀ i j v w, (i < j)%nat → L !! i = Some v → L !! j = Some w → (w_rv v < w_rv w)%Z.

Lemma ordered_snoc L w : ordered L → Forall (λ v, (w_rv v < w_rv w)%Z) L → ordered (L ++ [w]).
Proof.
  intros HL Hw i j v v' Hij Hi Hj. apply lookup_app_Some in Hj as [Hj|[Hlen Hj]].
  - rewrite lookup_app_l in Hi by (apply lookup_lt_Some in Hj; lia). by eapply HL.
  - apply list_lookup_singleton_Some in Hj as [Hj <-]. rewrite lookup_app_l in Hi by lia.
    rewrite Forall_lookup in Hw. by eapply Hw.
Qed.

Lemma ordered_same L i j v w : ordered L → L !! i = Some v → L !! j = Some w → w_rv v = w_rv w → i = j.
Proof.
  intros HL Hi Hj E. destruct (Nat.lt_trichotomy i j) as [Hlt|[->|Hlt]]; [|done|].
  - pose proof (HL _ _ _ _ Hlt Hi Hj). lia.
  - pose proof (HL _ _ _ _ Hlt Hj Hi). lia.
Qed.

Lemma ordered_saved (log : wlog U) : ordered (acknowledged log) →
  Forall (λ e : write U * option (write U), ∀ w', e.2 = Some w' → saved_as e.1 w') log → ordered (saved log).
Proof.
  unfold acknowledged, saved. induction log as [|[w o] log IH] using rev_ind; [done|].
  rewrite fmap_app, omap_app. intros HL [Hs [He _]%Forall_cons]%Forall_app. cbn in He.
  assert (ordered log.*1) as HL0.
  { intros i j v v' Hij Hi Hj. apply (HL i j); [done|..]; by apply lookup_app_l_Some. }
  destruct o as [w'|]; cbn; [|by rewrite app_nil_r; apply IH].
  apply ordered_snoc; [by apply IH|]. destruct (saved_as_rv _ _ (He _ eq_refl)) as (_ & _ & -> & _).
  apply Forall_forall. intros v (e & Hin & Hv)%list_elem_of_omap. destruct e as [v0 o]. cbn in Hv. subst o.
  apply list_elem_of_lookup in Hin as [i Hi].
  destruct (saved_as_rv v0 v) as (_ & _ & -> & _); [by apply (proj1 (Forall_lookup _ _) Hs i _ Hi)|].
  apply (HL i (length log)); [by eapply lookup_lt_Some|..].
  - apply lookup_app_l_Some. by rewrite list_lookup_fmap, Hi.
  - rewrite lookup_app_r; rewrite length_fmap; [|done]. by rewrite Nat.sub_diag.
Qed.

(** ** The store and the database as images of the logs *)

(** The documents of [db] decode to the replay of [L], and its version is that of
    the last write of [L]. *)
Record holds (R : gmap GVR resourceMeta) L db : Prop := {
  ho_names : ∀ g, is_Some (R !! g) → bucket_ok g;
  ho_docs : ∀ g k, is_Some (R !! g) → bucket db g !! k ≫= UnmarshalJSON = replay g k None L;
  ho_read : ∀ g k d, is_Some (R !! g) → bucket db g !! k = Some d → is_Some (UnmarshalJSON (U := U) d);
  ho_buckets : ∀ b, is_Some (bolt_view db !! b) →
    b = metaBucket ∨ ∃ g, is_Some (R !! g) ∧ b = bucketName g;
  ho_rv : (L = [] ∧ bolt_view db !! metaBucket = None) ∨ (L ≠ [] ∧ version_saved db (last_rv L));
}.

(** The documents after one more successful transaction. *)
Lemma holds_snoc R L w db db' (doc : option string) :
  holds R L db → entry_ok R w → version_saved db' (w_rv w) →
  doc ≫= UnmarshalJSON = w_result w → (∀ d, doc = Some d → is_Some (UnmarshalJSON (U := U) d)) →
  (∀ k, bucket db' (w_gvr w) !! k = if decide (w_key w = k) then doc else bucket db (w_gvr w) !! k) →
  (∀ b, b ≠ metaBucket → b ≠ bucketName (w_gvr w) → bolt_view db' !! b = bolt_view db !! b) →
  holds R (L ++ [w]) db'.
Proof.
  intros Ho (Hreg & _ & _) Hv Hdoc Hread Hb Hframe.
  assert (∀ g, is_Some (R !! g) → g ≠ w_gvr w → bucket db' g = bucket db g) as Hother.
  { intros g Hg Hne. unfold bucket. rewrite Hframe; [done|by apply bucket_not_meta, (ho_names _ _ _ Ho)|].
    intros E. apply Hne, bucket_name_inj; [by apply (ho_names _ _ _ Ho)..|done]. }
  constructor.
  - apply Ho.
  - intros g k Hg. rewrite replay_snoc. unfold replay_step. destruct (decide (w_gvr w = g)) as [<-|Hne].
    + rewrite Hb. case_decide as Hk; [by rewrite decide_True|].
      rewrite decide_False by naive_solver. by apply (ho_docs _ _ _ Ho).
    + rewrite decide_False, Hother by naive_solver. by apply (ho_docs _ _ _ Ho).
  - intros g k d Hg. destruct (decide (g = w_gvr w)) as [->|Hne].
    + rewrite Hb. case_decide; [apply Hread|]. by apply (ho_read _ _ _ Ho).
    + rewrite Hother by done. by apply (ho_read _ _ _ Ho).
  - intros b Hs. destruct (decide (b = metaBucket)); [by left|]. right.
    destruct (decide (b = bucketName (w_gvr w))) as [->|Hb']; [by exists (w_gvr w)|].
    rewrite Hframe in Hs by done. by destruct (ho_buckets _ _ _ Ho _ Hs).
  - right. rewrite last_rv_snoc. split; [by destruct L|done].
Qed.

(** The log [log] is what the store [s] and its database have gone through. *)
Record sound (rs : list Resource) log s : Prop := {
  so_wf : wf s;
  so_res : resources s = resources (RegisterAll rs (New (U := U) (P := DB) None 0 0));
  so_rv : rv s = last_rv (acknowledged log);
  so_obj : ∀ g k, lookup_obj s g k = replay g k None (acknowledged log);
  so_entries : Forall (entry_ok (resources s)) (acknowledged log);
  so_ordered : ordered (acknowledged log);
  so_issued : Forall (λ w, (0 < w_rv w ≤ rv s)%Z) (acknowledged log);
  so_saved : Forall (λ e : write U * option (write U), ∀ w', e.2 = Some w' → saved_as e.1 w') log;
  so_disk : ∃ db, persist s = Some db ∧ holds (resources s) (saved log) db;
}.

Lemma write_disk w s db L : persist s = Some db → holds (resources s) L db → entry_ok (resources s) w →
  w_rv w = next_rv s →
  ∃ db', persist (apply_write w s) = Some db' ∧
    holds (resources s) (L ++ match saved_form s w with Some w' => [w'] | None => [] end) db'.
Proof.
  intros Hp Ho He Hrv. unfold saved_form. rewrite Hp. destruct w as [t g k u|g k u]; cbn [apply_write].
  - cbn. rewrite Hp. destruct (MarshalJSON u) as [doc|] eqn:Hm; cbn; [|exists db; by rewrite app_nil_r].
    pose proof (ho_names _ _ _ Ho g (proj1 He)) as Hg. pose proof (reread_spec u doc Hm (proj2 (proj2 He))) as [Hu Hr].
    assert (saved_as (WPut t g k u) (WPut t g k (reread u))) as Hs by (constructor; by right).
    destruct (saved_as_rv _ _ Hs) as (_ & _ & Hv' & _).
    destruct (bolt_SaveObject g k doc (next_rv s) db) as [db' o] eqn:E. cbn. exists db'. split; [done|].
    destruct o as [e|]; [apply tx_cases in E; subst db'; by rewrite app_nil_r|].
    apply save_done in E as (H1' & H2' & H3'); [|done]. eapply (holds_snoc _ _ _ _ _ (Some doc)); try done.
    + by eapply saved_as_entry.
    + by rewrite Hv', Hrv.
    + intros d [= <-]. by rewrite Hu.
    + intros k'. unfold bucket at 1. cbn. rewrite H2'. cbn. rewrite lookup_insert. by case_decide.
  - cbn. rewrite Hp. pose proof (ho_names _ _ _ Ho g (proj1 He)) as Hg.
    destruct (bolt_RemoveObject g k (next_rv s) db) as [db' o] eqn:E. cbn. exists db'. split; [done|].
    destruct o as [e|]; [apply tx_cases in E; subst db'; by rewrite app_nil_r|].
    apply remove_done in E as (H1' & H2' & H3'); [|done]. eapply (holds_snoc _ _ _ _ _ None); try done.
    + by rewrite Hrv.
    + intros k'. unfold bucket. cbn. rewrite <-H2'.
      destruct (bolt_view db !! bucketName g); cbn; rewrite ?lookup_empty, ?lookup_delete; by case_decide.
Qed.

Lemma write_sound rs w s log :
  sound rs log s → room s → valid_write w s → durable w → sound rs (log ++ [(w, saved_form s w)]) (apply_write w s).
Proof.
  intros S Hroom Hv Hd. pose proof (so_wf _ _ _ S) as W. pose proof (wf_range _ W) as Hrange.
  pose proof (valid_rv w s ltac:(lia) Hroom Hv) as Hrv. pose proof (next_rv_eq s ltac:(lia) Hroom) as Hn.
  assert (entry_ok (resources s) w) as He.
  { destruct Hv as (Hreg & Hres & _). split_and!; [done| |done]. by rewrite Hres, Hrv, Hn. }
  unfold acknowledged in *.
  constructor; rewrite ?resources_apply; unfold acknowledged; rewrite ?fmap_app; cbn [fmap list_fmap fst].
  - by apply write_wf.
  - apply S.
  - by rewrite last_rv_snoc, rv_apply, Hn.
  - intros g k. rewrite lookup_apply, replay_snoc. unfold replay_step. by rewrite (so_obj _ _ _ S).
  - apply Forall_app. split; [apply S|by constructor].
  - apply ordered_snoc; [apply S|]. eapply Forall_impl; [apply (so_issued _ _ _ S)|]. cbn. intros. lia.
  - rewrite rv_apply, Hn. apply Forall_app. split; [|constructor; [lia|done]].
    eapply Forall_impl; [apply (so_issued _ _ _ S)|]. cbn. intros. lia.
  - apply Forall_app. split; [apply S|]. constructor; [|done]. intros w' E. by eapply saved_form_as.
  - destruct (so_disk _ _ _ S) as (db & Hp & Ho).
    destruct (write_disk w s db _ Hp Ho He ltac:(by rewrite Hrv, Hn)) as (db' & Hp' & Ho').
    exists db'. split; [done|]. unfold saved. rewrite omap_app. cbn. by destruct (saved_form s w).
Qed.

(** Every stored object can be decoded again. *)
Lemma sound_kind rs log s g k u : sound rs log s → lookup_obj s g k = Some u → GetKind u ≠ "".
Proof.
  intros S Hu. rewrite (so_obj _ _ _ S) in Hu. apply replay_last in Hu as (i & w & Hi & _ & _ & Hr & _).
  destruct (proj1 (Forall_lookup _ _) (so_entries _ _ _ S) _ _ Hi) as (_ & _ & Hd). destruct w; [|done].
  by injection Hr as ->.
Qed.

(** ** Load *)

Lemma load_fold (l : list (string * gmap string string)) acc :
  NoDup l.*1 →
  (∀ b m, (b, m) ∈ l → b = metaBucket ∨ ∃ g, bucket_ok g ∧ b = bucketName g) →
  let out := foldl load_bucket acc l in
  let lm : gmap string (gmap string string) := list_to_map l in
  (∀ g, bucket_ok g → out.1 !! g = match lm !! bucketName g with
                                   | Some m => Some m | None => acc.1 !! g end) ∧
  (∀ g, ¬ bucket_ok g → out.1 !! g = acc.1 !! g) ∧
  out.2 = match lm !! metaBucket ≫= (.!! rvKey) with
          | Some v => if decide (String.length v = 8) then Uint64 v else acc.2
          | None => acc.2
          end.
Proof.
  revert acc; induction l as [|[b m] l IH]; intros acc Hnd Hb; [done|].
  apply NoDup_cons in Hnd as [Hni Hnd]. cbn [foldl list_to_map foldr fst snd uncurry].
  destruct (IH (load_bucket acc (b, m)) Hnd) as (I1 & I2 & I3).
  { intros b' m' Hin. apply (Hb b' m'). by right. }
  cbv zeta. fold (list_to_map (M := gmap string (gmap string string)) l).
  apply not_elem_of_list_to_map_1 in Hni. simpl in Hni.
  destruct (Hb b m) as [->|(g0 & Hg0 & ->)]; [by left| |].
  - assert (load_bucket acc (metaBucket, m) = (acc.1, match m !! rvKey with
      | Some v => if decide (String.length v = 8) then Uint64 v else acc.2
      | None => acc.2 end)) as El.
    { unfold load_bucket. simpl. by destruct (m !! rvKey); [case_decide|]; destruct acc. }
    rewrite El in *. simpl in I1, I2, I3. rewrite Hni in I3. simpl in I3.
    rewrite lookup_insert_eq. split_and!; [|done|by rewrite I3].
    intros g Hg. rewrite I1 by done. rewrite lookup_insert_ne; [done|].
    by apply not_eq_sym, bucket_not_meta.
  - pose proof (bucket_not_meta _ Hg0) as Hnm. destruct Hg0 as (Hw & Hv & Hr).
    assert (load_bucket acc (bucketName g0, m) = (<[g0 := m]> acc.1, acc.2)) as El.
    { unfold load_bucket. simpl. rewrite decide_False by done.
      rewrite parse_bucket_roundtrip by done. by rewrite (foldl_insert_perm _ m) by apply bucket_foreach_perm. }
    rewrite El in *. simpl in *. rewrite lookup_insert_ne by done. split_and!; [| |done].
    + intros g Hg. rewrite I1 by done. destruct (decide (g0 = g)) as [<-|Hne].
      * by rewrite Hni, !lookup_insert_eq.
      * rewrite !lookup_insert_ne; try done.
        intros E. by apply Hne, bucket_name_inj.
    + intros g Hg. rewrite I2 by done. rewrite lookup_insert_ne; [done|]. intros ->. by apply Hg.
Qed.

Lemma Load_holds R L db :
  holds R L db → (0 ≤ last_rv L < u64_mod)%Z →
  ∃ snap, LoadSnapshot db = Ok (snap, last_rv L) ∧
    ∀ g, is_Some (R !! g) → default ∅ (snap !! g) = bucket db g.
Proof.
  intros Ho Hrange. pose proof (bolt_foreach_perm db) as Hp.
  assert (NoDup (bolt_ForEach db).*1) as Hnd by (rewrite Hp; apply NoDup_fst_map_to_list).
  destruct (load_fold (bolt_ForEach db) (∅, 0%Z) Hnd) as (I1 & I2 & I3).
  { intros b m Hin. rewrite Hp in Hin. apply elem_of_map_to_list in Hin.
    destruct (ho_buckets _ _ _ Ho b) as [?|(g & Hg & ->)]; [by eexists|by left|].
    right. exists g. split; [|done]. by apply (ho_names _ _ _ Ho). }
  rewrite (list_to_map_proper _ _ Hnd Hp), list_to_map_to_list in I1, I3.
  simpl. unfold bolt_Load. destruct (foldl _ _ _) as [snap r]. simpl in *. exists snap. split.
  - f_equal. f_equal. rewrite I3. destruct (ho_rv _ _ _ Ho) as [[-> E2]|[_ E]]; [by rewrite E2|].
    unfold version_saved in E. rewrite E, PutUint64_length. simpl. by apply Uint64_PutUint64.
  - intros g Hg. rewrite I1 by (by apply (ho_names _ _ _ Ho)). unfold bucket.
    by destruct (bolt_view db !! bucketName g); [|rewrite lookup_empty].
Qed.

(** ** LoadFrom *)

Lemma load_objs_spec g l s :
  NoDup l.*1 → Forall (λ p, is_Some (UnmarshalJSON (U := U) p.2)) l → is_Some (data s !! g) →
  ∃ s', load_objs g l s = (s', None) ∧ s' = set_data (data s') s ∧
    (∀ g', is_Some (data s !! g') → is_Some (data s' !! g')) ∧
    ∀ g' k, lookup_obj s' g' k =
      if decide (g' = g) then
        match list_to_map (M := gmap string string) l !! k with
        | Some d => UnmarshalJSON d
        | None => lookup_obj s g k
        end
      else lookup_obj s g' k.
Proof.
  revert s; induction l as [|[k0 d0] l IH]; intros s Hnd Hall Hd; simpl.
  { exists s. split_and!; [done|by destruct s|done|]. intros g' k. rewrite lookup_empty.
    by case_decide as E; [rewrite E|]. }
  apply NoDup_cons in Hnd as [Hni Hnd]. apply Forall_cons in Hall as [[u0 Hu] Hall].
  simpl in Hu, Hni. rewrite Hu.
  set (s1 := set_data (<[g := <[k0 := u0]> (objects s g)]> (data s)) s).
  destruct (IH s1 Hnd Hall) as (s' & E & Hs' & Hdata & Hl); [by simpl; rewrite lookup_insert_eq|].
  exists s'. split_and!; [done|by rewrite Hs'| |].
  - intros g' Hg'. apply Hdata. simpl. destruct (decide (g = g')) as [<-|].
    + by rewrite lookup_insert_eq.
    + by rewrite lookup_insert_ne.
  - intros g' k. rewrite Hl. apply not_elem_of_list_to_map_1 in Hni.
    assert (∀ g' k, lookup_obj s1 g' k =
      if decide (g = g' ∧ k0 = k) then Some u0 else lookup_obj s g' k) as Hs1.
    { intros. by apply (lookup_insert_objects s g k0 u0). }
    rewrite !Hs1. case_decide as Eg; [|by rewrite decide_False by naive_solver].
    destruct (decide (k0 = k)) as [<-|Hk].
    + rewrite Hni, lookup_insert_eq, decide_True by done. done.
    + rewrite lookup_insert_ne, decide_False by naive_solver. done.
Qed.

Lemma load_gvrs_spec l s :
  NoDup l.*1 →
  (∀ g m k d, (g, m) ∈ l → is_Some (resources s !! g) → m !! k = Some d →
     is_Some (UnmarshalJSON (U := U) d)) →
  (∀ g, is_Some (resources s !! g) → is_Some (data s !! g)) →
  ∃ s', load_gvrs l s = (s', None) ∧ s' = set_data (data s') s ∧
    (∀ g, is_Some (data s !! g) → is_Some (data s' !! g)) ∧
    ∀ g k, lookup_obj s' g k =
      match list_to_map (M := gmap GVR (gmap string string)) l !! g, resources s !! g with
      | Some m, Some _ => match m !! k with
                          | Some d => UnmarshalJSON d
                          | None => lookup_obj s g k
                          end
      | _, _ => lookup_obj s g k
      end.
Proof.
  revert s; induction l as [|[g0 m0] l IH]; intros s Hnd Hdocs Hreg; simpl.
  { exists s. split_and!; [done|by destruct s|done|]. intros g k. by rewrite lookup_empty. }
  apply NoDup_cons in Hnd as [Hni Hnd]. apply not_elem_of_list_to_map_1 in Hni. simpl in Hni.
  destruct (resources s !! g0) as [rm|] eqn:Hr.
  - pose proof (range_map_perm m0) as Hp.
    assert (NoDup (range_map m0).*1) as Hnd0 by (rewrite Hp; apply NoDup_fst_map_to_list).
    destruct (load_objs_spec g0 (range_map m0) s Hnd0) as (s1 & E1 & Hs1 & Hd1 & Hl1).
    { apply Forall_forall. intros [k d] Hin. rewrite Hp in Hin. apply elem_of_map_to_list in Hin.
      apply (Hdocs g0 m0 k d); [by left|by rewrite Hr|done]. }
    { apply Hreg. by rewrite Hr. }
    rewrite E1. assert (resources s1 = resources s) as Hres by (by rewrite Hs1).
    destruct (IH s1 Hnd) as (s' & E & Hs' & Hd' & Hl').
    { intros g m k d Hin. rewrite Hres. apply (Hdocs g m k d). by right. }
    { intros g. rewrite Hres. auto. }
    exists s'. split_and!; [done| |by auto|].
    { rewrite Hs'. by rewrite Hs1. }
    intros g k. rewrite Hl', Hres, !Hl1, (list_to_map_proper _ _ Hnd0 Hp), list_to_map_to_list.
    destruct (decide (g = g0)) as [->|Hne].
    + rewrite lookup_insert_eq, Hni, Hr. done.
    + by rewrite lookup_insert_ne.
  - destruct (IH s Hnd) as (s' & E & Hs' & Hd' & Hl').
    { intros g m k d Hin. apply (Hdocs g m k d). by right. }
    { done. }
    exists s'. split_and!; try done. intros g k. rewrite Hl'.
    destruct (decide (g = g0)) as [->|Hne].
    + rewrite lookup_insert_eq, Hni, Hr. done.
    + by rewrite lookup_insert_ne.
Qed.

(** ** Restart *)

Lemma RegisterAll_frame rs s :
  rv (RegisterAll rs s) = rv s ∧ history (RegisterAll rs s) = history s ∧
  persist (RegisterAll rs s) = persist s ∧
  ∀ g k, lookup_obj (RegisterAll rs s) g k = lookup_obj s g k.
Proof.
  revert s; induction rs as [|r rs IH]; intros s; simpl; [done|].
  destruct (IH (Register (r_GVR r) (r_Namespaced r) s)) as (-> & -> & -> & E).
  split_and!; try done. intros. by rewrite E, lookup_Register.
Qed.

Lemma RegisterAll_resources rs s s' :
  resources s = resources s' → resources (RegisterAll rs s) = resources (RegisterAll rs s').
Proof.
  revert s s'; induction rs as [|r rs IH]; intros s s' E; simpl; [done|].
  apply IH. simpl. by rewrite E.
Qed.

Lemma registered_same rs (p q : option DB) cap cap' r r' :
  resources (RegisterAll rs (New (U := U) p cap r)) = resources (RegisterAll rs (New (U := U) q cap' r')).
Proof. by apply RegisterAll_resources. Qed.

(** What a restart makes of a log: the writes the database has, all saved. *)
Definition reloaded log : wlog U := (λ w, (w, Some w)) <$> saved log.

Lemma reloaded_acknowledged log : acknowledged (reloaded log) = saved log.
Proof. unfold acknowledged, reloaded. rewrite <-list_fmap_compose. apply list_fmap_id. Qed.
Lemma reloaded_saved log : saved (reloaded log) = saved log.
Proof. unfold reloaded. generalize (saved log) as L. induction L as [|w L IH]; [done|]. unfold saved in *. cbn in *. by rewrite IH. Qed.

Lemma ordered_last L : ordered L → Forall (λ w, (w_rv w ≤ last_rv L)%Z) L.
Proof.
  intros HL. apply Forall_lookup. intros i w Hi. unfold last_rv. rewrite last_lookup.
  pose proof (lookup_lt_Some _ _ _ Hi) as Hlt.
  destruct (L !! pred (length L)) as [v|] eqn:Hv; cbn; [|apply lookup_ge_None in Hv; lia].
  destruct (decide (i = pred (length L))) as [->|Hne]; [by simplify_eq|].
  apply Z.lt_le_incl. apply (HL i (pred (length L))); [lia|done..].
Qed.

(** A replay satisfies what the store promises of its objects. *)
Lemma replay_versions R L : Forall (entry_ok R) L → ordered L →
  (∀ g k u, replay g k None L = Some u → ∃ w, w ∈ L ∧ w_gvr w = g ∧ w_obj w = u ∧
     GetResourceVersion u = format_uint (w_rv w)) ∧
  (Forall (λ w, (0 ≤ w_rv w)%Z) L → ∀ g k u g' k' u', replay g k None L = Some u → replay g' k' None L = Some u' →
    GetResourceVersion u = GetResourceVersion u' → g = g' ∧ k = k').
Proof.
  intros He HL. rewrite Forall_lookup in He. split.
  - intros g k u (i & w & Hi & Hg & _ & Hr & _)%replay_last. exists w. split; [by eapply list_elem_of_lookup_2|].
    split; [done|]. rewrite <-(result_obj _ _ Hr). split; [done|]. by apply (He _ _ Hi).
  - intros Hpos g k u g' k' u' (i & w & Hi & <- & <- & Hr & _)%replay_last (j & w' & Hj & <- & <- & Hr' & _)%replay_last E.
    rewrite Forall_lookup in Hpos. pose proof (Hpos _ _ Hi). pose proof (Hpos _ _ Hj).
    rewrite <-(result_obj _ _ Hr), <-(result_obj _ _ Hr') in E.
    destruct (He _ _ Hi) as (_ & Ei & _), (He _ _ Hj) as (_ & Ej & _). rewrite Ei, Ej in E.
    apply format_uint_inj in E; [|done..]. assert (i = j) as -> by (by eapply ordered_same). by simplify_eq.
Qed.

Lemma Restart_holds rs L db :
  let R := resources (RegisterAll rs (New (U := U) (P := DB) None 0 0)) in
  holds R L db → Forall (entry_ok R) L → ordered L → Forall (λ w, (0 < w_rv w)%Z) L → (last_rv L < u64_mod)%Z →
  ∃ s', Restart rs db = (s', None) ∧ rv s' = last_rv L ∧ resources s' = R ∧ persist s' = Some db ∧
    (∀ g k, lookup_obj s' g k = replay g k None L) ∧ history s' = [] ∧ wf s'.
Proof.
  intros R Ho He HL Hpos Hmax.
  assert (0 ≤ last_rv L)%Z as H0'.
  { unfold last_rv. destruct (last L) as [w|] eqn:E; [|done]. cbn. rewrite last_lookup in E.
    rewrite Forall_lookup in Hpos. apply Hpos in E. lia. }
  destruct (Load_holds R L db Ho) as (snap & Hload & Hsnap); [done|]. unfold Restart. rewrite Hload.
  set (s0 := New (Some db) 0 (last_rv L)) in *.
  destruct (RegisterAll_frame rs s0) as (Hrv & Hh & Hper & Hl).
  assert (wf (RegisterAll rs s0)) as W0 by (by apply RegisterAll_wf, New_wf).
  assert (resources (RegisterAll rs s0) = R) as Hres by apply registered_same.
  pose proof (range_map_perm snap) as Hp.
  assert (NoDup (range_map snap).*1) as Hnd by (rewrite Hp; apply NoDup_fst_map_to_list).
  destruct (load_gvrs_spec (range_map snap) (RegisterAll rs s0) Hnd) as (s' & E & Hs' & Hd & Hl').
  { intros g m k d Hin Hg Hm. rewrite Hres in Hg. rewrite Hp in Hin. apply elem_of_map_to_list in Hin.
    apply (ho_read _ _ _ Ho g k d Hg). rewrite <-Hsnap by done. by rewrite Hin. }
  { apply W0. }
  assert (Hobj : ∀ g k, lookup_obj s' g k = replay g k None L).
  { intros g k. rewrite Hl', Hl, (list_to_map_proper _ _ Hnd Hp), list_to_map_to_list, Hres.
    destruct (R !! g) as [rm|] eqn:Hg.
    - rewrite <-(ho_docs _ _ _ Ho) by eauto. rewrite <-Hsnap by eauto.
      destruct (snap !! g) as [m|]; cbn; [|by rewrite lookup_empty]. by destruct (m !! k).
    - transitivity (None : option U); [by destruct (snap !! g)|]. symmetry.
      destruct (replay g k None L) as [u|] eqn:Hu; [|done].
      apply replay_last in Hu as (i & w & Hi & Hwg & _). rewrite Forall_lookup in He.
      destruct (He _ _ Hi) as ([x Hx] & _). by rewrite Hwg, Hg in Hx. }
  exists s'. split; [exact E|].
  assert (rv s' = last_rv L ∧ resources s' = R ∧ persist s' = Some db ∧ history s' = []
    ∧ histCap s' = histCap (RegisterAll rs s0) ∧ subs s' = subs (RegisterAll rs s0)
    ∧ chans s' = chans (RegisterAll rs s0) ∧ nextSub s' = nextSub (RegisterAll rs s0))
    as (E1 & E2 & E3 & E4 & E5 & E6 & E7 & E8).
  { rewrite Hs'. simpl. by rewrite Hrv, Hres, Hper, Hh. }
  destruct (replay_versions R L He HL) as [Hv Hu].
  split_and!; try done. constructor; rewrite ?E1, ?E2, ?E4, ?E5, ?E6, ?E7, ?E8; try apply W0.
  - intros g Hg. apply Hd, W0. by rewrite Hres.
  - intros g k u. rewrite Hobj. intros (w & Hin & <- & _ & Er)%Hv. rewrite Forall_forall in He, Hpos.
    split; [by apply He|]. exists (w_rv w). split; [|done]. pose proof (Hpos w Hin).
    pose proof (proj1 (Forall_forall _ _) (ordered_last L HL) w Hin). cbn beta in *. lia.
  - intros g k u g' k' u'. rewrite !Hobj. apply Hu. eapply Forall_impl; [exact Hpos|]. cbn. lia.
  - lia.
  - simpl. lia.
  - simpl. lia.
  - done.
Qed.

(** A restart succeeds in every sound state and gives back the writes that were
    saved. *)
Lemma restart_sound rs log s : sound rs log s →
  ∃ db s', persist s = Some db ∧ Restart rs db = (s', None) ∧ sound rs (reloaded log) s' ∧ history s' = [].
Proof.
  intros S. destruct (so_disk _ _ _ S) as (db & Hp & Ho). pose proof (so_res _ _ _ S) as Hr. rewrite Hr in Ho.
  pose proof (ordered_saved log (so_ordered _ _ _ S) (so_saved _ _ _ S)) as HL.
  assert (∀ w', w' ∈ saved log → ∃ w, w ∈ acknowledged log ∧ saved_as w w') as Hin.
  { intros w' ([w o] & Hin & Ho')%list_elem_of_omap. cbn in Ho'. subst o. exists w.
    split; [by apply (list_elem_of_fmap_2' _ _ (w, Some w'))|]. pose proof (so_saved _ _ _ S) as Hs.
    rewrite Forall_forall in Hs. by apply (Hs _ Hin). }
  pose proof (so_entries _ _ _ S) as He. pose proof (so_issued _ _ _ S) as Hi. rewrite Forall_forall in He, Hi.
  assert (Forall (entry_ok (resources s)) (saved log)) as He'.
  { apply Forall_forall. intros w' (w & Hw & Hs)%Hin. eapply saved_as_entry; [exact Hs|by apply He]. }
  assert (Forall (λ w, (0 < w_rv w ≤ rv s)%Z) (saved log)) as Hi'.
  { apply Forall_forall. intros w' (w & Hw & Hs)%Hin. destruct (saved_as_rv _ _ Hs) as (_ & _ & -> & _). by apply Hi. }
  assert (last_rv (saved log) < u64_mod)%Z as Hmax.
  { pose proof (wf_range _ (so_wf _ _ _ S)). unfold last_rv. destruct (last (saved log)) as [w|] eqn:E; [|done]. cbn.
    rewrite last_lookup in E. rewrite Forall_lookup in Hi'. apply Hi' in E. lia. }
  rewrite Hr in He'. destruct (Restart_holds rs (saved log) db Ho He' HL) as (s' & E & Hrv & Hres & Hper & Hobj & Hh & W).
  { eapply Forall_impl; [exact Hi'|]. cbn. lia. }
  { done. }
  exists db, s'. split_and!; [done..| |done].
  constructor; rewrite ?reloaded_acknowledged, ?reloaded_saved, ?Hres; try done.
  - rewrite Hrv. apply Forall_forall. intros w Hw. rewrite Forall_forall in Hi'.
    pose proof (proj1 (Forall_forall _ _) (ordered_last _ HL) w Hw). pose proof (Hi' w Hw). cbn beta in *. lia.
  - unfold reloaded. apply Forall_fmap, Forall_forall. intros w Hw w' [= <-]. destruct w; constructor; by left.
  - exists db. done.
Qed.

(** When every transaction of the log was done, the restart gives back every
    object, as its encoding is read. *)
Definition all_saved log : Prop := Forall (λ e : write U * option (write U), is_Some e.2) log.

Lemma all_saved_replay log g k : all_saved log →
  Forall (λ e : write U * option (write U), ∀ w', e.2 = Some w' → saved_as e.1 w') log →
  last_rv (saved log) = last_rv (acknowledged log) ∧
  option_Forall2 (λ u v, v = u ∨ read_as u v) (replay g k None (acknowledged log)) (replay g k None (saved log)).
Proof.
  unfold acknowledged, saved. induction log as [|[w o] log IH] using rev_ind; intros Ha Hs; [split; [done|constructor]|].
  apply Forall_app in Ha as [Ha [[w' Hw] _]%Forall_cons]. cbn in Hw. subst o.
  apply Forall_app in Hs as [Hs [Hw _]%Forall_cons]. specialize (Hw w' eq_refl). cbn in Hw.
  rewrite fmap_app, omap_app. cbn [fmap list_fmap fst omap list_omap snd]. rewrite !last_rv_snoc, !replay_snoc.
  destruct (saved_as_rv _ _ Hw) as (Hg & Hk & Hv & _). split; [done|]. unfold replay_step. rewrite Hg, Hk.
  case_decide; [|by apply IH]. destruct Hw as [t g' k' u v Hu|]; cbn; by constructor.
Qed.

(** ** Runs of operations *)

Lemma persist_apply w s db : persist s = Some db →
  persist (apply_write w s) =
    match w with
    | WPut _ g k u =>
        match MarshalJSON u with
        | Some doc => Some (SaveObject g k doc (next_rv s) db).1
        | None => Some db
        end
    | WDel g k _ => Some (RemoveObject g k (next_rv s) db).1
    end.
Proof. intros Hp. destruct w; simpl; by rewrite Hp. Qed.

(** The store drops the error of a transaction: when none can commit, a creation
    is acknowledged, served and announced, and the database does not have it. *)
Lemma unsaved_acknowledged g u s s' v db :
  (∀ d, bolt_Commit (DB := DB) d = None) → persist s = Some db → Create g u s = (s', Ok v) →
  persist s' = Some db ∧ ∃ k, lookup_obj s' g k = Some v.
Proof.
  intros Hno Hp E. apply Create_cases in E as [(e&[=]&_)|(rm&name&u1&_&_&_&[= ->]&->)]. split.
  - rewrite (persist_apply _ _ db Hp). destruct (MarshalJSON _) as [doc|]; [|done]. cbn. unfold bolt_SaveObject, bolt_Update.
    destruct (bolt_CreateBucketIfNotExists _ db) as [d1|]; cbn; [|done].
    destruct (bolt_Put _ _ doc d1) as [d2|]; cbn; [|done].
    destruct (putRV _ d2) as [d3|]; cbn; [by rewrite Hno|done].
  - eexists. rewrite lookup_apply. cbn. by rewrite decide_True.
Qed.

(** An operation that a client with well-formed requests makes. *)
Definition kinded (o : op (U := U)) : Prop :=
  match o with
  | OpCreate _ u | OpUpdate _ u _ => GetKind u ≠ ""
  | _ => True
  end.

Lemma merge_kind old u st :
  GetKind (mergeForUpdate old u st) = if st then GetKind old else GetKind u.
Proof. unfold mergeForUpdate. destruct st; [by uget_simpl|]. case_decide; by uget_simpl. Qed.

Lemma stamp_kind r0 r u : GetKind (stamp_new r0 r u) = GetKind u.
Proof. unfold stamp_new. case_decide; case_match; by uget_simpl. Qed.

Lemma resolve_kind s g rm ns u n v :
  resolve_name s g rm ns u = Ok (n, v) → GetKind v = GetKind u.
Proof.
  unfold resolve_name. repeat case_match; intros [= <- <-]; by uget_simpl.
Qed.

Lemma set_rv_kind r u : GetKind (SetResourceVersion r u) = GetKind u.
Proof. by uget_simpl. Qed.

Lemma exec_sound rs o s log : sound rs log s → room s → kinded o → ∃ log', sound rs (log ++ log') (exec o s).1.
Proof.
  intros S Hroom Ho. destruct (exec o s) as [s' r] eqn:E. simpl.
  assert (∃ log', sound rs (log ++ log') s) as Hsame by (exists []; by rewrite app_nil_r).
  assert (∀ w, valid_write w s → durable w → ∃ log', sound rs (log ++ log') (apply_write w s)) as Hone
    by (intros w Hw Hd; eexists; by apply write_sound).
  destruct o as [g u|g u st|g ns name|g ns name ty d st]; simpl in E, Ho.
  - apply Create_cases in E as [(?&_&->)|(rm&name&u1&_&Hn&Hw&_&->)]; [done|].
    apply Hone; [done|]. simpl. rewrite stamp_kind, (resolve_kind _ _ _ _ _ _ _ Hn).
    destruct (namespaced rm); [done|]. by uget_simpl.
  - apply StoreFacts.Update_cases in E as [(?&_&->)|(rm&old&_&Hl&_&Hw&_&->)]; [done|].
    apply Hone; [done|]. simpl. rewrite set_rv_kind, merge_kind. destruct st; [|done]. by eapply sound_kind.
  - apply delete_cases in E as [(?&_&->)|(rm&old&_&_&Hw&_&->)]; [done|]. by apply Hone.
  - apply Patch_cases in E as [(?&_&->)|(rm&old&patched&_&Hl&_&Hw&_&->&doc&Hdoc)]; [done|].
    apply Hone; [done|]. simpl. rewrite set_rv_kind, merge_kind. destruct st; [by eapply sound_kind|]. by eapply unmarshal_kind.
Qed.

Lemma run_sound rs ops s log : sound rs log s → (rv s + length ops < u64_mod)%Z → Forall kinded ops →
  ∃ log', sound rs (log ++ log') (run ops s).
Proof.
  revert s log; induction ops as [|o ops IH]; intros s log S Hr Ho; [exists []; by rewrite app_nil_r|].
  apply Forall_cons in Ho as [Ho Hops]. cbn [length] in Hr. assert (room s) as Hroom by (unfold room; lia).
  destruct (exec_sound rs o s log S Hroom Ho) as [l1 S1].
  pose proof (exec_rv o s (so_wf _ _ _ S) Hroom) as Hrv.
  destruct (IH _ _ S1 ltac:(lia) Hops) as [l2 S2]. exists (l1 ++ l2)%list. by rewrite app_assoc.
Qed.

(** ** Any history of operations *)

Lemma RegisterAll_subset rs s g :
  is_Some (resources (RegisterAll rs s) !! g) →
  is_Some (resources s !! g) ∨ g ∈ r_GVR <$> rs.
Proof.
  revert s; induction rs as [|r rs IH]; intros s; simpl; [by left|].
  intros [Hg|Hg]%IH; [|right; by right]. simpl in Hg.
  destruct (decide (r_GVR r = g)) as [<-|]; [right; by left|].
  rewrite lookup_insert_ne in Hg by done. by left.
Qed.

Lemma fresh_store_sound rs cap db :
  bolt_view db = ∅ → (∀ g, g ∈ r_GVR <$> rs → bucket_ok g) →
  sound rs [] (RegisterAll rs (New (Some db) cap 0)).
Proof.
  intros Hdb Hrs. destruct (RegisterAll_frame rs (New (U := U) (Some db) cap 0)) as (Hrv & _ & Hp & Hl).
  constructor; try done.
  - by apply RegisterAll_wf, New_wf.
  - apply registered_same.
  - exists db. rewrite Hp. split; [done|]. constructor.
    + intros g [[x Hx]|Hg]%RegisterAll_subset; [done|]. by apply Hrs.
    + intros g k _. unfold bucket. by rewrite Hdb.
    + intros g k d _. unfold bucket. by rewrite Hdb.
    + intros b. rewrite Hdb. by intros [? ?].
    + left. by rewrite Hdb.
Qed.

(** Crash recovery: whatever operations the previous process served and
    whichever of its transactions failed, the store is the replay of the writes
    committed, and restarting from its database gives a store that is the replay
    of those that were saved, ready to serve (well-formed), with an empty
    history; if all were saved, every object is back, as its encoding is read,
    and so is the version. *)
Theorem crash_recovery rs ops cap db0 :
  bolt_view db0 = ∅ → (∀ g, g ∈ r_GVR <$> rs → bucket_ok g) →
  Forall kinded ops → (Z.of_nat (length ops) < u64_mod)%Z →
  let s := run ops (RegisterAll rs (New (Some db0) cap 0)) in
  ∃ log db s', persist s = Some db ∧ Restart rs db = (s', None) ∧
    (∀ g k, lookup_obj s g k = replay g k None (acknowledged log)) ∧
    (∀ g k, lookup_obj s' g k = replay g k None (saved log)) ∧
    (all_saved log → rv s' = rv s ∧
       ∀ g k, option_Forall2 (λ u v, v = u ∨ read_as u v) (lookup_obj s g k) (lookup_obj s' g k)) ∧
    resources s' = resources s ∧ history s' = [] ∧ wf s'.
Proof.
  intros Hdb Hrs Hops Hlen. pose proof (fresh_store_sound rs cap db0 Hdb Hrs) as S0. intros s.
  destruct (run_sound rs ops _ _ S0) as [log S]; [|done|].
  { destruct (RegisterAll_frame rs (New (U := U) (Some db0) cap 0)) as (-> & _). done. }
  cbn [app] in S. fold s in S. destruct (restart_sound _ _ _ S) as (db & s' & Hp & E & S' & Hh).
  exists log, db, s'. split_and!; [done|done|apply S| | |by rewrite (so_res _ _ _ S), (so_res _ _ _ S')|done|apply S'].
  - intros g k. by rewrite (so_obj _ _ _ S'), reloaded_acknowledged.
  - intros Ha. split.
    + rewrite (so_rv _ _ _ S), (so_rv _ _ _ S'), reloaded_acknowledged.
      by destruct (all_saved_replay log PodGVR "" Ha (so_saved _ _ _ S)) as [-> _].
    + intros g k. rewrite (so_obj _ _ _ S), (so_obj _ _ _ S'), reloaded_acknowledged.
      by apply all_saved_replay; [|apply S].
Qed.
End recovery.
Arguments saved {U} _ : simpl never.

(** ** Witness *)

Lemma default_buckets_ok g :
  g ∈ r_GVR <$> Registry.default_resources → bucket_ok g.
Proof.
  assert (Forall bucket_ok (r_GVR <$> Registry.default_resources)) as Hall.
  { repeat constructor; done. }
  rewrite Forall_forall in Hall. apply Hall.
Qed.

(** The demonstration's encoder and database never fail. *)
Lemma demo_saved (s : Store cobj demo_db) w : is_Some (persist s) → is_Some (saved_form s w).
Proof.
  intros [[m] Hp]. unfold saved_form. rewrite Hp. destruct w as [t g k u|g k u]; cbn -[PutUint64 bucketName format_uint].
  - unfold SaveObject, bolt_SaveObject, bolt_Update, putRV. cbn -[PutUint64 bucketName format_uint].
    destruct (m !! bucketName g) as [b|] eqn:Hb; cbn -[PutUint64 bucketName format_uint];
      rewrite ?Hb, ?lookup_insert_eq; cbn -[PutUint64 bucketName format_uint];
      by destruct (_ !! metaBucket) eqn:Hm; cbn -[PutUint64 bucketName format_uint];
        rewrite ?Hm, ?lookup_insert_eq; eexists.
  - unfold RemoveObject, bolt_RemoveObject, bolt_Update, putRV. cbn -[PutUint64 bucketName format_uint].
    destruct (m !! bucketName g) as [b|] eqn:Hb; cbn -[PutUint64 bucketName format_uint];
      rewrite ?Hb, ?lookup_insert_eq; cbn -[PutUint64 bucketName format_uint];
      by destruct (_ !! metaBucket) eqn:Hm; cbn -[PutUint64 bucketName format_uint];
        rewrite ?Hm, ?lookup_insert_eq; eexists.
Qed.

Lemma crash_recovery_witness :
  let s := run demo_ops (RegisterAll Registry.default_resources (New (Some (mkDB ∅)) 4 0)) in
  rv s = 3%Z ∧
  ∃ log db s', persist s = Some db ∧ Restart Registry.default_resources db = (s', None) ∧
    (∀ g k, lookup_obj s g k = replay g k None (acknowledged log)) ∧
    (∀ g k, lookup_obj s' g k = replay g k None (saved log)) ∧ wf s'.
Proof.
  intros s. split; [vm_compute; reflexivity|].
  destruct (crash_recovery Registry.default_resources demo_ops 4 (mkDB ∅)) as (log & db & s' & Hp & E & Hc & Hs & _ & _ & _ & W).
  - reflexivity.
  - exact default_buckets_ok.
  - repeat constructor; discriminate.
  - vm_compute. reflexivity.
  - exists log, db, s'. split_and!; assumption.
Defined.

(** ** Watches resumed across a restart *)

Definition restarted_store : Store cobj demo_db :=
  let s := run [OpCreate PodGVR (pod "a" ""); OpCreate PodGVR (pod "b" "")]
             (RegisterAll Registry.default_resources (New (Some (mkDB ∅)) 4 0)) in
  match persist s with
  | Some db => (Restart Registry.default_resources db).1
  | None => s
  end.

(** The history is not persisted, and an empty history counts as covering
    every version: after a restart a watch resumed at version 1 gets nothing of
    version 2, although the store holds the pod created at version 2. *)
Theorem restart_watch_gap :
  rv restarted_store = 2%Z ∧ history restarted_store = [] ∧
  (GetResourceVersion <$> ok_val (Get PodGVR "default" "b" restarted_store)) = Some "2" ∧
  replayFromHistory (resume_at 1) restarted_store = true ∧
  p_boot (demo_watch PodGVR (resume_at 1) restarted_store).2 = [].
Proof. split_and!; vm_compute; reflexivity. Qed.
