(* ===== verification/Core.v ===== *)
(** The typed API structs the program reads and builds: the fields of
    [corev1.PodSpec], of the sandbox custom resources and of
    [metav1.Condition] that the code under [src/] touches, and the interfaces
    of the library code that converts them ([runtime.DefaultUnstructuredConverter])
    and maintains condition lists ([meta.SetStatusCondition] and friends). *)

From S2P Require Import Prelude GoStrings K8s.
Local Open Scope string_scope.

(** ** corev1 *)

Record EnvVar := mkEnvVar { ev_Name : string; ev_Value : string; ev_ValueFrom : bool }.

Record VolumeMount := mkVolumeMount {
  vm_Name : string; vm_MountPath : string; vm_SubPath : string; vm_ReadOnly : bool;
}.

Record SecurityContext := mkSecurityContext {
  sc_Privileged : option bool;
  sc_RunAsUser : option Z;
  sc_RunAsGroup : option Z;
  sc_ReadOnlyRootFilesystem : option bool;
}.

(** [resource.Quantity] as its two readings. *)
Record Quantity := mkQuantity { q_MilliValue : Z; q_Value : Z }.

Record Container := mkContainer {
  co_Name : string;
  co_Image : string;
  co_ImagePullPolicy : string;
  co_Command : list string;
  co_Args : list string;
  co_WorkingDir : string;
  co_Env : list EnvVar;
  co_Ports : list Z;
  co_VolumeMounts : list VolumeMount;
  co_SecurityContext : option SecurityContext;
  co_Limits : option (gmap string Quantity);
}.

Record PVCSource := mkPVCSource { ps_ClaimName : string; ps_ReadOnly : bool }.
Record EmptyDirSource := mkEmptyDir { ed_Medium : string; ed_SizeLimit : option Z }.

Record Volume := mkVolume {
  vo_Name : string;
  vo_PersistentVolumeClaim : option PVCSource;
  vo_EmptyDir : option EmptyDirSource;
}.

Record PodSpec := mkPodSpec {
  Containers : list Container;
  Volumes : list Volume;
  PodSecurityContext : option SecurityContext;
  DNSPolicy : string;
  DNSNameservers : option (list string);
  AutomountServiceAccountToken : option bool;
}.

#[export] Instance env_var_eq_dec : EqDecision EnvVar.
Proof. solve_decision. Defined.
#[export] Instance volume_mount_eq_dec : EqDecision VolumeMount.
Proof. solve_decision. Defined.
#[export] Instance security_context_eq_dec : EqDecision SecurityContext.
Proof. solve_decision. Defined.
#[export] Instance quantity_eq_dec : EqDecision Quantity.
Proof. solve_decision. Defined.
#[export] Instance container_eq_dec : EqDecision Container.
Proof. solve_decision. Defined.
#[export] Instance pvc_source_eq_dec : EqDecision PVCSource.
Proof. solve_decision. Defined.
#[export] Instance empty_dir_eq_dec : EqDecision EmptyDirSource.
Proof. solve_decision. Defined.
#[export] Instance volume_eq_dec : EqDecision Volume.
Proof. solve_decision. Defined.
#[export] Instance pod_spec_eq_dec : EqDecision PodSpec.
Proof. solve_decision. Defined.

(** ** metav1.Condition and its library *)

Inductive ConditionStatus := ConditionTrue | ConditionFalse | ConditionUnknown.
#[export] Instance condition_status_eq_dec : EqDecision ConditionStatus.
Proof. solve_decision. Defined.

Record Condition := mkCondition {
  cd_Type : string;
  cd_Status : ConditionStatus;
  cd_Reason : string;
  cd_Message : string;
  cd_ObservedGeneration : Z;
  cd_LastTransitionTime : Z;
}.
#[export] Instance condition_eq_dec : EqDecision Condition.
Proof. solve_decision. Defined.

(** [k8s.io/apimachinery/pkg/api/meta] conditions. *)
Class ConditionLib := {
  SetStatusCondition : list Condition → Condition → list Condition;
  RemoveStatusCondition : list Condition → string → list Condition;
  FindStatusCondition : list Condition → string → option Condition;
}.

(** Setting replaces the condition of that type, keeping the transition time
    when the status does not change; other types are untouched. *)
Class ConditionLaws `{ConditionLib} := {
  find_set_eq : ∀ l c, ∃ t,
    FindStatusCondition (SetStatusCondition l c) (cd_Type c) =
      Some (mkCondition (cd_Type c) (cd_Status c) (cd_Reason c) (cd_Message c)
              (cd_ObservedGeneration c) t) ∧
    t = match FindStatusCondition l (cd_Type c) with
        | Some old => if decide (cd_Status old = cd_Status c)
                      then cd_LastTransitionTime old else cd_LastTransitionTime c
        | None => cd_LastTransitionTime c
        end;
  find_set_ne : ∀ l c t, t ≠ cd_Type c →
    FindStatusCondition (SetStatusCondition l c) t = FindStatusCondition l t;
  find_remove_eq : ∀ l t, FindStatusCondition (RemoveStatusCondition l t) t = None;
  find_remove_ne : ∀ l t t', t ≠ t' →
    FindStatusCondition (RemoveStatusCondition l t') t = FindStatusCondition l t;
}.

Section conditions.
Context `{ConditionLib}.

Definition IsStatusConditionPresentAndEqual (l : list Condition) (t : string) (st : ConditionStatus) : bool :=
  match FindStatusCondition l t with
  | Some c => bool_decide (cd_Status c = st)
  | None => false
  end.
Definition IsStatusConditionTrue (l : list Condition) (t : string) : bool :=
  IsStatusConditionPresentAndEqual l t ConditionTrue.
End conditions.

(** ** The sandbox custom resources *)

Record ObjectMeta := mkObjectMeta {
  m_Namespace : string; m_Name : string; m_UID : string; m_Generation : Z;
}.

(** [volumeClaimTemplates]: metadata and the PVC spec (kept as JSON). *)
Record PVCTemplate := mkPVCTemplate {
  vct_Name : string;
  vct_Labels : gmap string string;
  vct_Annotations : gmap string string;
  vct_Spec : gval;
}.
#[export] Instance pvc_template_eq_dec : EqDecision PVCTemplate.
Proof. solve_decision. Defined.

(** [SandboxBlueprint]: pod template, volume claim templates and service flag,
    shared by the spec of a Sandbox and of a SandboxTemplate. *)
Record SandboxBlueprint := mkBlueprint {
  bp_PodSpec : PodSpec;
  bp_PodLabels : gmap string string;
  bp_PodAnnotations : gmap string string;
  bp_VolumeClaimTemplates : list PVCTemplate;
  bp_Service : option bool;
}.

Record SandboxStatus := mkSandboxStatus {
  ss_Conditions : list Condition;
  ss_PodIPs : list string;
  ss_NodeName : string;
  ss_LabelSelector : string;
  ss_Service : string;
  ss_ServiceFQDN : string;
}.

Record Sandbox := mkSandbox {
  sb_Meta : ObjectMeta;
  sb_Blueprint : SandboxBlueprint;
  sb_OperatingMode : string;
  sb_ShutdownTime : option Z;
  sb_ShutdownPolicy : option string;
  sb_Status : SandboxStatus;
}.

Record SandboxTemplate := mkTemplate {
  tm_Meta : ObjectMeta;
  tm_Blueprint : SandboxBlueprint;
  tm_EnvVarsInjectionPolicy : string;
  tm_VolumeClaimTemplatesPolicy : string;
  tm_NetworkPolicy : bool;
  tm_NetworkPolicyManagement : string;
}.

Record SandboxWarmPool := mkWarmPool {
  wp_Meta : ObjectMeta;
  wp_Replicas : option Z;
  wp_TemplateRef : string;
}.

Record WarmPoolStatus := mkWarmPoolStatus {
  ws_Replicas : Z; ws_ReadyReplicas : Z; ws_Selector : string;
}.

(** The claim's environment variables name a container. *)
Record ClaimEnvVar := mkClaimEnv { ce_ContainerName : string; ce_Name : string; ce_Value : string }.

Record ClaimLifecycle := mkLifecycle {
  lc_ShutdownTime : option Z;
  lc_TTLSecondsAfterFinished : option Z;
  lc_ShutdownPolicy : string;
}.

Record SandboxClaimStatus := mkClaimStatus {
  cs_Conditions : list Condition;
  cs_SandboxName : string;
  cs_PodIPs : list string;
}.

Record SandboxClaim := mkClaim {
  cl_Meta : ObjectMeta;
  cl_WarmPoolRef : string;
  cl_Env : list ClaimEnvVar;
  cl_VolumeClaimTemplates : list PVCTemplate;
  cl_PodLabels : gmap string string;
  cl_PodAnnotations : gmap string string;
  cl_Lifecycle : option ClaimLifecycle;
  cl_Status : SandboxClaimStatus;
}.

Record PersistentVolumeClaim := mkPVC {
  pvc_Meta : ObjectMeta;
  pvc_AccessModes : list string;
  pvc_StorageRequest : option Quantity;
}.

Record PVCStatus := mkPVCStatus {
  pst_Phase : string; pst_AccessModes : list string; pst_Capacity : option Quantity;
}.

(** ** runtime.DefaultUnstructuredConverter

    [FromU] decodes an object into a typed struct; [StatusMap] encodes a typed
    status as the JSON value stored under [status]; [NewSandbox] and [NewPVC]
    are [ToUnstructured] on the structs the program builds, given the object
    metadata they carry. *)

Class FromU (U T : Type) := FromUnstructured : U → option T.
Class StatusMap (T : Type) := ToStatus : T → option gval.

(** Metadata set on a built object. *)
Record NewMeta := mkNewMeta {
  nm_Namespace : string; nm_Name : string; nm_GenerateName : string;
  nm_Labels : gmap string string; nm_Annotations : gmap string string;
  nm_Owners : list OwnerReference;
}.

Class Converter (U : Type) := {
  from_sandbox :: FromU U Sandbox;
  from_template :: FromU U SandboxTemplate;
  from_pool :: FromU U SandboxWarmPool;
  from_claim :: FromU U SandboxClaim;
  from_pvc :: FromU U PersistentVolumeClaim;
  status_sandbox :: StatusMap SandboxStatus;
  status_pool :: StatusMap WarmPoolStatus;
  status_claim :: StatusMap SandboxClaimStatus;
  status_pvc :: StatusMap PVCStatus;
  NewSandbox : NewMeta → SandboxBlueprint → string → option U;
  NewPVC : NewMeta → gval → option U;
}.

Section converter_laws.
Context {U : Type} `{Unstructured U}.

Definition meta_of (u : U) : ObjectMeta :=
  mkObjectMeta (GetNamespace u) (GetName u) (GetUID u) (GetGeneration u).

(** What a built object reads back as. *)
Definition built_as (u : U) (m : NewMeta) (kind : string) : Prop :=
  GetNamespace u = nm_Namespace m ∧ GetName u = nm_Name m ∧
  GetGenerateName u = nm_GenerateName m ∧ GetLabels u = nm_Labels m ∧
  GetAnnotations u = nm_Annotations m ∧
  GetOwnerReferences u = nm_Owners m ∧ GetKind u = kind ∧
  GetUID u = "" ∧ GetResourceVersion u = "".

(** The converter copies metadata both ways. *)
Class ConverterLaws `{!Converter U} := {
  from_sandbox_meta : ∀ (u : U) sb, FromUnstructured u = Some sb → sb_Meta sb = meta_of u;
  from_template_meta : ∀ (u : U) t, FromUnstructured u = Some t → tm_Meta t = meta_of u;
  from_pool_meta : ∀ (u : U) p, FromUnstructured u = Some p → wp_Meta p = meta_of u;
  from_claim_meta : ∀ (u : U) c, FromUnstructured u = Some c → cl_Meta c = meta_of u;
  from_pvc_meta : ∀ (u : U) p, FromUnstructured u = Some p → pvc_Meta p = meta_of u;
  new_sandbox_meta : ∀ m bp mode (u : U), NewSandbox m bp mode = Some u → built_as u m "Sandbox";
  new_pvc_meta : ∀ m spec (u : U), NewPVC m spec = Some u → built_as u m "PersistentVolumeClaim";
}.
End converter_laws.
Arguments ConverterLaws U {_ _}.
