(* ===== verification/Driver.v ===== *)
(** [internal/driver/driver.go] and [fake.go]: the container backend the
    reconcilers drive.  The [Driver] class is Go's interface, each method a
    state transformer of the backend; the in-memory [FakeDriver] implements it.

    The Docker implementation is in Docker.v. *)

From S2P Require Import Prelude GoStrings K8s.
Local Open Scope string_scope.

(** ** Types *)

Definition VolumeName (namespace pvcName : string) : string :=
  "las-" +:+ namespace +:+ "-" +:+ pvcName.

Definition LabelManaged : string := "las.managed".
Definition LabelNamespace : string := "las.namespace".
Definition LabelSandbox : string := "las.sandbox".
Definition LabelUID : string := "las.uid".
Definition LabelServerPort : string := "las.server-port".
Definition LabelVolume : string := "las.volume".

Inductive PullPolicy := PullIfNotPresent | PullAlways | PullNever.
#[export] Instance pull_policy_eq_dec : EqDecision PullPolicy.
Proof. solve_decision. Defined.

Record Mount := mkMount {
  mt_VolumeName : string;
  mt_Tmpfs : bool;
  mt_TmpfsSizeBytes : Z;
  mt_MountPath : string;
  mt_ReadOnly : bool;
}.
#[export] Instance mount_eq_dec : EqDecision Mount.
Proof. solve_decision. Defined.

Record Resources := mkResources { NanoCPUs : Z; MemoryBytes : Z }.
#[export] Instance resources_eq_dec : EqDecision Resources.
Proof. solve_decision. Defined.

Record SandboxContainerSpec := mkSpec {
  s_Namespace : string;
  s_SandboxName : string;
  s_UID : string;
  s_Image : string;
  s_PullPolicy : PullPolicy;
  s_Command : list string;
  s_Args : list string;
  s_Env : gmap string string;
  s_WorkingDir : string;
  s_RuntimePorts : list Z;
  s_ServerPort : Z;
  s_Mounts : list Mount;
  s_User : string;
  s_ReadOnlyRoot : bool;
  s_Resources : Resources;
  s_DNSServers : list string;
  s_Labels : gmap string string;
  s_InjectRuntime : bool;
}.
#[export] Instance spec_eq_dec : EqDecision SandboxContainerSpec.
Proof. solve_decision. Defined.

Record ContainerInfo := mkInfo {
  ci_ID : string;
  ci_Name : string;
  ci_State : string;
  ci_ExitCode : Z;
  ci_IPAddress : string;
  ci_PortMap : gmap Z Z;
  ci_Labels : gmap string string;
}.
#[export] Instance info_eq_dec : EqDecision ContainerInfo.
Proof. solve_decision. Defined.

Definition ci_Namespace (c : ContainerInfo) : string := default "" (ci_Labels c !! LabelNamespace).
Definition ci_Sandbox (c : ContainerInfo) : string := default "" (ci_Labels c !! LabelSandbox).
Definition ci_UID (c : ContainerInfo) : string := default "" (ci_Labels c !! LabelUID).

Record VolumeSpec := mkVolumeSpec {
  v_Name : string; v_Namespace : string; v_PVCName : string; v_Labels : gmap string string;
}.
#[export] Instance volume_spec_eq_dec : EqDecision VolumeSpec.
Proof. solve_decision. Defined.

Record DriverEvent := mkDriverEvent {
  de_Type : string; de_ID : string; de_Namespace : string; de_Sandbox : string; de_ExitCode : Z;
}.

Inductive driver_error :=
| ErrNotFound
| DriverFailed (msg : string).
#[export] Instance driver_error_eq_dec : EqDecision driver_error.
Proof. solve_decision. Defined.

Definition driver_msg (e : driver_error) : string :=
  match e with
  | ErrNotFound => "driver: sandbox container not found"
  | DriverFailed m => m
  end.

(** ** The interface *)

Class Driver (D : Type) := {
  EnsureImage : string → PullPolicy → D → D * res driver_error ();
  CreateSandboxContainer : SandboxContainerSpec → D → D * res driver_error ContainerInfo;
  InspectSandbox : string → string → D → D * res driver_error ContainerInfo;
  ListManaged : D → D * res driver_error (list ContainerInfo);
  StopContainer : string → D → D * res driver_error ();
  RemoveContainer : string → D → D * res driver_error ();
  EnsureVolume : VolumeSpec → D → D * res driver_error string;
  ListManagedVolumes : D → D * res driver_error (list VolumeSpec);
  RemoveVolume : string → D → D * res driver_error ();
  ProbeRuntime : Z → D → D * res driver_error ();
  (** the optional [BuildRuntimeImage] method *)
  BuildRuntimeImage : option (string → string → D → D * res driver_error ());
}.

(** What a driver state shows: the container found for a sandbox, and the
    volumes. *)
Class DriverView (D : Type) := {
  container_of : D → string → string → option ContainerInfo;
  volume_of : D → string → option VolumeSpec;
}.

(** The contract the reconcilers rely on.  Failures are allowed everywhere
    ([Err] leaves what it was asked to change unspecified), except that
    inspecting an absent container says so. *)
Class DriverLaws (D : Type) `{Driver D, DriverView D} := {
  inspect_pure : ∀ ns n d, (InspectSandbox ns n d).1 = d;
  inspect_some : ∀ ns n d info, (InspectSandbox ns n d).2 = Ok info → container_of d ns n = Some info;
  inspect_none : ∀ ns n d, (InspectSandbox ns n d).2 = Err ErrNotFound → container_of d ns n = None;
  create_ok : ∀ sp d info, (CreateSandboxContainer sp d).2 = Ok info →
    container_of (CreateSandboxContainer sp d).1 (s_Namespace sp) (s_SandboxName sp) = Some info;
  remove_ok : ∀ id ns n d info, container_of d ns n = Some info → ci_ID info = id →
    (RemoveContainer id d).2 = Ok () → container_of (RemoveContainer id d).1 ns n = None;
  remove_gone : ∀ id ns n d, container_of d ns n = None → container_of (RemoveContainer id d).1 ns n = None;
  stop_keeps : ∀ id ns n d, is_Some (container_of (StopContainer id d).1 ns n) ↔ is_Some (container_of d ns n);
  stop_id : ∀ id ns n d i j, container_of d ns n = Some i →
    container_of (StopContainer id d).1 ns n = Some j → ci_ID j = ci_ID i;
  remove_volume_ok : ∀ v d, (RemoveVolume v d).2 = Ok () → volume_of (RemoveVolume v d).1 v = None;
  remove_volume_gone : ∀ v d, volume_of d v = None → volume_of (RemoveVolume v d).1 v = None;
  remove_volume_ne : ∀ v v' d, v ≠ v' → volume_of (RemoveVolume v d).1 v' = volume_of d v';
  remove_volume_containers : ∀ v d, container_of (RemoveVolume v d).1 = container_of d;
  ensure_volume_ok : ∀ v d x, (EnsureVolume v d).2 = Ok x → volume_of (EnsureVolume v d).1 (v_Name v) = Some v;
  ensure_volume_containers : ∀ v d, container_of (EnsureVolume v d).1 = container_of d;
  ensure_image_containers : ∀ i p d, container_of (EnsureImage i p d).1 = container_of d;
  build_image_containers : ∀ b i c d, BuildRuntimeImage = Some b → container_of (b i c d).1 = container_of d;
  probe_containers : ∀ p d, container_of (ProbeRuntime p d).1 = container_of d;
  ensure_volume_ne : ∀ v d n, n ≠ v_Name v → is_Some (volume_of d n) → is_Some (volume_of (EnsureVolume v d).1 n);
  create_volumes : ∀ sp d, volume_of (CreateSandboxContainer sp d).1 = volume_of d;
  ensure_image_volumes : ∀ i p d, volume_of (EnsureImage i p d).1 = volume_of d;
  build_image_volumes : ∀ b i c d, BuildRuntimeImage = Some b → volume_of (b i c d).1 = volume_of d;
  probe_volumes : ∀ p d, volume_of (ProbeRuntime p d).1 = volume_of d;
  stop_volumes : ∀ id d, volume_of (StopContainer id d).1 = volume_of d;
  remove_volumes : ∀ id d, volume_of (RemoveContainer id d).1 = volume_of d;
}.

(** What can be said of single calls: this inspection answers, and the container
    it finds is removed when asked for. *)
Definition answers `{Driver D, DriverView D} (d : D) (ns n : string) : Prop :=
  (InspectSandbox ns n d).2 = of_opt ErrNotFound (container_of d ns n).
Definition removable `{Driver D, DriverView D} (d : D) (ns n : string) : Prop :=
  answers d ns n ∧ ∀ info, container_of d ns n = Some info → (RemoveContainer (ci_ID info) d).2 = Ok ().

(** Volumes in use: a volume that the container of some sandbox mounts may be
    refused, one that none does is removed. *)
Class Mounts (D : Type) := mounts : D → string → string → string → Prop.
Class MountLaws (D : Type) `{Driver D, DriverView D, Mounts D} := {
  mounts_container : ∀ d ns n v, mounts d ns n v → is_Some (container_of d ns n);
  remove_unused : ∀ v d, (∀ ns n, ¬ mounts d ns n v) → (RemoveVolume v d).2 = Ok ();
  remove_mounts : ∀ id d ns n v, mounts (RemoveContainer id d).1 ns n v → mounts d ns n v;
  remove_volume_mounts : ∀ v0 d ns n v, mounts (RemoveVolume v0 d).1 ns n v → mounts d ns n v;
}.

(** What start-up and the command line rely on: listings read and are
    complete, and a removal spares the containers with another id. *)
Class ListingLaws (D : Type) `{Driver D, DriverView D} := {
  list_pure : ∀ d, (ListManaged d).1 = d;
  list_complete : ∀ d l ns n info,
    (ListManaged d).2 = Ok l → container_of d ns n = Some info → info ∈ l;
  remove_other : ∀ id ns n d info, container_of d ns n = Some info → ci_ID info ≠ id →
    container_of (RemoveContainer id d).1 ns n = Some info;
  list_volumes_pure : ∀ d, (ListManagedVolumes d).1 = d;
  list_volumes_complete : ∀ d l v x,
    (ListManagedVolumes d).2 = Ok l → volume_of d v = Some x → x ∈ l;
}.

(** ** FakeDriver *)

Module Fake.
Record FakeDriver := mkFake {
  containers : gmap string ContainerInfo;
  specs : gmap string SandboxContainerSpec;
  volumes : gmap string VolumeSpec;
  nextPort : Z;
  events : list DriverEvent;
  Ready : bool;
  CreateErr : option string;
  PingErr : option string;
}.

Definition NewFakeDriver : FakeDriver := mkFake ∅ ∅ ∅ 40000 [] true None None.

Definition fkey (ns name : string) : string := ns +:+ "/" +:+ name.

Lemma fkey_inj ns n ns0 n0 :
  no_byte slash ns0 = true → no_byte slash n0 = true → fkey ns n = fkey ns0 n0 → ns = ns0 ∧ n = n0.
Proof.
  unfold fkey. intros Hns Hn. revert ns0 Hns. induction ns as [|c ns IH]; intros [|c0 ns0] Hns; simpl.
  - by intros [= ->].
  - intros [= <- E]. rewrite no_byte_cons in Hns. by destruct Hns.
  - intros [= -> E]. exfalso. rewrite <-E, no_byte_app in Hn. by destruct Hn.
  - intros [= <- E]. rewrite no_byte_cons in Hns. destruct Hns as [_ Hns]. move E at bottom.
    destruct (IH ns0 Hns E) as [-> ->]. done.
Qed.

(** [containerName] of docker.go *)
Definition containerName (ns name uid : string) : string :=
  let short := if decide (8 < String.length uid)%nat then str_take 8 uid else uid in
  "las-" +:+ ns +:+ "-" +:+ name +:+ "-" +:+ short.

Definition Ping (f : FakeDriver) : option string := PingErr f.

Definition with_containers c (f : FakeDriver) : FakeDriver :=
  mkFake c (specs f) (volumes f) (nextPort f) (events f) (Ready f) (CreateErr f) (PingErr f).
Definition with_volumes v (f : FakeDriver) : FakeDriver :=
  mkFake (containers f) (specs f) v (nextPort f) (events f) (Ready f) (CreateErr f) (PingErr f).

Definition assign_port (acc : gmap Z Z * Z) (p : Z) : gmap Z Z * Z :=
  match acc.1 !! p with
  | Some _ => acc
  | None => (<[p := acc.2]> acc.1, (acc.2 + 1)%Z)
  end.

Definition create (spec : SandboxContainerSpec) (f : FakeDriver)
  : FakeDriver * res driver_error ContainerInfo :=
  match CreateErr f with
  | Some e => (f, Err (DriverFailed e))
  | None =>
      let port := nextPort f in
      let '(pm, np) := foldl assign_port ({[s_ServerPort spec := port]}, (port + 1)%Z)
                         (s_RuntimePorts spec) in
      let info := mkInfo ("fake-" +:+ s_Namespace spec +:+ "-" +:+ s_SandboxName spec)
        (containerName (s_Namespace spec) (s_SandboxName spec) (s_UID spec))
        "running" 0 ("10.88.0." +:+ itoa (port `mod` 250 + 2)) pm
        {[LabelManaged := "true"; LabelNamespace := s_Namespace spec;
          LabelSandbox := s_SandboxName spec; LabelUID := s_UID spec]} in
      let k := fkey (s_Namespace spec) (s_SandboxName spec) in
      (mkFake (<[k := info]> (containers f)) (<[k := spec]> (specs f)) (volumes f) np
         (events f) (Ready f) (CreateErr f) (PingErr f), Ok info)
  end.

Definition inspect (ns name : string) (f : FakeDriver)
  : FakeDriver * res driver_error ContainerInfo :=
  (f, of_opt ErrNotFound (containers f !! fkey ns name)).

Definition set_state (st : string) (code : Z) (c : ContainerInfo) : ContainerInfo :=
  mkInfo (ci_ID c) (ci_Name c) st code (ci_IPAddress c) (ci_PortMap c) (ci_Labels c).

Definition stop (id : string) (f : FakeDriver) : FakeDriver * res driver_error () :=
  (with_containers
     ((λ c, if decide (ci_ID c = id) then set_state "exited" (ci_ExitCode c) c else c) <$> containers f) f,
   Ok ()).

Definition remove (id : string) (f : FakeDriver) : FakeDriver * res driver_error () :=
  (with_containers (filter (λ p, ci_ID p.2 ≠ id) (containers f)) f, Ok ()).

Definition ensure_volume (v : VolumeSpec) (f : FakeDriver) : FakeDriver * res driver_error string :=
  (with_volumes (<[v_Name v := v]> (volumes f)) f, Ok (v_Name v)).

Definition remove_volume (name : string) (f : FakeDriver) : FakeDriver * res driver_error () :=
  (with_volumes (delete name (volumes f)) f, Ok ()).

Definition probe (port : Z) (f : FakeDriver) : FakeDriver * res driver_error () :=
  (f, if Ready f then Ok () else Err (DriverFailed "fake: runtime not ready")).

(** [KillContainer]: the container exits with a code and a die event is sent. *)
Definition KillContainer (ns name : string) (exitCode : Z) (f : FakeDriver) : FakeDriver :=
  match containers f !! fkey ns name with
  | Some c =>
      mkFake (<[fkey ns name := set_state "exited" exitCode c]> (containers f)) (specs f)
        (volumes f) (nextPort f)
        (events f ++ [mkDriverEvent "die" (ci_ID c) ns name exitCode])%list
        (Ready f) (CreateErr f) (PingErr f)
  | None => f
  end.

Definition last_spec (ns name : string) (f : FakeDriver) : option SandboxContainerSpec := specs f !! fkey ns name.

Section ranges.
Context `{GoRuntime}.
(** The listings range over a map. *)
Definition list_managed (f : FakeDriver) : FakeDriver * res driver_error (list ContainerInfo) :=
  (f, Ok (range_map (containers f)).*2).
Definition list_managed_volumes (f : FakeDriver) : FakeDriver * res driver_error (list VolumeSpec) :=
  (f, Ok (range_map (volumes f)).*2).
#[export] Instance fake_driver : Driver FakeDriver := {
  EnsureImage := λ _ _ f, (f, Ok ());
  CreateSandboxContainer := create;
  InspectSandbox := inspect;
  ListManaged := list_managed;
  StopContainer := stop;
  RemoveContainer := remove;
  EnsureVolume := ensure_volume;
  ListManagedVolumes := list_managed_volumes;
  RemoveVolume := remove_volume;
  ProbeRuntime := probe;
  BuildRuntimeImage := None;
}.
End ranges.

#[export] Instance fake_view : DriverView FakeDriver := {
  container_of := λ f ns n, containers f !! fkey ns n;
  volume_of := λ f v, volumes f !! v;
}.

(** The in-memory driver meets the contract of the interface. *)
#[export] Instance fake_driver_laws `{GoRuntime} : DriverLaws FakeDriver.
Proof.
  constructor; simpl; try done.
  - intros ns n d info. by destruct (containers d !! fkey ns n) eqn:E; intros [= <-].
  - intros ns n d. by destruct (containers d !! fkey ns n).
  - intros sp d info. unfold create. destruct (CreateErr d); [done|].
    destruct (foldl assign_port _ _). intros [= <-]. simpl. by rewrite lookup_insert_eq.
  - intros id ns n d info Hi Hid _. apply map_lookup_filter_None_2. right. naive_solver.
  - intros id ns n d Hi. apply map_lookup_filter_None_2. by left.
  - intros id ns n d. rewrite lookup_fmap. destruct (containers d !! fkey ns n); simpl; split; intros [? ?]; eauto.
  - intros id ns n d i j Hi. rewrite lookup_fmap, Hi. simpl. intros [= <-]. by case_decide.
  - intros v d _. apply lookup_delete_eq.
  - intros v d _. apply lookup_delete_eq.
  - intros v v' d Hne. by apply lookup_delete_ne.
  - intros v d x _. apply lookup_insert_eq.
  - intros v d n Hne. by rewrite lookup_insert_ne.
  - intros sp d. unfold create. destruct (CreateErr d); [done|].
    by destruct (foldl assign_port _ _).
Qed.

(** It keeps the specification of every container it created. *)
#[export] Instance fake_mounts : Mounts FakeDriver := λ f ns n v,
  is_Some (containers f !! fkey ns n) ∧
  ∃ sp, specs f !! fkey ns n = Some sp ∧ v ∈ mt_VolumeName <$> s_Mounts sp.

#[export] Instance fake_mount_laws `{GoRuntime} : MountLaws FakeDriver.
Proof.
  constructor; simpl; try done.
  - by intros d ns n v [? _].
  - intros id d ns n v [[c [Hc _]%map_lookup_filter_Some] Hs]. split; [by exists c|done].
Qed.

Lemma range_map_snd `{GoRuntime} {K V} `{Countable K} (m : gmap K V) x : x ∈ (range_map m).*2 ↔ ∃ k, m !! k = Some x.
Proof.
  rewrite range_map_perm, list_elem_of_fmap. split.
  - intros ([k y] & -> & Hin%elem_of_map_to_list). eauto.
  - intros [k Hk]. exists (k, x). split; [done|]. by apply elem_of_map_to_list.
Qed.

#[export] Instance fake_listing_laws `{GoRuntime} : ListingLaws FakeDriver.
Proof.
  constructor; simpl; try done.
  - intros d l ns n info [= <-] Hi. apply range_map_snd. eauto.
  - intros id ns n d info Hi Hne. by apply map_lookup_filter_Some.
  - intros d l v x [= <-] Hx. apply range_map_snd. eauto.
Qed.

(** *** Host ports *)

(** [acc] maps ports injectively into [lo .. acc.2 - 1]. *)
Definition ports_ok (lo : Z) (acc : gmap Z Z * Z) : Prop :=
  (∀ p h, acc.1 !! p = Some h → lo ≤ h < acc.2)%Z ∧
  (∀ p q h, acc.1 !! p = Some h → acc.1 !! q = Some h → p = q).

Lemma assign_port_ok lo acc p :
  ports_ok lo acc → (lo ≤ acc.2)%Z →
  ports_ok lo (assign_port acc p) ∧ is_Some ((assign_port acc p).1 !! p) ∧
  (acc.2 ≤ (assign_port acc p).2)%Z ∧ acc.1 ⊆ (assign_port acc p).1.
Proof.
  intros [Hr Hi] Hlo. unfold assign_port. destruct (acc.1 !! p) as [h|] eqn:E.
  { split_and!; [done|by rewrite E|lia|done]. }
  simpl. split_and!; [split|by rewrite lookup_insert_eq|lia|by apply insert_subseteq].
  - intros q h. simpl. destruct (decide (p = q)) as [<-|Hne].
    + rewrite lookup_insert_eq. intros [= <-]. lia.
    + rewrite lookup_insert_ne by done. intros Hq%Hr. lia.
  - intros q q' h. simpl. destruct (decide (p = q)) as [<-|Hq], (decide (p = q')) as [<-|Hq'];
      rewrite ?lookup_insert_eq, ?lookup_insert_ne by done; try done.
    + intros [= <-] Hh%Hr. lia.
    + intros Hh%Hr [= <-]. lia.
    + apply Hi.
Qed.

Lemma assign_ports_ok lo l acc :
  ports_ok lo acc → (lo ≤ acc.2)%Z →
  let out := foldl assign_port acc l in
  ports_ok lo out ∧ (∀ p, p ∈ l → is_Some (out.1 !! p)) ∧ acc.1 ⊆ out.1.
Proof.
  revert acc; induction l as [|p l IH]; intros acc Hok Hlo; simpl.
  { split_and!; [done|by intros ? ?%not_elem_of_nil|done]. }
  destruct (assign_port_ok lo acc p Hok Hlo) as (Hok' & [h Hh] & Hle & Hsub).
  destruct (IH _ Hok' ltac:(lia)) as (Hout & Hall & Hsub').
  split_and!; [done| |by etransitivity].
  intros q [->|Hq]%elem_of_cons; [|by apply Hall].
  exists h. by eapply lookup_weaken.
Qed.

(** Publishing ports: a container created by the in-memory driver exposes
    the server port and every declared port, no two of them on the same host
    port, all at or above the first port that was free. *)
Theorem fake_ports spec f f' info :
  create spec f = (f', Ok info) →
  is_Some (ci_PortMap info !! s_ServerPort spec) ∧
  (∀ p, p ∈ s_RuntimePorts spec → is_Some (ci_PortMap info !! p)) ∧
  (∀ p q h, ci_PortMap info !! p = Some h → ci_PortMap info !! q = Some h → p = q) ∧
  (∀ p h, ci_PortMap info !! p = Some h → nextPort f ≤ h < nextPort f')%Z.
Proof.
  unfold create. destruct (CreateErr f); [done|].
  set (acc := ({[s_ServerPort spec := nextPort f]}, (nextPort f + 1)%Z)).
  assert (ports_ok (nextPort f) acc) as Hok.
  { split; unfold acc; simpl.
    - intros p h [_ <-]%lookup_singleton_Some. lia.
    - intros p q h [E _]%lookup_singleton_Some [E' _]%lookup_singleton_Some. congruence. }
  destruct (assign_ports_ok (nextPort f) (s_RuntimePorts spec) acc Hok) as ([Hr Hi] & Hall & Hsub);
    [simpl; lia|].
  destruct (foldl assign_port acc (s_RuntimePorts spec)) as [pm np]. intros [= <- <-]. simpl in *.
  split_and!; [|done|done|done].
  exists (nextPort f). eapply lookup_weaken; [|exact Hsub]. apply lookup_singleton_eq.
Qed.

Lemma fake_ports_witness :
  let spec := mkSpec "default" "sb" "uid" "img" PullIfNotPresent [] [] ∅ "" [80%Z; 8888%Z] 8888 []
                "" false (mkResources 0 0) [] ∅ false in
  let r := create spec NewFakeDriver in
  ci_PortMap (default (mkInfo "" "" "" 0 "" ∅ ∅) (ok_val r.2)) !! 80%Z = Some 40001%Z ∧
  is_Some (ci_PortMap (default (mkInfo "" "" "" 0 "" ∅ ∅) (ok_val r.2)) !! 8888%Z).
Proof.
  intros spec r. split; [vm_compute; reflexivity|].
  exact (proj1 (fake_ports spec NewFakeDriver r.1 _ (ok_pair (mkInfo "" "" "" 0 "" ∅ ∅) r eq_refl))).
Defined.
End Fake.

#[export] Existing Instances Fake.fake_driver Fake.fake_view Fake.fake_driver_laws
  Fake.fake_mounts Fake.fake_mount_laws Fake.fake_listing_laws.
