(* ===== verification/Mapping.v ===== *)
(** [internal/driver/mapping.go]: from a pod spec to a container spec.

    [MapPodSpec] runs the pod's first container.  The warnings, which are only
    logged, are kept as values instead of formatted strings. *)

From S2P Require Import Prelude GoStrings K8s Core Driver.
Local Open Scope string_scope.

Record MappingMeta := mkMapMeta {
  mm_Namespace : string;
  mm_SandboxName : string;
  mm_UID : string;
  mm_ServerPort : Z;
  mm_ExtraLabels : gmap string string;
  mm_InjectRuntime : bool;
}.

Record MapError := mapErrf { map_msg : string }.

Inductive map_warning :=
| MultiContainer (first : string) (others : nat)
| EnvValueFrom (name : string)
| UnknownVolume (name : string)
| SubPathIgnored (name : string)
| EmptyClaimName (name : string)
| UnsupportedVolume (name : string).

Definition pull_policy (p : string) : PullPolicy :=
  if decide (p = "Always") then PullAlways
  else if decide (p = "Never") then PullNever
  else PullIfNotPresent.

(** One environment entry: plain values only. *)
Definition env_step (acc : gmap string string * list map_warning) (e : EnvVar)
  : gmap string string * list map_warning :=
  if ev_ValueFrom e
  then (acc.1, (acc.2 ++ [EnvValueFrom (ev_Name e)])%list)
  else (<[ev_Name e := ev_Value e]> acc.1, acc.2).

(** The set of ports to publish, in increasing order ([sort.Ints]). *)
Definition port_set (serverPort : Z) (ports : list Z) : gset Z :=
  {[serverPort]} ∪ list_to_set (filter (λ p, (0 < p)%Z) ports).

Definition sort_ints (l : list Z) : list Z := merge_sort Z.le l.

(** [volByName]: a later volume of the same name wins. *)
Definition volByName (vs : list Volume) : gmap string Volume :=
  foldl (λ m v, <[vo_Name v := v]> m) ∅ vs.

(** One volume mount: the mount it adds, if any, and its warnings. *)
Definition map_mount (ns : string) (vols : gmap string Volume) (vm : VolumeMount)
  : option Mount * list map_warning :=
  match vols !! vm_Name vm with
  | None => (None, [UnknownVolume (vm_Name vm)])
  | Some vol =>
      let w := if decide (vm_SubPath vm = "") then []
               else [SubPathIgnored (vm_Name vm)] in
      match vo_PersistentVolumeClaim vol with
      | Some pvc =>
          let claim := ps_ClaimName pvc in
          if decide (claim = "")
          then (None, (w ++ [EmptyClaimName (vm_Name vm)])%list)
          else (Some (mkMount (VolumeName ns claim) false 0 (vm_MountPath vm)
                        (vm_ReadOnly vm || ps_ReadOnly pvc)), w)
      | None =>
          match vo_EmptyDir vol with
          | Some ed =>
              let size := if decide (ed_Medium ed = "Memory")
                          then default 0%Z (ed_SizeLimit ed) else 0%Z in
              (Some (mkMount "" true size (vm_MountPath vm) (vm_ReadOnly vm)), w)
          | None =>
              (None, (w ++ [UnsupportedVolume (vm_Name vm)])%list)
          end
      end
  end.

Definition mount_step (ns : string) (vols : gmap string Volume)
  (acc : list Mount * list map_warning) (vm : VolumeMount) : list Mount * list map_warning :=
  let '(m, w) := map_mount ns vols vm in
  ((acc.1 ++ match m with Some m => [m] | None => [] end)%list, (acc.2 ++ w)%list).

(** ["%d"] and ["%d:%d"] *)
Definition user_of (sc : SecurityContext) : string :=
  match sc_RunAsUser sc with
  | Some u => match sc_RunAsGroup sc with
              | Some g => itoa u +:+ ":" +:+ itoa g
              | None => itoa u
              end
  | None => ""
  end.

Definition privileged (c : Container) : bool :=
  match co_SecurityContext c with
  | Some sc => default false (sc_Privileged sc)
  | None => false
  end.

Definition map_user (podSpec : PodSpec) (c : Container) : string :=
  let user := match co_SecurityContext c with Some sc => user_of sc | None => "" end in
  if decide (user = "")
  then match PodSecurityContext podSpec with Some psc => user_of psc | None => "" end
  else user.

Definition map_read_only (c : Container) : bool :=
  match co_SecurityContext c with
  | Some sc => default false (sc_ReadOnlyRootFilesystem sc)
  | None => false
  end.

(** CPU and memory limits on [int64]. *)
Definition map_resources (c : Container) : Resources :=
  let lim := default ∅ (co_Limits c) in
  mkResources
    (match lim !! "cpu" with Some q => wrap_i64 (q_MilliValue q * 1000000) | None => 0 end)
    (match lim !! "memory" with Some q => q_Value q | None => 0 end).

Definition MapPodSpec (podSpec : PodSpec) (meta : MappingMeta) (defaultServerPort : Z)
  : res MapError SandboxContainerSpec * list map_warning :=
  match Containers podSpec with
  | [] => (Err (mapErrf "driver: pod spec has no containers"), [])
  | c :: others =>
      let w0 := if decide (others = []) then []
                else [MultiContainer (co_Name c) (length others)] in
      let serverPort := if decide (mm_ServerPort meta = 0%Z)
                        then defaultServerPort else mm_ServerPort meta in
      let '(env, w1) := foldl env_step (∅, w0) (co_Env c) in
      let ports := sort_ints (elements (port_set serverPort (co_Ports c))) in
      let '(mounts, w2) := foldl (mount_step (mm_Namespace meta) (volByName (Volumes podSpec)))
                             ([], w1) (co_VolumeMounts c) in
      if privileged c
      then (Err (mapErrf "driver: privileged containers are refused"), w2)
      else
        (Ok (mkSpec (mm_Namespace meta) (mm_SandboxName meta) (mm_UID meta)
               (co_Image c) (pull_policy (co_ImagePullPolicy c))
               (co_Command c) (co_Args c) env (co_WorkingDir c)
               ports serverPort mounts
               (map_user podSpec c) (map_read_only c) (map_resources c)
               (default [] (DNSNameservers podSpec))
               (mm_ExtraLabels meta)
               (mm_InjectRuntime meta)), w2)
  end.

(** ** Facts *)

Lemma env_fold l acc k :
  (foldl env_step acc l).1 !! k =
  match last (filter (λ e, ev_ValueFrom e = false ∧ ev_Name e = k) l) with
  | Some e => Some (ev_Value e)
  | None => acc.1 !! k
  end.
Proof.
  revert acc; induction l as [|e l IH]; intros acc; [done|].
  cbn [foldl]. rewrite IH, filter_cons. unfold env_step.
  destruct (decide (ev_ValueFrom e = false ∧ ev_Name e = k)) as [[Hv <-]|Hn].
  - rewrite Hv, last_cons. simpl. destruct (last _); [done|]. by rewrite lookup_insert_eq.
  - destruct (ev_ValueFrom e) eqn:Hv; simpl; [done|].
    rewrite lookup_insert_ne by naive_solver. done.
Qed.

Lemma mounts_fold ns vols l acc :
  (foldl (mount_step ns vols) acc l).1 =
  (acc.1 ++ omap (λ vm, (map_mount ns vols vm).1) l)%list.
Proof.
  revert acc; induction l as [|vm l IH]; intros acc; simpl; [by rewrite app_nil_r|].
  rewrite IH. unfold mount_step. destruct (map_mount ns vols vm) as [[m|] w]; simpl.
  - by rewrite <-app_assoc.
  - by rewrite app_nil_r.
Qed.

(** A docker volume mount is the volume of a claim the pod names. *)
Lemma map_mount_volume ns vols vm m :
  (map_mount ns vols vm).1 = Some m → mt_VolumeName m ≠ "" →
  ∃ vol pvc, vols !! vm_Name vm = Some vol ∧ vo_PersistentVolumeClaim vol = Some pvc ∧
    ps_ClaimName pvc ≠ "" ∧ mt_VolumeName m = VolumeName ns (ps_ClaimName pvc) ∧
    mt_Tmpfs m = false ∧ mt_MountPath m = vm_MountPath vm ∧
    mt_ReadOnly m = (vm_ReadOnly vm || ps_ReadOnly pvc).
Proof.
  unfold map_mount. destruct (vols !! vm_Name vm) as [vol|]; [|done].
  destruct (vo_PersistentVolumeClaim vol) as [pvc|] eqn:Hp.
  - case_decide; [done|]. intros [= <-] _. by exists vol, pvc.
  - destruct (vo_EmptyDir vol); [|done]. by intros [= <-].
Qed.

Lemma volByName_lookup vs n v :
  volByName vs !! n = Some v → v ∈ vs ∧ vo_Name v = n.
Proof.
  unfold volByName. cut (∀ m : gmap string Volume, foldl (λ m v, <[vo_Name v := v]> m) m vs !! n = Some v →
    (v ∈ vs ∧ vo_Name v = n) ∨ m !! n = Some v).
  { intros Hc E. by apply Hc in E as [?|?]. }
  induction vs as [|v' vs IH]; intros m; simpl; [by right|].
  intros [[? ?]|E]%IH; [left; split; [by right|done]|].
  apply lookup_insert_Some in E as [[<- <-]|[_ E]]; [left; split; [left|done]|by right].
Qed.

Lemma sort_ints_sorted l : NoDup l → StronglySorted Z.lt (sort_ints l).
Proof.
  intros Hnd. assert (NoDup (sort_ints l)) as Hnd' by (unfold sort_ints; by rewrite merge_sort_Permutation).
  assert (StronglySorted Z.le (sort_ints l)) as Hs.
  { apply Sorted_StronglySorted; [exact _|]. apply Sorted_merge_sort. exact _. }
  induction Hs as [|x l' Hl' IH Hx]; [constructor|].
  apply NoDup_cons in Hnd' as [Hni Hnd']. constructor; [by apply IH|].
  rewrite Forall_forall in Hx |- *. intros y Hy. pose proof (Hx y Hy).
  assert (x ≠ y) by (by intros ->). lia.
Qed.

(** What an accepted pod becomes: the container is not privileged, its
    ports are the server port and the positive declared ports, each once and in
    increasing order, its environment maps each name to its last plain value,
    and every docker volume it mounts is that of a non-empty claim of one of the
    pod's volumes, read-only when the mount or the claim says so. *)
Theorem MapPodSpec_sound pod meta dflt spec warns :
  MapPodSpec pod meta dflt = (Ok spec, warns) →
  ∃ c others, Containers pod = c :: others ∧ privileged c = false ∧
    s_ServerPort spec = (if decide (mm_ServerPort meta = 0%Z) then dflt else mm_ServerPort meta) ∧
    StronglySorted Z.lt (s_RuntimePorts spec) ∧
    (∀ p, p ∈ s_RuntimePorts spec ↔ p = s_ServerPort spec ∨ (p ∈ co_Ports c ∧ 0 < p)%Z) ∧
    (∀ k, s_Env spec !! k =
       ev_Value <$> last (filter (λ e, ev_ValueFrom e = false ∧ ev_Name e = k) (co_Env c))) ∧
    (∀ m, m ∈ s_Mounts spec → mt_VolumeName m ≠ "" →
       ∃ vm vol pvc, vm ∈ co_VolumeMounts c ∧ vol ∈ Volumes pod ∧ vo_Name vol = vm_Name vm ∧
         vo_PersistentVolumeClaim vol = Some pvc ∧ ps_ClaimName pvc ≠ "" ∧
         mt_VolumeName m = VolumeName (mm_Namespace meta) (ps_ClaimName pvc) ∧
         mt_MountPath m = vm_MountPath vm ∧
         mt_ReadOnly m = (vm_ReadOnly vm || ps_ReadOnly pvc)).
Proof.
  unfold MapPodSpec. destruct (Containers pod) as [|c others]; [done|].
  set (w0 := if decide (others = []) then [] else _). set (sp := if decide _ then dflt else _).
  destruct (foldl env_step (∅, w0) (co_Env c)) as [env w1] eqn:Henv.
  destruct (foldl (mount_step _ _) ([], w1) (co_VolumeMounts c)) as [mounts w2] eqn:Hm.
  destruct (privileged c) eqn:Hpriv; [done|]. intros [= <- _]. exists c, others. simpl.
  split_and!; try done.
  - apply sort_ints_sorted, NoDup_elements.
  - intros p. unfold sort_ints. rewrite merge_sort_Permutation, elem_of_elements.
    unfold port_set. rewrite elem_of_union, elem_of_singleton, elem_of_list_to_set, list_elem_of_filter.
    tauto.
  - intros k. pose proof (env_fold (co_Env c) (∅, w0) k) as He. rewrite Henv in He. simpl in He.
    rewrite He. destruct (last _); [done|]. by rewrite lookup_empty.
  - intros m Hin Hne.
    pose proof (mounts_fold (mm_Namespace meta) (volByName (Volumes pod)) (co_VolumeMounts c) ([], w1)) as Hf.
    rewrite Hm in Hf. simpl in Hf. subst mounts.
    apply list_elem_of_omap in Hin as (vm & Hvm & Hmm).
    destruct (map_mount_volume _ _ _ _ Hmm Hne) as (vol & pvc & Hv & Hp & Hc & Hn & _ & Hmp & Hro).
    apply volByName_lookup in Hv as [Hv Hvn]. exists vm, vol, pvc. by split_and!.
Qed.

(** A pod without containers and a privileged container are refused, and
    nothing else is. *)
Theorem MapPodSpec_refuses pod meta dflt :
  is_ok (MapPodSpec pod meta dflt).1 = false ↔
  Containers pod = [] ∨ ∃ c others, Containers pod = c :: others ∧
    ∃ sc, co_SecurityContext c = Some sc ∧ sc_Privileged sc = Some true.
Proof.
  unfold MapPodSpec. destruct (Containers pod) as [|c others].
  { split; [by left|done]. }
  destruct (foldl env_step _ _) as [env w1]. destruct (foldl (mount_step _ _) _ _) as [mounts w2].
  unfold privileged. destruct (co_SecurityContext c) as [sc|] eqn:Hsc.
  - destruct (sc_Privileged sc) as [[]|] eqn:Hp; simpl; naive_solver.
  - simpl. naive_solver.
Qed.

(** ** Witness *)

Definition demo_container : Container :=
  mkContainer "main" "img" "" [] [] "" [mkEnvVar "A" "1" false; mkEnvVar "A" "2" false]
    [80%Z; 0%Z; 9000%Z] [mkVolumeMount "data" "/data" "" false] None None.

Definition demo_pod : PodSpec :=
  mkPodSpec [demo_container] [mkVolume "data" (Some (mkPVCSource "claim-a" true)) None] None "" None None.

Definition demo_map_meta : MappingMeta := mkMapMeta "default" "sb" "uid" 8888 ∅ false.

Lemma MapPodSpec_witness :
  ∃ spec, MapPodSpec demo_pod demo_map_meta 8888 = (Ok spec, []) ∧
    s_RuntimePorts spec = [80; 8888; 9000]%Z ∧
    ∃ c others, Containers demo_pod = c :: others ∧ privileged c = false.
Proof.
  eexists. split; [vm_compute; reflexivity|]. split; [reflexivity|].
  edestruct (MapPodSpec_sound demo_pod demo_map_meta 8888) as (c & others & Hc & Hp & _);
    [vm_compute; reflexivity|]. by exists c, others.
Defined.
