(* ===== verification/Build.v ===== *)
(** [internal/reconciler/build.go]: a Sandbox from a template and a claim.

    A Go index-out-of-range panic is the error [Panicked]: it is not an error
    value the callers can handle. *)

From S2P Require Import Prelude GoStrings K8s Apis Core.
Local Open Scope string_scope.

(** ** controllerRef *)

Section refs.
Context {U : Type} `{Unstructured U}.

Definition controllerRef (owner : U) (apiVersion kind : string) : OwnerReference :=
  mkOwnerRef apiVersion kind (GetName owner) (GetUID owner) (Some true) (Some true).
End refs.

(** ** applySecureDefaults *)

Definition DNSNone : string := "None".
Definition NetworkPolicyManagementManaged : string := "Managed".

Definition with_token (t : option bool) (p : PodSpec) : PodSpec :=
  mkPodSpec (Containers p) (Volumes p) (PodSecurityContext p) (DNSPolicy p) (DNSNameservers p) t.
Definition with_dns (policy : string) (ns : option (list string)) (p : PodSpec) : PodSpec :=
  mkPodSpec (Containers p) (Volumes p) (PodSecurityContext p) policy ns (AutomountServiceAccountToken p).
Definition with_containers (cs : list Container) (p : PodSpec) : PodSpec :=
  mkPodSpec cs (Volumes p) (PodSecurityContext p) (DNSPolicy p) (DNSNameservers p)
    (AutomountServiceAccountToken p).

Definition applySecureDefaults (podSpec : PodSpec) (npManagement : string)
  (hasCustomPolicy : bool) : PodSpec :=
  let p := match AutomountServiceAccountToken podSpec with
           | None => with_token (Some false) podSpec
           | Some _ => podSpec
           end in
  let managed := bool_decide (npManagement = "" ∨ npManagement = NetworkPolicyManagementManaged) in
  if managed && negb hasCustomPolicy then
    let ns := default [] (DNSNameservers p) in
    with_dns DNSNone
      (Some (if decide (ns = []) then ["8.8.8.8"; "1.1.1.1"] else ns)) p
  else p.

(** ** Errors *)

(** [ErrVCTRejected] carries the text that follows the sentinel's message. *)
Inductive build_error :=
| ErrEnvInjectionRejected (policy : string)
| EnvNoContainer (name : string)
| EnvAlreadySet (env container : string)
| ErrVCTRejected (detail : string)
| ConvertError
| StoreError (e : api_error)
| NotControlled (name : string)
| Panicked.
#[export] Instance build_error_eq_dec : EqDecision build_error.
Proof. solve_decision. Defined.

(** ** injectEnv *)

Definition PolicyAllowed : string := "Allowed".
Definition PolicyOverrides : string := "Overrides".

Definition set_env (c : Container) (env : list EnvVar) : Container :=
  mkContainer (co_Name c) (co_Image c) (co_ImagePullPolicy c) (co_Command c) (co_Args c)
    (co_WorkingDir c) env (co_Ports c) (co_VolumeMounts c) (co_SecurityContext c) (co_Limits c).

(** The index of the container an entry targets. *)
Definition env_target (cs : list Container) (e : ClaimEnvVar) : res build_error nat :=
  if decide (ce_ContainerName e = "") then Ok 0
  else match list_find (λ c, co_Name c = ce_ContainerName e) cs with
       | Some (i, _) => Ok i
       | None => Err (EnvNoContainer (ce_ContainerName e))
       end.

Definition env_index (env : list EnvVar) (name : string) : option nat :=
  fst <$> list_find (λ v, ev_Name v = name) env.

Definition inject_one (policy : string) (cs : list Container) (e : ClaimEnvVar)
  : res build_error (list Container) :=
  idx ← env_target cs e;
  match cs !! idx with
  | None => Err Panicked
  | Some c =>
      match env_index (co_Env c) (ce_Name e) with
      | Some j =>
          if decide (policy = PolicyOverrides)
          then Ok (<[idx := set_env c (<[j := mkEnvVar (ce_Name e) (ce_Value e) false]> (co_Env c))]> cs)
          else Err (EnvAlreadySet (ce_Name e) (co_Name c))
      | None =>
          Ok (<[idx := set_env c (co_Env c ++ [mkEnvVar (ce_Name e) (ce_Value e) false])%list]> cs)
      end
  end.

Fixpoint inject_all (policy : string) (cs : list Container) (env : list ClaimEnvVar)
  : res build_error (list Container) :=
  match env with
  | [] => Ok cs
  | e :: env' => cs' ← inject_one policy cs e; inject_all policy cs' env'
  end.

Definition injectEnv (podSpec : PodSpec) (env : list ClaimEnvVar) (policy : string)
  : res build_error PodSpec :=
  if decide (env = []) then Ok podSpec
  else if decide (policy ≠ PolicyAllowed ∧ policy ≠ PolicyOverrides)
  then Err (ErrEnvInjectionRejected policy)
  else (λ cs, with_containers cs podSpec) <$> inject_all policy (Containers podSpec) env.

(** ** mergeVCT *)

(** [idx]: the position each name maps to, the last one for a repeated name. *)
Definition vct_index (l : list PVCTemplate) : gmap string nat :=
  foldl (λ m iv, <[vct_Name iv.2 := iv.1]> m) ∅ (imap pair l).

Fixpoint merge_loop (overrides : bool) (idx : gmap string nat) (out extra : list PVCTemplate)
  : res build_error (list PVCTemplate) :=
  match extra with
  | [] => Ok out
  | v :: extra' =>
      match idx !! vct_Name v with
      | Some at_ =>
          if overrides then merge_loop overrides idx (<[at_ := v]> out) extra'
          else Err (ErrVCTRejected (": " +:+ go_quote (vct_Name v) +:+
                                    " already defined and policy is not Overrides"))
      | None => merge_loop overrides (<[vct_Name v := length out]> idx) (out ++ [v])%list extra'
      end
  end.

Definition mergeVCT (base extra : list PVCTemplate) (policy : string)
  : res build_error (list PVCTemplate) :=
  if decide (policy ≠ PolicyAllowed ∧ policy ≠ PolicyOverrides)
  then Err (ErrVCTRejected (" (" +:+ go_quote policy +:+ ")"))
  else merge_loop (bool_decide (policy = PolicyOverrides)) (vct_index base) base extra.

(** ** buildSandbox *)

(** Additional pod metadata of a claim: labels and annotations. *)
Definition PodMetadata : Type := gmap string string * gmap string string.

Definition with_blueprint_spec (p : PodSpec) (b : SandboxBlueprint) : SandboxBlueprint :=
  mkBlueprint p (bp_PodLabels b) (bp_PodAnnotations b) (bp_VolumeClaimTemplates b) (bp_Service b).

(** The claim's entries win over the template's. *)
Definition merge_pod_metadata (m : option PodMetadata) (b : SandboxBlueprint) : SandboxBlueprint :=
  match m with
  | Some (l, a) =>
      mkBlueprint (bp_PodSpec b) (l ∪ bp_PodLabels b) (a ∪ bp_PodAnnotations b)
        (bp_VolumeClaimTemplates b) (bp_Service b)
  | None => b
  end.

Definition OperatingModeRunning : string := "Running".
Definition OperatingModeSuspended : string := "Suspended".

Section build.
Context {U : Type} `{Unstructured U} `{!Converter U}.

Definition buildSandbox (tmpl : SandboxTemplate) (ns name generateName : string)
  (owner : option U) (ownerKind : string) (labels : gmap string string)
  (env : list ClaimEnvVar) (extraVCT : list PVCTemplate) (podMeta : option PodMetadata)
  : res build_error U :=
  let bp := tm_Blueprint tmpl in
  podSpec ← injectEnv (bp_PodSpec bp) env (tm_EnvVarsInjectionPolicy tmpl);
  let podSpec := applySecureDefaults podSpec (tm_NetworkPolicyManagement tmpl) (tm_NetworkPolicy tmpl) in
  let bp := merge_pod_metadata podMeta (with_blueprint_spec podSpec bp) in
  vcts ← (if decide (extraVCT = []) then Ok (bp_VolumeClaimTemplates bp)
          else mergeVCT (bp_VolumeClaimTemplates bp) extraVCT (tm_VolumeClaimTemplatesPolicy tmpl));
  let bp := mkBlueprint (bp_PodSpec bp) (bp_PodLabels bp) (bp_PodAnnotations bp) vcts (bp_Service bp) in
  of_opt ConvertError
    (NewSandbox (mkNewMeta ns name generateName labels ∅
                   (match owner with
                    | Some o => [controllerRef o ExtensionsGV ownerKind]
                    | None => [] end)) bp OperatingModeRunning).
End build.

(** ** injectEnv *)

(** The value a container sees for a name: the first entry. *)
Definition find_env (n : string) (l : list EnvVar) : option EnvVar :=
  head (filter (λ v, ev_Name v = n) l).

Lemma env_index_cons n v l :
  env_index (v :: l) n =
  if decide (ev_Name v = n) then Some 0 else S <$> env_index l n.
Proof.
  unfold env_index. simpl. case_decide; [done|]. by destruct (list_find _ l) as [[]|].
Qed.

Lemma find_env_cons n v l :
  find_env n (v :: l) = if decide (ev_Name v = n) then Some v else find_env n l.
Proof. unfold find_env. rewrite filter_cons. by case_decide. Qed.

Lemma find_env_insert l j v m n :
  env_index l m = Some j → ev_Name v = m →
  find_env n (<[j := v]> l) = if decide (n = m) then Some v else find_env n l.
Proof.
  revert j; induction l as [|w l IH]; intros j; [done|].
  rewrite env_index_cons. intros Hj Hm. destruct (decide (ev_Name w = m)) as [Hw|Hw].
  - injection Hj as <-. simpl. rewrite !find_env_cons. repeat case_decide; congruence.
  - destruct (env_index l m) as [i|] eqn:Ei; [|done]. injection Hj as <-. simpl.
    rewrite !find_env_cons, (IH i) by done. repeat case_decide; congruence.
Qed.

Lemma find_env_snoc l v m n :
  env_index l m = None → ev_Name v = m →
  find_env n (l ++ [v]) = if decide (n = m) then Some v else find_env n l.
Proof.
  induction l as [|w l IH]; intros Hi Hm.
  - simpl. rewrite find_env_cons. unfold find_env at 1 2. simpl. repeat case_decide; congruence.
  - rewrite env_index_cons in Hi. case_decide as Hw; [done|].
    apply fmap_None in Hi. simpl. rewrite !find_env_cons, IH by done.
    repeat case_decide; congruence.
Qed.

Lemma env_index_find l n : env_index l n = None ↔ find_env n l = None.
Proof.
  induction l as [|w l IH]; [done|]. rewrite env_index_cons, find_env_cons.
  case_decide; [done|]. by rewrite fmap_None.
Qed.

Lemma inject_one_ok policy cs e cs' :
  inject_one policy cs e = Ok cs' →
  ∃ i c env, env_target cs e = Ok i ∧ cs !! i = Some c ∧ cs' = <[i := set_env c env]> cs ∧
    (∀ n, find_env n env = if decide (n = ce_Name e)
                           then Some (mkEnvVar (ce_Name e) (ce_Value e) false)
                           else find_env n (co_Env c)) ∧
    (policy ≠ PolicyOverrides → find_env (ce_Name e) (co_Env c) = None).
Proof.
  unfold inject_one. intros (i & Hi & Ho)%res_bind_ok.
  destruct (cs !! i) as [c|] eqn:Hc; [|done].
  destruct (env_index (co_Env c) (ce_Name e)) as [j|] eqn:Hj.
  - case_decide; [|done]. injection Ho as <-. exists i, c. eexists. split_and!; try done.
    intros n. by apply find_env_insert.
  - injection Ho as <-. exists i, c. eexists. split_and!; try done.
    + intros n. by apply find_env_snoc.
    + intros _. by apply env_index_find.
Qed.

(** Containers that differ at most in their environment. *)
Definition same_but_env (cs cs' : list Container) : Prop :=
  Forall2 (λ c c', c' = set_env c (co_Env c')) cs cs'.

Lemma same_but_env_refl cs : same_but_env cs cs.
Proof. induction cs as [|[] cs IH]; by constructor. Qed.

Lemma env_target_same cs cs' e : same_but_env cs cs' → env_target cs' e = env_target cs e.
Proof.
  intros Hs. unfold env_target. case_decide; [done|].
  assert ((fst <$> list_find (λ c, co_Name c = ce_ContainerName e) cs') =
          (fst <$> list_find (λ c, co_Name c = ce_ContainerName e) cs)) as Hf.
  { induction Hs as [|c c' cs cs' Hc Hs IH]; [done|]. simpl.
    assert (co_Name c' = co_Name c) as Hn by (by rewrite Hc).
    destruct (decide (co_Name c' = _)), (decide (co_Name c = _)); try congruence; try done.
    revert IH. destruct (list_find _ cs) as [[]|], (list_find _ cs') as [[]|]; simpl; congruence. }
  revert Hf. destruct (list_find _ cs') as [[]|], (list_find _ cs) as [[]|]; simpl; congruence.
Qed.

(** The last entry of [env] for name [n] in container [i]. *)
Definition injected (cs : list Container) (env : list ClaimEnvVar) (i : nat) (n : string)
  : option ClaimEnvVar :=
  last (filter (λ e, env_target cs e = Ok i ∧ ce_Name e = n) env).

Lemma same_but_env_insert cs i c env :
  cs !! i = Some c → same_but_env cs (<[i := set_env c env]> cs).
Proof.
  revert i; induction cs as [|c0 cs IH]; intros [|i] Hi; try done; simpl.
  - injection Hi as ->. constructor; [done|apply same_but_env_refl].
  - constructor; [by destruct c0|by apply IH].
Qed.

Lemma same_but_env_trans cs1 cs2 cs3 :
  same_but_env cs1 cs2 → same_but_env cs2 cs3 → same_but_env cs1 cs3.
Proof.
  intros H12. revert cs3. induction H12 as [|c1 c2 l1 l2 Hc Hl IH]; intros cs3 H23;
    inversion H23 as [|? c3 ? l3 Hc3 Hl3]; subst; constructor; [|by apply IH].
  rewrite Hc3, Hc. done.
Qed.

Lemma injected_cons cs e env j c0 env0 i n :
  env_target cs e = Ok j → cs !! j = Some c0 →
  injected cs (e :: env) i n =
    match injected (<[j:=set_env c0 env0]> cs) env i n with
    | Some e' => Some e'
    | None => if decide (j = i ∧ ce_Name e = n) then Some e else None
    end.
Proof.
  intros Ht Hj. unfold injected. rewrite filter_cons, Ht.
  assert (filter (λ e0, env_target (<[j:=set_env c0 env0]> cs) e0 = Ok i ∧ ce_Name e0 = n) env =
          filter (λ e0, env_target cs e0 = Ok i ∧ ce_Name e0 = n) env) as ->.
  { apply list_filter_iff. intros e0. by rewrite (env_target_same cs) by by apply same_but_env_insert. }
  destruct (decide (j = i ∧ ce_Name e = n)) as [[-> <-]|Hd].
  - rewrite decide_True by done. rewrite last_cons. by destruct (last _).
  - rewrite decide_False by naive_solver. by destruct (last _).
Qed.

Lemma inject_all_ok policy env cs cs' :
  inject_all policy cs env = Ok cs' →
  same_but_env cs cs' ∧
  (∀ i c, cs !! i = Some c → ∃ c', cs' !! i = Some c' ∧ ∀ n,
     find_env n (co_Env c') =
       match injected cs env i n with
       | Some e => Some (mkEnvVar n (ce_Value e) false)
       | None => find_env n (co_Env c)
       end) ∧
  (policy ≠ PolicyOverrides → ∀ i c n, cs !! i = Some c → is_Some (injected cs env i n) →
     find_env n (co_Env c) = None).
Proof.
  revert cs; induction env as [|e env IH]; intros cs; simpl.
  { intros [= <-]. split_and!; [apply same_but_env_refl| |].
    - intros i c Hc. by exists c.
    - by intros _ i c n _ [? ?]. }
  intros (cs1 & H1%inject_one_ok & H2)%res_bind_ok.
  destruct H1 as (j & c0 & env0 & Ht & Hj & -> & Hf & Hno).
  pose proof (same_but_env_insert cs j c0 env0 Hj) as Hs1.
  destruct (IH _ H2) as (Hs2 & Hfind & Hpol).
  assert (Hinj := λ i n, injected_cons cs e env j c0 env0 i n Ht Hj).
  split_and!; [by eapply same_but_env_trans| |].
  - intros i c Hc. destruct (decide (j = i)) as [->|Hne].
    + assert (c = c0) as -> by congruence.
      destruct (Hfind i (set_env c0 env0)) as (c' & Hc' & Hn).
      { apply list_lookup_insert_eq. by eapply lookup_lt_Some. }
      exists c'. split; [done|]. intros n. rewrite Hn, Hinj.
      destruct (injected _ env i n); [done|]. simpl. rewrite Hf.
      destruct (decide (ce_Name e = n)) as [<-|Hne'].
      * by rewrite !decide_True.
      * by rewrite !decide_False by naive_solver.
    + destruct (Hfind i c) as (c' & Hc' & Hn); [by rewrite list_lookup_insert_ne|].
      exists c'. split; [done|]. intros n. rewrite Hn, Hinj.
      destruct (injected _ env i n); [done|]. by rewrite decide_False by naive_solver.
  - intros Hp i c n Hc. rewrite Hinj. intros Hsome.
    destruct (injected (<[j:=set_env c0 env0]> cs) env i n) as [e'|] eqn:Ei.
    + destruct (decide (j = i)) as [->|Hne].
      * assert (c = c0) as -> by congruence.
        assert (find_env n env0 = None) as Hn.
        { apply (Hpol Hp i (set_env c0 env0) n); [|by rewrite Ei].
          apply list_lookup_insert_eq. by eapply lookup_lt_Some. }
        rewrite Hf in Hn. by case_decide.
      * apply (Hpol Hp i c n); [by rewrite list_lookup_insert_ne|by rewrite Ei].
    + case_decide as Hd; [|by destruct Hsome]. destruct Hd as [-> <-].
      assert (c = c0) as -> by congruence. by apply Hno.
Qed.

(** What an injected claim environment amounts to: containers keep
    everything but their environment; in the container an entry targets (the
    named one, or the first) each claim name reads as its last claim value,
    every other name as in the template; and unless the policy is Overrides no
    name the template sets is changed. *)
Theorem injectEnv_effect p env policy p' :
  injectEnv p env policy = Ok p' → env ≠ [] →
  (policy = PolicyAllowed ∨ policy = PolicyOverrides) ∧
  with_containers (Containers p) p' = p ∧ same_but_env (Containers p) (Containers p') ∧
  (∀ i c, Containers p !! i = Some c → ∃ c', Containers p' !! i = Some c' ∧ ∀ n,
     find_env n (co_Env c') =
       match injected (Containers p) env i n with
       | Some e => Some (mkEnvVar n (ce_Value e) false)
       | None => find_env n (co_Env c)
       end) ∧
  (policy = PolicyAllowed → ∀ i c n, Containers p !! i = Some c →
     is_Some (injected (Containers p) env i n) → find_env n (co_Env c) = None).
Proof.
  unfold injectEnv. intros E Hne. rewrite decide_False in E by done.
  destruct (decide (policy ≠ PolicyAllowed ∧ policy ≠ PolicyOverrides)) as [?|Hp]; [done|].
  destruct (inject_all policy (Containers p) env) as [cs|] eqn:Ei; [|done].
  injection E as <-. apply inject_all_ok in Ei as (Hs & Hf & Hno). simpl.
  split_and!; [|by destruct p|done|done|].
  - destruct (decide (policy = PolicyAllowed)); [by left|].
    destruct (decide (policy = PolicyOverrides)); [by right|]. exfalso. by apply Hp.
  - intros ->. by apply Hno.
Qed.

(** A template without containers crashes the injection of a non-empty
    environment whose first entry names no container: the code indexes
    [Containers[0]] unguarded.  Nothing else panics. *)
Theorem injectEnv_panics p env policy :
  injectEnv p env policy = Err Panicked ↔
  Containers p = [] ∧ (policy = PolicyAllowed ∨ policy = PolicyOverrides) ∧
  ∃ e env', env = e :: env' ∧ ce_ContainerName e = "".
Proof.
  assert (Hone : ∀ cs e, inject_one policy cs e = Err Panicked ↔ cs = [] ∧ ce_ContainerName e = "").
  { intros cs e. unfold inject_one, env_target. destruct (decide (ce_ContainerName e = "")) as [Hn|Hn]; simpl.
    - destruct cs as [|c cs]; simpl; [by split|].
      repeat case_match; (split; [done|by intros []]).
    - destruct (list_find _ cs) as [[i c]|] eqn:Hl; simpl; [|first [by split | split; [done|by intros []]]].
      apply list_find_Some in Hl as (Hi & _). rewrite Hi.
      repeat case_match; first [by split | split; [done|by intros []]]. }
  assert (Hall : ∀ env cs, inject_all policy cs env = Err Panicked →
    cs = [] ∧ ∃ e env', env = e :: env' ∧ ce_ContainerName e = "").
  { intros env0; induction env0 as [|e env0 IH]; intros cs; simpl; [done|].
    destruct (inject_one policy cs e) as [cs1|err] eqn:E1; simpl.
    - intros [-> _]%IH. apply inject_one_ok in E1 as (i & c & env1 & _ & Hc & Hcs & _).
      symmetry in Hcs. apply (f_equal length) in Hcs. rewrite length_insert in Hcs.
      apply lookup_lt_Some in Hc. simpl in Hcs. lia.
    - intros [= ->]. apply Hone in E1 as [-> ?]. eauto. }
  unfold injectEnv. split.
  - case_decide; [done|]. case_decide as Hp; [done|].
    destruct (inject_all _ _ _) as [|err] eqn:E; [done|]. simpl. intros [= ->].
    apply Hall in E as [? ?]. split_and!; [done| |done].
    destruct (decide (policy = PolicyAllowed)); [by left|].
    destruct (decide (policy = PolicyOverrides)); [by right|]. exfalso. by apply Hp.
  - intros (Hc & Hp & e & env' & -> & He). rewrite decide_False by done.
    rewrite decide_False by (destruct Hp as [-> | ->]; naive_solver).
    simpl. rewrite Hc, (proj2 (Hone [] e)) by done. done.
Qed.

(** ** mergeVCT *)

Notation names := (fmap vct_Name).

(** [idx] is the position of each name in [out]. *)
Definition indexed (idx : gmap string nat) (out : list PVCTemplate) : Prop :=
  NoDup (names out) ∧ ∀ n i, idx !! n = Some i ↔ names out !! i = Some n.

Lemma vct_index_indexed l : NoDup (names l) → indexed (vct_index l) l.
Proof.
  intros Hnd. split; [done|]. intros n i. unfold vct_index.
  assert (∀ (l' : list (nat * PVCTemplate)) (m : gmap string nat),
    foldl (λ m iv, <[vct_Name iv.2 := iv.1]> m) m l' =
    foldl (λ m p, <[p.1 := p.2]> m) m ((λ iv, (vct_Name iv.2, iv.1)) <$> l')) as ->.
  { induction l' as [|x l' IH]; intros m; simpl; [done|]. apply IH. }
  assert (((λ iv : nat * PVCTemplate, (vct_Name iv.2, iv.1)) <$> imap pair l).*1 = names l) as Hfst.
  { rewrite <-list_fmap_compose, fmap_imap.
    transitivity (imap (λ _ v, vct_Name v) l); [by apply imap_ext|]. exact (imap_const vct_Name l). }
  rewrite foldl_insert_union, (right_id_L ∅ (∪)) by (by rewrite Hfst).
  rewrite <-elem_of_list_to_map by (by rewrite Hfst).
  rewrite list_elem_of_fmap, list_lookup_fmap, fmap_Some. split.
  - intros ([j v] & [= -> ->] & Hin). apply elem_of_lookup_imap in Hin as (j' & v' & [= -> ->] & Hv).
    by exists v'.
  - intros (v & Hv & ->). exists (i, v). split; [done|]. apply elem_of_lookup_imap. by exists i, v.
Qed.

(** An entry replaced under its own name. *)
Lemma elem_of_replaced out i w w0 n v :
  NoDup (names out) → out !! i = Some w0 → vct_Name w0 = vct_Name w →
  v ∈ <[i := w]> out ∧ vct_Name v = n ↔ if decide (vct_Name w = n) then v = w else v ∈ out ∧ vct_Name v = n.
Proof.
  intros Hnd Hw0 Hname. assert (i < length out)%nat as Hlt by (by eapply lookup_lt_Some).
  assert (names (<[i := w]> out) = names out) as Hnames
    by (by rewrite list_fmap_insert, list_insert_id; [|rewrite list_lookup_fmap, Hw0, <-Hname]).
  case_decide as Hn; [subst n|].
  - split; [|intros ->; split; [|done]; apply list_elem_of_lookup; exists i; by apply list_lookup_insert_eq].
    intros [[j Hj]%list_elem_of_lookup Hv]. assert (j = i) as ->; [|rewrite list_lookup_insert_eq in Hj by done; congruence].
    apply (NoDup_lookup (names out) _ _ (vct_Name w)); [done| |].
    + by rewrite <-Hnames, list_lookup_fmap, Hj, <-Hv.
    + by rewrite list_lookup_fmap, Hw0, <-Hname.
  - split; intros [[j Hj]%list_elem_of_lookup Hv]; (split; [|done]); apply list_elem_of_lookup;
      exists j; destruct (decide (i = j)) as [<-|Hij].
    + rewrite list_lookup_insert_eq in Hj by done. congruence.
    + by rewrite list_lookup_insert_ne in Hj.
    + congruence.
    + by rewrite list_lookup_insert_ne.
Qed.

Lemma indexed_snoc idx out w : indexed idx out → idx !! vct_Name w = None →
  (vct_Name w ∉ names out) ∧ indexed (<[vct_Name w := length out]> idx) (out ++ [w]).
Proof.
  intros [Hnd Hidx] Hnew. assert (vct_Name w ∉ names out) as Hni.
  { intros [i Hin]%list_elem_of_lookup. apply Hidx in Hin. congruence. }
  split; [done|]. split.
  - rewrite fmap_app. simpl. apply NoDup_app. split_and!; [done| |apply NoDup_singleton].
    intros x Hx ->%list_elem_of_singleton. done.
  - intros n i. rewrite fmap_app, lookup_app, list_lookup_fmap. simpl.
    destruct (decide (vct_Name w = n)) as [<-|Hne].
    + rewrite lookup_insert_eq. destruct (out !! i) as [v|] eqn:Hv; simpl.
      * split; [|intros [= E']]; [intros [= <-]|].
        -- apply lookup_lt_Some in Hv. lia.
        -- destruct Hni. rewrite <-E'. apply list_elem_of_fmap_2. by eapply list_elem_of_lookup_2.
      * rewrite length_fmap. apply lookup_ge_None in Hv. split.
        -- intros [= <-]. by rewrite Nat.sub_diag.
        -- destruct (i - length out) as [|j] eqn:Ej; [|done]. intros _. f_equal. lia.
    + rewrite lookup_insert_ne, Hidx, list_lookup_fmap by done.
      destruct (out !! i) as [v|] eqn:Hv; simpl; [done|]. rewrite length_fmap.
      split; [done|]. destruct (i - length out) as [|[]]; simpl; congruence.
Qed.

Lemma merge_loop_spec ov idx out extra out' :
  indexed idx out → merge_loop ov idx out extra = Ok out' →
  NoDup (names out') ∧ names out `prefix_of` names out' ∧
  (∀ n v, v ∈ out' ∧ vct_Name v = n ↔
     match last (filter (λ w, vct_Name w = n) extra) with
     | Some w => v = w
     | None => v ∈ out ∧ vct_Name v = n
     end) ∧
  (ov = false → out' = (out ++ extra)%list).
Proof.
  revert idx out; induction extra as [|w extra IH]; intros idx out Hix; simpl.
  { destruct Hix. intros [= <-]. split_and!; try done. by rewrite app_nil_r. }
  destruct (idx !! vct_Name w) as [i|] eqn:Hi.
  - destruct ov; [|done]. intros E. destruct Hix as [Hnd Hidx]. apply Hidx in Hi as Hn.
    assert (names (<[i := w]> out) = names out) as Hnames by (by rewrite list_fmap_insert, list_insert_id).
    rewrite list_lookup_fmap in Hn. apply fmap_Some in Hn as (w0 & Hw0 & Hname).
    destruct (IH idx (<[i:=w]> out)) as (H1 & H2 & H3 & _); [by split; rewrite Hnames|done|]. rewrite Hnames in H2.
    split_and!; [done|done| |done]. intros n v. rewrite H3, filter_cons.
    pose proof (elem_of_replaced out i w w0 n v Hnd Hw0 (eq_sym Hname)) as Hr.
    destruct (decide (vct_Name w = n)); [rewrite last_cons|]; by destruct (last _).
  - intros E. destruct (indexed_snoc _ _ _ Hix Hi) as [Hni Hix'].
    destruct (IH _ _ Hix' E) as (H1 & H2 & H3 & H4). split_and!; [done| | |].
    + etransitivity; [|exact H2]. rewrite fmap_app. by apply prefix_app_r.
    + intros n v. rewrite H3, filter_cons.
      destruct (decide (vct_Name w = n)) as [<-|Hne]; [rewrite last_cons|]; destruct (last _); try done.
      * rewrite elem_of_app, list_elem_of_singleton. split; [|naive_solver].
        intros [[Hv| ->] Hn]; [|done]. destruct Hni. rewrite <-Hn. by apply list_elem_of_fmap_2.
      * rewrite elem_of_app, list_elem_of_singleton. naive_solver.
    + intros Hov. rewrite (H4 Hov). by rewrite <-app_assoc.
Qed.

(** Merged volume claim templates: names stay unique and in place, each
    name is the claim's last template of that name or else the template's own,
    and a policy other than Overrides only ever appends. *)
Theorem mergeVCT_spec base extra policy out :
  NoDup (names base) → mergeVCT base extra policy = Ok out →
  (policy = PolicyAllowed ∨ policy = PolicyOverrides) ∧
  NoDup (names out) ∧ names base `prefix_of` names out ∧
  (∀ n v, v ∈ out ∧ vct_Name v = n ↔
     match last (filter (λ w, vct_Name w = n) extra) with
     | Some w => v = w
     | None => v ∈ base ∧ vct_Name v = n
     end) ∧
  (policy = PolicyAllowed → out = (base ++ extra)%list).
Proof.
  intros Hnd. unfold mergeVCT. case_decide as Hp; [done|].
  intros (H1 & H2 & H3 & H4)%merge_loop_spec; [|by apply vct_index_indexed].
  split_and!; try done.
  - destruct (decide (policy = PolicyAllowed)); [by left|].
    destruct (decide (policy = PolicyOverrides)); [by right|]. exfalso. by apply Hp.
  - intros ->. by apply H4.
Qed.

(** ** applySecureDefaults *)

(** Secure defaults: applying them twice is applying them once; a pod's own
    service-account setting and nameservers are kept; and under managed
    networking without a custom policy the result always has a resolver list and
    the cluster's DNS is off. *)
Theorem applySecureDefaults_spec p np custom :
  let q := applySecureDefaults p np custom in
  applySecureDefaults q np custom = q ∧
  AutomountServiceAccountToken q = Some (default false (AutomountServiceAccountToken p)) ∧
  Containers q = Containers p ∧ Volumes q = Volumes p ∧
  (if bool_decide (np = "" ∨ np = NetworkPolicyManagementManaged) && negb custom
   then DNSPolicy q = DNSNone ∧
        DNSNameservers q = Some (match DNSNameservers p with
                                 | Some (n :: l) => n :: l | _ => ["8.8.8.8"; "1.1.1.1"] end)
   else DNSPolicy q = DNSPolicy p ∧ DNSNameservers q = DNSNameservers p).
Proof.
  destruct p as [cs vs psc dp dn tok]. unfold applySecureDefaults. simpl.
  destruct (_ && _); destruct tok, dn as [[|n l]|]; simpl; by split_and!.
Qed.

(** ** Witnesses *)

Definition w_container : Container :=
  mkContainer "main" "img" "" [] [] "" [mkEnvVar "A" "1" false] [] [] None None.
Definition w_pod : PodSpec := mkPodSpec [w_container] [] None "" None None.

Lemma injectEnv_effect_witness :
  let env := [mkClaimEnv "" "B" "2"] in
  ∃ p', injectEnv w_pod env PolicyAllowed = Ok p' ∧
    (find_env "B" ∘ co_Env <$> Containers p') = [Some (mkEnvVar "B" "2" false)] ∧
    with_containers (Containers w_pod) p' = w_pod.
Proof.
  intros env. eexists. split; [vm_compute; reflexivity|]. split; [reflexivity|].
  eapply (injectEnv_effect w_pod env PolicyAllowed); [vm_compute; reflexivity|discriminate].
Defined.

Lemma mergeVCT_witness :
  let v n := mkPVCTemplate n ∅ ∅ GNil in
  mergeVCT [v "a"] [v "b"] PolicyAllowed = Ok [v "a"; v "b"] ∧
  NoDup (names [v "a"; v "b"]).
Proof.
  intros v. split; [vm_compute; reflexivity|].
  destruct (mergeVCT_spec [v "a"] [v "b"] PolicyAllowed [v "a"; v "b"]) as (_ & Hnd & _);
    [apply NoDup_singleton|vm_compute; reflexivity|exact Hnd].
Defined.
