(* ===== verification/Reconciler.v ===== *)
(** [internal/reconciler/reconcile.go], [convert.go] and the delete cascade.

    A [world] is what the reconcilers share: the object store, the container
    backend, the injectable clock and the wall clock.  Every handler is a
    function of the world.

    Deleting an object runs the delete hook, which deletes owned objects, which
    runs the hook again: [Delete_n] bounds the nesting, and three levels are
    always enough ([Delete_fuel]). *)

From S2P Require Import Prelude GoStrings K8s Apis Store StoreFacts StoreSpec Core Driver Build.
Local Open Scope string_scope.

(** ** Reconciler configuration *)

Record Reconcilers := mkReconcilers {
  DefaultServerPort : Z;
  RuntimeImage : string;
  RuntimeBuildContext : string;
  ClusterDomain : string;
  NodeName : string;
}.

Definition clusterDomain (r : Reconcilers) : string :=
  if decide (ClusterDomain r = "") then "cluster.local" else ClusterDomain r.
Definition nodeName (r : Reconcilers) : string :=
  if decide (NodeName r = "") then "local-docker" else NodeName r.
Definition serverPort (r : Reconcilers) : Z :=
  if decide (DefaultServerPort r = 0%Z) then 8888%Z else DefaultServerPort r.

(** [Result]: the delay before the key is queued again, in nanoseconds. *)
Record Result := mkResult { RequeueAfter : Z }.
Definition no_requeue : Result := mkResult 0.

Inductive rec_error :=
| RApi (e : api_error)
| RConvert
| RDriver (e : driver_error)
| RPanic.

Definition second : Z := 1000000000.
Definition millisecond : Z := 1000000.

(** [time.Until], at the wall clock [wall]: a duration has 64 bits, a difference
    beyond them is cut to the nearest one. *)
Definition Until (wall t : Z) : Z := clamp_i64 (t - wall).

(** [unstructured.NestedString]: the empty string when absent. *)
Fixpoint nested_string (v : option gval) (path : list string) : string :=
  match path, v with
  | [], Some (GStr s) => s
  | k :: path', Some (GMap m) => nested_string (m !! k) path'
  | _, _ => ""
  end.

Section refs.
Context {U : Type} `{Unstructured U}.
Implicit Types (u : U).

(** [ownerMap]: the key of the first owner of that kind. *)
Definition ownerMap (kind : string) (u : U) : list string :=
  match list_find (λ r, or_Kind r = kind) (GetOwnerReferences u) with
  | Some (_, r) => [GetNamespace u +:+ "/" +:+ or_Name r]
  | None => []
  end.

Definition ownedBy (u : U) (kind name : string) : bool :=
  existsb (λ r, bool_decide (or_Kind r = kind ∧ or_Name r = name)) (GetOwnerReferences u).

Definition is_controller (r : OwnerReference) : bool := default false (or_Controller r).

Definition controllerOwnerUID (u : U) : string :=
  match list_find (λ r, is_controller r = true) (GetOwnerReferences u) with
  | Some (_, r) => or_UID r
  | None => ""
  end.

Context `{!Converter U}.

Definition isSandboxReady `{ConditionLib} (u : U) : bool :=
  match FromUnstructured u : option Sandbox with
  | Some sb => IsStatusConditionTrue (ss_Conditions (sb_Status sb)) "Ready"
  | None => false
  end.

(** [setStatus] *)
Definition setStatus {T} `{!StatusMap T} (u : U) (st : T) : res rec_error U :=
  match ToStatus st with
  | Some m => Ok (SetStatusField (Some m) u)
  | None => Err RConvert
  end.
End refs.

(** ** The world *)

Record world {U P D : Type} := mkWorld {
  w_store : Store U P;
  w_drv : D;
  (** [r.now()] and [time.Now()] *)
  w_now : Z;
  w_wall : Z;
}.
Arguments world U P D : clear implicits.
Arguments mkWorld {U P D} _ _ _ _.

Section reconciler.
Context {U P D : Type} `{UnstructuredLaws U} `{Codec U} `{Persister P}.
Context `{Oracle} `{GoRuntime} `{!Converter U} `{Driver D}.
Notation World := (world U P D).
Implicit Types (w : World) (g : GVR) (u : U).

Definition put_store (s : Store U P) w : World := mkWorld s (w_drv w) (w_now w) (w_wall w).
Definition put_drv (d : D) w : World := mkWorld (w_store w) d (w_now w) (w_wall w).

(** A driver call and a store call in the world. *)
Definition drv {A} (f : D → D * A) w : World * A :=
  let '(d, a) := f (w_drv w) in (put_drv d w, a).
Definition sto {A} (f : Store U P → Store U P * A) w : World * A :=
  let '(s, a) := f (w_store w) in (put_store s w, a).

(** *** The delete hook, given the delete operation it calls *)

Section hook.
Context (del : GVR → string → string → World → World * res api_error U).

Definition cleanup_vct u w (vct : PVCTemplate) : World :=
  let ns := GetNamespace u in
  let pvcName := vct_Name vct +:+ "-" +:+ GetName u in
  match Get PVCGVR ns pvcName (w_store w) with
  | Ok pu =>
      if decide (controllerOwnerUID pu = GetUID u)
      then (del PVCGVR ns pvcName w).1 else w
  | Err _ => (drv (RemoveVolume (VolumeName ns pvcName)) w).1
  end.

Definition cleanup_container u w : World :=
  let '(w, r) := drv (InspectSandbox (GetNamespace u) (GetName u)) w in
  match r with
  | Ok info => (drv (RemoveContainer (ci_ID info)) w).1
  | Err _ => w
  end.

Definition cleanupSandboxResources u w : World :=
  let w := cleanup_container u w in
  match FromUnstructured u : option Sandbox with
  | Some sb => foldl (cleanup_vct u) w (bp_VolumeClaimTemplates (sb_Blueprint sb))
  | None => w
  end.

Definition cleanupPVCVolume u w : World :=
  (drv (RemoveVolume (VolumeName (GetNamespace u) (GetName u))) w).1.

(** The sandbox a claim is bound to: its status, or its own name. *)
Definition claim_sandbox_name u : string :=
  let n := nested_string (StatusOf u) ["sandbox"; "name"] in
  if decide (n = "") then GetName u else n.

Definition cascadeClaimDelete u w : World :=
  let sbName := claim_sandbox_name u in
  match Get SandboxGVR (GetNamespace u) sbName (w_store w) with
  | Err _ => w
  | Ok sbU =>
      if decide (controllerOwnerUID sbU = GetUID u)
      then (del SandboxGVR (GetNamespace u) sbName w).1 else w
  end.

Definition pool_delete_one u w (sb : U) : World :=
  if ownedBy sb "SandboxWarmPool" (GetName u)
  then (del SandboxGVR (GetNamespace sb) (GetName sb) w).1 else w.

Definition cascadeWarmPoolDelete u w : World :=
  match List SandboxGVR (GetNamespace u) (λ _, true) (w_store w) with
  | Err _ => w
  | Ok lr => foldl (pool_delete_one u) w (lr_Items lr)
  end.

Definition OnDelete g u w : World :=
  if decide (g = SandboxGVR) then cleanupSandboxResources u w
  else if decide (g = SandboxClaimGVR) then cascadeClaimDelete u w
  else if decide (g = WarmPoolGVR) then cascadeWarmPoolDelete u w
  else if decide (g = PVCGVR) then cleanupPVCVolume u w
  else w.
End hook.

(** [Store.Delete] with the hook installed, nested at most [n] deep. *)
Fixpoint Delete_n (n : nat) g ns name w : World * res api_error U :=
  match n with
  | 0 => (w, Err Diverged)
  | S n => Store.Delete w_store put_store (Some (OnDelete (Delete_n n))) g ns name w
  end.

Definition Delete : GVR → string → string → World → World * res api_error U := Delete_n 3.

(** *** Status writes: no version precondition, conflicts swallowed *)

Definition writeStatus {T} `{!StatusMap T} g u (st : T) w : World * res rec_error () :=
  match setStatus u st with
  | Err e => (w, Err e)
  | Ok n =>
      let '(w, r) := sto (Store.Update g (SetResourceVersion "" n) true) w in
      (w, match r with
          | Ok _ => Ok ()
          | Err e => if IsConflict e then Ok () else Err (RApi e)
          end)
  end.
End reconciler.

(** Derived names used by the reconcilers. *)
Section conds.
Context `{ConditionLib}.

Definition setCond (l : list Condition) (t : string) (st : ConditionStatus)
  (reason msg : string) (gen now : Z) : list Condition :=
  SetStatusCondition l (mkCondition t st reason msg gen now).

Definition setCondRaw (l : list Condition) (t : string) (st : ConditionStatus)
  (reason msg : string) (gen now : Z) : list Condition :=
  setCond l t st (if decide (reason = "") then "Unknown" else reason) msg gen now.
End conds.
