(* ===== verification/ConcreteApi.v ===== *)
(** Concrete instances for the typed side of the API: a condition list library,
    a converter between objects and the typed structs (spec and status as small
    JSON maps), and a world with the in-memory driver.  Theorems about the
    reconcilers are applied to them. *)

From S2P Require Import Prelude GoStrings K8s Apis Store StoreFacts Patch Persist Concrete Core.
From S2P Require Import Driver Build Reconciler StoreSpec.
Local Open Scope string_scope.

(** ** Conditions *)

Fixpoint cond_find (l : list Condition) (t : string) : option Condition :=
  match l with
  | [] => None
  | c :: l => if decide (cd_Type c = t) then Some c else cond_find l t
  end.

Fixpoint cond_set (l : list Condition) (c : Condition) : list Condition :=
  match l with
  | [] => [c]
  | d :: l =>
      if decide (cd_Type d = cd_Type c) then
        mkCondition (cd_Type c) (cd_Status c) (cd_Reason c) (cd_Message c) (cd_ObservedGeneration c)
          (if decide (cd_Status d = cd_Status c) then cd_LastTransitionTime d
           else cd_LastTransitionTime c) :: l
      else d :: cond_set l c
  end.

#[export] Instance demo_conditions : ConditionLib := {
  SetStatusCondition := cond_set;
  RemoveStatusCondition := λ l t, filter (λ c, cd_Type c ≠ t) l;
  FindStatusCondition := cond_find;
}.

#[export] Instance demo_condition_laws : ConditionLaws.
Proof.
  constructor; simpl.
  - intros l c. eexists. split; [|reflexivity].
    induction l as [|d l IH]; simpl.
    + rewrite decide_True by done. by destruct c.
    + destruct (decide (cd_Type d = cd_Type c)) as [Hd|Hd]; simpl.
      * by rewrite decide_True.
      * by rewrite decide_False.
  - intros l c t Hne. induction l as [|d l IH]; simpl.
    + by rewrite decide_False.
    + destruct (decide (cd_Type d = cd_Type c)) as [Hd|Hd]; simpl.
      * rewrite !decide_False by congruence. done.
      * by rewrite IH.
  - intros l t. induction l as [|d l IH]; [done|]. rewrite filter_cons.
    destruct (decide (cd_Type d ≠ t)); simpl; [by rewrite decide_False|done].
  - intros l t t' Hne. induction l as [|d l IH]; [done|]. rewrite filter_cons.
    destruct (decide (cd_Type d ≠ t')) as [Hd|Hd]; simpl; [by rewrite IH|].
    rewrite IH, decide_False; [done|]. apply dec_stable in Hd. congruence.
Qed.

(** ** JSON fields *)

Definition jget (k : string) (v : option gval) : option gval :=
  match v with Some (GMap m) => m !! k | _ => None end.
Definition jstr (v : option gval) : string := match v with Some (GStr s) => s | _ => "" end.
Definition jint (v : option gval) : option Z := match v with Some (GInt z) => Some z | _ => None end.
Definition jlist (v : option gval) : list gval := match v with Some (GList l) => l | _ => [] end.

Definition jstatus (s : string) : ConditionStatus :=
  if decide (s = "True") then ConditionTrue else if decide (s = "False") then ConditionFalse
  else ConditionUnknown.
Definition jcond (v : gval) : option Condition :=
  let str k := jstr (jget k (Some v)) in
  let int k := default 0%Z (jint (jget k (Some v))) in
  Some (mkCondition (str "type") (jstatus (str "status")) (str "reason") (str "message")
          (int "observedGeneration") (int "lastTransitionTime")).
Definition cond_json (c : Condition) : gval :=
  GMap {["type" := GStr (cd_Type c);
         "status" := GStr match cd_Status c with
                          | ConditionTrue => "True" | ConditionFalse => "False" | ConditionUnknown => "Unknown"
                          end;
         "reason" := GStr (cd_Reason c); "message" := GStr (cd_Message c);
         "observedGeneration" := GInt (cd_ObservedGeneration c);
         "lastTransitionTime" := GInt (cd_LastTransitionTime c)]}.
Definition jconds (v : option gval) : list Condition := omap jcond (jlist (jget "conditions" v)).

Definition demo_main (image : gval) : Container :=
  mkContainer "main" (jstr (Some image)) "" [] [] "" [] [] [] None None.

Definition demo_bp (spec : option gval) : SandboxBlueprint :=
  mkBlueprint (mkPodSpec (demo_main <$> jlist (jget "images" spec)) [] None "" None None) ∅ ∅
    ((λ v, mkPVCTemplate (jstr (Some v)) ∅ ∅ GNil) <$> jlist (jget "vcts" spec)) None.

#[export] Instance demo_converter : Converter cobj := {
  from_sandbox := λ u,
    let st := c_status u in
    Some (mkSandbox (meta_of u) (demo_bp (c_spec u)) (jstr (jget "mode" (c_spec u)))
            (jint (jget "shutdown" (c_spec u))) None
            (mkSandboxStatus (jconds st) [] "" "" "" ""));
  from_template := λ u, Some (mkTemplate (meta_of u) (demo_bp (c_spec u)) "Allowed" "Allowed" false "");
  from_pool := λ u, Some (mkWarmPool (meta_of u) (jint (jget "replicas" (c_spec u)))
                           (jstr (jget "template" (c_spec u))));
  from_claim := λ u,
    Some (mkClaim (meta_of u) (jstr (jget "pool" (c_spec u))) [] [] ∅ ∅
            (match jint (jget "shutdown" (c_spec u)) with
             | Some t => Some (mkLifecycle (Some t) None (jstr (jget "policy" (c_spec u))))
             | None => None
             end)
            (mkClaimStatus (jconds (c_status u)) (nested_string (c_status u) ["sandbox"; "name"]) []));
  from_pvc := λ u, Some (mkPVC (meta_of u) [] None);
  status_sandbox := λ st, Some (GMap {["conditions" := GList (cond_json <$> ss_Conditions st)]});
  status_pool := λ st, Some (GMap {["replicas" := GInt (ws_Replicas st); "readyReplicas" := GInt (ws_ReadyReplicas st)]});
  status_claim := λ st, Some (GMap {["conditions" := GList (cond_json <$> cs_Conditions st);
                                     "sandbox" := GMap {["name" := GStr (cs_SandboxName st)]}]});
  status_pvc := λ st, Some (GMap {["phase" := GStr (pst_Phase st)]});
  NewSandbox := λ m bp mode,
    Some (mkObj "agents.x-k8s.io/v1beta1" "Sandbox" (nm_Namespace m) (nm_Name m) (nm_GenerateName m)
            "" "" 0 None None (nm_Labels m) (nm_Annotations m) (nm_Owners m)
            (Some (GMap {["images" := GList ((λ c, GStr (co_Image c)) <$> Containers (bp_PodSpec bp));
                          "vcts" := GList ((λ v, GStr (vct_Name v)) <$> bp_VolumeClaimTemplates bp);
                          "mode" := GStr mode]})) None);
  NewPVC := λ m spec,
    Some (mkObj "v1" "PersistentVolumeClaim" (nm_Namespace m) (nm_Name m) (nm_GenerateName m)
            "" "" 0 None None (nm_Labels m) (nm_Annotations m) (nm_Owners m) (Some spec) None);
}.

#[export] Instance demo_converter_laws : ConverterLaws cobj.
Proof.
  constructor; try (intros u x [= <-]; reflexivity).
  - by intros m bp mode u [= <-].
  - by intros m spec u [= <-].
Qed.

(** ** A world *)

Notation demo_world := (world cobj demo_db Fake.FakeDriver).

(** A stored object with a spec, an owner and a uid. *)
Definition demo_cr (kind ns name uid : string) (owners : list OwnerReference) (spec : gval) : cobj :=
  mkObj "v1" kind ns name "" uid "" 0 None None ∅ ∅ owners (Some spec) None.

Definition demo_create (g : GVR) (u : cobj) (s : Store cobj demo_db) : Store cobj demo_db :=
  (Create g u s).1.

Definition controller_of (kind name uid : string) : OwnerReference :=
  mkOwnerRef "v1" kind name uid (Some true) (Some true).

(** A claim [c] with its sandbox and that sandbox's volume claim; the container
    runs. *)
Definition demo_claim_store : Store cobj demo_db :=
  demo_create PVCGVR (demo_cr "PersistentVolumeClaim" "default" "data-c" "u3" [controller_of "Sandbox" "c" "u2"] GNil)
    (demo_create SandboxGVR (demo_cr "Sandbox" "default" "c" "u2" [controller_of "SandboxClaim" "c" "u1"]
       (GMap {["images" := GList [GStr "img"]; "vcts" := GList [GStr "data"]]}))
       (demo_create SandboxClaimGVR (demo_cr "SandboxClaim" "default" "c" "u1" [] (GMap {["pool" := GStr "p"]}))
          demo_store)).

Definition demo_spec : SandboxContainerSpec :=
  mkSpec "default" "c" "u2" "img" PullIfNotPresent [] [] ∅ "" [] 8888 [mkMount "las-default-data-c" false 0 "/data" false]
    "" false (mkResources 0 0) [] ∅ false.

Definition demo_claim_world : demo_world :=
  mkWorld demo_claim_store
    (Fake.ensure_volume (mkVolumeSpec "las-default-data-c" "default" "data-c" ∅)
       (Fake.create demo_spec Fake.NewFakeDriver).1).1 0 0.

(** Facts about concrete stores, by evaluation over their objects. *)
Definition all_objects (s : Store cobj demo_db) : list (GVR * (string * cobj)) :=
  map_to_list (data s) ≫= (λ gm, (λ p, (gm.1, p)) <$> map_to_list gm.2).

Lemma all_objects_spec s g k u : lookup_obj s g k = Some u → (g, (k, u)) ∈ all_objects s.
Proof.
  unfold lookup_obj, objects. destruct (data s !! g) as [m|] eqn:Hg; simpl; [|by rewrite lookup_empty].
  intros Hk. unfold all_objects. apply list_elem_of_bind. exists (g, m). simpl.
  rewrite list_elem_of_fmap. split; [|by apply elem_of_map_to_list].
  exists (k, u). split; [done|]. by apply elem_of_map_to_list.
Qed.

Lemma objects_forall s (Q : GVR → string → cobj → bool) :
  forallb (λ x, Q x.1 x.2.1 x.2.2) (all_objects s) = true →
  ∀ g k u, lookup_obj s g k = Some u → Q g k u = true.
Proof.
  intros Hall g k u Hl%all_objects_spec. rewrite forallb_forall in Hall.
  apply (Hall (g, (k, u))). by apply list_elem_of_In.
Qed.

Definition keyed_check (s : Store cobj demo_db) : bool :=
  forallb (λ x, match resources s !! x.1 with
                | Some rm => bool_decide (x.2.1 = key (namespaced rm) (GetNamespace x.2.2) (GetName x.2.2))
                | None => true end) (all_objects s).

Lemma keyed_check_ok s : keyed_check s = true → keyed s.
Proof.
  intros Hc g k u rm Hl Hr. apply all_objects_spec, list_elem_of_In in Hl.
  unfold keyed_check in Hc. rewrite forallb_forall in Hc. specialize (Hc _ Hl). simpl in Hc.
  rewrite Hr in Hc. by apply bool_decide_eq_true in Hc.
Qed.
