(* ===== verification/Cascade.v ===== *)
(** The delete cascade: its nesting is bounded, it removes nothing the deleted
    object does not own, and it leaves nothing behind. *)

From S2P Require Import Prelude GoStrings K8s Apis Store StoreFacts Persist Concrete StoreSpec.
From S2P Require Import Core Driver Build Reconciler ConcreteApi.
Local Open Scope string_scope.

Section cascade.
Context {U P D : Type} `{UnstructuredLaws U} `{Codec U} `{Persister P}.
Context `{Oracle} `{GoRuntime} `{!Converter U} `{Driver D}.
#[local] Notation World := (world U P D).
Implicit Types (w : World) (s : Store U P) (g : GVR) (u : U).

(** ** Nesting *)

Lemma Delete_unfold n g ns name w :
  Delete_n (S n) g ns name w =
  Store.Delete w_store put_store (Some (OnDelete (Delete_n n))) g ns name w.
Proof. done. Qed.

Lemma Store_Delete_ext (h1 h2 : GVR → U → World → World) g ns name w :
  (∀ u w, h1 g u w = h2 g u w) →
  Store.Delete w_store put_store (Some h1) g ns name w =
  Store.Delete w_store put_store (Some h2) g ns name w.
Proof.
  intros Hh. unfold Store.Delete. destruct (delete_locked g ns name (w_store w)) as [s [v|e]];
    [|done]. by rewrite Hh.
Qed.

Lemma foldl_ext_step {A B} (f1 f2 : A → B → A) l a :
  (∀ a b, f1 a b = f2 a b) → foldl f1 a l = foldl f2 a l.
Proof. intros Hf. revert a; induction l as [|b l IH]; intros a; simpl; [done|]. by rewrite Hf. Qed.

Lemma Delete_pvc n ns name w : Delete_n (S n) PVCGVR ns name w = Delete_n 1 PVCGVR ns name w.
Proof. rewrite !Delete_unfold. by apply Store_Delete_ext. Qed.

Lemma Delete_sandbox n ns name w :
  Delete_n (S (S n)) SandboxGVR ns name w = Delete_n 2 SandboxGVR ns name w.
Proof.
  rewrite (Delete_unfold (S n)), (Delete_unfold 1). apply Store_Delete_ext. intros u w'.
  unfold OnDelete. rewrite !decide_True by done. unfold cleanupSandboxResources.
  destruct (FromUnstructured u) as [sb|]; [|done]. apply foldl_ext_step. intros w0 vct.
  unfold cleanup_vct. destruct (Get _ _ _ _); [|done]. case_decide; [|done].
  by rewrite (Delete_pvc n).
Qed.

(** The hook's recursion ends: no delete nests more than three levels
    (claim or pool, then sandbox, then volume claim), so a deeper bound
    changes nothing. *)
Theorem Delete_fuel n g ns name w : Delete_n (3 + n) g ns name w = Delete g ns name w.
Proof.
  unfold Delete. simpl plus. rewrite (Delete_unfold (S (S n))), (Delete_unfold 2). apply Store_Delete_ext.
  intros u w'. unfold OnDelete. case_decide; [|case_decide; [|case_decide; [|done]]].
  - unfold cleanupSandboxResources. destruct (FromUnstructured u) as [sb|]; [|done].
    apply foldl_ext_step. intros w0 vct. unfold cleanup_vct.
    destruct (Get _ _ _ _); [|done]. case_decide; [|done].
    by rewrite (Delete_pvc (S n)), (Delete_pvc 1).
  - unfold cascadeClaimDelete. destruct (Get _ _ _ _); [|done]. case_decide; [|done].
    by rewrite (Delete_sandbox n).
  - unfold cascadeWarmPoolDelete. destruct (Store.List _ _ _ _) as [lr|]; [|done].
    apply foldl_ext_step. intros w0 sb. unfold pool_delete_one.
    destruct (ownedBy _ _ _); [|done]. by rewrite (Delete_sandbox n).
Qed.

(** ** Safety *)

(** One step of the cascade between objects [Q] holds of: a controller's UID, or a
    pool's name, in its namespace where sandboxes are known to have one ([nsd]). *)
Definition next (Q : GVR → U → Prop) (nsd : bool) (x y : GVR * U) : Prop :=
  Q y.1 y.2 ∧
  ((x.1 = SandboxGVR ∧ y.1 = PVCGVR ∧ controllerOwnerUID y.2 = GetUID x.2) ∨
   (x.1 = SandboxClaimGVR ∧ y.1 = SandboxGVR ∧ controllerOwnerUID y.2 = GetUID x.2) ∨
   (x.1 = WarmPoolGVR ∧ y.1 = SandboxGVR ∧ ownedBy y.2 "SandboxWarmPool" (GetName x.2) = true ∧
    (nsd = true → GetNamespace x.2 ≠ "" → GetNamespace y.2 = GetNamespace x.2))).

Definition target s g ns name : option U :=
  match resources s !! g with
  | Some rm => lookup_obj s g (key (namespaced rm) ns name)
  | None => None
  end.

(** Objects only disappear, and only those [Q] allows. *)
Record removes (Q : GVR → U → Prop) w w' : Prop := {
  rm_res : resources (w_store w') = resources (w_store w);
  rm_sub : ∀ g k u, lookup_obj (w_store w') g k = Some u → lookup_obj (w_store w) g k = Some u;
  rm_own : ∀ g k u, lookup_obj (w_store w) g k = Some u →
    lookup_obj (w_store w') g k = Some u ∨ Q g u;
}.

Lemma removes_store Q w w' : w_store w' = w_store w → removes Q w w'.
Proof. intros E. constructor; rewrite E; auto. Qed.

Lemma removes_refl Q w : removes Q w w.
Proof. by apply removes_store. Qed.

Lemma removes_trans Q w1 w2 w3 : removes Q w1 w2 → removes Q w2 w3 → removes Q w1 w3.
Proof.
  intros [R1 S1 O1] [R2 S2 O2]. constructor; [congruence|auto|].
  intros g k u [Hu|?]%O1; [|by right]. by apply O2.
Qed.

Lemma removes_weaken (Q Q' : GVR → U → Prop) w w' :
  (∀ g u, Q' g u → Q g u) → removes Q' w w' → removes Q w w'.
Proof.
  intros HQ [R S O]. constructor; [done|done|].
  intros g k u [?|?]%O; [by left|right; auto].
Qed.

Lemma removes_foldl {B} Q (f : World → B → World) (I : World → Prop) l w :
  (∀ w b, b ∈ l → I w → removes Q w (f w b)) →
  (∀ w w', I w → removes Q w w' → I w') → I w →
  removes Q w (foldl f w l).
Proof.
  intros Hf HI. revert w; induction l as [|b l IH]; intros w Iw; simpl; [apply removes_refl|].
  assert (removes Q w (f w b)) as Hb by (apply Hf; [left|done]).
  eapply removes_trans; [exact Hb|]. apply IH; [|by eapply HI].
  intros w0 b0 Hin. apply Hf. by right.
Qed.

Lemma keyed_removes Q w w' : keyed (w_store w) → removes Q w w' → keyed (w_store w').
Proof. intros K [R S _] g k u rm Hl Hr. rewrite R in Hr. by apply (K g k u rm (S _ _ _ Hl)). Qed.

Lemma Get_target s g ns name u : Get g ns name s = Ok u ↔ target s g ns name = Some u.
Proof.
  unfold Get, meta, target. destruct (resources s !! g); [|done].
  destruct (lookup_obj _ _ _); simpl; naive_solver.
Qed.

(** [Q] holds of every stored object, and sandboxes are namespaced if [nsd]. *)
Record within (Q : GVR → U → Prop) (nsd : bool) s : Prop := {
  wi_keyed : keyed s;
  wi_all : ∀ g k u, lookup_obj s g k = Some u → Q g u;
  wi_nsd : ∀ rm, nsd = true → resources s !! SandboxGVR = Some rm → namespaced rm = true;
}.

Lemma within_any s : keyed s → within (λ _ _, True) false s.
Proof. by constructor. Qed.

Lemma within_removes Q nsd Q' w w' : within Q nsd (w_store w) → removes Q' w w' → within Q nsd (w_store w').
Proof.
  intros [K A N] R. constructor; [by eapply keyed_removes|intros; by eapply A, R|].
  intros rm Hn. rewrite (rm_res _ _ _ R). by apply N.
Qed.

Lemma drv_store {A} (f : D → D * A) w : w_store (drv f w).1 = w_store w.
Proof. unfold drv. by destruct (f (w_drv w)). Qed.

Lemma cleanup_container_store u w : w_store (cleanup_container u w) = w_store w.
Proof.
  unfold cleanup_container. pose proof (drv_store (InspectSandbox (GetNamespace u) (GetName u)) w) as E.
  destruct (drv (InspectSandbox _ _) w) as [w1 [i|e]]; simpl in E; [by rewrite drv_store|done].
Qed.

Lemma pool_member_target (s0 : Store U P) g rm sb :
  keyed s0 → resources s0 !! g = Some rm → sb ∈ (range_map (objects s0 g)).*2 →
  target s0 g (GetNamespace sb) (GetName sb) = Some sb.
Proof.
  intros K Hrm Hin. rewrite range_map_perm in Hin.
  apply list_elem_of_fmap in Hin as ([k sb'] & -> & Hk%elem_of_map_to_list). simpl.
  unfold target. rewrite Hrm. by rewrite <-(K g k sb' rm Hk Hrm).
Qed.

Lemma target_removes Q w w' g ns name t :
  removes Q w w' → target (w_store w') g ns name = Some t → target (w_store w) g ns name = Some t.
Proof.
  intros [R S _]. unfold target. rewrite R. destruct (resources _ !! g); [apply S|done].
Qed.

Lemma w_put_store s w : w_store (put_store s w : World) = s.
Proof. done. Qed.

(** The store part of a delete, and the world its hook runs in. *)
Lemma delete_locked_target g ns name s :
  match target s g ns name with
  | None => ∃ e, delete_locked g ns name s = (s, Err e)
  | Some old =>
      ∃ rm, resources s !! g = Some rm ∧
        let v := SetResourceVersion (format_uint (next_rv s)) old in
        let k := key (namespaced rm) ns name in
        valid_write (WDel g k v) s ∧
        delete_locked g ns name s = (apply_write (WDel g k v) s, Ok v)
  end.
Proof.
  unfold target. destruct (delete_locked g ns name s) as [s1 r] eqn:E.
  pose proof (delete_cases _ _ _ _ _ _ E) as Hc. unfold delete_locked, meta in E.
  destruct (resources s !! g) as [rm|] eqn:Hrm; [|by simplify_eq; eexists].
  rewrite key_if in E.
  destruct (lookup_obj s g (key (namespaced rm) ns name)) as [old|] eqn:Hl; [|by simplify_eq; eexists].
  exists rm. split; [done|].
  destruct Hc as [(e & -> & ->)|(rm' & old' & Hm & Hl' & Hv & -> & ->)]; [by injection E|].
  apply meta_ok in Hm. assert (rm' = rm) as -> by congruence. rewrite key_if in Hl', Hv |- *.
  by assert (old' = old) as -> by congruence.
Qed.

Lemma locked_removes s g k v old Q w :
  w_store w = s → lookup_obj s g k = Some old → Q g old →
  removes Q w (put_store (apply_write (WDel g k v) s) w).
Proof.
  intros <- Hl HQ. constructor; rewrite w_put_store; autorewrite with las_apply; [done| |].
  - intros g' k' u. rewrite lookup_apply. case_decide; [done|auto].
  - intros g' k' u Hu. rewrite lookup_apply. simpl. case_decide as Hd; [|by left].
    destruct Hd as [<- <-]. right. by assert (u = old) as -> by congruence.
Qed.

Section within.
Context (Q : GVR → U → Prop) (nsd : bool).
#[local] Notation owns := (next Q nsd).

Lemma next_version g u r y : owns (g, SetResourceVersion r u) y ↔ owns (g, u) y.
Proof.
  unfold next. simpl. assert (GetUID (SetResourceVersion r u) = GetUID u) as -> by (by uget_simpl).
  assert (GetName (SetResourceVersion r u) = GetName u) as -> by (by uget_simpl).
  by assert (GetNamespace (SetResourceVersion r u) = GetNamespace u) as -> by (by uget_simpl).
Qed.

(** What the object [x] owns, and what goes with it when it is deleted. *)
Definition owned (x : GVR * U) (g : GVR) (u : U) : Prop := tc owns x (g, u).
Definition dies (x : GVR * U) (g : GVR) (u : U) : Prop := rtc owns x (g, u).

(** One level: if the deletes the hook makes are safe, so is the hook. *)
Definition safe (del : GVR → string → string → World → World * res api_error U) : Prop :=
  ∀ g ns name w, within Q nsd (w_store w) →
    match target (w_store w) g ns name with
    | Some t => removes (dies (g, t)) w (del g ns name w).1
    | None => w_store (del g ns name w).1 = w_store w
    end.

Lemma dies_owned x g t g' u : owns x (g, t) → dies (g, t) g' u → owned x g' u.
Proof. intros Ho Hd. by eapply tc_rtc_r; [apply tc_once|]. Qed.

Lemma safe_get del g ns name w t x :
  safe del → within Q nsd (w_store w) → target (w_store w) g ns name = Some t → owns x (g, t) →
  removes (owned x) w (del g ns name w).1.
Proof.
  intros Hs K Ht Ho. specialize (Hs g ns name w K). rewrite Ht in Hs.
  eapply removes_weaken; [|done]. intros g' u'. by apply dies_owned.
Qed.

Lemma target_all s g ns name t : within Q nsd s → target s g ns name = Some t → Q g t.
Proof. intros K. unfold target. destruct (resources s !! g); [|done]. by apply (wi_all _ _ _ K). Qed.

Lemma hook_safe del g u w :
  safe del → within Q nsd (w_store w) → removes (owned (g, u)) w (OnDelete del g u w).
Proof.
  intros Hs K. unfold OnDelete. case_decide as Hg; [subst g|case_decide as Hg1;
    [subst g|case_decide as Hg2; [subst g|case_decide as Hg3; [subst g|apply removes_refl]]]].
  - unfold cleanupSandboxResources.
    eapply removes_trans; [apply removes_store, cleanup_container_store|].
    destruct (FromUnstructured u) as [sb|]; [|apply removes_refl].
    apply (removes_foldl _ _ (λ w, within Q nsd (w_store w)));
      [|by intros ??? ?; eapply within_removes|by rewrite cleanup_container_store].
    intros w0 vct _ K0. unfold cleanup_vct.
    destruct (Get PVCGVR _ _ _) as [pu|] eqn:E; [|by apply removes_store, drv_store].
    case_decide as Ho; [|apply removes_refl]. apply Get_target in E.
    apply (safe_get _ _ _ _ _ pu); try done. split; [by eapply target_all|]. left. by split_and!.
  - unfold cascadeClaimDelete. destruct (Get SandboxGVR _ _ _) as [sbU|] eqn:E; [|apply removes_refl].
    case_decide as Ho; [|apply removes_refl]. apply Get_target in E.
    apply (safe_get _ _ _ _ _ sbU); try done. split; [by eapply target_all|]. right; left. by split_and!.
  - unfold cascadeWarmPoolDelete. destruct (Store.List _ _ _ _) as [lr|] eqn:E; [|apply removes_refl].
    unfold Store.List, meta in E. destruct (resources (w_store w) !! SandboxGVR) as [rm|] eqn:Hrm; [|done].
    injection E as <-. simpl.
    apply (removes_foldl _ _ (λ w0, within Q nsd (w_store w0) ∧ removes (owned (WarmPoolGVR, u)) w w0)).
    + intros w0 sb [Hf Hin]%list_elem_of_filter [K0 R0]. unfold pool_delete_one.
      destruct (ownedBy sb _ _) eqn:Ho; [|apply removes_refl].
      pose proof (Hs SandboxGVR (GetNamespace sb) (GetName sb) w0 K0) as Hd.
      destruct (target (w_store w0) _ _ _) as [t|] eqn:Ht; [|by apply removes_store].
      eapply removes_weaken; [|exact Hd]. intros g' u'. apply dies_owned.
      split; [by eapply target_all|].
      apply (target_removes _ _ _ _ _ _ _ R0) in Ht.
      rewrite (pool_member_target _ _ rm _ (wi_keyed _ _ _ K) Hrm Hin) in Ht. injection Ht as ->.
      right; right. split_and!; [done|done|done|]. simpl. intros Hnsd Hne.
      rewrite (wi_nsd _ _ _ K rm Hnsd Hrm) in Hf. rewrite bool_decide_eq_true_2 in Hf by done. cbn [andb] in Hf.
      destruct (decide (GetNamespace t = GetNamespace u)) as [?|Hdiff]; [done|].
      by rewrite bool_decide_eq_true_2 in Hf.
    + intros w0 w1 [K0 R0] R1. split; [by eapply within_removes|by eapply removes_trans].
    + split; [done|apply removes_refl].
  - by apply removes_store, drv_store.
Qed.

Lemma Delete_safe n : safe (Delete_n n).
Proof.
  induction n as [|n IH]; intros g ns name w K; simpl.
  { destruct (target _ _ _ _); [apply removes_refl|done]. }
  unfold Store.Delete. pose proof (delete_locked_target g ns name (w_store w)) as Ht.
  destruct (target (w_store w) g ns name) as [old|] eqn:Etg; [|by destruct Ht as [e ->]].
  destruct Ht as (rm & Hrm & Hv & ->). simpl. set (v := SetResourceVersion _ old).
  assert (removes (dies (g, old)) w (put_store (apply_write
    (WDel g (key (namespaced rm) ns name) v) (w_store w)) w)) as R1.
  { apply (locked_removes _ _ _ _ old); [done| |apply rtc_refl].
    unfold target in Etg. by rewrite Hrm in Etg. }
  eapply removes_trans; [exact R1|]. eapply removes_weaken; [|apply hook_safe; [done|by eapply within_removes]].
  intros g' u' Ho. apply tc_rtc. inversion Ho as [x y Hy|x y z Hy Hz]; subst.
  - apply tc_once. exact (proj1 (next_version _ _ _ _) Hy).
  - eapply tc_l; [exact (proj1 (next_version _ _ _ _) Hy)|exact Hz].
Qed.

End within.

Definition Delete_safe_any n := Delete_safe (λ _ _, True) false n.

(** Namespaces hold no slash, as API validation ensures. *)
Definition slashless s : Prop := ∀ g k u, lookup_obj s g k = Some u → no_byte slash (GetNamespace u) = true.

Lemma slashless_removes Q w w' : slashless (w_store w) → removes Q w w' → slashless (w_store w').
Proof. intros Hs [_ S _] g k u Hu. by eapply Hs, S. Qed.

Definition namespaced_gvr s g : Prop := ∃ rm, resources s !! g = Some rm ∧ namespaced rm = true.

Lemma target_named s g ns name u :
  keyed s → slashless s → namespaced_gvr s g → no_byte slash ns = true →
  target s g ns name = Some u → GetNamespace u = ns ∧ GetName u = name.
Proof.
  intros K Hsl (rm & Hrm & Hn) Hns. unfold target. rewrite Hrm, Hn. intros Hl.
  pose proof (K _ _ _ _ Hl Hrm) as Hk. rewrite Hn in Hk.
  apply key_inj in Hk as [-> ->]; [done|done|by eapply Hsl].
Qed.

Lemma target_gone Q w w' g ns name :
  removes Q w w' → target (w_store w) g ns name = None → target (w_store w') g ns name = None.
Proof.
  intros R Hn. destruct (target (w_store w') g ns name) as [t|] eqn:E; [|done].
  apply (target_removes _ _ _ _ _ _ _ R) in E. congruence.
Qed.

(** What the world looks like when the hook starts. *)
Lemma Delete_n_step n g ns name w t :
  keyed (w_store w) → target (w_store w) g ns name = Some t →
  ∃ s1 v, delete_locked g ns name (w_store w) = (s1, Ok v) ∧ v = SetResourceVersion (GetResourceVersion v) t ∧
    Delete_n (S n) g ns name w = (OnDelete (Delete_n n) g v (put_store s1 w), Ok v) ∧
    target s1 g ns name = None ∧ removes (λ _ _, True) w (put_store s1 w).
Proof.
  intros K Ht. pose proof (delete_locked_target g ns name (w_store w)) as Hd. rewrite Ht in Hd.
  destruct Hd as (rm & Hrm & Hv & E). eexists _, _. split; [exact E|].
  split; [by uget_simpl|]. rewrite Delete_unfold. unfold Store.Delete. rewrite E.
  assert (lookup_obj (w_store w) g (key (namespaced rm) ns name) = Some t) as Hl.
  { unfold target in Ht. by rewrite Hrm in Ht. }
  split_and!; [done| |by apply (locked_removes _ _ _ _ t)].
  unfold target. rewrite resources_apply, Hrm, lookup_apply. simpl.
  by rewrite decide_True.
Qed.

(** An object of the store owns another as Kubernetes has it: a sandbox the volume
    claims and a claim the sandboxes with a controller reference to its UID, a
    pool the sandboxes of its namespace with a reference to it. *)
Definition refers (y : U) (P : OwnerReference → Prop) : Prop := ∃ ref, ref ∈ GetOwnerReferences y ∧ P ref.
Definition owns (x y : GVR * U) : Prop :=
  (x.1 = SandboxGVR ∧ y.1 = PVCGVR ∨ x.1 = SandboxClaimGVR ∧ y.1 = SandboxGVR) ∧
    refers y.2 (λ ref, or_Controller ref = Some true ∧ or_UID ref = GetUID x.2) ∨
  x.1 = WarmPoolGVR ∧ y.1 = SandboxGVR ∧ GetNamespace y.2 = GetNamespace x.2 ∧
    refers y.2 (λ ref, or_Kind ref = "SandboxWarmPool" ∧ or_Name ref = GetName x.2).

(** Stored objects have a UID, and pools a namespace. *)
Definition identified (g : GVR) (u : U) : Prop := GetUID u ≠ "" ∧ (g = WarmPoolGVR → GetNamespace u ≠ "").

Lemma next_owns x y : identified x.1 x.2 → next identified true x y → owns x y ∧ identified y.1 y.2.
Proof.
  intros [Hx Hp] [Hy [(Hg & Hg' & Hu)|[(Hg & Hg' & Hu)|(Hg & Hg' & Ho & Hns)]]]; (split; [|done]).
  1,2: left; split; [auto|]; unfold controllerOwnerUID in Hu; unfold refers.
  1,2: destruct (list_find _ _) as [[i ref]|] eqn:Hf; [|by rewrite <-Hu in Hx];
    apply list_find_Some in Hf as (Hi & Hc & _); exists ref; (split; [by eapply list_elem_of_lookup_2|]);
    unfold is_controller in Hc; destruct (or_Controller ref) as [[]|]; done.
  right. split_and!; [done|done|by auto|]. unfold ownedBy in Ho.
  apply existsb_exists in Ho as (ref & Hin%list_elem_of_In & Hr%bool_decide_eq_true). by exists ref.
Qed.

Lemma chain_owns x y : rtc (next identified true) x y → identified x.1 x.2 → rtc owns x y.
Proof.
  induction 1 as [x|x y z Hxy _ IH]; intros Hid; [done|].
  destruct (next_owns x y Hid Hxy) as [Ho Hy]. by eapply rtc_l, IH.
Qed.

(** C11. A delete destroys what it should and nothing else.  If the named object
    is stored it is gone afterwards and the delete succeeds, otherwise it fails
    and the store is unchanged; every other object survives unless the named one
    owns it, directly or through the objects the cascade deletes (in a store
    whose objects have UIDs and whose pools have namespaces); nothing new
    appears. *)
Theorem Delete_only_owned g ns name w w' r :
  keyed (w_store w) → (∀ g k u, lookup_obj (w_store w) g k = Some u → identified g u) →
  (∀ rm, resources (w_store w) !! SandboxGVR = Some rm → namespaced rm = true) →
  Delete g ns name w = (w', r) →
  match target (w_store w) g ns name with
  | Some t => is_ok r = true ∧ target (w_store w') g ns name = None ∧
      ∀ g' k u, lookup_obj (w_store w) g' k = Some u →
        lookup_obj (w_store w') g' k = Some u ∨ rtc owns (g, t) (g', u)
  | None => is_ok r = false ∧ w_store w' = w_store w
  end ∧
  (∀ g' k u, lookup_obj (w_store w') g' k = Some u → lookup_obj (w_store w) g' k = Some u).
Proof.
  intros K A N E. pose proof (Delete_safe identified true 3 g ns name w ltac:(constructor; [done|done|intros rm _; apply N])) as Hs. fold Delete in Hs.
  rewrite E in Hs. cbn [fst] in Hs. pose proof (delete_locked_target g ns name (w_store w)) as Hd.
  destruct (target (w_store w) g ns name) as [t|] eqn:Ht.
  - destruct (Delete_n_step 2 _ _ _ _ _ K Ht) as (s1 & v & _ & _ & Edel & Hgone & R1).
    unfold Delete in E. rewrite Edel in E. apply pair_eq in E as [Ew <-]. destruct Hs as [_ Hsub Hown].
    split_and!; [done| | |done].
    + rewrite <-Ew. eapply (target_gone _ (put_store s1 w)); [|exact Hgone]. apply (hook_safe (λ _ _, True) false).
      * apply Delete_safe_any.
      * apply within_any. by eapply keyed_removes.
    + intros g' k u Hu. destruct (Hown _ _ _ Hu) as [?|Hdies]; [by left|right].
      apply chain_owns; [exact Hdies|]. revert Ht. unfold target. destruct (resources _ !! g); [|done]. apply A.
  - rewrite Hs. split; [|done]. destruct Hd as [e Hd]. split; [|done].
    revert E. unfold Delete. cbn [Delete_n]. unfold Store.Delete. rewrite Hd. by intros [= _ <-].
Qed.

(** ** Completeness *)

Context `{DriverView D} `{!DriverLaws D} `{Mounts D} `{!MountLaws D}.

(** Containers, volumes and their uses only go away. *)
Record drv_mono w w' : Prop := {
  dm_container : ∀ ns n, container_of (w_drv w) ns n = None → container_of (w_drv w') ns n = None;
  dm_volume : ∀ v, volume_of (w_drv w) v = None → volume_of (w_drv w') v = None;
  dm_mounts : ∀ ns n v, mounts (w_drv w') ns n v → mounts (w_drv w) ns n v;
}.

Lemma drv_mono_refl w : drv_mono w w.
Proof. by constructor. Qed.
Lemma drv_mono_trans w1 w2 w3 : drv_mono w1 w2 → drv_mono w2 w3 → drv_mono w1 w3.
Proof. intros [A B C] [A' B' C']. constructor; auto. Qed.
Lemma drv_mono_foldl {B} (f : World → B → World) l w :
  (∀ w b, drv_mono w (f w b)) → drv_mono w (foldl f w l).
Proof.
  intros Hf. revert w; induction l as [|b l IH]; intros w; simpl; [apply drv_mono_refl|].
  eapply drv_mono_trans; [apply Hf|apply IH].
Qed.

Lemma w_drv_drv {A} (f : D → D * A) w : w_drv (drv f w).1 = (f (w_drv w)).1.
Proof. unfold drv. by destruct (f (w_drv w)). Qed.
Lemma drv_result {A} (f : D → D * A) w : (drv f w).2 = (f (w_drv w)).2.
Proof. unfold drv. by destruct (f (w_drv w)). Qed.

Lemma remove_volume_mono v w : drv_mono w (drv (RemoveVolume v) w).1.
Proof.
  constructor; rewrite w_drv_drv.
  - intros ns n. by rewrite remove_volume_containers.
  - intros v' Hv. destruct (decide (v = v')) as [<-|Hne]; [by apply remove_volume_gone|].
    by rewrite remove_volume_ne.
  - intros ns n v'. apply remove_volume_mounts.
Qed.

(** No container mounts the volume. *)
Definition unused w (v : string) : Prop := ∀ ns n, ¬ mounts (w_drv w) ns n v.

Lemma unused_mono w w' v : drv_mono w w' → unused w v → unused w' v.
Proof. intros M Hu ns n Hm. by eapply Hu, M. Qed.

Lemma unused_removed v w : unused w v → volume_of (w_drv (drv (RemoveVolume v) w).1) v = None.
Proof. intros Hu. rewrite w_drv_drv. by apply remove_volume_ok, remove_unused. Qed.

Lemma cleanup_container_mono u w : drv_mono w (cleanup_container u w).
Proof.
  unfold cleanup_container. pose proof (w_drv_drv (InspectSandbox (GetNamespace u) (GetName u)) w) as Ed.
  rewrite inspect_pure in Ed. destruct (drv (InspectSandbox _ _) w) as [w1 [info|e]]; simpl in Ed.
  - constructor; rewrite w_drv_drv, Ed.
    + intros ns n. apply remove_gone.
    + intros v. by rewrite remove_volumes.
    + intros ns n v. apply remove_mounts.
  - by constructor; rewrite Ed.
Qed.

Lemma cleanup_container_gone u w :
  removable (w_drv w) (GetNamespace u) (GetName u) →
  container_of (w_drv (cleanup_container u w)) (GetNamespace u) (GetName u) = None.
Proof.
  intros [Ha Hr]. unfold cleanup_container. set (ns := GetNamespace u) in *. set (n := GetName u) in *.
  pose proof (w_drv_drv (InspectSandbox ns n) w) as Ed. rewrite inspect_pure in Ed.
  pose proof (drv_result (InspectSandbox ns n) w) as Er. rewrite Ha in Er.
  destruct (drv (InspectSandbox ns n) w) as [w1 r]. simpl in Ed, Er. subst r.
  destruct (container_of (w_drv w) ns n) as [info|] eqn:Hc; simpl; [|by rewrite Ed].
  rewrite w_drv_drv, Ed. by apply (remove_ok _ _ _ _ info), Hr.
Qed.

Lemma hook_mono del g u w :
  (∀ g ns n w, drv_mono w (del g ns n w).1) → drv_mono w (OnDelete del g u w).
Proof.
  intros Hd. unfold OnDelete. case_decide; [|case_decide; [|case_decide; [|case_decide]]].
  - unfold cleanupSandboxResources. eapply drv_mono_trans; [apply cleanup_container_mono|].
    destruct (FromUnstructured u) as [sb|]; [|apply drv_mono_refl].
    apply drv_mono_foldl. intros w0 vct. unfold cleanup_vct.
    destruct (Get _ _ _ _); [case_decide; [apply Hd|apply drv_mono_refl]|apply remove_volume_mono].
  - unfold cascadeClaimDelete. destruct (Get _ _ _ _); [|apply drv_mono_refl].
    case_decide; [apply Hd|apply drv_mono_refl].
  - unfold cascadeWarmPoolDelete. destruct (Store.List _ _ _ _); [|apply drv_mono_refl].
    apply drv_mono_foldl. intros w0 sb. unfold pool_delete_one.
    destruct (ownedBy _ _ _); [apply Hd|apply drv_mono_refl].
  - apply remove_volume_mono.
  - apply drv_mono_refl.
Qed.

Lemma Delete_mono n g ns name w : drv_mono w (Delete_n n g ns name w).1.
Proof.
  revert g ns name w; induction n as [|n IH]; intros g ns name w; [apply drv_mono_refl|].
  simpl. unfold Store.Delete. destruct (delete_locked g ns name (w_store w)) as [s1 [v|e]]; simpl.
  - apply (drv_mono_trans _ (put_store s1 w)); [by constructor|]. by apply hook_mono.
  - by constructor.
Qed.

Lemma pvc_deleted n ns pvc w pu :
  keyed (w_store w) → slashless (w_store w) → namespaced_gvr (w_store w) PVCGVR →
  no_byte slash ns = true → target (w_store w) PVCGVR ns pvc = Some pu →
  let w' := (Delete_n (S n) PVCGVR ns pvc w).1 in
  target (w_store w') PVCGVR ns pvc = None ∧
  (unused w (VolumeName ns pvc) → volume_of (w_drv w') (VolumeName ns pvc) = None).
Proof.
  intros K Hsl Hn Hns Ht. destruct (Delete_n_step n _ _ _ _ _ K Ht) as (s1 & v & _ & Hv & E & Hg & _).
  cbv zeta. rewrite E. simpl fst. unfold OnDelete.
  rewrite decide_False, decide_False, decide_False, decide_True by done.
  unfold cleanupPVCVolume. rewrite drv_store. split; [done|].
  destruct (target_named _ _ _ _ _ K Hsl Hn Hns Ht) as [<- <-].
  assert (GetNamespace v = GetNamespace pu ∧ GetName v = GetName pu) as [-> ->]
    by (rewrite Hv; by uget_simpl).
  intros Hu. by apply unused_removed.
Qed.

Lemma cleanup_vct_done n u w vct :
  keyed (w_store w) → slashless (w_store w) → namespaced_gvr (w_store w) PVCGVR →
  no_byte slash (GetNamespace u) = true →
  let pvc := vct_Name vct +:+ "-" +:+ GetName u in
  (∀ pu, target (w_store w) PVCGVR (GetNamespace u) pvc = Some pu → controllerOwnerUID pu = GetUID u) →
  let w' := cleanup_vct (Delete_n (S n)) u w vct in
  target (w_store w') PVCGVR (GetNamespace u) pvc = None ∧
  (unused w (VolumeName (GetNamespace u) pvc) → volume_of (w_drv w') (VolumeName (GetNamespace u) pvc) = None).
Proof.
  intros K Hsl Hn Hns pvc Ho. unfold cleanup_vct. fold pvc. cbv zeta.
  destruct (Get PVCGVR (GetNamespace u) pvc (w_store w)) as [pu|e] eqn:E.
  - apply Get_target in E. rewrite decide_True by auto. by apply (pvc_deleted _ _ _ _ pu).
  - rewrite drv_store. split; [|apply unused_removed].
    destruct (target (w_store w) PVCGVR (GetNamespace u) pvc) as [pu|] eqn:Ht; [|done].
    apply Get_target in Ht. congruence.
Qed.

Lemma cleanup_vct_removes n u w vct :
  keyed (w_store w) → removes (λ _ _, True) w (cleanup_vct (Delete_n n) u w vct).
Proof.
  intros K. unfold cleanup_vct. destruct (Get PVCGVR _ _ _) as [pu|] eqn:E; [|by apply removes_store, drv_store].
  case_decide as Ho; [|apply removes_refl]. apply Get_target in E.
  pose proof (Delete_safe_any n PVCGVR (GetNamespace u) (vct_Name vct +:+ "-" +:+ GetName u) w (within_any _ K)) as Hs.
  rewrite E in Hs. by eapply removes_weaken.
Qed.

Lemma cleanup_vct_mono n u w vct : drv_mono w (cleanup_vct (Delete_n n) u w vct).
Proof.
  unfold cleanup_vct. destruct (Get _ _ _ _); [|apply remove_volume_mono].
  case_decide; [apply Delete_mono|apply drv_mono_refl].
Qed.

(** A predicate of the world, established by one element of a list and stable
    under the others. *)
Lemma foldl_establish {B} (f : World → B → World) (I Q : World → Prop) l b w :
  b ∈ l → I w → (∀ w b, I w → I (f w b)) → (∀ w b, I w → Q w → Q (f w b)) →
  (∀ w, I w → Q (f w b)) → Q (foldl f w l).
Proof.
  intros Hb HI HIf HQ Hest. revert w HI. induction Hb as [b l|b b' l Hb IH]; intros w HI; simpl; [|auto].
  assert (∀ w, I w → Q w → Q (foldl f w l)) as Hrest.
  { induction l as [|x l IHl]; intros w0 H0' HQ0; simpl; [done|]. apply IHl; auto. }
  apply Hrest; auto.
Qed.

(** The claims of a deleted sandbox, one after the other. *)
Lemma cleanup_vcts_complete n v vcts w w2 :
  keyed (w_store w) → slashless (w_store w) → namespaced_gvr (w_store w) PVCGVR → no_byte slash (GetNamespace v) = true →
  removes (λ _ _, True) w w2 →
  let w' := foldl (cleanup_vct (Delete_n (S n)) v) w2 vcts in
  removes (λ _ _, True) w2 w' ∧ drv_mono w2 w' ∧
  ∀ vct, vct ∈ vcts →
    let pvc := vct_Name vct +:+ "-" +:+ GetName v in
    (∀ pu, target (w_store w) PVCGVR (GetNamespace v) pvc = Some pu → controllerOwnerUID pu = GetUID v) →
    target (w_store w') PVCGVR (GetNamespace v) pvc = None ∧
    (unused w2 (VolumeName (GetNamespace v) pvc) → volume_of (w_drv w') (VolumeName (GetNamespace v) pvc) = None).
Proof.
  intros K Hsl Hnp Hns R2.
  pose proof (cleanup_vct_removes (S n) v) as Hrem. pose proof (cleanup_vct_mono (S n) v) as Hmono.
  pose proof (cleanup_vct_done n v) as Hdone.
  revert Hrem Hmono Hdone. generalize (Delete_n (U := U) (P := P) (D := D) (S n)). intros del Hrem Hmono Hdone w'.
  split_and!.
  - apply (removes_foldl _ _ (λ w, keyed (w_store w))); [by auto| |by eapply keyed_removes].
    intros; by eapply keyed_removes.
  - apply drv_mono_foldl. intros; apply Hmono.
  - intros vct Hin pvc Ho. set (vol := VolumeName (GetNamespace v) pvc).
    apply (foldl_establish _ (λ w0, (keyed (w_store w0) ∧ removes (λ _ _, True) w w0) ∧ drv_mono w2 w0)
      (λ w0, target (w_store w0) PVCGVR (GetNamespace v) pvc = None ∧
             (unused w2 vol → volume_of (w_drv w0) vol = None)) _ vct); [done| | | |].
    + split; [split; [by eapply keyed_removes|done]|apply drv_mono_refl].
    + intros w0 b [[K0 R0] M0]. split; [split|by eapply drv_mono_trans].
      * by eapply keyed_removes; [|apply Hrem].
      * by eapply removes_trans; [|apply Hrem].
    + intros w0 b [[K0 R0] M0] [Q1 Q2]. split; [|intros Hu; apply (dm_volume w0); [apply Hmono|by apply Q2]].
      eapply target_gone; [by apply Hrem|done].
    + intros w0 [[K0 R0] M0]. destruct (Hdone w0 vct K0) as [Hd1 Hd2]; [by eapply slashless_removes| |done| |].
      * destruct Hnp as (rm & Hrm & Hnn). exists rm. by rewrite (rm_res _ _ _ R0).
      * intros pu Hpu. apply Ho. by eapply target_removes.
      * split; [done|]. intros Hu. by apply Hd2, (unused_mono w2).
Qed.


Lemma sandbox_deleted n ns name w t :
  keyed (w_store w) → slashless (w_store w) → namespaced_gvr (w_store w) SandboxGVR →
  no_byte slash ns = true → target (w_store w) SandboxGVR ns name = Some t →
  let w' := (Delete_n (S n) SandboxGVR ns name w).1 in
  target (w_store w') SandboxGVR ns name = None ∧
  (removable (w_drv w) ns name ∨ container_of (w_drv w) ns name = None → container_of (w_drv w') ns name = None).
Proof.
  intros K Hsl Hn Hns Ht. cbv zeta.
  destruct (Delete_n_step n _ _ _ _ _ K Ht) as (s1 & v & _ & Hv & -> & Hgone & R1). cbn [fst].
  destruct (target_named _ _ _ _ _ K Hsl Hn Hns Ht) as [Htns Htn].
  assert (GetNamespace v = ns ∧ GetName v = name) as [Hvns Hvn] by (rewrite Hv, <-Htns, <-Htn; by uget_simpl).
  set (w1 := put_store s1 w) in *. assert (keyed (w_store w1)) as K1 by (by eapply keyed_removes).
  split.
  - eapply target_gone; [apply (hook_safe _ _ _ SandboxGVR v w1 (Delete_safe_any n) (within_any _ K1))|done].
  - unfold OnDelete. rewrite decide_True by done. unfold cleanupSandboxResources. intros Hor.
    pose proof (cleanup_container_gone v w1) as Hc. rewrite Hvns, Hvn in Hc.
    assert (container_of (w_drv (cleanup_container v w1)) ns name = None) as Hc'.
    { destruct Hor as [Hr|Hnone]; [by apply Hc|]. by apply (dm_container w1); [apply cleanup_container_mono|]. }
    destruct (FromUnstructured v) as [sb|]; [|done].
    apply (dm_container (cleanup_container v w1)); [|done].
    apply drv_mono_foldl. intros w0 b. apply (cleanup_vct_mono n).
Qed.

(** Deleting a claim takes its sandbox along: the sandbox recorded in its
    status (or named after it), when this very claim controls it, is gone from
    the store, and its container is gone if the driver finds and removes it. *)
Theorem Delete_claim_complete ns name w w' c sbU :
  keyed (w_store w) → slashless (w_store w) → namespaced_gvr (w_store w) SandboxGVR →
  namespaced_gvr (w_store w) SandboxClaimGVR → no_byte slash ns = true →
  Delete SandboxClaimGVR ns name w = (w', Ok c) →
  target (w_store w) SandboxGVR ns (claim_sandbox_name c) = Some sbU →
  controllerOwnerUID sbU = GetUID c → removable (w_drv w) ns (claim_sandbox_name c) →
  target (w_store w') SandboxGVR ns (claim_sandbox_name c) = None ∧
  container_of (w_drv w') ns (claim_sandbox_name c) = None.
Proof.
  intros K Hsl Hn Hnc Hns E Hsb Ho Hrem.
  destruct (target (w_store w) SandboxClaimGVR ns name) as [t|] eqn:Ht; cycle 1.
  { pose proof (delete_locked_target SandboxClaimGVR ns name (w_store w)) as Hd. rewrite Ht in Hd.
    destruct Hd as [e Hd]. revert E. unfold Delete. rewrite Delete_unfold. unfold Store.Delete. by rewrite Hd. }
  destruct (Delete_n_step 2 _ _ _ _ _ K Ht) as (s1 & v & Hloc & Hv & Edel & _ & R1).
  unfold Delete in E. rewrite Edel in E. apply pair_eq in E as [<- Ev]. injection Ev as ->.
  destruct (target_named _ _ _ _ _ K Hsl Hnc Hns Ht) as [Htns _].
  assert (GetNamespace c = ns) as Hcns by (rewrite Hv, <-Htns; by uget_simpl).
  set (w1 := put_store s1 w) in *.
  assert (target (w_store w1) SandboxGVR ns (claim_sandbox_name c) = Some sbU) as Hsb1.
  { pose proof (delete_locked_target SandboxClaimGVR ns name (w_store w)) as Hd. rewrite Ht, Hloc in Hd.
    destruct Hd as (rm & Hrm & _ & Hd). apply pair_eq in Hd as [Hd _].
    unfold w1, put_store. cbn [w_store]. rewrite Hd. unfold target in Hsb |- *.
    rewrite resources_apply. destruct (resources (w_store w) !! SandboxGVR) as [rm'|]; [|done].
    rewrite lookup_apply. rewrite decide_False by (by intros [? _]). done. }
  unfold OnDelete. rewrite decide_False, decide_True by done. unfold cascadeClaimDelete.
  rewrite Hcns. rewrite (proj2 (Get_target _ _ _ _ sbU) Hsb1), decide_True by done.
  destruct (sandbox_deleted 1 ns (claim_sandbox_name c) w1 sbU) as [Hd1 Hd2];
    [by eapply keyed_removes|by eapply slashless_removes| |done|done|split; [exact Hd1|]; apply Hd2; by left].
  destruct Hn as (rm & Hrm & Hnn). exists rm. by rewrite (rm_res _ _ _ R1).
Qed.
End cascade.

(** ** Witnesses *)

Lemma demo_claim_keyed : keyed demo_claim_store.
Proof. apply keyed_check_ok. vm_compute. reflexivity. Qed.

Lemma demo_claim_slashless : slashless demo_claim_store.
Proof.
  intros g k u Hl.
  apply (objects_forall demo_claim_store (λ _ _ u, no_byte slash (GetNamespace u))) in Hl; [done|].
  vm_compute. reflexivity.
Qed.

Lemma demo_claim_namespaced g :
  match resources demo_claim_store !! g with Some rm => namespaced rm | None => false end = true →
  namespaced_gvr demo_claim_store g.
Proof. unfold namespaced_gvr. destruct (resources demo_claim_store !! g); [eauto|done]. Qed.

Definition demo_delete (g : GVR) (name : string) : demo_world * res api_error cobj :=
  Delete g "default" name demo_claim_world.

Definition demo_pvc : cobj :=
  default new_obj (target demo_claim_store PVCGVR "default" "data-c").

Lemma demo_claim_identified g k u : lookup_obj demo_claim_store g k = Some u → identified g u.
Proof.
  intros Hl. apply (objects_forall demo_claim_store
    (λ g _ u, bool_decide (GetUID u ≠ "" ∧ (g = WarmPoolGVR → GetNamespace u ≠ "")))) in Hl; [by apply bool_decide_eq_true in Hl|].
  vm_compute. reflexivity.
Qed.

Definition demo_removed g k : bool := bool_decide (lookup_obj (w_store (demo_delete SandboxClaimGVR "c").1) g k = None).

Lemma Delete_only_owned_witness :
  target (w_store (demo_delete SandboxClaimGVR "c").1) SandboxClaimGVR "default" "c" = None ∧
  (lookup_obj demo_claim_store PVCGVR "default/data-c" = Some demo_pvc → demo_removed PVCGVR "default/data-c" = true →
   ∃ t, target demo_claim_store SandboxClaimGVR "default" "c" = Some t ∧
        rtc owns (SandboxClaimGVR, t) (PVCGVR, demo_pvc)).
Proof.
  destruct (Delete_only_owned SandboxClaimGVR "default" "c" demo_claim_world
    (demo_delete SandboxClaimGVR "c").1 (demo_delete SandboxClaimGVR "c").2) as [Ht _].
  - exact demo_claim_keyed.
  - exact demo_claim_identified.
  - assert (match resources demo_claim_store !! SandboxGVR with Some rm => namespaced rm | None => true end = true) as E
      by (vm_compute; reflexivity).
    intros rm Hrm. cbn [w_store demo_claim_world] in Hrm. rewrite Hrm in E. exact E.
  - apply surjective_pairing.
  - change (w_store demo_claim_world) with demo_claim_store in Ht.
    assert (is_Some (target demo_claim_store SandboxClaimGVR "default" "c")) as [t Et].
    { assert (match target demo_claim_store SandboxClaimGVR "default" "c" with Some _ => true | None => false end = true) as E
        by (vm_compute; reflexivity). destruct (target demo_claim_store SandboxClaimGVR "default" "c"); [eauto|discriminate]. }
    rewrite Et in Ht. destruct Ht as (_ & Hgone & Hown). split; [exact Hgone|].
    intros Hp Hr. exists t. split; [exact Et|]. destruct (Hown _ _ _ Hp) as [Hk|Ho]; [|exact Ho].
    apply bool_decide_eq_true in Hr. rewrite Hk in Hr. destruct (None_ne_Some _ (eq_sym Hr)).
Defined.

Lemma demo_sole_container ns n i : Fake.containers (w_drv demo_claim_world) !! Fake.fkey ns n = Some i → ns = "default" ∧ n = "c".
Proof.
  assert (map_Forall (λ k _, k = Fake.fkey "default" "c") (Fake.containers (w_drv demo_claim_world))) as Hall.
  { apply map_Forall_to_list. vm_compute. repeat constructor. }
  intros Hi. pose proof (Hall _ _ Hi) as Hk. cbn beta in Hk. by apply Fake.fkey_inj in Hk.
Qed.


Lemma Delete_claim_witness :
  let r := demo_delete SandboxClaimGVR "c" in
  target (w_store r.1) SandboxGVR "default" "c" = None ∧
  container_of (w_drv r.1) "default" "c" = None.
Proof.
  intros r.
  pose proof (Delete_claim_complete "default" "c" demo_claim_world r.1 (demo_ok r)
    (default new_obj (target demo_claim_store SandboxGVR "default" "c"))) as Hd.
  replace (claim_sandbox_name (demo_ok r)) with "c" in Hd by (vm_compute; reflexivity).
  apply Hd.
  - exact demo_claim_keyed.
  - exact demo_claim_slashless.
  - apply demo_claim_namespaced. vm_compute. reflexivity.
  - apply demo_claim_namespaced. vm_compute. reflexivity.
  - reflexivity.
  - refine (demo_ok_pair (demo_delete SandboxClaimGVR "c") _). vm_compute. reflexivity.
  - vm_compute. reflexivity.
  - vm_compute. reflexivity.
  - split; [reflexivity|intros info _; reflexivity].
Defined.
