(* ===== verification/Pvc.v ===== *)
(** [internal/reconciler/pvc.go]: volume claims backed by docker volumes, and
    the naming helpers the sandbox reconciler shares with it ([nameHash] of
    sandbox.go). *)

From S2P Require Import Prelude GoStrings K8s Apis Store StoreFacts StoreSpec Core Driver Build.
From S2P Require Import Reconciler.
From Stdlib Require Import Ascii.
Local Open Scope string_scope.

(** ** nameHash: FNV-1a on 32 bits *)

Definition fnv_offset : Z := 2166136261.
Definition fnv_prime : Z := 16777619.

Definition fnv1a (s : string) : Z :=
  foldl (λ h c, wrap_u32 (Z.lxor h (byte_val c) * fnv_prime)) fnv_offset (chars s).

Definition nameHash (name : string) : string := hex08 (fnv1a name).

Definition sandboxNameHashLabel : string := "agents.x-k8s.io/sandbox-name-hash".
Definition nameHashSelector (name : string) : string :=
  sandboxNameHashLabel +:+ "=" +:+ nameHash name.

Definition ClaimPending : string := "Pending".
Definition ClaimBound : string := "Bound".

Section pvc.
Context {U P D : Type} `{UnstructuredLaws U} `{Codec U} `{Persister P}.
Context `{Oracle} `{GoRuntime} `{!Converter U} `{Driver D}.
#[local] Notation World := (world U P D).
Implicit Types (w : World) (u : U).

Definition pvc_status (pvc : PersistentVolumeClaim) (phase : string) : PVCStatus :=
  if decide (phase = ClaimBound)
  then mkPVCStatus phase (pvc_AccessModes pvc) (pvc_StorageRequest pvc)
  else mkPVCStatus phase [] None.

(** Skipped when the phase is already right. *)
Definition writePVCStatus u (phase : string) w : World * res rec_error () :=
  if decide (nested_string (StatusOf u) ["phase"] = phase) then (w, Ok ())
  else match FromUnstructured u : option PersistentVolumeClaim with
       | None => (w, Err RConvert)
       | Some pvc => writeStatus PVCGVR u (pvc_status pvc phase) w
       end.

Definition reconcilePVC (ns name : string) w : World * res rec_error Result :=
  match Get PVCGVR ns name (w_store w) with
  | Err e => (w, if IsNotFound e then Ok no_requeue else Err (RApi e))
  | Ok u =>
      let '(w, r) := drv (EnsureVolume (mkVolumeSpec (VolumeName ns name) ns name ∅)) w in
      match r with
      | Err e => ((writePVCStatus u ClaimPending w).1, Err (RDriver e))
      | Ok _ =>
          let '(w, r) := writePVCStatus u ClaimBound w in
          (w, (λ _, no_requeue) <$> r)
      end
  end.

(** Create-only; every error is logged and dropped. *)
Definition ensureVCTPVCObject (sbU : U) (vct : PVCTemplate) (pvcName : string) w : World :=
  let labels := <[sandboxNameHashLabel := nameHash (GetName sbU)]> (vct_Labels vct) in
  match NewPVC (mkNewMeta (GetNamespace sbU) pvcName "" labels (vct_Annotations vct)
                  [controllerRef sbU "agents.x-k8s.io/v1beta1" "Sandbox"]) (vct_Spec vct) with
  | None => w
  | Some pu => (sto (Create PVCGVR pu) w).1
  end.
End pvc.
