(* ===== verification/Sandbox.v ===== *)
(** [internal/reconciler/sandbox.go]: the Sandbox reconciler. *)

From S2P Require Import Prelude GoStrings K8s Apis Store StoreFacts Patch StoreSpec Core Driver.
From S2P Require Import Mapping Build Reconciler Pvc.
Local Open Scope string_scope.

(** ** Constants of the sandbox API *)

Definition CondReady : string := "Ready".
Definition CondSuspended : string := "Suspended".
Definition CondFinished : string := "Finished".
Definition ReasonDependenciesReady : string := "DependenciesReady".
Definition ReasonDependenciesNotReady : string := "DependenciesNotReady".
Definition ReasonSuspended : string := "SandboxSuspended".
Definition ReasonSuspendedPodTerminated : string := "PodTerminated".
Definition ReasonSuspendedPodNotTerminated : string := "PodNotTerminated".
Definition ReasonPodSucceeded : string := "PodSucceeded".
Definition ReasonPodFailed : string := "PodFailed".
Definition ReasonExpired : string := "SandboxExpired".
Definition ShutdownPolicyDelete : string := "Delete".
Definition ShutdownPolicyRetain : string := "Retain".
Definition SandboxPodNameAnnotation : string := "agents.x-k8s.io/pod-name".

Definition readyRequeue : Z := 500 * millisecond.

(** ** Helpers *)

(** [{"metadata":{"annotations":{%q:%q}}}] *)
Definition annotation_patch (k v : string) : string :=
  "{" +:+ go_quote "metadata" +:+ ":{" +:+ go_quote "annotations" +:+ ":{" +:+
    go_quote k +:+ ":" +:+ go_quote v +:+ "}}}".

Definition podServerPort (podSpec : PodSpec) (def : Z) : Z :=
  match Containers podSpec with
  | c :: _ => match list_find (λ p, (0 < p)%Z) (co_Ports c) with
              | Some (_, p) => p
              | None => def
              end
  | [] => def
  end.

Definition with_volumes (vs : list Volume) (p : PodSpec) : PodSpec :=
  mkPodSpec (Containers p) vs (PodSecurityContext p) (DNSPolicy p) (DNSNameservers p)
    (AutomountServiceAccountToken p).

Definition injectPodVolume (podSpec : PodSpec) (volName pvc : string) : PodSpec :=
  let v := mkVolume volName (Some (mkPVCSource pvc false)) None in
  with_volumes
    (match list_find (λ x, vo_Name x = volName) (Volumes podSpec) with
     | Some (i, _) => <[i := v]> (Volumes podSpec)
     | None => (Volumes podSpec ++ [v])%list
     end) podSpec.

Definition maxDur (a b : Z) : Z := if (b <? a)%Z then a else b.

Definition expiryRequeue (wall : Z) (sb : Sandbox) : Result :=
  match sb_ShutdownTime sb with
  | Some exp =>
      let d := Until wall exp in
      mkResult (maxDur (if (d <? 0)%Z then 0 else d) second)
  | None => no_requeue
  end.

Section status.
Context `{ConditionLib}.

Definition conds_only (l : list Condition) : SandboxStatus := mkSandboxStatus l [] "" "" "" "".

Definition gen (sb : Sandbox) : Z := m_Generation (sb_Meta sb).

(** The status of a suspended sandbox. *)
Definition suspended_status (sb : Sandbox) (podGone : bool) (now : Z) : SandboxStatus :=
  let c := ss_Conditions (sb_Status sb) in
  let c := if podGone then
      setCond (setCond c CondSuspended ConditionTrue ReasonSuspendedPodTerminated
                 "Pod has been terminated. Sandbox is not operational." (gen sb) now)
        CondReady ConditionFalse ReasonSuspended "Sandbox is suspended" (gen sb) now
    else
      setCond (setCond c CondSuspended ConditionFalse ReasonSuspendedPodNotTerminated
                 "Pod has not been terminated. Sandbox is operational." (gen sb) now)
        CondReady ConditionFalse ReasonSuspended "Sandbox is suspending" (gen sb) now in
  conds_only (RemoveStatusCondition c CondFinished).

(** The status of a sandbox whose container is [info]; [probe] is the outcome
    of the health check, made when a host port is known. *)
Definition running_status (r : Reconcilers) (sb : Sandbox) (info : ContainerInfo)
  (serverPort : Z) (probe : bool) (now : Z) : SandboxStatus :=
  let name := m_Name (sb_Meta sb) in
  let ns := m_Namespace (sb_Meta sb) in
  let c := RemoveStatusCondition (ss_Conditions (sb_Status sb)) CondSuspended in
  let st :=
    if decide (ci_State info = "exited" ∨ ci_State info = "dead") then
      let '(reason, msg) :=
        if decide (ci_ExitCode info = 0%Z) then (ReasonPodSucceeded, "Pod completed successfully")
        else (ReasonPodFailed, "Pod failed (exit " +:+ itoa (ci_ExitCode info) +:+ ")") in
      conds_only (setCond (setCond c CondFinished ConditionTrue reason msg (gen sb) now)
                    CondReady ConditionFalse reason msg (gen sb) now)
    else if decide (ci_State info = "running") then
      let c := RemoveStatusCondition c CondFinished in
      let hostPort := default 0%Z (ci_PortMap info !! serverPort) in
      let ipOK := bool_decide (ci_IPAddress info ≠ "") in
      let ok := bool_decide (hostPort ≠ 0%Z) && probe && ipOK in
      mkSandboxStatus
        (if ok then setCond c CondReady ConditionTrue ReasonDependenciesReady "Pod is Ready" (gen sb) now
         else setCond c CondReady ConditionFalse ReasonDependenciesNotReady
                "Pod is Running but not Ready" (gen sb) now)
        (if ipOK then [ci_IPAddress info] else []) (nodeName r) (nameHashSelector name) "" ""
    else
      conds_only (setCond c CondReady ConditionFalse ReasonDependenciesNotReady
                    ("Pod exists with phase: " +:+ ci_State info) (gen sb) now) in
  if default false (bp_Service (sb_Blueprint sb)) then
    mkSandboxStatus (ss_Conditions st) (ss_PodIPs st) (ss_NodeName st) (ss_LabelSelector st)
      name (name +:+ "." +:+ ns +:+ ".svc." +:+ clusterDomain r)
  else st.

Definition running_requeue (wall : Z) (sb : Sandbox) (conds : list Condition) : Result :=
  let res := expiryRequeue wall sb in
  if negb (IsStatusConditionTrue conds CondReady) &&
     negb (IsStatusConditionPresentAndEqual conds CondFinished ConditionTrue) &&
     ((RequeueAfter res =? 0) || (readyRequeue <? RequeueAfter res))%Z
  then mkResult readyRequeue else res.
End status.

Section sandbox.
Context {U P D : Type} `{UnstructuredLaws U} `{Codec U} `{Persister P}.
Context `{Oracle} `{GoRuntime} `{PatchLib} `{!Converter U} `{Driver D} `{ConditionLib}.
Context (r : Reconcilers).
#[local] Notation World := (world U P D).
Implicit Types (w : World) (u : U).

(** An owner that no longer exists, or exists under another uid. *)
Definition orphan_ref u (s : Store U P) (ref : OwnerReference) : bool :=
  let check g :=
    match Get g (GetNamespace u) (or_Name ref) s with
    | Err e => IsNotFound e
    | Ok owner => bool_decide (or_UID ref ≠ "" ∧ GetUID owner ≠ or_UID ref)
    end in
  is_controller ref &&
  (if decide (or_Kind ref = "SandboxClaim") then check SandboxClaimGVR
   else if decide (or_Kind ref = "SandboxWarmPool") then check WarmPoolGVR
   else false).

Definition orphaned u w : bool := existsb (orphan_ref u (w_store w)) (GetOwnerReferences u).

Definition failReady u (sb : Sandbox) (msg : string) w : World * Result :=
  let c := setCond (ss_Conditions (sb_Status sb)) CondReady ConditionFalse "ReconcilerError"
             ("Error seen: " +:+ msg) (gen sb) (w_now w) in
  ((writeStatus SandboxGVR u (conds_only c) w).1, mkResult (5 * second)).

(** [Store.Delete], where a missing object is not an error. *)
Definition delete_sandbox ns name w : World * res rec_error Result :=
  let '(w, e) := Delete SandboxGVR ns name w in
  (w, match e with
      | Err e => if IsNotFound e then Ok no_requeue else Err (RApi e)
      | Ok _ => Ok no_requeue
      end).

Definition handleSandboxExpiry u (sb : Sandbox) w : World * res rec_error Result :=
  let ns := m_Namespace (sb_Meta sb) in
  let name := m_Name (sb_Meta sb) in
  let '(w, i) := drv (InspectSandbox ns name) w in
  let w := match i with Ok info => (drv (RemoveContainer (ci_ID info)) w).1 | Err _ => w end in
  if decide (default ShutdownPolicyRetain (sb_ShutdownPolicy sb) = ShutdownPolicyDelete)
  then delete_sandbox ns name w
  else
    let c := setCond (ss_Conditions (sb_Status sb)) CondReady ConditionFalse ReasonExpired
               "Sandbox has expired" (gen sb) (w_now w) in
    let '(w, e) := writeStatus SandboxGVR u (conds_only c) w in
    (w, (λ _, no_requeue) <$> e).

Definition reconcileSuspended u (sb : Sandbox) w : World * res rec_error Result :=
  let '(w, i) := drv (InspectSandbox (m_Namespace (sb_Meta sb)) (m_Name (sb_Meta sb))) w in
  let '(w, podGone) :=
    match i with
    | Ok info =>
        let w := (drv (StopContainer (ci_ID info)) w).1 in
        ((drv (RemoveContainer (ci_ID info)) w).1, true)
    | Err ErrNotFound => (w, true)
    | Err _ => (w, false)
    end in
  let '(w, e) := writeStatus SandboxGVR u (suspended_status sb podGone (w_now w)) w in
  (w, (λ _, expiryRequeue (w_wall w) sb) <$> e).

Definition ensurePodNameAnnotation u (podName : string) w : World :=
  if decide (default "" (GetAnnotations u !! SandboxPodNameAnnotation) = podName) then w
  else (sto (Patch SandboxGVR (GetNamespace u) (GetName u) MergePatchType
               (annotation_patch SandboxPodNameAnnotation podName) false) w).1.

Definition ensureImage (image : string) w : World * res driver_error () :=
  let '(w, e) := drv (EnsureImage image PullIfNotPresent) w in
  match e with
  | Ok _ => (w, Ok ())
  | Err err =>
      if bool_decide (image = RuntimeImage r) && bool_decide (RuntimeBuildContext r ≠ "") then
        match BuildRuntimeImage with
        | Some b =>
            let '(w, be) := drv (b image (RuntimeBuildContext r)) w in
            (w, match be with Ok _ => Ok () | Err _ => Err err end)
        | None => (w, Err err)
        end
      else (w, Err err)
  end.

(** The loop over [volumeClaimTemplates]. *)
Definition vct_step u (name : string) (acc : World * PodSpec) (vct : PVCTemplate) : World * PodSpec :=
  let pvcName := vct_Name vct +:+ "-" +:+ name in
  (ensureVCTPVCObject u vct pvcName acc.1, injectPodVolume acc.2 (vct_Name vct) pvcName).

(** The loop over the pod's volumes: [Some] is an early return. *)
Fixpoint back_volumes u (sb : Sandbox) (vols : list Volume) w
  : World * option (res rec_error Result) :=
  match vols with
  | [] => (w, None)
  | v :: vols' =>
      match vo_PersistentVolumeClaim v with
      | None => back_volumes u sb vols' w
      | Some src =>
          let ns := m_Namespace (sb_Meta sb) in
          let claim := ps_ClaimName src in
          match Get PVCGVR ns claim (w_store w) with
          | Err e =>
              if IsNotFound e then
                let c := setCond (ss_Conditions (sb_Status sb)) CondReady ConditionFalse
                  ReasonDependenciesNotReady
                  ("persistentvolumeclaim " +:+ go_quote claim +:+ " not found") (gen sb) (w_now w) in
                let '(w, e) := writeStatus SandboxGVR u (conds_only c) w in
                (w, Some ((λ _, mkResult readyRequeue) <$> e))
              else (w, Some (Err (RApi e)))
          | Ok _ =>
              let '(w, e) := drv (EnsureVolume (mkVolumeSpec (VolumeName ns claim) ns claim ∅)) w in
              match e with
              | Err e => (w, Some (Err (RDriver e)))
              | Ok _ => back_volumes u sb vols' w
              end
          end
      end
  end.

Inductive container_outcome :=
| Have (info : ContainerInfo)
| Fatal (msg : string)
| Failed (e : driver_error).

(** The mapping of the pod; its warnings are logged. *)
Definition container_spec (sb : Sandbox) (podSpec : PodSpec) : res MapError SandboxContainerSpec :=
  (MapPodSpec podSpec
     (mkMapMeta (m_Namespace (sb_Meta sb)) (m_Name (sb_Meta sb)) (m_UID (sb_Meta sb))
        (podServerPort podSpec (serverPort r)) ∅ false) (serverPort r)).1.

(** Inspect, or create when absent. *)
Definition get_container (sb : Sandbox) (podSpec : PodSpec) w : World * container_outcome :=
  let ns := m_Namespace (sb_Meta sb) in
  let name := m_Name (sb_Meta sb) in
  let '(w, i) := drv (InspectSandbox ns name) w in
  match i with
  | Ok info => (w, Have info)
  | Err ErrNotFound =>
      match container_spec sb podSpec with
      | Err e => (w, Fatal (map_msg e))
      | Ok spec =>
          let '(w, c) := drv (CreateSandboxContainer spec) w in
          (w, match c with Ok info => Have info | Err e => Failed e end)
      end
  | Err e => (w, Failed e)
  end.

(** The health check, made only for a running container with a host port. *)
Definition probe_container (info : ContainerInfo) (port : Z) w : World * bool :=
  let hostPort := default 0%Z (ci_PortMap info !! port) in
  if bool_decide (ci_State info = "running") && bool_decide (hostPort ≠ 0%Z) then
    let '(w, e) := drv (ProbeRuntime hostPort) w in (w, is_ok e)
  else (w, false).

Definition finishRunning u (sb : Sandbox) (podSpec : PodSpec) (info : ContainerInfo) w
  : World * res rec_error Result :=
  let w := ensurePodNameAnnotation u (m_Name (sb_Meta sb)) w in
  let port := podServerPort podSpec (serverPort r) in
  let '(w, probe) := probe_container info port w in
  let st := running_status r sb info port probe (w_now w) in
  let '(w, e) := writeStatus SandboxGVR u st w in
  (w, (λ _, running_requeue (w_wall w) sb (ss_Conditions st)) <$> e).

Definition reconcileRunning u (sb : Sandbox) w : World * res rec_error Result :=
  let podSpec := bp_PodSpec (sb_Blueprint sb) in
  if decide (Containers podSpec = []) then
    let '(w, res) := failReady u sb "Pod spec has no containers" w in (w, Ok res)
  else
    let '(w, podSpec) := foldl (vct_step u (m_Name (sb_Meta sb))) (w, podSpec) (bp_VolumeClaimTemplates (sb_Blueprint sb)) in
    let '(w, early) := back_volumes u sb (Volumes podSpec) w in
    match early with
    | Some out => (w, out)
    | None =>
        let image := match Containers podSpec with c :: _ => co_Image c | [] => "" end in
        let '(w, e) := ensureImage image w in
        match e with
        | Err e => let '(w, res) := failReady u sb ("image unavailable: " +:+ driver_msg e) w in (w, Ok res)
        | Ok _ =>
            let '(w, c) := get_container sb podSpec w in
            match c with
            | Fatal msg => let '(w, res) := failReady u sb msg w in (w, Ok res)
            | Failed e => (w, Err (RDriver e))
            | Have info => finishRunning u sb podSpec info w
            end
        end
    end.

Definition reconcileSandbox (ns name : string) w : World * res rec_error Result :=
  match Get SandboxGVR ns name (w_store w) with
  | Err e => (w, if IsNotFound e then Ok no_requeue else Err (RApi e))
  | Ok u =>
      match FromUnstructured u : option Sandbox with
      | None => (w, Err RConvert)
      | Some sb =>
          if orphaned u w then delete_sandbox ns name w
          else if match sb_ShutdownTime sb with
                  | Some exp => negb (w_now w <? exp)%Z | None => false end
          then handleSandboxExpiry u sb w
          else if decide (sb_OperatingMode sb = OperatingModeSuspended)
          then reconcileSuspended u sb w
          else reconcileRunning u sb w
      end
  end.
End sandbox.
