(* ===== verification/Claim.v ===== *)
(** [internal/reconciler/claim.go]: the SandboxClaim reconciler.

    A claim is bound to a sandbox: one it already has, an idle one adopted from
    the warm pool, or a new one.  Adoption reads a sandbox and writes it back
    without holding the store's lock in between; [env] is what every other
    goroutine does to the world in that window, one step per attempt. *)

From S2P Require Import Prelude GoStrings K8s Apis Store StoreFacts Patch StoreSpec Core Driver.
From S2P Require Import Build Reconciler Sandbox.
Local Open Scope string_scope.

(** ** Names of the sandbox API this file uses *)

Class SandboxAPI := {
  SandboxWarmPoolLabel : string;
  SandboxTemplateRefHashLabel : string;
  SandboxLaunchTypeLabel : string;
  CreatedByLabel : string;
  SandboxLaunchTypeWarm : string;
  SandboxLaunchTypeCold : string;
  AssignedSandboxNameAnnotation : string;
}.

Definition claimIdentityLabel : string := "agents.x-k8s.io/claim-uid".
Definition ClaimExpiredReason : string := "ClaimExpired".
Definition ShutdownPolicyDeleteForeground : string := "DeleteForeground".
Definition dependencyRequeue : Z := 60 * second.

(** Distinct keys. *)
Class SandboxAPILaws `{SandboxAPI} := {
  api_labels_nodup : NoDup [SandboxWarmPoolLabel; SandboxTemplateRefHashLabel;
                            SandboxLaunchTypeLabel; CreatedByLabel; claimIdentityLabel];
}.

(** The text of errors made outside the program. *)
Class ErrorText := {
  api_text : api_error → string;
  convert_text : string;
}.

(** [err.Error()] for the errors of [getOrCreateSandbox]. *)
Definition build_error_text `{ErrorText} (e : build_error) : string :=
  match e with
  | ErrEnvInjectionRejected policy =>
      "environment variable injection rejected by template policy (" +:+ go_quote policy +:+ ")"
  | EnvNoContainer name => "env targets container " +:+ go_quote name +:+ " which does not exist"
  | EnvAlreadySet env c =>
      "env " +:+ go_quote env +:+ " already set on container " +:+ go_quote c +:+
      " and policy is not Overrides"
  | ErrVCTRejected detail =>
      "volume claim template injection rejected by template policy" +:+ detail
  | ConvertError => convert_text
  | StoreError e => api_text e
  | NotControlled name =>
      "sandbox " +:+ go_quote name +:+ " exists but is not controlled by this claim"
  | Panicked => ""
  end.

Definition buildErrorReason (e : build_error) : string :=
  match e with
  | ErrEnvInjectionRejected _ => "EnvVarsInjectionRejected"
  | ErrVCTRejected _ => "VolumeClaimTemplatesError"
  | _ => "ReconcilerError"
  end.

(** ** Expiry *)

Section expiry.
Context `{ConditionLib}.

Definition claimExpired (claim : SandboxClaim) (now : Z) : bool :=
  match cl_Lifecycle claim with
  | None => false
  | Some lc =>
      match lc_ShutdownTime lc with
      | Some t => negb (now <? t)%Z
      | None => false
      end ||
      match lc_TTLSecondsAfterFinished lc with
      | Some ttl =>
          match FindStatusCondition (cs_Conditions (cl_Status claim)) CondFinished with
          | Some fc => bool_decide (cd_Status fc = ConditionTrue) &&
                       negb (now <? cd_LastTransitionTime fc + ttl * second)%Z
          | None => false
          end
      | None => false
      end
  end.

Definition claimLifecycleRequeue (claim : SandboxClaim) (wall : Z) : Z :=
  match cl_Lifecycle claim with
  | Some lc =>
      match lc_ShutdownTime lc with
      | Some t => let d := Until wall t in if (d <? 0)%Z then second else maxDur d second
      | None => 0
      end
  | None => 0
  end.

Definition with_conds (st : SandboxClaimStatus) (c : list Condition) : SandboxClaimStatus :=
  mkClaimStatus c (cs_SandboxName st) (cs_PodIPs st).

Definition claim_gen (claim : SandboxClaim) : Z := m_Generation (cl_Meta claim).

(** The status mirrored from the bound sandbox. *)
Definition mirrored_ready (claim : SandboxClaim) (sb : list Condition) (now : Z) : list Condition :=
  let c := cs_Conditions (cl_Status claim) in
  match FindStatusCondition sb CondReady with
  | Some rc =>
      let reason := if decide (cd_Status rc ≠ ConditionTrue ∧ cd_Reason rc = "")
                    then "SandboxNotReady" else cd_Reason rc in
      setCondRaw c "Ready" (cd_Status rc) reason (cd_Message rc) (claim_gen claim) now
  | None => setCondRaw c "Ready" ConditionFalse "SandboxNotReady" "Sandbox is not ready" (claim_gen claim) now
  end.

Definition mirrored (claim : SandboxClaim) (sb : list Condition) (now : Z) : list Condition :=
  let c := mirrored_ready claim sb now in
  match FindStatusCondition sb CondFinished with
  | Some fc => setCondRaw c "Finished" (cd_Status fc) (cd_Reason fc) (cd_Message fc) (claim_gen claim) now
  | None => RemoveStatusCondition c "Finished"
  end.

Definition claim_requeue (claim : SandboxClaim) (conds : list Condition) (wall : Z) : Result :=
  let res := if IsStatusConditionTrue conds "Ready" then 0%Z else readyRequeue in
  let rq := claimLifecycleRequeue claim wall in
  mkResult (if ((0 <? rq) && ((res =? 0) || (rq <? res)))%Z then rq else res).
End expiry.

(** ** Candidates *)

Section candidates.
Context {U : Type} `{Unstructured U} `{!Converter U} `{ConditionLib} `{GoRuntime}.

Definition is_candidate (poolName : string) (sb : U) : bool :=
  ownedBy sb "SandboxWarmPool" poolName && bool_decide (GetDeletionTimestamp sb = None).

Definition ready_first (a b : U) : bool := isSandboxReady a && negb (isSandboxReady b).

Context `{SandboxAPI}.

(** Ownership passes to the claim [u]. *)
Definition adopt_rewrite (u : U) (claim : SandboxClaim) (pick : U) : U :=
  let pick := SetOwnerReferences [controllerRef u ExtensionsGV "SandboxClaim"] pick in
  SetLabels (<[claimIdentityLabel := m_UID (cl_Meta claim)]>
               (<[SandboxLaunchTypeLabel := SandboxLaunchTypeWarm]>
                  (delete SandboxWarmPoolLabel (GetLabels pick)))) pick.
End candidates.

Section claim.
Context {U P D : Type} `{UnstructuredLaws U} `{Codec U} `{Persister P}.
Context `{Oracle} `{GoRuntime} `{PatchLib} `{!Converter U} `{Driver D} `{ConditionLib}.
Context `{SandboxAPI} `{ErrorText}.
#[local] Notation World := (world U P D).
(** The other goroutines, between the read and the write of an attempt. *)
Context (env : nat → World → World).
Implicit Types (w : World) (u : U) (claim : SandboxClaim).

(** One attempt: [None] is a conflict, to be retried on a fresh read. *)
Definition adopt_attempt u claim (poolName name : string) (i : nat) w : World * option (option U) :=
  match Get SandboxGVR (m_Namespace (cl_Meta claim)) name (w_store w) with
  | Err _ => (w, Some None)
  | Ok pick =>
      if negb (ownedBy pick "SandboxWarmPool" poolName) then (w, Some None)
      else
        let w := env i w in
        let '(w, r) := sto (Store.Update SandboxGVR (adopt_rewrite u claim pick) false) w in
        match r with
        | Ok updated => (w, Some (Some updated))
        | Err e => if IsConflict e then (w, None) else (w, Some None)
        end
  end.

Fixpoint adopt_loop u claim (poolName name : string) (fuel i : nat) w : World * option U :=
  match fuel with
  | 0 => (w, None)
  | S fuel =>
      match adopt_attempt u claim poolName name i w with
      | (w, Some r) => (w, r)
      | (w, None) => adopt_loop u claim poolName name fuel (S i) w
      end
  end.

Definition adopt_attempts : nat := 5.

Definition adoptWarmSandbox u claim (poolName : string) w : World * option U :=
  match List SandboxGVR (m_Namespace (cl_Meta claim)) (λ _, true) (w_store w) with
  | Err _ => (w, None)
  | Ok lr =>
      match sort_slice ready_first (filter (λ sb, is_candidate poolName sb = true) (lr_Items lr)) with
      | [] => (w, None)
      | c :: _ => adopt_loop u claim poolName (GetName c) adopt_attempts 0 w
      end
  end.

Definition force_cold claim : bool :=
  bool_decide (cl_Env claim ≠ []) || bool_decide (cl_VolumeClaimTemplates claim ≠ []).

(** The sandbox the claim's status names, when this claim controls it. *)
Definition existing_binding claim w : option U :=
  let existing := cs_SandboxName (cl_Status claim) in
  if decide (existing = "") then None
  else match Get SandboxGVR (m_Namespace (cl_Meta claim)) existing (w_store w) with
       | Ok sbU => if decide (controllerOwnerUID sbU = m_UID (cl_Meta claim)) then Some sbU else None
       | Err _ => None
       end.

Definition cold_labels claim : gmap string string :=
  <[SandboxLaunchTypeLabel := SandboxLaunchTypeCold]>
    (<[CreatedByLabel := "controller"]>
      {[claimIdentityLabel := m_UID (cl_Meta claim)]}).

Definition cold_create u claim (tmpl : SandboxTemplate) w : World * res build_error (U * bool) :=
  let ns := m_Namespace (cl_Meta claim) in
  let name := m_Name (cl_Meta claim) in
  match buildSandbox tmpl ns name "" (Some u) "SandboxClaim" (cold_labels claim)
          (cl_Env claim) (cl_VolumeClaimTemplates claim)
          (Some (cl_PodLabels claim, cl_PodAnnotations claim)) with
  | Err e => (w, Err e)
  | Ok sbU =>
      let '(w, r) := sto (Create SandboxGVR sbU) w in
      match r with
      | Ok created => (w, Ok (created, false))
      | Err e =>
          if IsAlreadyExists e then
            match Get SandboxGVR ns name (w_store w) with
            | Err ge => (w, Err (StoreError ge))
            | Ok got =>
                if decide (controllerOwnerUID got ≠ m_UID (cl_Meta claim))
                then (w, Err (NotControlled name))
                else (w, Ok (got, false))
            end
          else (w, Err (StoreError e))
      end
  end.

Definition getOrCreateSandbox u claim (tmpl : SandboxTemplate) (poolName : string) w
  : World * res build_error (U * bool) :=
  match existing_binding claim w with
  | Some sbU => (w, Ok (sbU, false))
  | None =>
      if force_cold claim then cold_create u claim tmpl w
      else
        match adoptWarmSandbox u claim poolName w with
        | (w, Some sbU) => (w, Ok (sbU, true))
        | (w, None) => cold_create u claim tmpl w
        end
  end.

(** Every error of the status write is dropped here. *)
Definition claimNotReady u claim (reason msg : string) w : World * Result :=
  let c := setCondRaw (cs_Conditions (cl_Status claim)) "Ready" ConditionFalse reason msg
             (claim_gen claim) (w_now w) in
  ((writeStatus SandboxClaimGVR u (with_conds (cl_Status claim) c) w).1, mkResult dependencyRequeue).

Definition handleClaimExpiry u claim w : World * res rec_error Result :=
  let ns := m_Namespace (cl_Meta claim) in
  let policy := match cl_Lifecycle claim with
                | Some lc => if decide (lc_ShutdownPolicy lc ≠ "") then lc_ShutdownPolicy lc
                             else ShutdownPolicyRetain
                | None => ShutdownPolicyRetain
                end in
  if decide (policy = ShutdownPolicyDelete ∨ policy = ShutdownPolicyDeleteForeground) then
    let '(w, r) := Delete SandboxClaimGVR ns (m_Name (cl_Meta claim)) w in
    (w, match r with
        | Err e => if IsNotFound e then Ok no_requeue else Err (RApi e)
        | Ok _ => Ok no_requeue
        end)
  else
    let w := match existing_binding claim w with
             | Some _ => (Delete SandboxGVR ns (cs_SandboxName (cl_Status claim)) w).1
             | None => w
             end in
    let c := setCondRaw (cs_Conditions (cl_Status claim)) "Ready" ConditionFalse ClaimExpiredReason
               "Sandbox cleanup initiated." (claim_gen claim) (w_now w) in
    let '(w, e) := writeStatus SandboxClaimGVR u (with_conds (cl_Status claim) c) w in
    (w, (λ _, no_requeue) <$> e).

(** Errors are logged and dropped. *)
Definition stampClaimSandboxAnnotation u (sbName : string) w : World :=
  (sto (Patch SandboxClaimGVR (GetNamespace u) (GetName u) MergePatchType
          (annotation_patch AssignedSandboxNameAnnotation sbName) false) w).1.

(** The bound sandbox's status; one that does not decode reads as empty. *)
Definition bound_status (sbU : U) : SandboxStatus :=
  match FromUnstructured sbU : option Sandbox with
  | Some sb => sb_Status sb
  | None => mkSandboxStatus [] [] "" "" "" ""
  end.

Definition mirror_sandbox u claim (sbU : U) (adopted : bool) w : World * res rec_error Result :=
  let w := if adopted then stampClaimSandboxAnnotation u (GetName sbU) w else w in
  let sb := bound_status sbU in
  let conds := mirrored claim (ss_Conditions sb) (w_now w) in
  let '(w, e) := writeStatus SandboxClaimGVR u
                   (mkClaimStatus conds (GetName sbU) (ss_PodIPs sb)) w in
  (w, (λ _, claim_requeue claim conds (w_wall w)) <$> e).

(** The pool and the template behind a claim, or why they are missing. *)
Inductive resolution :=
| Resolved (tmpl : SandboxTemplate)
| Missing (reason msg : string)
| Unresolvable (e : rec_error).

Definition resolve_template (ns : string) claim w : resolution :=
  let poolName := cl_WarmPoolRef claim in
  match Get WarmPoolGVR ns poolName (w_store w) with
  | Err e => if IsNotFound e
             then Missing "WarmPoolNotFound" ("SandboxWarmPool " +:+ go_quote poolName +:+ " not found")
             else Unresolvable (RApi e)
  | Ok pu =>
      match FromUnstructured pu : option SandboxWarmPool with
      | None => Unresolvable RConvert
      | Some pool =>
          let tmplName := wp_TemplateRef pool in
          match Get TemplateGVR ns tmplName (w_store w) with
          | Err e => if IsNotFound e
                     then Missing "TemplateNotFound" ("SandboxTemplate " +:+ go_quote tmplName +:+ " not found")
                     else Unresolvable (RApi e)
          | Ok tu =>
              match FromUnstructured tu : option SandboxTemplate with
              | None => Unresolvable RConvert
              | Some tmpl => Resolved tmpl
              end
          end
      end
  end.

Definition reconcileClaim (ns name : string) w : World * res rec_error Result :=
  match Get SandboxClaimGVR ns name (w_store w) with
  | Err e => (w, if IsNotFound e then Ok no_requeue else Err (RApi e))
  | Ok u =>
      match FromUnstructured u : option SandboxClaim with
      | None => (w, Err RConvert)
      | Some claim =>
          if claimExpired claim (w_now w) then handleClaimExpiry u claim w
          else
            match resolve_template ns claim w with
            | Missing reason msg => let '(w, res) := claimNotReady u claim reason msg w in (w, Ok res)
            | Unresolvable e => (w, Err e)
            | Resolved tmpl =>
                let '(w, r) := getOrCreateSandbox u claim tmpl (cl_WarmPoolRef claim) w in
                match r with
                | Err Panicked => (w, Err RPanic)
                | Err e =>
                    let '(w, res) := claimNotReady u claim (buildErrorReason e)
                                       ("Error seen: " +:+ build_error_text e) w in (w, Ok res)
                | Ok (sbU, adopted) => mirror_sandbox u claim sbU adopted w
                end
            end
      end
  end.
End claim.
