(* ===== verification/SandboxSpec.v ===== *)
(** What the Sandbox reconciler guarantees: the conditions it reports, the
    container and volumes it leaves, and when it asks to run again. *)

From S2P Require Import Prelude GoStrings K8s Apis Store StoreFacts Patch Persist Concrete.
From S2P Require Import StoreSpec Core Driver Mapping Build Reconciler ConcreteApi Cascade Pvc.
From S2P Require Import Sandbox.
Local Open Scope string_scope.

(** ** Conditions *)

Section conditions.
Context `{ConditionLaws}.

Lemma cond_true_set l t st reason msg g now :
  IsStatusConditionTrue (setCond l t st reason msg g now) t = bool_decide (st = ConditionTrue).
Proof.
  unfold IsStatusConditionTrue, IsStatusConditionPresentAndEqual, setCond.
  destruct (find_set_eq l (mkCondition t st reason msg g now)) as (at_ & E & _).
  simpl in E. by rewrite E.
Qed.

Lemma find_setCond_ne l t t' st reason msg g now :
  t ≠ t' → FindStatusCondition (setCond l t' st reason msg g now) t = FindStatusCondition l t.
Proof. intros Hne. by apply find_set_ne. Qed.

Lemma cond_true_ne l t t' st reason msg g now :
  t ≠ t' → IsStatusConditionTrue (setCond l t' st reason msg g now) t = IsStatusConditionTrue l t.
Proof.
  intros Hne. unfold IsStatusConditionTrue, IsStatusConditionPresentAndEqual.
  by rewrite find_setCond_ne.
Qed.

Lemma cond_true_removed l t : IsStatusConditionTrue (RemoveStatusCondition l t) t = false.
Proof. unfold IsStatusConditionTrue, IsStatusConditionPresentAndEqual. by rewrite find_remove_eq. Qed.

(** Reading conditions of a status built by sets and removes. *)
Ltac cond_simpl :=
  repeat first
    [ rewrite cond_true_set | rewrite cond_true_ne by discriminate
    | rewrite find_setCond_ne by discriminate | rewrite find_remove_eq
    | rewrite find_remove_ne by discriminate | rewrite cond_true_removed ].

Ltac solve_status :=
  repeat split; intros; destruct_and?; cond_simpl;
  rewrite ?cond_true_set in *; try done; try congruence;
  match goal with H : _ ∨ _ |- _ => destruct H; congruence | _ => idtac end.

(** The reported conditions: Ready is true exactly when the container
    runs, publishes the server port, answers the probe and has an address;
    Finished is true when it exited and absent while it runs; Suspended is
    never present; and an address is reported only by a running container. *)
Theorem running_status_spec r sb info port probe now :
  let c := ss_Conditions (running_status r sb info port probe now) in
  (IsStatusConditionTrue c CondReady = true ↔
     ci_State info = "running" ∧ default 0%Z (ci_PortMap info !! port) ≠ 0%Z ∧
     probe = true ∧ ci_IPAddress info ≠ "") ∧
  (ci_State info = "exited" ∨ ci_State info = "dead" → IsStatusConditionTrue c CondFinished = true) ∧
  (ci_State info = "running" → FindStatusCondition c CondFinished = None) ∧
  FindStatusCondition c CondSuspended = None ∧
  ss_PodIPs (running_status r sb info port probe now) =
    (if decide (ci_State info = "running" ∧ ci_IPAddress info ≠ "") then [ci_IPAddress info] else []).
Proof.
  unfold running_status.
  assert (Hsvc : ∀ (b : bool) (st : SandboxStatus) n f,
    ss_Conditions (if b then mkSandboxStatus (ss_Conditions st) (ss_PodIPs st) (ss_NodeName st)
      (ss_LabelSelector st) n f else st) = ss_Conditions st ∧
    ss_PodIPs (if b then mkSandboxStatus (ss_Conditions st) (ss_PodIPs st) (ss_NodeName st)
      (ss_LabelSelector st) n f else st) = ss_PodIPs st) by (by intros []).
  cbv zeta. rewrite !(proj1 (Hsvc _ _ _ _)), !(proj2 (Hsvc _ _ _ _)). clear Hsvc.
  destruct (decide (ci_State info = "exited" ∨ ci_State info = "dead")) as [He|He].
  { assert (ci_State info ≠ "running") as Hnr by (by destruct He as [-> | ->]).
    rewrite (decide_False (P := _ ∧ _)) by naive_solver.
    case_decide; simpl; solve_status. }
  destruct (decide (ci_State info = "running")) as [Hr|Hr].
  - cbn [ss_PodIPs ss_Conditions].
    destruct (decide (default 0%Z (ci_PortMap info !! port) ≠ 0%Z)) as [Hp|Hp];
      rewrite ?(bool_decide_true _ Hp), ?(bool_decide_false _ Hp);
      destruct (decide (ci_IPAddress info ≠ "")) as [Hi|Hi];
      rewrite ?(bool_decide_true _ Hi), ?(bool_decide_false _ Hi);
      (destruct (decide (ci_State info = "running" ∧ ci_IPAddress info ≠ "")); [try tauto|try tauto]);
      destruct probe; simpl; solve_status.
  - rewrite (decide_False (P := _ ∧ _)) by naive_solver.
    simpl. solve_status.
Qed.

(** When to run again: while the sandbox is neither Ready nor Finished
    the key comes back within half a second, and a sandbox with a shutdown time
    always comes back, no later than one second after that time. *)
Theorem running_requeue_spec wall sb c :
  let d := RequeueAfter (running_requeue wall sb c) in
  (IsStatusConditionTrue c CondReady = false → IsStatusConditionTrue c CondFinished = false →
     0 < d ≤ readyRequeue)%Z ∧
  (∀ exp, sb_ShutdownTime sb = Some exp →
     0 < d ∧ (d ≤ second ∨ wall + d ≤ exp))%Z.
Proof.
  unfold running_requeue, expiryRequeue, Until, clamp_i64, readyRequeue, maxDur, second, millisecond.
  change (IsStatusConditionPresentAndEqual c CondFinished ConditionTrue)
    with (IsStatusConditionTrue c CondFinished).
  destruct (IsStatusConditionTrue c CondReady), (IsStatusConditionTrue c CondFinished),
    (sb_ShutdownTime sb) as [exp|]; cbn [RequeueAfter no_requeue negb andb orb];
    repeat match goal with |- context [(?a <? ?b)%Z] => destruct (Z.ltb_spec a b)
                         | |- context [(?a =? ?b)%Z] => destruct (Z.eqb_spec a b) end;
    cbn [RequeueAfter orb andb]; (split; [intros; try done; lia|intros ? ?; simplify_eq; lia]).
Qed.
End conditions.

(** ** Containers and volumes *)

Section worlds.
Context {U P D : Type} `{UnstructuredLaws U} `{Codec U} `{Persister P}.
Context `{Oracle} `{GoRuntime} `{PatchLib} `{!Converter U} `{ConditionLib}.
Context `{Driver D} `{DriverView D} `{!DriverLaws D}.
Context (r : Reconcilers).
#[local] Notation World := (world U P D).
Implicit Types (w : World) (u : U) (sb : Sandbox).

(** Steps that do not touch the backend, or touch neither containers nor
    existing volumes. *)
Lemma sto_drv {A} (f : Store U P → Store U P * A) w : w_drv (sto f w).1 = w_drv w.
Proof. unfold sto. by destruct (f (w_store w)). Qed.

Lemma writeStatus_drv {T} `{!StatusMap T} g u (st : T) w : w_drv (writeStatus g u st w).1 = w_drv w.
Proof.
  unfold writeStatus. destruct (setStatus u st); [|done].
  pose proof (sto_drv (Store.Update g (SetResourceVersion "" a) true) w) as E.
  by destruct (sto _ w) as [w1 x].
Qed.

Lemma ensureVCT_drv u vct n w : w_drv (ensureVCTPVCObject u vct n w) = w_drv w.
Proof. unfold ensureVCTPVCObject. destruct (NewPVC _ _); [|done]. apply sto_drv. Qed.

Lemma podName_drv u n w : w_drv (ensurePodNameAnnotation u n w) = w_drv w.
Proof. unfold ensurePodNameAnnotation. case_decide; [done|]. apply sto_drv. Qed.

Lemma vct_fold_drv u n l (acc : World * PodSpec) : w_drv (foldl (vct_step u n) acc l).1 = w_drv acc.1.
Proof.
  revert acc; induction l as [|v l IH]; intros acc; simpl; [done|].
  rewrite IH. simpl. by rewrite ensureVCT_drv.
Qed.

Record quiet (d d' : D) : Prop := {
  q_containers : container_of d' = container_of d;
  q_volumes : ∀ n, is_Some (volume_of d n) → is_Some (volume_of d' n);
}.

Lemma quiet_refl d : quiet d d.
Proof. by constructor. Qed.
Lemma quiet_trans d1 d2 d3 : quiet d1 d2 → quiet d2 d3 → quiet d1 d3.
Proof. intros [A B] [A' B']. constructor; [congruence|auto]. Qed.

Lemma drv_quiet {A} (f : D → D * A) w :
  (∀ d, container_of (f d).1 = container_of d) → (∀ d, volume_of (f d).1 = volume_of d) →
  quiet (w_drv w) (w_drv (drv f w).1).
Proof.
  intros Hc Hv. unfold drv. specialize (Hc (w_drv w)). specialize (Hv (w_drv w)).
  destruct (f (w_drv w)) as [d a]. simpl in *. constructor; [done|]. intros n. by rewrite Hv.
Qed.

Lemma ensureImage_quiet image w : quiet (w_drv w) (w_drv (ensureImage r image w).1).
Proof.
  unfold ensureImage.
  pose proof (drv_quiet (EnsureImage image PullIfNotPresent) w
    (ensure_image_containers _ _) (ensure_image_volumes _ _)) as Hq.
  destruct (drv (EnsureImage _ _) w) as [w1 [x|e]]; simpl in Hq; [done|].
  destruct (_ && _); [|done]. destruct BuildRuntimeImage as [b|] eqn:Hb; [|done].
  pose proof (drv_quiet (b image (RuntimeBuildContext r)) w1
    (λ d, build_image_containers _ _ _ _ Hb) (λ d, build_image_volumes _ _ _ _ Hb)) as Hq2.
  destruct (drv (b _ _) w1) as [w2 be]. simpl in *. by eapply quiet_trans.
Qed.

Lemma probe_quiet info port w : quiet (w_drv w) (w_drv (probe_container info port w).1).
Proof.
  unfold probe_container. destruct (_ && _); [|apply quiet_refl].
  pose proof (drv_quiet (ProbeRuntime (default 0%Z (ci_PortMap info !! port))) w
    (probe_containers _) (probe_volumes _)) as Hq.
  by destruct (drv (ProbeRuntime _) w).
Qed.

Lemma ensure_volume_quiet v d : quiet d (EnsureVolume v d).1 ∨
  (container_of (EnsureVolume v d).1 = container_of d ∧ volume_of (EnsureVolume v d).1 (v_Name v) = None).
Proof.
  destruct (volume_of (EnsureVolume v d).1 (v_Name v)) eqn:E; [left|by right; rewrite ensure_volume_containers].
  constructor; [apply ensure_volume_containers|]. intros n Hn.
  destruct (decide (n = v_Name v)) as [->|Hne]; [by eexists|]. by apply ensure_volume_ne.
Qed.

(** The volumes the pod's claims map to are there after the loop. *)
Lemma back_volumes_done u sb vols w w' :
  back_volumes u sb vols w = (w', None) →
  w_store w' = w_store w ∧ quiet (w_drv w) (w_drv w') ∧
  ∀ v src, v ∈ vols → vo_PersistentVolumeClaim v = Some src →
    is_ok (Get PVCGVR (m_Namespace (sb_Meta sb)) (ps_ClaimName src) (w_store w)) = true ∧
    is_Some (volume_of (w_drv w') (VolumeName (m_Namespace (sb_Meta sb)) (ps_ClaimName src))).
Proof.
  revert w; induction vols as [|v vols IH]; intros w; simpl.
  { intros [= <-]. split_and!; [done|apply quiet_refl|by intros ? ? ?%not_elem_of_nil]. }
  destruct (vo_PersistentVolumeClaim v) as [src|] eqn:Hv.
  - set (ns := m_Namespace (sb_Meta sb)).
    destruct (Get PVCGVR ns (ps_ClaimName src) (w_store w)) as [pu|e] eqn:Hg.
    + set (vs := mkVolumeSpec (VolumeName ns (ps_ClaimName src)) ns (ps_ClaimName src) ∅).
      unfold drv. destruct (EnsureVolume vs (w_drv w)) as [d1 [x|e]] eqn:Ev; [|done].
      intros E. apply IH in E as (Es & Hq & Hall). simpl in Es.
      assert (volume_of d1 (v_Name vs) = Some vs) as Hvol.
      { pose proof (ensure_volume_ok vs (w_drv w) x) as Ho. rewrite Ev in Ho. by apply Ho. }
      assert (quiet (w_drv w) d1) as Hq1.
      { destruct (ensure_volume_quiet vs (w_drv w)) as [Hq1|[_ Hn]]; rewrite Ev in *; [done|].
        cbn [fst] in Hn. congruence. }
      split_and!; [done|by eapply quiet_trans|].
      intros v' src' [->|Hin]%elem_of_cons Hsrc.
      * assert (src' = src) as -> by congruence. fold ns. rewrite Hg. split; [done|].
        apply (q_volumes _ _ Hq). simpl. change (is_Some (volume_of d1 (v_Name vs))). by rewrite Hvol.
      * by apply (Hall v').
    + destruct (IsNotFound e); [|done].
      by destruct (writeStatus SandboxGVR u _ w) as [w1 [x|e']].
  - intros E. apply IH in E as (Es & Hq & Hall). split_and!; [done|done|].
    intros v' src' [->|Hin]%elem_of_cons Hsrc; [congruence|]. by apply (Hall v').
Qed.

Lemma back_volumes_containers u sb vols w :
  container_of (w_drv (back_volumes u sb vols w).1) = container_of (w_drv w).
Proof.
  revert w; induction vols as [|v vols IH]; intros w; simpl; [done|].
  destruct (vo_PersistentVolumeClaim v) as [src|]; [|by apply IH].
  destruct (Get PVCGVR _ _ _) as [pu|e].
  - unfold drv. set (vs := mkVolumeSpec _ _ _ _). pose proof (ensure_volume_containers vs (w_drv w)) as E.
    destruct (EnsureVolume vs (w_drv w)) as [d1 [x|e]]; simpl in *; [by rewrite IH|done].
  - destruct (IsNotFound e); [|done].
    match goal with |- context [writeStatus SandboxGVR u ?st w] =>
      pose proof (writeStatus_drv SandboxGVR u st w) as E;
      destruct (writeStatus SandboxGVR u st w) as [w1 x] end.
    simpl in *. by rewrite E.
Qed.

Lemma finish_containers u sb pod info w :
  quiet (w_drv w) (w_drv (finishRunning r u sb pod info w).1).
Proof.
  unfold finishRunning.
  pose proof (probe_quiet info (podServerPort pod (serverPort r))
    (ensurePodNameAnnotation u (m_Name (sb_Meta sb)) w)) as Hq.
  rewrite podName_drv in Hq. destruct (probe_container _ _ _) as [w1 probe].
  match goal with |- context [writeStatus SandboxGVR u ?st w1] =>
    pose proof (writeStatus_drv SandboxGVR u st w1) as E;
    destruct (writeStatus SandboxGVR u st w1) as [w2 x] end.
  simpl in *. by rewrite E.
Qed.

Lemma failReady_drv u sb msg w : w_drv (failReady u sb msg w).1 = w_drv w.
Proof. unfold failReady. apply writeStatus_drv. Qed.

(** The pod the reconciler runs: the blueprint's, with the claim templates'
    volumes. *)
Definition effective_pod u sb w : PodSpec :=
  (foldl (vct_step u (m_Name (sb_Meta sb))) (w, bp_PodSpec (sb_Blueprint sb))
     (bp_VolumeClaimTemplates (sb_Blueprint sb))).2.

(** What a pass over a sandbox with the container [c0] leaves behind. *)
Definition started sb pod (c0 : option ContainerInfo) (out : res rec_error Result) (d' : D) : Prop :=
  let ns := m_Namespace (sb_Meta sb) in
  let name := m_Name (sb_Meta sb) in
  match c0 with
  | Some info => container_of d' ns name = Some info
  | None => ∀ info, is_ok out = true → container_of d' ns name = Some info →
      ∃ spec d, container_spec r sb pod = Ok spec ∧ (CreateSandboxContainer spec d).2 = Ok info ∧
        ∀ v src, v ∈ Volumes pod → vo_PersistentVolumeClaim v = Some src →
          is_Some (volume_of d' (VolumeName ns (ps_ClaimName src)))
  end.

Lemma started_same sb pod c0 out d' :
  container_of d' (m_Namespace (sb_Meta sb)) (m_Name (sb_Meta sb)) = c0 → started sb pod c0 out d'.
Proof. unfold started. intros ->. destruct c0; [done|congruence]. Qed.

Lemma failReady_started u sb pod msg w c0 w' out :
  (let '(w, res) := failReady u sb msg w in (w, Ok res)) = (w', out) →
  container_of (w_drv w) (m_Namespace (sb_Meta sb)) (m_Name (sb_Meta sb)) = c0 → started sb pod c0 out (w_drv w').
Proof.
  intros E Hc. apply started_same. pose proof (failReady_drv u sb msg w) as Ed.
  destruct (failReady _ _ _ _) as [w1 x]. injection E as <- _. simpl in Ed. by rewrite Ed.
Qed.

Lemma container_spec_named sb pod spec : container_spec r sb pod = Ok spec →
  s_Namespace spec = m_Namespace (sb_Meta sb) ∧ s_SandboxName spec = m_Name (sb_Meta sb).
Proof.
  unfold container_spec, MapPodSpec. destruct (Containers pod); [done|].
  destruct (foldl env_step _ _), (foldl (mount_step _ _) _ _), (privileged _); [done|].
  by intros [= <-].
Qed.

(** Either nothing is created, or there was no container and the mapped one is
    asked for. *)
Lemma get_container_cases sb pod w w' o : get_container r sb pod w = (w', o) →
  w_drv w' = w_drv w ∨
  container_of (w_drv w) (m_Namespace (sb_Meta sb)) (m_Name (sb_Meta sb)) = None ∧
  ∃ spec, container_spec r sb pod = Ok spec ∧ w_drv w' = (CreateSandboxContainer spec (w_drv w)).1 ∧
    o = match (CreateSandboxContainer spec (w_drv w)).2 with Ok info => Have info | Err e => Failed e end.
Proof.
  unfold get_container. set (ns := m_Namespace (sb_Meta sb)). set (name := m_Name (sb_Meta sb)).
  pose proof (inspect_pure ns name (w_drv w)) as Ep. pose proof (inspect_none ns name (w_drv w)) as Hin.
  unfold drv at 1. destruct (InspectSandbox ns name (w_drv w)) as [d4 i]. cbn [fst snd] in Ep, Hin. subst d4.
  destruct i as [info|[|msg]]; [by intros [= <- _]; left| |by intros [= <- _]; left].
  destruct (container_spec r sb pod) as [spec|me]; [|by intros [= <- _]; left].
  unfold drv. cbn [w_drv put_drv]. destruct (CreateSandboxContainer spec (w_drv w)) as [d5 c] eqn:Ec.
  intros [= <- <-]. right. split; [by apply Hin|]. exists spec. by rewrite Ec.
Qed.

Lemma start_container u sb pod w w' out :
  (∀ v src, v ∈ Volumes pod → vo_PersistentVolumeClaim v = Some src →
     is_Some (volume_of (w_drv w) (VolumeName (m_Namespace (sb_Meta sb)) (ps_ClaimName src)))) →
  (let '(w, c) := get_container r sb pod w in
   match c with
   | Fatal msg => let '(w, res) := failReady u sb msg w in (w, Ok res)
   | Failed e => (w, Err (RDriver e))
   | Have info => finishRunning r u sb pod info w
   end) = (w', out) →
  started sb pod (container_of (w_drv w) (m_Namespace (sb_Meta sb)) (m_Name (sb_Meta sb))) out (w_drv w').
Proof.
  intros Hvols E. destruct (get_container r sb pod w) as [w1 o] eqn:Eg.
  apply get_container_cases in Eg as [Ed|(Hnone & spec & Hspec & Ed & ->)].
  - destruct o as [info|msg|e].
    + apply started_same. pose proof (finish_containers u sb pod info w1) as Hq. rewrite E in Hq. cbn in Hq.
      by rewrite (q_containers _ _ Hq), Ed.
    + eapply failReady_started; [exact E|by rewrite Ed].
    + apply started_same. injection E as <- _. by rewrite Ed.
  - rewrite Hnone. intros info Hok Hi. pose proof (create_volumes spec (w_drv w)) as Hcv.
    pose proof (create_ok spec (w_drv w)) as Hco. destruct (CreateSandboxContainer spec (w_drv w)) as [d [info'|e]] eqn:Ec;
      [|by injection E as _ <-]. cbn in Ed, Hcv, Hco, E.
    pose proof (finish_containers u sb pod info' w1) as Hq. rewrite E, Ed in Hq. cbn in Hq.
    destruct (container_spec_named _ _ _ Hspec) as [Hsn Hsm]. specialize (Hco _ eq_refl). rewrite Hsn, Hsm in Hco.
    rewrite (q_containers _ _ Hq) in Hi. assert (info' = info) as -> by congruence.
    exists spec, (w_drv w). rewrite Ec. split_and!; [done|done|].
    intros v src Hv Hsrc. apply (q_volumes _ _ Hq). rewrite Hcv. by apply (Hvols v).
Qed.

(** C13. Running a sandbox starts at most one container, and only when all its
    storage is there: a container that exists is left exactly as it is; one
    that a successful pass leaves was created from the mapped pod spec, and every claim the pod
    mounts has a docker volume behind it. *)
Theorem reconcileRunning_container u sb w w' out :
  reconcileRunning r u sb w = (w', out) →
  let ns := m_Namespace (sb_Meta sb) in
  let name := m_Name (sb_Meta sb) in
  match container_of (w_drv w) ns name with
  | Some info => container_of (w_drv w') ns name = Some info
  | None => ∀ info, is_ok out = true → container_of (w_drv w') ns name = Some info →
      ∃ spec d, container_spec r sb (effective_pod u sb w) = Ok spec ∧
        (CreateSandboxContainer spec d).2 = Ok info ∧
        ∀ v src, v ∈ Volumes (effective_pod u sb w) → vo_PersistentVolumeClaim v = Some src →
          is_Some (volume_of (w_drv w') (VolumeName ns (ps_ClaimName src)))
  end.
Proof.
  unfold reconcileRunning, effective_pod. intros E. cbv zeta.
  match goal with |- match ?c0 with _ => _ end => change (started sb
    (foldl (vct_step u (m_Name (sb_Meta sb))) (w, bp_PodSpec (sb_Blueprint sb))
       (bp_VolumeClaimTemplates (sb_Blueprint sb))).2 c0 out (w_drv w')) end.
  case_decide as Hcs; [by eapply failReady_started|].
  pose proof (vct_fold_drv u (m_Name (sb_Meta sb)) (bp_VolumeClaimTemplates (sb_Blueprint sb))
    (w, bp_PodSpec (sb_Blueprint sb))) as Ef.
  destruct (foldl (vct_step u _) _ _) as [w1 pod]. simpl in Ef |- *.
  pose proof (back_volumes_containers u sb (Volumes pod) w1) as Ebc.
  destruct (back_volumes u sb (Volumes pod) w1) as [w2 early] eqn:Eb. simpl in Ebc. rewrite <-Ef, <-Ebc.
  destruct early as [o|]; [apply started_same; by injection E as <- _|].
  apply back_volumes_done in Eb as (_ & _ & Hvols).
  pose proof (ensureImage_quiet match Containers pod with c :: _ => co_Image c | [] => "" end w2) as Hq.
  destruct (ensureImage r _ w2) as [w3 [x|e]]; simpl in Hq; rewrite <-(q_containers _ _ Hq).
  - apply (start_container u sb pod w3 w' out); [|exact E]. intros v src Hv Hsrc.
    apply (q_volumes _ _ Hq). by apply (Hvols v src Hv Hsrc).
  - by eapply failReady_started.
Qed.

(** ** Suspension, expiry, orphans *)

Lemma sto_eq {A} (f : Store U P → Store U P * A) w :
  sto f w = (put_store (f (w_store w)).1 w, (f (w_store w)).2).
Proof. unfold sto. by destruct (f (w_store w)). Qed.

(** A write without a version never conflicts. *)
Lemma unversioned_update g u st s e :
  GetResourceVersion u = "" → (Store.Update (P := P) g u st s).2 = Err e → IsConflict e = false.
Proof.
  intros Hv. unfold Store.Update, meta. destruct (resources s !! g) as [rm|]; [|by intros [= <-]].
  destruct (lookup_obj s g _) as [old|]; [|by intros [= <-]].
  unfold rv_precondition. rewrite bool_decide_eq_true_2 by tauto. by destruct (nextRV s).
Qed.

(** A status write that reports success is what a read returns. *)
Lemma status_written {T} `{!StatusMap T} g u (st : T) w w' :
  writeStatus g u st w = (w', Ok ()) →
  ∃ v u', ToStatus st = Some v ∧ Get g (GetNamespace u) (GetName u) (w_store w') = Ok u' ∧
    StatusOf u' = Some v.
Proof.
  unfold writeStatus, setStatus. destruct (ToStatus st) as [v|]; [|done]. rewrite sto_eq.
  set (n := SetResourceVersion "" _).
  assert (GetNamespace n = GetNamespace u ∧ GetName n = GetName u ∧ StatusOf n = Some v) as (Hns & Hnm & Hst)
    by (split_and!; unfold n; by uget_simpl).
  set (R := Store.Update g n true (w_store w)).
  assert (R = (R.1, R.2)) as ER by apply surjective_pairing.
  destruct (Update_cases g n true (w_store w) R.1 R.2 ER) as [(e & He & _)|(rm & old & Hm & Hl & _ & Hv & Hok & Hs)].
  - rewrite He. rewrite (unversioned_update g n true (w_store w) e); [done|by unfold n; uget_simpl|done].
  - rewrite Hok. intros [= <-]. exists v. eexists. split; [done|]. simpl. rewrite Hs.
    apply meta_ok in Hm. rewrite (Get_apply _ _ _ _ _ _ Hm). cbn [w_gvr w_key w_result].
    rewrite Hns, Hnm, key_if, decide_True by done. split; [reflexivity|].
    unfold mergeForUpdate, StatusOf at 1, SetResourceVersion, SetStatusField.
    by rewrite get_set_ne, get_set_eq by done.
Qed.

Context `{Mounts D} `{!MountLaws D}.

Lemma writeStatus_store {T} `{!StatusMap T} g u (st : T) w1 w2 :
  w_store w1 = w_store w2 → w_store (writeStatus g u st w1).1 = w_store (writeStatus g u st w2).1.
Proof.
  intros E. unfold writeStatus. destruct (setStatus u st); [|done]. unfold sto. rewrite E.
  by destruct (Store.Update _ _ _ (w_store w2)).
Qed.

Lemma inspect_eq ns name w : answers (w_drv w) ns name →
  drv (InspectSandbox ns name) w = (w, of_opt ErrNotFound (container_of (w_drv w) ns name)).
Proof.
  unfold drv, answers. pose proof (inspect_pure ns name (w_drv w)) as Ep.
  destruct (InspectSandbox ns name (w_drv w)) as [d i]. simpl in *. intros ->. subst d. by destruct w.
Qed.

Lemma inspect_keeps ns name w : (drv (InspectSandbox ns name) w).1 = w.
Proof.
  unfold drv. pose proof (inspect_pure ns name (w_drv w)) as Ep.
  destruct (InspectSandbox ns name (w_drv w)) as [d i]. simpl in *. subst d. by destruct w.
Qed.

Lemma remove_found info ns name w :
  container_of (w_drv w) ns name = Some info → (RemoveContainer (ci_ID info) (w_drv w)).2 = Ok () →
  container_of (w_drv (drv (RemoveContainer (ci_ID info)) w).1) ns name = None.
Proof. intros Hi Hr. rewrite w_drv_drv. by apply (remove_ok _ _ _ (w_drv w) info). Qed.

Lemma remove_frame id w :
  let w1 := (drv (RemoveContainer id) w).1 in
  volume_of (w_drv w1) = volume_of (w_drv w) ∧ w_store w1 = w_store w ∧ w_now w1 = w_now w ∧ w_wall w1 = w_wall w.
Proof.
  cbv zeta. rewrite w_drv_drv, drv_store. unfold drv. pose proof (remove_volumes id (w_drv w)) as Hv.
  destruct (RemoveContainer _ _) as [d x]. by split_and!.
Qed.

(** Suspending: when the driver answers and removes the container it has stopped,
    the container is gone and every volume is kept; the status written says
    Suspended, not Ready and not Finished. *)
Lemma reconcileSuspended_stops `{!ConditionLaws} u sb w w' out :
  reconcileSuspended u sb w = (w', out) →
  let ns := m_Namespace (sb_Meta sb) in
  let name := m_Name (sb_Meta sb) in
  let st := suspended_status sb true (w_now w) in
  answers (w_drv w) ns name →
  (∀ info, container_of (w_drv w) ns name = Some info →
     (RemoveContainer (ci_ID info) (StopContainer (ci_ID info) (w_drv w)).1).2 = Ok ()) →
  container_of (w_drv w') ns name = None ∧ volume_of (w_drv w') = volume_of (w_drv w) ∧
  w_store w' = w_store (writeStatus SandboxGVR u st w).1 ∧
  IsStatusConditionTrue (ss_Conditions st) CondSuspended = true ∧
  IsStatusConditionTrue (ss_Conditions st) CondReady = false ∧
  FindStatusCondition (ss_Conditions st) CondFinished = None.
Proof.
  intros E. cbv zeta. set (ns := m_Namespace (sb_Meta sb)). set (name := m_Name (sb_Meta sb)). intros Ha Hrem.
  assert (Hst : container_of (w_drv w') ns name = None ∧ volume_of (w_drv w') = volume_of (w_drv w) ∧
    w_store w' = w_store (writeStatus SandboxGVR u (suspended_status sb true (w_now w)) w).1).
  { assert (Hfin : ∀ w2, w_store w2 = w_store w → w_now w2 = w_now w →
      container_of (w_drv w2) ns name = None → volume_of (w_drv w2) = volume_of (w_drv w) →
      (let '(w3, e) := writeStatus SandboxGVR u (suspended_status sb true (w_now w2)) w2 in
       (w3, (λ _, expiryRequeue (w_wall w3) sb) <$> e)) = (w', out) →
      container_of (w_drv w') ns name = None ∧ volume_of (w_drv w') = volume_of (w_drv w) ∧
      w_store w' = w_store (writeStatus SandboxGVR u (suspended_status sb true (w_now w)) w).1).
    { intros w2 Hs Hn Hc Hv E2. rewrite Hn in E2.
      pose proof (writeStatus_drv SandboxGVR u (suspended_status sb true (w_now w)) w2) as Hd.
      pose proof (writeStatus_store SandboxGVR u (suspended_status sb true (w_now w)) w2 w Hs) as Hw.
      destruct (writeStatus SandboxGVR u _ w2) as [w3 e]. injection E2 as <- _. simpl in *.
      by rewrite Hd, Hw. }
    unfold reconcileSuspended in E. fold ns name in E. rewrite inspect_eq in E by done.
    destruct (container_of (w_drv w) ns name) as [info|] eqn:Hc; simpl in E; [|by apply (Hfin w)].
    set (w2 := (drv (StopContainer (ci_ID info)) w).1) in *.
    pose proof (stop_keeps (ci_ID info) ns name (w_drv w)) as Hk.
    pose proof (stop_id (ci_ID info) ns name (w_drv w) info) as Hid.
    pose proof (stop_volumes (ci_ID info) (w_drv w)) as Hsv. specialize (Hrem info eq_refl).
    rewrite <-(w_drv_drv (StopContainer (ci_ID info)) w) in Hk, Hid, Hsv, Hrem. fold w2 in Hk, Hid, Hsv, Hrem.
    destruct (proj2 Hk) as [j Hj]; [by rewrite Hc|]. specialize (Hid j Hc Hj). rewrite <-Hid in Hrem.
    pose proof (remove_found j ns name w2 Hj Hrem) as Hr1. rewrite Hid in Hr1.
    destruct (remove_frame (ci_ID info) w2) as (Hr2 & Hr3 & Hr4 & _).
    apply (Hfin (drv (RemoveContainer (ci_ID info)) w2).1); [| |done|by rewrite Hr2|exact E].
    + rewrite Hr3. unfold w2. by rewrite drv_store.
    + rewrite Hr4. unfold w2, drv. by destruct (StopContainer _ _). }
  destruct Hst as (H1' & H2' & H3'). do 3 (split; [done|]).
  unfold suspended_status, IsStatusConditionTrue, IsStatusConditionPresentAndEqual. simpl.
  rewrite find_remove_eq, !find_remove_ne by discriminate.
  rewrite (find_setCond_ne _ CondSuspended CondReady) by discriminate. unfold setCond.
  destruct (find_set_eq (ss_Conditions (sb_Status sb)) (mkCondition CondSuspended ConditionTrue
    ReasonSuspendedPodTerminated "Pod has been terminated. Sandbox is not operational." (gen sb) (w_now w)))
    as (t1 & E1 & _). cbn [cd_Type] in E1. rewrite E1.
  match goal with |- context [FindStatusCondition (SetStatusCondition ?l ?c) CondReady] =>
    destruct (find_set_eq l c) as (t2 & E2 & _) end. cbn [cd_Type] in E2. rewrite E2. done.
Qed.

(** The claim or pool that controls a sandbox is not stored, or only under another
    uid than its reference gives. *)
Definition lost (s : Store U P) u (ref : OwnerReference) : Prop :=
  ∃ g, (or_Kind ref = "SandboxClaim" ∧ g = SandboxClaimGVR ∨ or_Kind ref = "SandboxWarmPool" ∧ g = WarmPoolGVR) ∧
    match target s g (GetNamespace u) (or_Name ref) with
    | None => True
    | Some owner => or_UID ref ≠ "" ∧ GetUID owner ≠ or_UID ref
    end.
Definition abandoned (s : Store U P) u : Prop :=
  ∃ ref, ref ∈ GetOwnerReferences u ∧ or_Controller ref = Some true ∧ lost s u ref.

Lemma owner_check (s : Store U P) g u ref : is_Some (resources s !! g) →
  match Get g (GetNamespace u) (or_Name ref) s with
  | Err e => IsNotFound e
  | Ok owner => bool_decide (or_UID ref ≠ "" ∧ GetUID owner ≠ or_UID ref)
  end = true ↔
  match target s g (GetNamespace u) (or_Name ref) with
  | None => True
  | Some owner => or_UID ref ≠ "" ∧ GetUID owner ≠ or_UID ref
  end.
Proof.
  intros [rm Hrm]. unfold Get, target, Store.meta. rewrite Hrm.
  destruct (lookup_obj _ _ _) as [o|]; simpl; [apply bool_decide_eq_true|done].
Qed.

Lemma orphaned_abandoned u w :
  is_Some (resources (w_store w) !! SandboxClaimGVR) → is_Some (resources (w_store w) !! WarmPoolGVR) →
  orphaned u w = true ↔ abandoned (w_store w) u.
Proof.
  intros Hc Hp. unfold orphaned, abandoned. rewrite existsb_exists. apply exist_proper. intros ref.
  rewrite <-list_elem_of_In. unfold orphan_ref, lost, is_controller. cbv zeta.
  assert (or_Controller ref = Some true ↔ default false (or_Controller ref) = true) as ->
    by (by destruct (or_Controller ref) as [[]|]).
  rewrite andb_true_iff. do 2 apply and_iff_compat_l.
  destruct (decide (or_Kind ref = "SandboxClaim")) as [Ek|Ek]; [|destruct (decide (or_Kind ref = "SandboxWarmPool")) as [Ek'|Ek']].
  - rewrite owner_check by done. split; [intros Hl; exists SandboxClaimGVR; auto|].
    intros (g & [[_ ->]|[E' _]] & Hl); [done|congruence].
  - rewrite owner_check by done. split; [intros Hl; exists WarmPoolGVR; auto|].
    intros (g & [[? _]|[_ ->]] & Hl); done.
  - split; [done|]. intros (g & [[? _]|[? _]] & _); done.
Qed.

(** Garbage collection: reconciling a sandbox whose controlling claim or pool is
    gone, or exists only under another uid, deletes it and its container. *)
Lemma orphan_collected ns name w w' out u sb :
  keyed (w_store w) → slashless (w_store w) → namespaced_gvr (w_store w) SandboxGVR →
  no_byte slash ns = true →
  Get SandboxGVR ns name (w_store w) = Ok u → FromUnstructured u = Some sb →
  orphaned u w = true → reconcileSandbox r ns name w = (w', out) →
  target (w_store w') SandboxGVR ns name = None ∧
  (removable (w_drv w) ns name → container_of (w_drv w') ns name = None) ∧ out = Ok no_requeue.
Proof.
  intros K Hsl Hn Hns Hg Hsb Ho. unfold reconcileSandbox. rewrite Hg, Hsb, Ho.
  unfold delete_sandbox. apply Get_target in Hg.
  destruct (sandbox_deleted 2 ns name w u K Hsl Hn Hns Hg) as [Hd1 Hd2].
  destruct (Delete_n_step 2 _ _ _ _ _ K Hg) as (s1 & v & _ & _ & E & _).
  unfold Delete. rewrite E in Hd1, Hd2 |- *. intros Ew. apply pair_eq in Ew as [<- <-].
  split_and!; [done| |done]. intros Hr. apply Hd2. by left.
Qed.

(** What is stored of a sandbox that has expired: conditions only, Ready being
    False because of that. *)
Definition stored_expired (s : Store U P) ns name : Prop :=
  ∃ u v st, Get SandboxGVR ns name s = Ok u ∧ StatusOf u = Some v ∧ ToStatus st = Some v ∧
    st = conds_only (ss_Conditions st) ∧ IsStatusConditionTrue (ss_Conditions st) CondReady = false ∧
    (cd_Reason <$> FindStatusCondition (ss_Conditions st) CondReady) = Some ReasonExpired.

Lemma expired_sandbox `{!ConditionLaws} ns name w w' out u sb exp :
  keyed (w_store w) → slashless (w_store w) → namespaced_gvr (w_store w) SandboxGVR →
  no_byte slash ns = true → sb_Meta sb = meta_of u →
  Get SandboxGVR ns name (w_store w) = Ok u → FromUnstructured u = Some sb →
  orphaned u w = false → sb_ShutdownTime sb = Some exp → (exp ≤ w_now w)%Z →
  reconcileSandbox r ns name w = (w', out) →
  (removable (w_drv w) ns name → container_of (w_drv w') ns name = None) ∧
  (if decide (default ShutdownPolicyRetain (sb_ShutdownPolicy sb) = ShutdownPolicyDelete)
   then target (w_store w') SandboxGVR ns name = None
   else is_ok out = true → stored_expired (w_store w') ns name).
Proof.
  intros K Hsl Hn Hns Hmeta Hg Hsb Ho Hexp Hle. unfold reconcileSandbox. rewrite Hg, Hsb, Ho, Hexp.
  rewrite (proj2 (Z.ltb_ge _ _) Hle). cbn [negb]. apply Get_target in Hg.
  destruct (target_named _ _ _ _ _ K Hsl Hn Hns Hg) as [Hns' Hname'].
  unfold handleSandboxExpiry. rewrite Hmeta. simpl m_Namespace. simpl m_Name. rewrite Hns', Hname'.
  pose proof (inspect_keeps ns name w) as Hi. pose proof (inspect_eq ns name w) as Hi'.
  destruct (drv (InspectSandbox ns name) w) as [w0 i]. cbn [fst] in Hi. subst w0.
  set (w1 := match i with Ok info => (drv (RemoveContainer (ci_ID info)) w).1 | Err _ => w end).
  assert (w_store w1 = w_store w ∧ w_now w1 = w_now w) as (Hs1 & Hn1).
  { unfold w1. destruct i as [info|]; [|done]. by destruct (remove_frame (ci_ID info) w) as (_ & ? & ? & _). }
  assert (removable (w_drv w) ns name → container_of (w_drv w1) ns name = None) as Hc1.
  { intros [Ha Hr]. specialize (Hi' Ha). apply pair_eq in Hi' as [_ Hi']. unfold w1. rewrite Hi'.
    destruct (container_of (w_drv w) ns name) as [info|] eqn:Hc; simpl; [|done].
    by apply remove_found, Hr. }
  clearbody w1. case_decide as Hpol.
  - unfold delete_sandbox, Delete. rewrite <-Hs1 in K, Hsl, Hn, Hg.
    destruct (sandbox_deleted 2 ns name w1 u K Hsl Hn Hns Hg) as [Hd1 Hd2].
    destruct (Delete_n_step 2 _ _ _ _ _ K Hg) as (s1 & v & _ & _ & E & _).
    rewrite E in Hd1, Hd2 |- *. intros Ew. apply pair_eq in Ew as [<- _]. split; [|done].
    intros Hr. apply Hd2. right. by apply Hc1.
  - set (c := setCond _ _ _ _ _ _ _).
    pose proof (writeStatus_drv SandboxGVR u (conds_only c) w1) as Hd.
    pose proof (status_written SandboxGVR u (conds_only c) w1) as Hw.
    destruct (writeStatus SandboxGVR u _ w1) as [w2 e]. intros Ew. apply pair_eq in Ew as [<- <-].
    simpl in Hd. rewrite Hd. split; [done|]. destruct e as [[]|]; [|done]. intros _.
    destruct (Hw w2 eq_refl) as (v & u' & Hv & Hget & Hst). rewrite Hns', Hname' in Hget.
    exists u', v, (conds_only c). split_and!; [done|done|done|done| |]; cbn [ss_Conditions conds_only].
    all: unfold IsStatusConditionTrue, IsStatusConditionPresentAndEqual, c, setCond;
      destruct (find_set_eq (ss_Conditions (sb_Status sb)) (mkCondition CondReady ConditionFalse ReasonExpired
        "Sandbox has expired" (gen sb) (w_now w1))) as (t1 & E1 & _);
      cbn [cd_Type] in E1; by rewrite E1.
Qed.

(** C35. How a sandbox ends.  A pass over a sandbox whose controlling claim or
    pool is not stored any more, or only under another uid, deletes it.  Over any
    other sandbox whose shutdown time has come it deletes the object under the
    Delete policy; otherwise, unless writing the status fails, the object stays
    and its stored status has conditions only, with Ready False and the reason
    that the sandbox has expired.  In both cases its container is gone if the
    driver finds it and removes it when the pass begins (errors are dropped). *)
Theorem sandbox_ends `{!ConditionLaws} ns name w w' out u sb :
  keyed (w_store w) → slashless (w_store w) → namespaced_gvr (w_store w) SandboxGVR →
  is_Some (resources (w_store w) !! SandboxClaimGVR) → is_Some (resources (w_store w) !! WarmPoolGVR) →
  no_byte slash ns = true → sb_Meta sb = meta_of u →
  Get SandboxGVR ns name (w_store w) = Ok u → FromUnstructured u = Some sb →
  reconcileSandbox r ns name w = (w', out) →
  let gone := target (w_store w') SandboxGVR ns name = None in
  let stopped := removable (w_drv w) ns name → container_of (w_drv w') ns name = None in
  (abandoned (w_store w) u → gone ∧ stopped ∧ out = Ok no_requeue) ∧
  (¬ abandoned (w_store w) u → ∀ exp, sb_ShutdownTime sb = Some exp → (exp ≤ w_now w)%Z → stopped ∧
    if decide (default ShutdownPolicyRetain (sb_ShutdownPolicy sb) = ShutdownPolicyDelete) then gone
    else is_ok out = true → stored_expired (w_store w') ns name).
Proof.
  intros K Hsl Hn Hc Hp Hns Hmeta Hg Hsb E. cbv zeta. rewrite <-orphaned_abandoned by done. split.
  - intros Ho. by eapply orphan_collected.
  - intros Ho%not_true_iff_false exp He Hle. by eapply expired_sandbox.
Qed.
End worlds.
