(* ===== verification/ClaimSpec.v ===== *)
(** What the SandboxClaim reconciler guarantees: a warm sandbox is adopted
    atomically whatever runs concurrently, a claim is only ever bound to a
    sandbox it controls, its status mirrors that sandbox, and it expires. *)

From S2P Require Import Prelude GoStrings K8s Apis Store StoreFacts Patch Persist Concrete.
From S2P Require Import StoreSpec Core Driver Build Reconciler ConcreteApi Cascade Sandbox.
From S2P Require Import SandboxSpec Claim.
Local Open Scope string_scope.

(** ** Stores that other goroutines move forward *)

Section evolution.
Context {U P : Type} `{UnstructuredLaws U} `{Codec U} `{Persister P}.
Context `{Oracle} `{GoRuntime} `{PatchLib}.
Implicit Types (s : Store U P) (g : GVR) (k : string) (u : U).

(** Whatever was written since has a later version. *)
Record evolves s s' : Prop := {
  ev_wf : wf s → wf s';
  ev_keyed : keyed s → keyed s';
  ev_res : resources s' = resources s;
  ev_rv : (rv s ≤ rv s')%Z;
  ev_obj : wf s → ∀ g k u, lookup_obj s' g k = Some u →
    lookup_obj s g k = Some u ∨
    ∃ n, (rv s < n < u64_mod)%Z ∧ GetResourceVersion u = format_uint n;
}.

#[export] Instance evolves_refl : Reflexive evolves.
Proof. intros s. constructor; [done|done|done|lia|eauto]. Qed.

#[export] Instance evolves_trans : Transitive evolves.
Proof.
  intros s1 s2 s3 [W1 K1 R1 V1 O1] [W2 K2 R2 V2 O2].
  constructor; [auto|auto|congruence|lia|]. intros W g k u Hu.
  destruct (O2 (W1 W) _ _ _ Hu) as [Hm|(n & ? & ?)].
  - destruct (O1 W _ _ _ Hm) as [?|?]; [by left|by right].
  - right. exists n. split; [lia|done].
Qed.

(** Every operation that keeps names moves the store forward. *)
Lemma exec_evolves o s : room s → (0 ≤ rv s)%Z → keeps_name o → evolves s (exec o s).1.
Proof.
  intros Hr Hp Ho. assert (keyed s → keyed (exec o s).1) as Hk by (intros K; by apply exec_keyed).
  assert (wf s → wf (exec o s).1) as Hw by (intros W; by apply exec_wf).
  destruct (exec o s) as [s' r] eqn:E. simpl in *.
  destruct (exec_cases _ _ _ _ E) as [(e & _ & ->)|(w & (_ & Hrv & _) & -> & _)]; [done|].
  pose proof (next_rv_eq s Hp Hr) as Hn. unfold room in Hr.
  constructor; [done|done|by rewrite resources_apply|rewrite rv_apply; lia|].
  intros W g k u. rewrite lookup_apply. case_decide; [|by left].
  destruct w as [t g' k' u'|g' k' u']; simpl in *; intros [= ->].
  right. exists (next_rv s). split; [lia|done].
Qed.

(** Optimistic concurrency over an arbitrary interval: a version that is still
    there means an object that is still there. *)
Lemma same_version s s' g k old u :
  wf s → evolves s s' → lookup_obj s g k = Some u → lookup_obj s' g k = Some old →
  GetResourceVersion old = GetResourceVersion u → old = u.
Proof.
  intros W E Hu Hold Hv. destruct (ev_obj _ _ E W _ _ _ Hold) as [Hs|(n & Hn & Hf)]; [congruence|].
  destruct (wf_obj _ W _ _ _ Hu) as (_ & m & Hm & Hg). rewrite Hv, Hg in Hf.
  apply format_uint_inj in Hf; lia.
Qed.

Lemma stored_version s g k u : wf s → lookup_obj s g k = Some u → GetResourceVersion u ≠ "".
Proof. intros W Hu. destruct (wf_obj _ W _ _ _ Hu) as (_ & n & _ & ->). apply format_uint_nonempty. Qed.
End evolution.

Section adoption.
Context {U P D : Type} `{UnstructuredLaws U} `{Codec U} `{Persister P}.
Context `{Oracle} `{GoRuntime} `{PatchLib} `{!Converter U} `{Driver D} `{ConditionLib}.
Context `{SandboxAPI} `{!SandboxAPILaws} `{ErrorText}.
#[local] Notation World := (world U P D).
Implicit Types (w : World) (u : U) (claim : SandboxClaim).

Lemma sto_store {A} (f : Store U P → Store U P * A) w : w_store (sto f w).1 = (f (w_store w)).1.
Proof. unfold sto. by destruct (f (w_store w)). Qed.
Lemma sto_result {A} (f : Store U P → Store U P * A) w : (sto f w).2 = (f (w_store w)).2.
Proof. unfold sto. by destruct (f (w_store w)). Qed.
Lemma put_store_same w : put_store (w_store w) w = w.
Proof. by destruct w. Qed.

(** *** The rewrite *)

Lemma controller_set u claim pick :
  controllerOwnerUID (adopt_rewrite u claim pick) = GetUID u ∧
  GetOwnerReferences (adopt_rewrite u claim pick) = [controllerRef u ExtensionsGV "SandboxClaim"].
Proof.
  assert (GetOwnerReferences (adopt_rewrite u claim pick) = [controllerRef u ExtensionsGV "SandboxClaim"]) as E.
  { unfold adopt_rewrite. by uget_simpl. }
  split; [|done]. unfold controllerOwnerUID. by rewrite E.
Qed.

Lemma adopt_rewrite_other u claim pick f :
  f ≠ FOwnerReferences → f ≠ FLabels → uget f (adopt_rewrite u claim pick) = uget f pick.
Proof. intros ??. unfold adopt_rewrite. uget_unfold. by rewrite !get_set_ne. Qed.

(** What is stored when the update commits. *)
Definition adopted_from u claim (pick sb : U) : Prop :=
  GetOwnerReferences sb = [controllerRef u ExtensionsGV "SandboxClaim"] ∧
  GetLabels sb = GetLabels (adopt_rewrite u claim pick) ∧
  GetGeneration sb = GetGeneration pick ∧
  ∀ f, f ∉ [FOwnerReferences; FLabels; FGeneration; FResourceVersion] → uget f sb = uget f pick.

Lemma adopted_merge u claim pick r :
  adopted_from u claim pick
    (SetResourceVersion r (mergeForUpdate pick (adopt_rewrite u claim pick) false)).
Proof.
  assert (SpecOf (SetStatusField (StatusOf pick) (SetCreationTimestamp (GetCreationTimestamp pick)
    (SetUID (GetUID pick) (adopt_rewrite u claim pick)))) = SpecOf pick) as Hs.
  { unfold adopt_rewrite. by uget_simpl. }
  unfold adopted_from, mergeForUpdate. rewrite decide_True by done.
  destruct (controller_set u claim pick) as [_ Ho]. revert Ho. uget_simpl. intros Ho.
  split_and!; [done|done|done|]. intros f Hf. rewrite !not_elem_of_cons in Hf.
  destruct Hf as (?&?&?&?&_).
  destruct (decide (f = FStatus)) as [->|]; [by uget_simpl|].
  destruct (decide (f = FCreationTimestamp)) as [->|]; [by uget_simpl|].
  destruct (decide (f = FUID)) as [->|]; [by uget_simpl|].
  rewrite !get_set_ne by done. by apply adopt_rewrite_other.
Qed.

Lemma adopted_owned u claim pick sb p :
  adopted_from u claim pick sb →
  controllerOwnerUID sb = GetUID u ∧ ownedBy sb "SandboxWarmPool" p = false.
Proof. intros (E & _). unfold controllerOwnerUID, ownedBy. rewrite E. by split. Qed.

(** *** One attempt *)

(** The update that binds the pool's sandbox [name], on the store it finds. *)
Definition commits u claim (pool name : string) (s : Store U P) (sb : U) w' : Prop :=
  ∃ rm pick, let k := key (namespaced rm) (m_Namespace (cl_Meta claim)) name in
    resources s !! SandboxGVR = Some rm ∧ lookup_obj s SandboxGVR k = Some pick ∧
    ownedBy pick "SandboxWarmPool" pool = true ∧ adopted_from u claim pick sb ∧
    GetResourceVersion sb = format_uint (next_rv s) ∧
    w_store w' = apply_write (WPut Modified SandboxGVR k sb) s.

Context (env : nat → World → World).

Lemma adopt_attempt_cases u claim pool name i w w' r :
  wf (w_store w) → keyed (w_store w) → evolves (w_store w) (w_store (env i w)) →
  adopt_attempt env u claim pool name i w = (w', r) →
  (w' = w ∧ r = Some None) ∨
  (w' = env i w ∧ (r = None ∨ r = Some None)) ∨
  (∃ sb, r = Some (Some sb) ∧ commits u claim pool name (w_store (env i w)) sb w').
Proof.
  intros W K Ev. unfold adopt_attempt.
  destruct (Get SandboxGVR _ name (w_store w)) as [pick|e] eqn:Hg; [|intros [= <- <-]; by left].
  destruct (ownedBy pick "SandboxWarmPool" pool) eqn:Ho; [|intros [= <- <-]; by left]. cbn [negb].
  apply Get_target in Hg. unfold target in Hg.
  destruct (resources (w_store w) !! SandboxGVR) as [rm|] eqn:Hrm; [|done].
  pose proof (K _ _ _ _ Hg Hrm) as Hk. rewrite Hk in Hg.
  rewrite sto_eq. set (w1 := env i w) in *.
  destruct (Store.Update SandboxGVR (adopt_rewrite u claim pick) false (w_store w1)) as [s' x] eqn:Eu.
  cbn [fst snd]. right.
  apply Update_cases in Eu as [(e & -> & ->)|(rm' & old & Hm & Hl & Hp & Hv & -> & ->)].
  { left. rewrite put_store_same in *. destruct (IsConflict e); simplify_eq; auto. }
  apply meta_ok in Hm. rewrite (ev_res _ _ Ev) in Hm. assert (rm' = rm) as -> by congruence.
  assert (GetNamespace (adopt_rewrite u claim pick) = GetNamespace pick ∧
          GetName (adopt_rewrite u claim pick) = GetName pick ∧
          GetResourceVersion (adopt_rewrite u claim pick) = GetResourceVersion pick) as (Ens & En & Erv).
  { unfold adopt_rewrite. by uget_simpl. }
  rewrite Ens, En, key_if in *.
  unfold rv_precondition in Hp. apply bool_decide_eq_true in Hp. rewrite Erv in Hp.
  destruct Hp as [Hp|Hp]; [by apply (stored_version _ _ _ _ W) in Hg|].
  assert (old = pick) as -> by (by eapply (same_version (w_store w))).
  right. simplify_eq. eexists. split; [done|]. exists rm, pick. cbv zeta. rewrite Hk.
  split_and!; [by rewrite (ev_res _ _ Ev)|exact Hl|done|apply adopted_merge|by uget_simpl|done].
Qed.

(** [n] windows of the other goroutines, from the [i]-th on. *)
Fixpoint run_env (i n : nat) w : World :=
  match n with 0 => w | S n => run_env (S i) n (env i w) end.

Lemma run_env_evolves i n w :
  (∀ i w, evolves (w_store w) (w_store (env i w))) → evolves (w_store w) (w_store (run_env i n w)).
Proof. intros Henv. revert i w; induction n as [|n IH]; intros i w; simpl; [done|]. etrans; [apply Henv|apply IH]. Qed.

Lemma adopt_loop_cases u claim pool name fuel i w w' r :
  (∀ i w, evolves (w_store w) (w_store (env i w))) → wf (w_store w) → keyed (w_store w) →
  adopt_loop env u claim pool name fuel i w = (w', r) →
  ∃ n, (n ≤ fuel)%nat ∧
    match r with
    | None => w' = run_env i n w
    | Some sb => commits u claim pool name (w_store (run_env i n w)) sb w'
    end.
Proof.
  intros Henv. revert i w; induction fuel as [|fuel IH]; intros i w W K; simpl.
  { intros [= <- <-]. by exists 0. }
  destruct (adopt_attempt env u claim pool name i w) as [w1 x] eqn:E.
  pose proof (Henv i w) as Ev.
  apply adopt_attempt_cases in E as [[-> ->]|[(-> & Hx)|(sb & -> & Hc)]];
    [| | |done|done|done].
  - intros [= <- <-]. exists 0. split; [lia|done].
  - destruct Hx as [-> | ->].
    + intros E. apply IH in E as (n & Hn & E); [|by apply (ev_wf _ _ Ev)|by apply (ev_keyed _ _ Ev)].
      exists (S n). split; [lia|done].
    + intros [= <- <-]. exists 1. split; [lia|done].
  - intros [= <- <-]. exists 1. split; [lia|done].
Qed.

(** C7. Adoption is atomic under any interleaving.  Whatever the other
    goroutines write between the reads and the writes of the five attempts, a
    sandbox that is adopted was an unclaimed member of the pool at the very
    transition that bound it, and that transition changes its owner and its
    labels only; when nothing is adopted the store is what the others made
    of it. *)
Theorem adoption_atomic u claim pool w w' r :
  (∀ i w, evolves (w_store w) (w_store (env i w))) → wf (w_store w) → keyed (w_store w) →
  adoptWarmSandbox env u claim pool w = (w', r) →
  ∃ n, (n ≤ 5)%nat ∧
    match r with
    | None => w' = run_env 0 n w
    | Some sb => (∃ name, commits u claim pool name (w_store (run_env 0 n w)) sb w') ∧
        controllerOwnerUID sb = GetUID u ∧ ∀ p, ownedBy sb "SandboxWarmPool" p = false
    end.
Proof.
  intros Henv W K. unfold adoptWarmSandbox.
  destruct (List SandboxGVR _ _ (w_store w)) as [lr|e]; [|intros [= <- <-]; exists 0; split; [lia|done]].
  destruct (sort_slice ready_first _) as [|c l]; [intros [= <- <-]; exists 0; split; [lia|done]|].
  intros E. apply adopt_loop_cases in E as (n & Hn & E); [|done..]. exists n. split; [done|].
  destruct r as [sb|]; [|done]. split; [by eexists|]. destruct E as (rm & pick & _ & _ & _ & Ha & _).
  split; [by apply (adopted_owned _ _ _ _ "" Ha)|]. intros p. by apply (adopted_owned _ _ _ _ p Ha).
Qed.
End adoption.

Section race.
Context {U P D : Type} `{UnstructuredLaws U} `{Codec U} `{Persister P}.
Context `{Oracle} `{GoRuntime} `{PatchLib} `{!Converter U} `{Driver D} `{ConditionLib}.
Context `{SandboxAPI} `{!SandboxAPILaws} `{ErrorText}.
#[local] Notation World := (world U P D).
Implicit Types (w : World) (u : U) (claim : SandboxClaim).

Lemma run_env_id i n w : run_env (λ _ w, w) i n w = w.
Proof. revert i; induction n as [|n IH]; intros i; simpl; auto. Qed.

(** An update made from a version that is no longer there changes nothing. *)
Lemma stale_update g u st s rm old :
  resources s !! g = Some rm →
  lookup_obj s g (key (namespaced rm) (GetNamespace u) (GetName u)) = Some old →
  GetResourceVersion u ≠ "" → GetResourceVersion u ≠ GetResourceVersion old →
  Store.Update g u st s = (s, Err (Conflict (groupRes rm) (GetName u))).
Proof.
  intros Hrm Hl Hne Hv. unfold Store.Update, Store.meta. rewrite Hrm, key_if, Hl.
  unfold rv_precondition. by rewrite bool_decide_false by tauto.
Qed.

(** C8. No double adoption.  Two claims of one namespace race for a pool:
    when a rival's adoption runs in the window between this claim's read and
    its write, this claim's update is refused, its retry sees that the sandbox
    has left the pool, and it ends empty-handed with the rival's binding
    intact. *)
Theorem no_double_adoption env uA uB claimA claimB pool w w1 sb :
  wf (w_store w) → keyed (w_store w) → room (w_store w) →
  m_Namespace (cl_Meta claimA) = m_Namespace (cl_Meta claimB) →
  adoptWarmSandbox (λ _ w, w) uB claimB pool w = (w1, Some sb) → env 0 w = w1 →
  adoptWarmSandbox env uA claimA pool w = (w1, None).
Proof.
  intros W K Hr Hns. unfold adoptWarmSandbox. rewrite Hns.
  destruct (List SandboxGVR _ _ (w_store w)) as [lr|e]; [|done].
  destruct (sort_slice ready_first _) as [|c l]; [done|].
  set (ns := m_Namespace (cl_Meta claimB)) in *. generalize (GetName c); intros name.
  intros EB Henv.
  apply adopt_loop_cases in EB as (n & _ & rm & pick & Hrm & Hl & Ho & Ha & Hv & Hw); [|done..].
  rewrite run_env_id in *. fold ns in Hrm, Hl, Hw.
  assert (Get SandboxGVR ns name (w_store w) = Ok pick) as Hg.
  { apply Get_target. unfold target. by rewrite Hrm. }
  unfold adopt_attempts. cbn [adopt_loop]. unfold adopt_attempt. rewrite Hns. fold ns.
  rewrite Hg, Ho, Henv. cbn [negb]. rewrite sto_eq.
  assert (Store.Update SandboxGVR (adopt_rewrite uA claimA pick) false (w_store w1) =
    (w_store w1, Err (Conflict (groupRes rm) (GetName pick)))) as ->.
  { change (GetName pick) with (uget FName pick).
    rewrite <-(adopt_rewrite_other uA claimA pick FName) by done.
    apply stale_update with sb; [by rewrite Hw, resources_apply| | |].
    - pose proof (K _ _ _ _ Hl Hrm) as Hk. unfold GetNamespace, GetName in Hk |- *.
      rewrite !adopt_rewrite_other by done. rewrite <-Hk, Hw, lookup_apply. by rewrite decide_True.
    - unfold GetResourceVersion. rewrite adopt_rewrite_other by done. by apply (stored_version _ _ _ _ W) in Hl.
    - unfold GetResourceVersion at 1. rewrite adopt_rewrite_other by done. rewrite Hv.
      destruct (wf_obj _ W _ _ _ Hl) as (_ & m & Hm & Hf). uget_unfold. rewrite Hf.
      pose proof (wf_range _ W). rewrite next_rv_eq by (done || lia).
      intros Heq. apply format_uint_inj in Heq; lia. }
  cbn [fst snd IsConflict]. rewrite put_store_same.
  assert (Get SandboxGVR ns name (w_store w1) = Ok sb) as ->.
  { apply Get_target. unfold target. rewrite Hw, resources_apply, Hrm, lookup_apply. by rewrite decide_True. }
  by rewrite (proj2 (adopted_owned _ _ _ _ pool Ha)).
Qed.
End race.

(** ** Binding *)

Section binding.
Context {U P D : Type} `{UnstructuredLaws U} `{Codec U} `{Persister P}.
Context `{Oracle} `{GoRuntime} `{PatchLib} `{!Converter U} `{!ConverterLaws U} `{Driver D} `{ConditionLib}.
Context `{SandboxAPI} `{ErrorText}.
#[local] Notation World := (world U P D).
Context (env : nat → World → World).
Implicit Types (w : World) (u : U) (claim : SandboxClaim).

(** Bound by [u], and in the store. *)
Definition bound u w (sb : U) : Prop :=
  controllerOwnerUID sb = GetUID u ∧ ∃ k, lookup_obj (w_store w) SandboxGVR k = Some sb.

Lemma Get_stored g ns name (s : Store U P) v : Get g ns name s = Ok v → ∃ k, lookup_obj s g k = Some v.
Proof. intros Hg%Get_target. unfold target in Hg. destruct (resources s !! g); [eauto|done]. Qed.

Lemma commit_stored (s : Store U P) k t v : lookup_obj (apply_write (WPut t SandboxGVR k v) s) SandboxGVR k = Some v.
Proof. rewrite lookup_apply. by rewrite decide_True. Qed.

Lemma existing_binding_bound u claim w sb :
  cl_Meta claim = meta_of u → existing_binding claim w = Some sb → bound u w sb.
Proof.
  intros Hm. unfold existing_binding. case_decide; [done|].
  destruct (Get _ _ _ _) as [v|] eqn:Hg; [|done]. case_decide as Hc; [|done]. intros [= <-].
  split; [by rewrite Hc, Hm|by eapply Get_stored].
Qed.

Lemma merged_controller u claim pick old r :
  controllerOwnerUID (SetResourceVersion r (mergeForUpdate old (adopt_rewrite u claim pick) false)) = GetUID u.
Proof.
  destruct (controller_set u claim pick) as [_ Ho]. unfold controllerOwnerUID, mergeForUpdate.
  revert Ho. case_decide; uget_simpl; by intros ->.
Qed.

Lemma adopt_loop_bound u claim pool name fuel i w w' sb :
  adopt_loop env u claim pool name fuel i w = (w', Some sb) → bound u w' sb.
Proof.
  revert i w; induction fuel as [|fuel IH]; intros i w; cbn [adopt_loop]; [done|].
  unfold adopt_attempt. destruct (Get _ _ _ _) as [pick|]; [|done].
  destruct (ownedBy _ _ _); cbn [negb]; [|done]. rewrite sto_eq.
  destruct (Store.Update _ _ _ _) as [s x] eqn:E. cbn [fst snd].
  apply Update_cases in E as [(e & -> & ->)|(rm & old & _ & _ & _ & _ & -> & ->)].
  { destruct (IsConflict e); [apply IH|done]. }
  intros [= <- <-]. split; [apply merged_controller|simpl; eexists; apply commit_stored].
Qed.

Lemma buildSandbox_owner tmpl ns name gname u kind labels cenv vcts pm sb :
  buildSandbox tmpl ns name gname (Some u) kind labels cenv vcts pm = Ok sb →
  GetOwnerReferences sb = [controllerRef u ExtensionsGV kind] ∧ GetLabels sb = labels ∧
  GetNamespace sb = ns ∧ GetName sb = name ∧ GetGenerateName sb = gname.
Proof.
  unfold buildSandbox. intros (p & _ & Ho)%res_bind_ok. apply res_bind_ok in Ho as (v & _ & Ho).
  destruct (NewSandbox _ _ _) as [x|] eqn:E; [|done]. injection Ho as ->.
  apply new_sandbox_meta in E as (Ens & En & Eg & El & _ & Eo & _). by split_and!.
Qed.

Lemma stamp_new_owners r0 r u : GetOwnerReferences (stamp_new r0 r u) = GetOwnerReferences u.
Proof. unfold stamp_new. case_decide; case_match; by uget_simpl. Qed.

Lemma cold_create_bound u claim tmpl w w' sb b :
  cl_Meta claim = meta_of u → cold_create u claim tmpl w = (w', Ok (sb, b)) → bound u w' sb ∧ b = false.
Proof.
  intros Hm. unfold cold_create. destruct (buildSandbox _ _ _ _ _ _ _ _ _ _) as [v|] eqn:Hb; [|done].
  apply buildSandbox_owner in Hb as (Ho & _). rewrite sto_eq.
  destruct (Create SandboxGVR v (w_store w)) as [s x] eqn:E. cbn [fst snd].
  apply Create_cases in E as [(e & -> & ->)|(rm & name & u1 & _ & Hn & _ & -> & ->)].
  - destruct (IsAlreadyExists e); [|done]. rewrite put_store_same.
    destruct (Get _ _ _ _) as [got|] eqn:Hg; [|done]. case_decide as Hc; [done|].
    intros [= <- <- <-]. split; [|done].
    split; [by rewrite Hc, Hm|by eapply Get_stored].
  - intros [= <- <- <-]. split; [|done]. split; [|simpl; eexists; apply commit_stored].
    assert (GetOwnerReferences u1 = [controllerRef u ExtensionsGV "SandboxClaim"]) as Hu1.
    { rewrite <-Ho. revert Hn. unfold resolve_name.
      destruct (namespaced rm); repeat case_decide; try done;
        repeat (destruct (generateUniqueName _ _ _ _ _); [|done]); intros [= _ <-]; by uget_simpl. }
    unfold controllerOwnerUID. by rewrite stamp_new_owners, Hu1.
Qed.

(** C12. A claim is only ever bound to a sandbox of its own: the one its
    status names, an adopted one or a new one, the sandbox returned is in the
    store with this incarnation of the claim as its controller; it comes from
    the warm pool only when the claim adds no variables or volumes. *)
Theorem claim_binds_own u claim tmpl pool w w' sb adopted :
  FromUnstructured u = Some claim →
  getOrCreateSandbox env u claim tmpl pool w = (w', Ok (sb, adopted)) →
  controllerOwnerUID sb = GetUID u ∧ (∃ k, lookup_obj (w_store w') SandboxGVR k = Some sb) ∧
  (adopted = true → cl_Env claim = [] ∧ cl_VolumeClaimTemplates claim = []).
Proof.
  intros Hm%from_claim_meta. unfold getOrCreateSandbox.
  destruct (existing_binding claim w) as [v|] eqn:He.
  { intros [= <- <- <-]. by destruct (existing_binding_bound _ _ _ _ Hm He). }
  destruct (force_cold claim) eqn:Hf.
  { intros E. apply cold_create_bound in E as [[??] ->]; done. }
  unfold adoptWarmSandbox. destruct (List _ _ _ _) as [lr|]; cycle 1.
  { intros E. apply cold_create_bound in E as [[??] ->]; done. }
  destruct (sort_slice _ _) as [|c l].
  { intros E. apply cold_create_bound in E as [[??] ->]; done. }
  destruct (adopt_loop _ _ _ _ _ _ _ _) as [w1 [v|]] eqn:E1; cycle 1.
  { intros E. apply cold_create_bound in E as [[??] ->]; done. }
  intros [= <- <- <-]. apply adopt_loop_bound in E1 as [??]. split_and!; [done|done|].
  intros _. unfold force_cold in Hf. apply orb_false_iff in Hf as [Hx%bool_decide_eq_false Hy%bool_decide_eq_false].
  split; by apply dec_stable.
Qed.
End binding.

(** ** Status and expiry *)

Section status.
Context `{ConditionLaws}.

(** A condition has a reason. *)
Definition reason_or (d r : string) : string := if decide (r = "") then d else r.

Lemma find_setCondRaw l t st reason msg g now :
  ∃ at_, FindStatusCondition (setCondRaw l t st reason msg g now) t =
      Some (mkCondition t st (reason_or "Unknown" reason) msg g at_) ∧
    (∀ old, FindStatusCondition l t = Some old → cd_Status old = st → at_ = cd_LastTransitionTime old).
Proof.
  unfold setCondRaw, setCond, reason_or. set (r := if decide (reason = "") then _ else _).
  destruct (find_set_eq l (mkCondition t st r msg g now)) as (at_ & E & Ht). simpl in E, Ht.
  exists at_. rewrite E. subst r at_. split; [done|]. intros old -> Hs. by rewrite decide_True.
Qed.

Lemma find_setCondRaw_ne l t t' st reason msg g now :
  t ≠ t' → FindStatusCondition (setCondRaw l t' st reason msg g now) t = FindStatusCondition l t.
Proof. intros Hne. by apply find_set_ne. Qed.

(** What a claim is to show of its sandbox: status, reason and message. *)
Definition gist (c : Condition) : ConditionStatus * string * string := (cd_Status c, cd_Reason c, cd_Message c).
Definition ready_gist (sb : list Condition) : ConditionStatus * string * string :=
  match FindStatusCondition sb CondReady with
  | Some rc => (cd_Status rc,
      reason_or (if decide (cd_Status rc = ConditionTrue) then "Unknown" else "SandboxNotReady") (cd_Reason rc), cd_Message rc)
  | None => (ConditionFalse, "SandboxNotReady", "Sandbox is not ready")
  end.
Definition finished_gist (sb : list Condition) : option (ConditionStatus * string * string) :=
  (λ fc, (cd_Status fc, reason_or "Unknown" (cd_Reason fc), cd_Message fc)) <$> FindStatusCondition sb CondFinished.

Lemma mirrored_spec claim sb now :
  let c := mirrored claim sb now in
  let old := cs_Conditions (cl_Status claim) in
  (gist <$> FindStatusCondition c "Ready") = Some (ready_gist sb) ∧
  (gist <$> FindStatusCondition c "Finished") = finished_gist sb ∧
  (∀ t o n, t = "Ready" ∨ t = "Finished" → FindStatusCondition old t = Some o → FindStatusCondition c t = Some n →
     cd_Status n = cd_Status o → cd_LastTransitionTime n = cd_LastTransitionTime o).
Proof.
  intros c old.
  assert (Hready : ∃ at_, FindStatusCondition (mirrored_ready claim sb now) "Ready" =
    Some (mkCondition "Ready" (ready_gist sb).1.1 (ready_gist sb).1.2 (ready_gist sb).2 (claim_gen claim) at_) ∧
    (∀ o, FindStatusCondition old "Ready" = Some o → cd_Status o = (ready_gist sb).1.1 → at_ = cd_LastTransitionTime o)).
  { unfold mirrored_ready, ready_gist. destruct (FindStatusCondition sb CondReady) as [rc|]; cbn [fst snd];
      match goal with |- context [setCondRaw ?l ?t ?s ?r ?m ?g ?n] =>
        destruct (find_setCondRaw l t s r m g n) as (a & -> & Ha) end; exists a; (split; [|exact Ha]).
    - do 2 f_equal. unfold reason_or. repeat case_decide; try done; naive_solver.
    - done. }
  assert (Hother : FindStatusCondition (mirrored_ready claim sb now) "Finished" = FindStatusCondition old "Finished").
  { unfold mirrored_ready. destruct (FindStatusCondition sb CondReady); by apply find_setCondRaw_ne. }
  destruct Hready as (at_ & Hready & Hat).
  assert (FindStatusCondition c "Ready" = FindStatusCondition (mirrored_ready claim sb now) "Ready") as Ec.
  { unfold c, mirrored. destruct (FindStatusCondition sb CondFinished); [by rewrite find_setCondRaw_ne|by rewrite find_remove_ne]. }
  rewrite Ec, Hready. cbn [fmap option_fmap option_map]. unfold gist at 1. cbn [cd_Status cd_Reason cd_Message].
  split; [by destruct (ready_gist sb) as [[] ?]|].
  unfold c, mirrored, finished_gist. destruct (FindStatusCondition sb CondFinished) as [fc|]; cbn [fmap option_fmap option_map].
  - match goal with |- context [setCondRaw ?l ?t ?s ?r ?m ?g ?n] =>
      destruct (find_setCondRaw l t s r m g n) as (a & E & Ha) end. rewrite E. split; [done|].
    intros t o n [-> | ->] Ho Hn Hs.
    + rewrite find_setCondRaw_ne, Hready in Hn by done. injection Hn as <-. cbn in Hs |- *. by apply Hat.
    + rewrite E in Hn. injection Hn as <-. cbn in Hs |- *. apply Ha; [by rewrite Hother|done].
  - rewrite find_remove_eq. split; [done|]. intros t o n [-> | ->] Ho Hn Hs.
    + rewrite find_remove_ne, Hready in Hn by done. injection Hn as <-. cbn in Hs |- *. by apply Hat.
    + by rewrite find_remove_eq in Hn.
Qed.

(** When a reconciler looks at an object again: soon while it is not settled,
    else not before its shutdown time (a duration cannot reach farther than 64
    bits of nanoseconds) and not within the next second. *)
Definition next_look (settled : bool) (shutdown : option Z) (wall : Z) : Z :=
  if settled then match shutdown with
                  | Some exp => Z.max second (Z.min (exp - wall) (2 ^ 63 - 1))
                  | None => 0
                  end
  else readyRequeue.

Lemma next_look_bounds settled shutdown wall :
  (0 ≤ next_look settled shutdown wall < 2 ^ 63 ∧
   (settled = false ∨ is_Some shutdown → 0 < next_look settled shutdown wall) ∧
   ∀ exp, shutdown = Some exp → wall + next_look settled shutdown wall ≤ Z.max exp (wall + second))%Z.
Proof.
  unfold next_look, readyRequeue, second, millisecond.
  destruct settled, shutdown as [exp|]; split_and!; try lia; try (intros ? [= <-]; lia).
  by intros [?|[? ?]].
Qed.

Lemma lifecycle_requeue claim wall :
  claimLifecycleRequeue claim wall = next_look true (cl_Lifecycle claim ≫= lc_ShutdownTime) wall.
Proof.
  unfold claimLifecycleRequeue, next_look, Until, clamp_i64, maxDur, second.
  destruct (cl_Lifecycle claim) as [lc|]; [|done]. cbn. destruct (lc_ShutdownTime lc) as [t|]; [|done].
  repeat match goal with |- context [(?a <? ?b)%Z] => destruct (Z.ltb_spec a b) end; lia.
Qed.

Lemma sandbox_requeue wall sb : RequeueAfter (expiryRequeue wall sb) = next_look true (sb_ShutdownTime sb) wall.
Proof.
  unfold expiryRequeue, next_look, Until, clamp_i64, maxDur, second.
  destruct (sb_ShutdownTime sb) as [exp|]; [|done]. cbn.
  destruct (Z.ltb_spec (Z.max (- 2 ^ 63) (Z.min (exp - wall) (2 ^ 63 - 1))) 0);
    match goal with |- context [(?a <? ?b)%Z] => destruct (Z.ltb_spec a b) end; lia.
Qed.

(** C39. The delays the reconcilers ask for never overflow and never miss a
    deadline: whatever the shutdown time and the clock, a sandbox and a claim
    come back after half a second until they are settled, and then at their
    shutdown time, in at least a second; a delay is a duration of 64 bits, is
    positive whenever there is something to wait for, and ends no later than
    the deadline or a second from now. *)
Theorem requeue_bounds wall sb c claim conds :
  let settled := IsStatusConditionTrue c CondReady || IsStatusConditionTrue c CondFinished in
  let exp := cl_Lifecycle claim ≫= lc_ShutdownTime in
  let d := RequeueAfter (running_requeue wall sb c) in
  let e := RequeueAfter (claim_requeue claim conds wall) in
  d = next_look settled (sb_ShutdownTime sb) wall ∧ e = next_look (IsStatusConditionTrue conds "Ready") exp wall ∧
  (0 ≤ d < 2 ^ 63 ∧ 0 ≤ e < 2 ^ 63)%Z ∧
  (settled = false ∨ is_Some (sb_ShutdownTime sb) → 0 < d)%Z ∧
  (IsStatusConditionTrue conds "Ready" = false ∨ is_Some exp → 0 < e)%Z ∧
  (∀ t, sb_ShutdownTime sb = Some t → wall + d ≤ Z.max t (wall + second))%Z ∧
  (∀ t, exp = Some t → wall + e ≤ Z.max t (wall + second))%Z.
Proof.
  cbv zeta. set (b := IsStatusConditionTrue c CondReady || _). set (x := cl_Lifecycle claim ≫= _).
  assert (RequeueAfter (running_requeue wall sb c) = next_look b (sb_ShutdownTime sb) wall) as ->.
  { unfold running_requeue. rewrite sandbox_requeue. unfold b.
    change (IsStatusConditionPresentAndEqual c CondFinished ConditionTrue) with (IsStatusConditionTrue c CondFinished).
    destruct (IsStatusConditionTrue c CondReady), (IsStatusConditionTrue c CondFinished); cbn [negb andb orb];
      try apply sandbox_requeue.
    unfold next_look, readyRequeue, second, millisecond. destruct (sb_ShutdownTime sb); [|done].
    by rewrite orb_comm, (proj2 (Z.ltb_lt _ _)) by lia. }
  assert (RequeueAfter (claim_requeue claim conds wall) = next_look (IsStatusConditionTrue conds "Ready") x wall) as ->.
  { unfold claim_requeue. cbn [RequeueAfter]. rewrite lifecycle_requeue. fold x.
    unfold next_look, readyRequeue, second, millisecond.
    destruct (IsStatusConditionTrue conds "Ready"), x as [t|]; try done.
    - by rewrite (proj2 (Z.ltb_lt 0 _)) by lia.
    - by rewrite andb_comm, (proj2 (Z.ltb_ge _ (500 * 1000000))) by lia. }
  destruct (next_look_bounds b (sb_ShutdownTime sb) wall) as ([? ?] & ? & ?).
  destruct (next_look_bounds (IsStatusConditionTrue conds "Ready") x wall) as ([? ?] & ? & ?). by split_and!.
Qed.
End status.

Section expiry.
Context {U P D : Type} `{UnstructuredLaws U} `{Codec U} `{Persister P}.
Context `{Oracle} `{GoRuntime} `{PatchLib} `{!Converter U} `{!ConverterLaws U} `{ConditionLib} `{!ConditionLaws}.
Context `{Driver D} `{DriverView D} `{!DriverLaws D} `{Mounts D} `{!MountLaws D}.
Context `{SandboxAPI} `{ErrorText}.
#[local] Notation World := (world U P D).
Context (env : nat → World → World).
Implicit Types (w : World) (u : U) (claim : SandboxClaim).

(** A status write leaves the other resources alone. *)
Lemma writeStatus_target {T} `{!StatusMap T} g g' u (st : T) w ns name :
  g ≠ g' → target (w_store (writeStatus g u st w).1) g' ns name = target (w_store w) g' ns name.
Proof.
  intros Hne. unfold writeStatus. destruct (setStatus u st) as [v|]; [|done]. rewrite sto_eq.
  destruct (Store.Update _ _ _ _) as [s x] eqn:E. cbn [fst snd put_store w_store].
  apply Update_cases in E as [(e & _ & ->)|(rm & old & _ & _ & _ & _ & _ & ->)]; [done|].
  unfold target. rewrite resources_apply. destruct (resources (w_store w) !! g'); [|done].
  rewrite lookup_apply. simpl. by rewrite decide_False by naive_solver.
Qed.

Lemma deleted_gone n g ns name w t :
  keyed (w_store w) → target (w_store w) g ns name = Some t →
  target (w_store (Delete_n (S n) g ns name w).1) g ns name = None ∧
  ∃ v, (Delete_n (S n) g ns name w).2 = Ok v.
Proof.
  intros K Ht. destruct (Delete_n_step n _ _ _ _ _ K Ht) as (s1 & v & _ & _ & -> & Hgone & R1).
  split; [|by eexists]. eapply (target_gone _ (put_store s1 w)); [|exact Hgone].
  apply (hook_safe (λ _ _, True) false); [apply Delete_safe_any|by apply within_any; eapply keyed_removes].
Qed.

(** The policy of an expired claim. *)
Definition deletes_claim claim : Prop :=
  ∃ lc, cl_Lifecycle claim = Some lc ∧
    (lc_ShutdownPolicy lc = ShutdownPolicyDelete ∨ lc_ShutdownPolicy lc = ShutdownPolicyDeleteForeground).

#[export] Instance deletes_claim_dec claim : Decision (deletes_claim claim).
Proof.
  unfold deletes_claim. destruct (cl_Lifecycle claim) as [lc|]; [|right; naive_solver].
  destruct (decide (lc_ShutdownPolicy lc = ShutdownPolicyDelete ∨
                    lc_ShutdownPolicy lc = ShutdownPolicyDeleteForeground)); [left|right]; naive_solver.
Defined.

(** A claim's time is up: its shutdown time has come, or its sandbox has been
    finished for its time to live. *)
Definition time_up claim (now : Z) : Prop :=
  ∃ lc, cl_Lifecycle claim = Some lc ∧
    ((∃ t, lc_ShutdownTime lc = Some t ∧ (t ≤ now)%Z) ∨
     (∃ ttl fc, lc_TTLSecondsAfterFinished lc = Some ttl ∧
        FindStatusCondition (cs_Conditions (cl_Status claim)) "Finished" = Some fc ∧
        cd_Status fc = ConditionTrue ∧ (cd_LastTransitionTime fc + ttl * 1000000000 ≤ now)%Z)).

Lemma claimExpired_spec claim now : claimExpired claim now = true ↔ time_up claim now.
Proof.
  unfold claimExpired, time_up. change CondFinished with "Finished". change second with 1000000000%Z.
  destruct (cl_Lifecycle claim) as [lc|]; [|split; [done|by intros (? & ? & _)]]. rewrite orb_true_iff. split.
  - intros Hor. exists lc. split; [done|]. destruct Hor as [Ht|Ht]; [left|right].
    + destruct (lc_ShutdownTime lc) as [t|]; [|done]. exists t. split; [done|].
      by apply negb_true_iff, Z.ltb_ge in Ht.
    + destruct (lc_TTLSecondsAfterFinished lc) as [ttl|]; [|done].
      destruct (FindStatusCondition _ "Finished") as [fc|] eqn:Hf; [|done]. exists ttl, fc.
      apply andb_true_iff in Ht as [Hs%bool_decide_eq_true Ht%negb_true_iff%Z.ltb_ge]. done.
  - intros (lc' & [= <-] & [(t & -> & Ht)|(ttl & fc & -> & -> & -> & Ht)]); [left|right].
    + by apply negb_true_iff, Z.ltb_ge.
    + by apply negb_true_iff, Z.ltb_ge.
Qed.

(** What is stored of the claim: the status [st]. *)
Definition stored_claim (s : Store U P) ns name (st : SandboxClaimStatus) : Prop :=
  ∃ u v, Get SandboxClaimGVR ns name s = Ok u ∧ StatusOf u = Some v ∧ ToStatus st = Some v.

(** C37. An expired claim.  Over a claim whose time is up, a pass deletes the claim
    under the policies Delete and DeleteForeground.  Under any other policy the
    sandbox its status names is deleted if this claim controls it, with its
    container if the driver finds and removes it (errors are dropped), and
    otherwise left alone; and the claim stays, its stored status saying Ready
    False with reason ClaimExpired, unless that status cannot be written. *)
Theorem claim_expiry ns name w w' out u claim :
  keyed (w_store w) → slashless (w_store w) → namespaced_gvr (w_store w) SandboxGVR →
  namespaced_gvr (w_store w) SandboxClaimGVR → no_byte slash ns = true →
  Get SandboxClaimGVR ns name (w_store w) = Ok u → FromUnstructured u = Some claim →
  time_up claim (w_now w) → reconcileClaim env ns name w = (w', out) →
  let bound_name := cs_SandboxName (cl_Status claim) in
  if decide (deletes_claim claim)
  then target (w_store w') SandboxClaimGVR ns name = None ∧ out = Ok no_requeue
  else
    (is_ok out = true → ∃ st, stored_claim (w_store w') ns name st ∧
       IsStatusConditionTrue (cs_Conditions st) "Ready" = false ∧
       (cd_Reason <$> FindStatusCondition (cs_Conditions st) "Ready") = Some "ClaimExpired") ∧
    (∀ sbU, bound_name ≠ "" → target (w_store w) SandboxGVR ns bound_name = Some sbU →
       if decide (controllerOwnerUID sbU = GetUID u)
       then target (w_store w') SandboxGVR ns bound_name = None ∧
            (removable (w_drv w) ns bound_name → container_of (w_drv w') ns bound_name = None)
       else target (w_store w') SandboxGVR ns bound_name = Some sbU ∧ w_drv w' = w_drv w).
Proof.
  intros K Hsl Hns Hnc Hslash Hg Hu Hexp%claimExpired_spec. unfold reconcileClaim. rewrite Hg, Hu, Hexp.
  apply from_claim_meta in Hu as Hm. apply Get_target in Hg.
  destruct (target_named _ _ _ _ _ K Hsl Hnc Hslash Hg) as [Hgn Hgm].
  unfold handleClaimExpiry. rewrite Hm. simpl m_Namespace. simpl m_Name. rewrite Hgn, Hgm.
  set (policy := match cl_Lifecycle claim with Some _ => _ | None => _ end).
  assert ((policy = ShutdownPolicyDelete ∨ policy = ShutdownPolicyDeleteForeground) ↔ deletes_claim claim) as Hpol.
  { unfold policy, deletes_claim. destruct (cl_Lifecycle claim) as [lc|]; [case_decide as Hc|].
    - split; [by exists lc|]. intros (lc' & [= <-] & ?). done.
    - split; [intros [Hx|Hx]; by exfalso|]. intros (lc' & [= <-] & [Hx|Hx]); by rewrite Hx in Hc.
    - split; [intros [Hx|Hx]; by exfalso|]. by intros (? & ? & ?). }
  cbv zeta. destruct (decide (deletes_claim claim)) as [Hd|Hd].
  - rewrite decide_True by tauto. destruct (deleted_gone 2 _ _ _ _ _ K Hg) as [Hgone Hok].
    unfold Delete. destruct (Delete_n 3 _ _ _ w) as [w1 x]. cbn [fst snd] in Hgone, Hok.
    destruct Hok as [v ->]. by intros [= <- <-].
  - rewrite decide_False by tauto. set (w1 := match existing_binding claim w with Some _ => _ | None => w end).
    set (c := setCondRaw _ _ _ _ _ _ _). intros Ew.
    pose proof (writeStatus_drv SandboxClaimGVR u (with_conds (cl_Status claim) c) w1) as Hdrv.
    pose proof (status_written SandboxClaimGVR u (with_conds (cl_Status claim) c) w1) as Hwr.
    pose proof (λ ns0 n0, writeStatus_target SandboxClaimGVR SandboxGVR u (with_conds (cl_Status claim) c) w1 ns0 n0 ltac:(done)) as Hsame.
    destruct (writeStatus SandboxClaimGVR u _ w1) as [w2 e]. cbn [fst] in Hdrv, Hsame.
    apply pair_eq in Ew as [<- <-]. split.
    + intros Hok. destruct e as [[]|]; [|done]. destruct (Hwr w2 eq_refl) as (v & u' & Hv & Hget & Hst).
      rewrite Hgn, Hgm in Hget. exists (with_conds (cl_Status claim) c).
      destruct (find_setCondRaw (cs_Conditions (cl_Status claim)) "Ready" ConditionFalse ClaimExpiredReason
        "Sandbox cleanup initiated." (claim_gen claim) (w_now w1)) as (a & Ec & _). fold c in Ec.
      unfold IsStatusConditionTrue, IsStatusConditionPresentAndEqual. cbn [cs_Conditions with_conds]. rewrite Ec.
      split; [by exists u', v|done].
    + intros sbU Hne Ht. rewrite Hsame, Hdrv. unfold w1, existing_binding. rewrite Hm. cbn [m_Namespace m_UID meta_of].
      rewrite Hgn, (decide_False (P := cs_SandboxName (cl_Status claim) = "")) by done. rewrite (proj2 (Get_target _ _ _ _ sbU) Ht).
      destruct (decide (controllerOwnerUID sbU = GetUID u)); [|done].
      destruct (sandbox_deleted 2 _ _ _ _ K Hsl Hns Hslash Ht) as [Hd1 Hd2]. split; [exact Hd1|]. intros Hr. apply Hd2. by left.
Qed.

(** C38. A claim's stored status mirrors its sandbox.  Take a pass that ends well
    over a claim whose time is not up, whose template is found, and which has got
    the sandbox [sbU]: the claim is stored afterwards with a status that names
    that sandbox and has its addresses; Ready has the sandbox's status, reason and
    message, and is False when the sandbox has none; Finished is the sandbox's,
    and absent exactly when the sandbox has none; and a condition whose status has
    not changed keeps its transition time, from which the time to live is
    counted. *)
Theorem claim_mirrors ns name w w' out u claim tmpl w1 sbU adopted :
  keyed (w_store w) → slashless (w_store w) → namespaced_gvr (w_store w) SandboxClaimGVR → no_byte slash ns = true →
  Get SandboxClaimGVR ns name (w_store w) = Ok u → FromUnstructured u = Some claim →
  ¬ time_up claim (w_now w) → resolve_template ns claim w = Resolved tmpl →
  getOrCreateSandbox env u claim tmpl (cl_WarmPoolRef claim) w = (w1, Ok (sbU, adopted)) →
  reconcileClaim env ns name w = (w', Ok out) →
  let sb := bound_status sbU in
  ∃ st, stored_claim (w_store w') ns name st ∧
    cs_SandboxName st = GetName sbU ∧ cs_PodIPs st = ss_PodIPs sb ∧
    (gist <$> FindStatusCondition (cs_Conditions st) "Ready") = Some (ready_gist (ss_Conditions sb)) ∧
    (gist <$> FindStatusCondition (cs_Conditions st) "Finished") = finished_gist (ss_Conditions sb) ∧
    (∀ t o n, t = "Ready" ∨ t = "Finished" →
       FindStatusCondition (cs_Conditions (cl_Status claim)) t = Some o →
       FindStatusCondition (cs_Conditions st) t = Some n →
       cd_Status n = cd_Status o → cd_LastTransitionTime n = cd_LastTransitionTime o).
Proof.
  intros K Hsl Hnc Hslash Hg Hu Hexp Hres Hgot. unfold reconcileClaim. rewrite Hg, Hu.
  rewrite <-claimExpired_spec in Hexp. rewrite (not_true_is_false _ Hexp), Hres, Hgot.
  apply Get_target in Hg. destruct (target_named _ _ _ _ _ K Hsl Hnc Hslash Hg) as [Hgn Hgm].
  unfold mirror_sandbox. cbv zeta. set (w2 := if adopted then _ else w1).
  set (st := mkClaimStatus _ _ _). pose proof (status_written SandboxClaimGVR u st w2) as Hwr.
  destruct (writeStatus SandboxClaimGVR u st w2) as [w3 [[]|e]]; [|done]. intros [= <- _].
  destruct (Hwr w3 eq_refl) as (v & u' & Hv & Hget & Hst). rewrite Hgn, Hgm in Hget.
  destruct (mirrored_spec claim (ss_Conditions (bound_status sbU)) (w_now w2)) as (Hr & Hf & Hk).
  exists st. split; [by exists u', v|]. by split_and!.
Qed.
End expiry.
