(* ===== verification/WarmPool.v ===== *)
(** [internal/reconciler/warmpool.go] and [template.go]: the SandboxWarmPool
    and SandboxTemplate reconcilers. *)

From S2P Require Import Prelude GoStrings K8s Apis Store StoreFacts Patch StoreSpec Core Driver.
From S2P Require Import Build Reconciler Pvc Sandbox Claim.
Local Open Scope string_scope.

(** [a.After(b)]; the zero time is before every other. *)
Definition time_after (a b : option Z) : bool :=
  match a, b with
  | Some x, Some y => (y <? x)%Z
  | Some _, None => true
  | None, _ => false
  end.

Section warmpool.
Context {U P D : Type} `{UnstructuredLaws U} `{Codec U} `{Persister P}.
Context `{Oracle} `{GoRuntime} `{!Converter U} `{Driver D} `{ConditionLib}.
Context `{SandboxAPI}.
#[local] Notation World := (world U P D).
Implicit Types (w : World) (u : U).

Definition pool_labels (name tmplName : string) : gmap string string :=
  <[SandboxWarmPoolLabel := nameHash name]>
    (<[SandboxTemplateRefHashLabel := nameHash tmplName]>
      (<[SandboxLaunchTypeLabel := SandboxLaunchTypeWarm]>
        {[CreatedByLabel := "controller"]})).

(** Excess members: unready first, then newest. *)
Definition excess_first (a b : U) : bool :=
  if Bool.eqb (isSandboxReady a) (isSandboxReady b)
  then time_after (GetCreationTimestamp a) (GetCreationTimestamp b)
  else negb (isSandboxReady a).

(** The template, when it exists and decodes. *)
Definition pool_template (ns tmplName : string) w : option SandboxTemplate :=
  match Get TemplateGVR ns tmplName (w_store w) with
  | Ok tu => FromUnstructured tu
  | Err _ => None
  end.

(** [n] new members: a build error ends the loop, a store error the pass. *)
Fixpoint create_members u (tmpl : SandboxTemplate) (ns name : string)
  (labels : gmap string string) (n : nat) w : World * res rec_error () :=
  match n with
  | 0 => (w, Ok ())
  | S n =>
      match buildSandbox tmpl ns "" (name +:+ "-") (Some u) "SandboxWarmPool" labels [] [] None with
      | Err _ => (w, Ok ())
      | Ok sb =>
          let '(w, r) := sto (Create SandboxGVR sb) w in
          match r with
          | Err e => (w, Err (RApi e))
          | Ok _ => create_members u tmpl ns name labels n w
          end
      end
  end.

Definition delete_member (ns : string) w (sb : U) : World := (Delete SandboxGVR ns (GetName sb) w).1.

(** [excess] deletions; running past the end of the slice panics. *)
Definition delete_members (ns : string) (mine : list U) (excess : nat) w : World * res rec_error () :=
  let sorted := sort_slice excess_first mine in
  (foldl (delete_member ns) w (take excess sorted),
   if decide (excess ≤ length mine)%nat then Ok () else Err RPanic).

Definition resize u (name ns : string) (tmpl : option SandboxTemplate) (tmplName : string)
  (mine : list U) (desired : Z) w : World * res rec_error () :=
  let n := Z.of_nat (length mine) in
  match tmpl with
  | Some t =>
      if (n <? desired)%Z
      then create_members u t ns name (pool_labels name tmplName) (Z.to_nat (desired - n)) w
      else if (desired <? n)%Z then delete_members ns mine (Z.to_nat (n - desired)) w
      else (w, Ok ())
  | None =>
      if (desired <? n)%Z then delete_members ns mine (Z.to_nat (n - desired)) w else (w, Ok ())
  end.

Definition reconcileWarmPool (ns name : string) w : World * res rec_error Result :=
  match Get WarmPoolGVR ns name (w_store w) with
  | Err e => (w, if IsNotFound e then Ok no_requeue else Err (RApi e))
  | Ok u =>
      match FromUnstructured u : option SandboxWarmPool with
      | None => (w, Err RConvert)
      | Some pool =>
          let desired := default 1%Z (wp_Replicas pool) in
          let tmplName := wp_TemplateRef pool in
          let tmpl := pool_template ns tmplName w in
          match List SandboxGVR ns (λ _, true) (w_store w) with
          | Err e => (w, Err (RApi e))
          | Ok lr =>
              let mine := filter (λ sb, ownedBy sb "SandboxWarmPool" name = true) (lr_Items lr) in
              let ready := length (filter (λ sb, isSandboxReady sb = true) mine) in
              let '(w, r) := resize u name ns tmpl tmplName mine desired w in
              match r with
              | Err e => (w, Err e)
              | Ok _ =>
                  let st := mkWarmPoolStatus (length mine) ready
                              (SandboxWarmPoolLabel +:+ "=" +:+ nameHash name) in
                  let '(w, e) := writeStatus WarmPoolGVR u st w in
                  (w, (λ _, no_requeue) <$> e)
              end
          end
      end
  end.

(** [reconcileTemplate]: the warnings it logs are its only effect. *)
Inductive template_warning := NoContainers | MultipleContainers.

Definition reconcileTemplate (ns name : string) w : res rec_error (Result * list template_warning) :=
  match Get TemplateGVR ns name (w_store w) with
  | Err e => if IsNotFound e then Ok (no_requeue, []) else Err (RApi e)
  | Ok u =>
      match FromUnstructured u : option SandboxTemplate with
      | None => Err RConvert
      | Some tmpl =>
          let n := length (Containers (bp_PodSpec (tm_Blueprint tmpl))) in
          Ok (no_requeue,
              if decide (n = 0) then [NoContainers]
              else if decide (1 < n)%nat then [MultipleContainers] else [])
      end
  end.
End warmpool.
