(* ===== verification/WarmPoolSpec.v ===== *)
(** What the SandboxWarmPool reconciler guarantees: one pass brings the number
    of members to the desired one, removing the least useful members first, and
    a negative number of replicas panics. *)

From S2P Require Import Prelude GoStrings K8s Apis Store StoreFacts Patch Persist Concrete.
From S2P Require Import StoreSpec Core Driver Build Reconciler ConcreteApi Cascade Sandbox.
From S2P Require Import SandboxSpec Claim ClaimSpec WarmPool.
From Stdlib Require Import Sorted.
Local Open Scope string_scope.

Section warmpool.
Context {U P D : Type} `{UnstructuredLaws U} `{Codec U} `{Persister P}.
Context `{Oracle} `{GoRuntime} `{PatchLib} `{!Converter U} `{!ConverterLaws U} `{ConditionLib}.
Context `{Driver D} `{DriverView D} `{!DriverLaws D} `{Mounts D} `{!MountLaws D}.
Context `{SandboxAPI}.
#[local] Notation World := (world U P D).
Implicit Types (w : World) (u : U) (s : Store U P).

(** ** Members *)

Definition is_member (ns name : string) (kv : string * U) : Prop :=
  ownedBy kv.2 "SandboxWarmPool" name = true ∧ GetNamespace kv.2 = ns.
#[export] Instance is_member_dec ns name kv : Decision (is_member ns name kv) := _.

(** The pool's members, by key. *)
Definition members s (ns name : string) : gmap string U :=
  filter (is_member ns name) (objects s SandboxGVR).

(** The list the pass works on. *)
Definition mine s (ns name : string) : list U :=
  match List SandboxGVR ns (λ _, true) s with
  | Ok lr => filter (λ sb, ownedBy sb "SandboxWarmPool" name = true) (lr_Items lr)
  | Err _ => []
  end.

Lemma filter_fmap_snd {A} (Q : A → Prop) `{∀ x, Decision (Q x)} (l : list (string * A)) :
  filter Q l.*2 = (filter (λ kv, Q kv.2) l).*2.
Proof.
  induction l as [|[k x] l IH]; [done|]. rewrite fmap_cons, !filter_cons. simpl.
  case_decide; simpl; by rewrite IH.
Qed.

Lemma mine_members s ns name :
  namespaced_gvr s SandboxGVR → ns ≠ "" → mine s ns name ≡ₚ (map_to_list (members s ns name)).*2.
Proof.
  intros (rm & Hrm & Hn) Hns. unfold mine, List, Store.meta. rewrite Hrm, Hn. simpl.
  rewrite bool_decide_true by done. unfold members. rewrite map_filter_alt.
  set (l := filter (is_member ns name) (map_to_list (objects s SandboxGVR))).
  rewrite (map_to_list_to_map l).
  2: { apply (sublist_NoDup _ (map_to_list (objects s SandboxGVR)).*1).
       - apply NoDup_fst_map_to_list.
       - apply fmap_sublist, sublist_filter. }
  subst l. rewrite !filter_fmap_snd, list_filter_filter. rewrite range_map_perm.
  apply fmap_Permutation. erewrite list_filter_iff; [reflexivity|]. intros [k v]. unfold is_member. simpl.
  destruct (decide (GetNamespace v = ns)) as [E|E];
    rewrite ?bool_decide_false, ?bool_decide_true by tauto; naive_solver.
Qed.

Lemma mine_length s ns name :
  namespaced_gvr s SandboxGVR → ns ≠ "" → length (mine s ns name) = size (members s ns name).
Proof. intros Hg Hns. by rewrite (mine_members _ _ _ Hg Hns), length_fmap, length_map_to_list. Qed.

Lemma members_lookup s ns name k u :
  members s ns name !! k = Some u ↔ lookup_obj s SandboxGVR k = Some u ∧ is_member ns name (k, u).
Proof. apply map_lookup_filter_Some. Qed.

(** In a keyed store a member sits under its own name. *)
Lemma member_key s ns name k u :
  keyed s → namespaced_gvr s SandboxGVR → members s ns name !! k = Some u → k = key true ns (GetName u).
Proof.
  intros K (rm & Hrm & Hn) (Hl & _ & Hns)%members_lookup. simpl in Hns.
  pose proof (K _ _ _ _ Hl Hrm) as Hk. by rewrite Hn, Hns in Hk.
Qed.

Lemma mine_target s ns name sb :
  keyed s → namespaced_gvr s SandboxGVR → ns ≠ "" → sb ∈ mine s ns name →
  members s ns name !! key true ns (GetName sb) = Some sb ∧ target s SandboxGVR ns (GetName sb) = Some sb.
Proof.
  intros K Hg Hns. rewrite (mine_members _ _ _ Hg Hns).
  intros ([k u] & -> & Hk%elem_of_map_to_list)%list_elem_of_fmap. simpl.
  rewrite (member_key _ _ _ _ _ K Hg Hk) in Hk. split; [done|].
  destruct Hg as (rm & Hrm & Hn). unfold target. rewrite Hrm, Hn.
  by apply members_lookup in Hk as [? _].
Qed.

Lemma mine_names s ns name :
  keyed s → namespaced_gvr s SandboxGVR → ns ≠ "" → NoDup (GetName <$> mine s ns name).
Proof.
  intros K Hg Hns. rewrite (mine_members _ _ _ Hg Hns).
  apply (NoDup_fmap_1 (key true ns)). rewrite <-!list_fmap_compose.
  assert ((key true ns ∘ GetName ∘ snd) <$> map_to_list (members s ns name) =
          (map_to_list (members s ns name)).*1) as ->; [|apply NoDup_fst_map_to_list].
  apply list_fmap_ext. intros i [k u] Hi%list_elem_of_lookup_2. apply elem_of_map_to_list in Hi.
  simpl. by rewrite (member_key _ _ _ _ _ K Hg Hi).
Qed.

(** ** Deleting *)

Lemma sandbox_dies t g u : dies (λ _ _, True) false (SandboxGVR, t) g u → g = SandboxGVR → u = t.
Proof.
  intros Hd ->. inversion Hd as [|? [g1 u1] ? Ho Hr]; subst; [done|].
  destruct Ho as [_ [(_ & Hg & _)|[(? & _)|(? & _)]]]; [|done..]. simpl in Hg. subst g1.
  inversion Hr as [|? ? ? Ho2 _]; subst.
  destruct Ho2 as [_ [(? & _)|[(? & _)|(? & _)]]]; done.
Qed.

Lemma delete_member_spec ns w sb t :
  keyed (w_store w) → namespaced_gvr (w_store w) SandboxGVR →
  target (w_store w) SandboxGVR ns (GetName sb) = Some t →
  let w' := delete_member ns w sb in
  keyed (w_store w') ∧ resources (w_store w') = resources (w_store w) ∧
  objects (w_store w') SandboxGVR = delete (key true ns (GetName sb)) (objects (w_store w) SandboxGVR).
Proof.
  intros K Hg Ht. cbv zeta. pose proof (Delete_safe_any 3 SandboxGVR ns (GetName sb) w (within_any _ K)) as Hs.
  rewrite Ht in Hs. destruct (deleted_gone 2 _ _ _ _ _ K Ht) as [Hgone _].
  unfold delete_member, Delete. set (w' := (Delete_n 3 _ _ _ _).1) in *.
  split; [by eapply keyed_removes|]. split; [apply Hs|].
  destruct Hg as (rm & Hrm & Hn). unfold target in Ht, Hgone.
  rewrite (rm_res _ _ _ Hs), Hrm, Hn in Hgone. rewrite Hrm, Hn in Ht.
  apply map_eq. intros k. rewrite lookup_delete. case_decide as Hk; [by subst k|].
  change (lookup_obj (w_store w') SandboxGVR k = lookup_obj (w_store w) SandboxGVR k).
  destruct (lookup_obj (w_store w) SandboxGVR k) as [v|] eqn:Hv.
  - destruct (rm_own _ _ _ Hs _ _ _ Hv) as [?|Hd]; [done|].
    apply sandbox_dies in Hd as ->; [|done]. exfalso. apply Hk.
    pose proof (K _ _ _ _ Hv Hrm) as E1. pose proof (K _ _ _ _ Ht Hrm) as E2. congruence.
  - destruct (lookup_obj (w_store w') SandboxGVR k) eqn:E; [|done].
    apply (rm_sub _ _ _ Hs) in E. congruence.
Qed.

(** Removing several keys. *)
Definition without (ks : list string) (m : gmap string U) : gmap string U := foldl (λ m k, delete k m) m ks.

Lemma delete_members_objects ns (l : list U) w :
  keyed (w_store w) → namespaced_gvr (w_store w) SandboxGVR → NoDup (GetName <$> l) →
  (∀ sb, sb ∈ l → target (w_store w) SandboxGVR ns (GetName sb) = Some sb) →
  let w' := foldl (delete_member ns) w l in
  keyed (w_store w') ∧ resources (w_store w') = resources (w_store w) ∧
  objects (w_store w') SandboxGVR = without ((λ sb, key true ns (GetName sb)) <$> l) (objects (w_store w) SandboxGVR).
Proof.
  revert w; induction l as [|sb l IH]; intros w K Hg Hnd Ht; [done|]. simpl.
  apply NoDup_cons in Hnd as [Hni Hnd].
  destruct (delete_member_spec ns w sb sb K Hg (Ht sb (list_elem_of_here _ _))) as (K1 & R1 & E1).
  destruct (IH (delete_member ns w sb) K1) as (K2 & R2 & E2); [|done| |].
  - unfold namespaced_gvr. by rewrite R1.
  - intros x Hx. rewrite <-(Ht x) by by right. unfold target, lookup_obj. rewrite R1, E1.
    destruct Hg as (rm & -> & ->). apply lookup_delete_ne.
    assert (GetName x ≠ GetName sb) as Hne.
    { intros E. apply Hni. rewrite <-E. by apply list_elem_of_fmap_2. }
    unfold key. intros E. apply Hne. symmetry. by do 2 apply str_app_inj_l in E.
  - split_and!; [done|congruence|by rewrite E2, E1].
Qed.

Lemma without_lookup ks m k : without ks m !! k = if decide (k ∈ ks) then None else m !! k.
Proof.
  revert m; induction ks as [|k0 ks IH]; intros m; [done|]. unfold without in *. simpl. rewrite IH.
  rewrite lookup_delete. repeat case_decide; set_solver.
Qed.

Lemma members_without s s' ns name ks :
  objects s' SandboxGVR = without ks (objects s SandboxGVR) →
  NoDup ks → (∀ k, k ∈ ks → is_Some (members s ns name !! k)) →
  size (members s' ns name) = (size (members s ns name) - length ks)%nat.
Proof.
  unfold members. intros ->. generalize (objects s SandboxGVR). clear s s'. intros m Hnd.
  revert m; induction Hnd as [|k ks Hk Hnd IH]; intros m Hall; [simpl; lia|].
  unfold without in *. simpl. rewrite IH.
  - rewrite map_filter_delete, map_size_delete_Some by (apply Hall; left). lia.
  - intros k' Hk'. rewrite map_filter_delete, lookup_delete_ne by (by intros ->).
    apply Hall. by right.
Qed.

(** ** Creating *)

Lemma members_put s ns name k t v :
  lookup_obj s SandboxGVR k = None → is_member ns name (k, v) →
  size (members (apply_write (WPut t SandboxGVR k v) s) ns name) = S (size (members s ns name)).
Proof.
  intros Hk Hv. assert (objects (apply_write (WPut t SandboxGVR k v) s) SandboxGVR =
                        <[k := v]> (objects s SandboxGVR)) as E.
  { apply map_eq. intros k'. rewrite lookup_insert.
    change (lookup_obj (apply_write (WPut t SandboxGVR k v) s) SandboxGVR k' =
            if decide (k = k') then Some v else lookup_obj s SandboxGVR k').
    rewrite lookup_apply. simpl. repeat case_decide; naive_solver. }
  unfold members. rewrite E, map_filter_insert_True by done.
  apply map_size_insert_None. apply map_lookup_filter_None. by left.
Qed.

Lemma create_members_spec u tmpl ns name labels n w w' :
  namespaced_gvr (w_store w) SandboxGVR → GetName u = name →
  is_ok (buildSandbox tmpl ns "" (name +:+ "-") (Some u) "SandboxWarmPool" labels [] [] None) = true →
  create_members u tmpl ns name labels n w = (w', Ok ()) →
  resources (w_store w') = resources (w_store w) ∧
  size (members (w_store w') ns name) = (n + size (members (w_store w) ns name))%nat ∧
  (∀ k, is_Some (lookup_obj (w_store w) SandboxGVR k) → is_Some (lookup_obj (w_store w') SandboxGVR k)).
Proof.
  intros Hg Hu. destruct (buildSandbox _ _ _ _ _ _ _ _ _ _) as [sb|] eqn:Hb; [|done]. intros _.
  apply buildSandbox_owner in Hb as Hsb. destruct Hsb as (Ho & _ & Hns & _).
  revert w Hg. induction n as [|n IH]; intros w Hg; cbn [create_members]; [by intros [= <-]|].
  rewrite Hb, sto_eq. destruct (Create SandboxGVR sb (w_store w)) as [s' x] eqn:E. cbn [fst snd].
  apply Create_cases in E as [(e & -> & _)|(rm & nm & u1 & Hm & Hn & Hv & -> & ->)]; [done|].
  intros Ec. apply IH in Ec as (R2 & E2 & M2).
  2: { destruct Hg as (rm' & ? & ?). exists rm'. cbn [put_store w_store]. by rewrite resources_apply. }
  cbn [put_store w_store] in R2, E2, M2. rewrite resources_apply in R2. split; [done|].
  split; [|intros k Hk; apply M2; rewrite lookup_apply; simpl; case_decide; eauto]. rewrite E2.
  apply meta_ok in Hm. destruct Hg as (rm' & Hrm & Hnd). assert (rm' = rm) as -> by congruence.
  rewrite Hnd in *. rewrite members_put; [lia|by destruct Hv as (_ & _ & ?)|].
  pose proof (stamp_new_name (rv (w_store w)) (next_rv (w_store w)) u1) as [_ En].
  unfold is_member. simpl. split.
  - unfold ownedBy. rewrite stamp_new_owners.
    assert (GetOwnerReferences u1 = GetOwnerReferences sb) as ->.
    { revert Hn. unfold resolve_name. repeat case_decide; [done| |by intros [= _ <-]].
      destruct (generateUniqueName _ _ _ _ _); [|done]. intros [= _ <-]. by uget_simpl. }
    rewrite Ho. simpl. by rewrite Hu, bool_decide_true.
  - rewrite En. apply resolve_name_spec in Hn as [_ ->]. done.
Qed.

(** ** The pass *)

Lemma writeStatus_objects {T} `{!StatusMap T} g g' u (st : T) w :
  g ≠ g' → objects (w_store (writeStatus g u st w).1) g' = objects (w_store w) g'.
Proof.
  intros Hne. unfold writeStatus. destruct (setStatus u st) as [v|]; [|done]. rewrite sto_eq.
  destruct (Store.Update _ _ _ _) as [s x] eqn:E. cbn [fst snd put_store w_store].
  apply Update_cases in E as [(e & _ & ->)|(rm & old & _ & _ & _ & _ & _ & ->)]; [done|].
  apply map_eq. intros k. match goal with |- objects (apply_write ?wr ?s) _ !! _ = _ =>
    change (lookup_obj (apply_write wr s) g' k = lookup_obj s g' k) end.
  rewrite lookup_apply. simpl. by rewrite decide_False by naive_solver.
Qed.

Lemma take_sorted_spec {A} (less : A → A → bool) (l : list A) n d k :
  StronglySorted (λ x y, less y x = false) l → d ∈ take n l → k ∈ drop n l → less k d = false.
Proof.
  intros Hl. revert n; induction Hl as [|x l Hl IH Hx]; intros [|n] Hd Hk; simpl in *;
    try by apply elem_of_nil in Hd.
  apply elem_of_cons in Hd as [->|Hd]; [|by apply (IH n)].
  rewrite Forall_forall in Hx. apply Hx. apply list_elem_of_lookup in Hk as [i Hi]. rewrite lookup_drop in Hi.
  by eapply list_elem_of_lookup_2.
Qed.

Lemma time_after_asym a b : time_after a b = true → time_after b a = false.
Proof. destruct a, b; simpl; try done. rewrite Z.ltb_lt, Z.ltb_ge. lia. Qed.
Lemma time_after_trans a b c : time_after b a = false → time_after c b = false → time_after c a = false.
Proof. destruct a, b, c; simpl; try done. rewrite !Z.ltb_ge. lia. Qed.

Lemma excess_first_asym (a b : U) : excess_first a b = true → excess_first b a = false.
Proof.
  unfold excess_first. destruct (isSandboxReady a), (isSandboxReady b); simpl; try done; apply time_after_asym.
Qed.
Lemma excess_first_trans (a b c : U) :
  excess_first b a = false → excess_first c b = false → excess_first c a = false.
Proof.
  unfold excess_first. destruct (isSandboxReady a), (isSandboxReady b), (isSandboxReady c); simpl;
    try done; apply time_after_trans.
Qed.

Section pass.
Context (ns name : string) (w : World).
Context (K : keyed (w_store w)) (Hg : namespaced_gvr (w_store w) SandboxGVR) (Hns : ns ≠ "").
Let m := mine (w_store w) ns name.
Let member_key_of sb := key true ns (GetName sb).

Lemma mine_inj x y : x ∈ m → y ∈ m → member_key_of x = member_key_of y → x = y.
Proof.
  unfold member_key_of. intros [Hx _]%(mine_target _ _ name _ K Hg Hns)
    [Hy _]%(mine_target _ _ name _ K Hg Hns) E. rewrite E in Hx. congruence.
Qed.

Lemma mine_stored d : d ∈ m → is_Some (lookup_obj (w_store w) SandboxGVR (member_key_of d)).
Proof. intros [Hd%members_lookup _]%(mine_target _ _ name _ K Hg Hns). destruct Hd. by eexists. Qed.

(** What a pass that resized the pool did. *)
Definition resized (desired : Z) (w1 : World) : Prop :=
  resources (w_store w1) = resources (w_store w) ∧
  Z.of_nat (size (members (w_store w1) ns name)) = desired ∧
  ∀ d k, d ∈ m → k ∈ m → lookup_obj (w_store w1) SandboxGVR (member_key_of d) = None →
    lookup_obj (w_store w1) SandboxGVR (member_key_of k) ≠ None → excess_first k d = false.

Lemma grown desired w1 :
  resources (w_store w1) = resources (w_store w) →
  Z.of_nat (size (members (w_store w1) ns name)) = desired →
  (∀ k, is_Some (lookup_obj (w_store w) SandboxGVR k) → is_Some (lookup_obj (w_store w1) SandboxGVR k)) →
  resized desired w1.
Proof.
  intros R E M. split_and!; [done|done|]. intros d k Hd _ Hgone _.
  apply mine_stored, M in Hd as [? Hd]. congruence.
Qed.

Lemma shrunk n w1 :
  delete_members ns m n w = (w1, Ok ()) → resized (length m - n) w1.
Proof.
  unfold delete_members. destruct (decide (n ≤ length m)%nat) as [Hn|]; [|done]. intros [= <-].
  pose proof (sort_slice_perm excess_first m) as Hp.
  pose proof (sort_slice_sorted excess_first m excess_first_asym excess_first_trans) as Hsort.
  set (srt := sort_slice excess_first m) in *.
  assert (Hsub : ∀ x, x ∈ take n srt → x ∈ m).
  { intros x [i Hi]%list_elem_of_lookup. rewrite <-Hp. apply lookup_take_Some in Hi as [Hi _].
    by eapply list_elem_of_lookup_2. }
  assert (NoDup (GetName <$> take n srt)) as Hnd.
  { rewrite fmap_take. eapply sublist_NoDup; [|apply sublist_take]. rewrite Hp. by apply mine_names. }
  destruct (delete_members_objects ns (take n srt) w K Hg Hnd) as (_ & R & E).
  { intros sb Hsb%Hsub. by apply (mine_target _ _ name). }
  set (w1 := foldl (delete_member ns) w (take n srt)) in *.
  assert (NoDup (member_key_of <$> take n srt)) as Hkeys.
  { change (NoDup ((key true ns ∘ GetName) <$> take n srt)). rewrite list_fmap_compose.
    apply NoDup_fmap_2; [|done]. intros a b Hab. unfold key in Hab. by do 2 apply str_app_inj_l in Hab. }
  split_and!; [done| |].
  - rewrite (members_without _ _ _ _ _ E Hkeys).
    + rewrite length_fmap, length_take, Hp, <-(mine_length _ _ _ Hg Hns). fold m. lia.
    + intros k (sb & -> & Hsb%Hsub)%list_elem_of_fmap. eexists. by apply (mine_target _ _ name).
  - intros d k Hd Hk. unfold lookup_obj. rewrite E, !without_lookup. intros Hgone Hkept.
    case_decide as Hkin; [done|]. case_decide as Hdin; cycle 1.
    { apply mine_stored in Hd as [? Hd]. unfold lookup_obj in Hd. congruence. }
    apply list_elem_of_fmap in Hdin as (x & Hx & Hin).
    rewrite (mine_inj _ _ Hd (Hsub _ Hin) Hx). eapply take_sorted_spec; [exact Hsort|exact Hin|].
    rewrite <-Hp, <-(take_drop n srt), elem_of_app in Hk. destruct Hk as [Hk|Hk]; [|done].
    exfalso. apply Hkin. by apply list_elem_of_fmap_2.
Qed.

(** New members can be made: the template is found and builds. *)
Definition grows u (tmpl : option SandboxTemplate) (tmplName : string) : bool :=
  match tmpl with
  | Some t => is_ok (buildSandbox t ns "" (name +:+ "-") (Some u) "SandboxWarmPool" (pool_labels name tmplName) [] [] None)
  | None => false
  end.

Lemma resize_spec u tmpl tmplName desired w1 :
  GetName u = name → resize u name ns tmpl tmplName m desired w = (w1, Ok ()) →
  resized (if grows u tmpl tmplName then desired
           else Z.min (size (members (w_store w) ns name)) desired) w1.
Proof.
  intros Hu. pose proof (mine_length _ _ name Hg Hns) as Hlen. fold m in Hlen.
  assert (Hdel : (desired < length m)%Z →
    delete_members ns m (Z.to_nat (length m - desired)) w = (w1, Ok ()) → resized desired w1).
  { intros Hlt Hs. replace desired with (length m - Z.to_nat (length m - desired))%Z at 1.
    - by apply shrunk.
    - unfold delete_members in Hs. case_decide; [lia|done]. }
  assert (Hsame : (w, Ok ()) = (w1, Ok () : res rec_error ()) → resized (size (members (w_store w) ns name)) w1).
  { intros [= <-]. by apply grown. }
  unfold resize, grows. destruct tmpl as [t|].
  - destruct (Z.ltb_spec (length m) desired) as [Hlt|Hge].
    + destruct (is_ok _) eqn:Hb.
      * intros (R & E & M)%create_members_spec; [|done..]. apply grown; [done|lia|done].
      * rewrite Z.min_l by lia. replace (Z.to_nat (desired - length m)) with (S (Z.to_nat (desired - length m - 1))) by lia.
        cbn [create_members]. by destruct (buildSandbox _ _ _ _ _ _ _ _ _ _).
    + assert ((if is_ok (buildSandbox t ns "" (name +:+ "-") (Some u) "SandboxWarmPool" (pool_labels name tmplName) [] [] None)
        then desired else Z.min (size (members (w_store w) ns name)) desired) = desired) as -> by (destruct (is_ok _); lia).
      destruct (Z.ltb_spec desired (length m)) as [Hgt|Heq]; [by apply Hdel|].
      intros Hw%Hsame. by replace desired with (Z.of_nat (size (members (w_store w) ns name))) by lia.
  - destruct (Z.ltb_spec desired (length m)) as [Hgt|Heq].
    + rewrite Z.min_r by lia. by apply Hdel.
    + rewrite Z.min_l by lia. apply Hsame.
Qed.
End pass.

Lemma writeStatus_resources {T} `{!StatusMap T} g u (st : T) w :
  resources (w_store (writeStatus g u st w).1) = resources (w_store w).
Proof.
  unfold writeStatus. destruct (setStatus u st) as [v|]; [|done]. rewrite sto_eq.
  destruct (Store.Update _ _ _ _) as [s x] eqn:E. cbn [fst snd put_store w_store].
  apply Update_cases in E as [(e & _ & ->)|(rm & old & _ & _ & _ & _ & _ & ->)]; [done|].
  apply resources_apply.
Qed.

Lemma writeStatus_no_panic {T} `{!StatusMap T} g u (st : T) w : (writeStatus g u st w).2 ≠ Err RPanic.
Proof.
  unfold writeStatus, setStatus. destruct (ToStatus st); [|done]. rewrite sto_eq. cbn [snd].
  destruct (Store.Update _ _ _ _).2 as [x|e]; [done|]. by destruct (IsConflict e).
Qed.

Lemma create_members_no_panic u tmpl ns name labels n w :
  (create_members u tmpl ns name labels n w).2 ≠ Err RPanic.
Proof.
  revert w; induction n as [|n IH]; intros w; cbn [create_members]; [done|].
  destruct (buildSandbox _ _ _ _ _ _ _ _ _ _); [|done]. rewrite sto_eq.
  destruct (Create _ _ _).2; [apply IH|done].
Qed.

Lemma resize_panics u name ns tmpl tmplName m desired w :
  (resize u name ns tmpl tmplName m desired w).2 = Err RPanic ↔ (desired < 0)%Z.
Proof.
  assert (Hdel : (desired < length m)%Z →
    (delete_members ns m (Z.to_nat (length m - desired)) w).2 = Err RPanic ↔ (desired < 0)%Z).
  { intros Hlt. unfold delete_members. cbn [snd]. case_decide; split; try done; lia. }
  unfold resize. destruct tmpl as [t|].
  - destruct (Z.ltb_spec (length m) desired).
    + split; [intros Hp; by apply create_members_no_panic in Hp|lia].
    + destruct (Z.ltb_spec desired (length m)); [by apply Hdel|]. cbn. split; [done|lia].
  - destruct (Z.ltb_spec desired (length m)); [by apply Hdel|]. cbn. split; [done|lia].
Qed.

(** What a pair of members in the right order looks like. *)
Lemma excess_first_false (k d : U) :
  excess_first k d = false →
  (isSandboxReady d = true → isSandboxReady k = true) ∧
  (isSandboxReady d = isSandboxReady k →
   time_after (GetCreationTimestamp k) (GetCreationTimestamp d) = false).
Proof. unfold excess_first. destruct (isSandboxReady k), (isSandboxReady d); naive_solver. Qed.


(** A negative replica count brings the process down: nothing refuses it,
    and the pass indexes past the end of the member list after deleting every
    member; with a count of zero or more no pass panics. *)
Theorem warmpool_panics ns name w u pool :
  is_Some (resources (w_store w) !! SandboxGVR) →
  Get WarmPoolGVR ns name (w_store w) = Ok u → FromUnstructured u = Some pool →
  (reconcileWarmPool ns name w).2 = Err RPanic ↔ (default 1 (wp_Replicas pool) < 0)%Z.
Proof.
  intros [rm Hrm] Hget Hpool. unfold reconcileWarmPool. rewrite Hget, Hpool.
  unfold List, Store.meta. rewrite Hrm. cbn [lr_Items].
  generalize (filter (λ sb, ownedBy sb "SandboxWarmPool" name = true)
    (filter (λ u0, (if namespaced rm && bool_decide (ns ≠ "") && bool_decide (GetNamespace u0 ≠ ns)
      then false else true) = true) (range_map (objects (w_store w) SandboxGVR)).*2)).
  intros m. set (desired := default 1%Z (wp_Replicas pool)).
  pose proof (resize_panics u name ns (pool_template ns (wp_TemplateRef pool) w) (wp_TemplateRef pool) m desired w) as Hp.
  destruct (resize _ _ _ _ _ _ _ _) as [w1 [x|e]]; cbn [snd] in *.
  - match goal with |- context [writeStatus WarmPoolGVR u ?st w1] =>
      pose proof (writeStatus_no_panic WarmPoolGVR u st w1) as Hs;
      destruct (writeStatus WarmPoolGVR u st w1) as [w2 [y|e]] end; cbn in Hs |- *; rewrite <-Hp;
      (split; [|done]); [done|intros [= ->]; by destruct Hs].
  - rewrite <-Hp. cbn. split; intros [= ->]; done.
Qed.
End warmpool.
