(* ===== verification/Manager.v ===== *)
(** [internal/reconciler/manager.go] and [Reconcilers.Wire]: which keys an
    event puts on which queue, and what a worker does with a key.

    The work queues are client-go's; a controller's calls on its queue are the
    data [qcall]. *)

From S2P Require Import Prelude GoStrings K8s Apis Store StoreFacts Patch StoreSpec Core Driver.
From S2P Require Import Build Reconciler Pvc Sandbox Claim WarmPool.
Local Open Scope string_scope.

(** ** Keys *)

Definition splitKey (k : string) : string * string :=
  match split_n2 slash k with
  | [ns; name] => (ns, name)
  | _ => ("", k)
  end.

Section keys.
Context {U : Type} `{Unstructured U}.
Definition keyOf (obj : U) : string := GetNamespace obj +:+ "/" +:+ GetName obj.
End keys.

(** ** Controllers *)

Inductive qcall :=
| QAdd (k : string)
| QForget (k : string)
| QAddRateLimited (k : string)
| QAddAfter (k : string) (after : Z)
| QDone (k : string).

Record source {U : Type} := mkSource { src_gvr : GVR; src_map : U → list string }.
Arguments source U : clear implicits.
Arguments mkSource {U} _ _.

(** [W] is the world the reconcile function runs in. *)
Record controller {U W : Type} := mkController {
  c_name : string;
  c_primary : GVR;
  c_reconcile : string → string → W → W * res rec_error Result;
  c_workers : Z;
  c_sources : list (source U);
}.
Arguments controller U W : clear implicits.
Arguments mkController {U W} _ _ _ _ _.

Section manager.
Context {U W : Type} `{Unstructured U}.
Implicit Types (ctrls : list (controller U W)) (c : controller U W).

(** The manager is its list of controllers. *)
Definition NewManager : list (controller U W) := [].

Definition Register (name : string) (primary : GVR)
  (fn : string → string → W → W * res rec_error Result) (workers : Z)
  (sources : list (source U)) ctrls : list (controller U W) :=
  (ctrls ++ [mkController name primary fn (if (workers <=? 0)%Z then 2%Z else workers) sources])%list.

(** The controller whose queue gets the key, and the call. *)
Definition Enqueue (controllerName namespace name : string) ctrls : option (controller U W * qcall) :=
  (λ ic, (ic.2, QAdd (namespace +:+ "/" +:+ name))) <$>
    list_find (λ c, c_name c = controllerName) ctrls.

(** The watches of a controller: its own resource, then its sources. *)
Definition watches c : list (source U) :=
  mkSource (c_primary c) (λ obj, [keyOf obj]) :: c_sources c.

(** The body of a watch's loop, for an event with an object. *)
Definition watch_calls (s : source U) (obj : U) : list qcall :=
  QAdd <$> filter (λ k, k ≠ "") (src_map s obj).

(** What an event on [g] adds to the queue of [c]. *)
Definition on_event c (g : GVR) (obj : U) : list qcall :=
  filter (λ s, src_gvr s = g) (watches c) ≫= (λ s, watch_calls s obj).

(** [process], with the deferred [Done]. A panic is not recovered. *)
Definition process c (k : string) (w : W) : W * option (list qcall) :=
  let '(ns, name) := splitKey k in
  let '(w, r) := c_reconcile c ns name w in
  (w, match r with
      | Err RPanic => None
      | Err _ => Some [QAddRateLimited k; QDone k]
      | Ok res =>
          Some ([QForget k] ++
                (if (0 <? RequeueAfter res)%Z then [QAddAfter k (RequeueAfter res)] else []) ++
                [QDone k])%list
      end).
End manager.

(** ** Wire *)

Section wire.
Context {U P D : Type} `{UnstructuredLaws U} `{Codec U} `{Persister P}.
Context `{Oracle} `{GoRuntime} `{PatchLib} `{!Converter U} `{Driver D} `{ConditionLib}.
Context `{SandboxAPI} `{ErrorText}.
#[local] Notation World := (world U P D).
Context (r : Reconcilers) (env : nat → World → World).

Definition Source (g : GVR) (mapFn : U → list string) : source U := mkSource g mapFn.

Definition Wire (m : list (controller U World)) : list (controller U World) :=
  let m := Register "sandbox" SandboxGVR (reconcileSandbox r) 4 [] m in
  let m := Register "sandboxclaim" SandboxClaimGVR (reconcileClaim env) 4
             [Source SandboxGVR (ownerMap "SandboxClaim")] m in
  let m := Register "sandboxwarmpool" WarmPoolGVR reconcileWarmPool 2
             [Source SandboxGVR (ownerMap "SandboxWarmPool")] m in
  let m := Register "sandboxtemplate" TemplateGVR
             (λ ns name w, (w, fst <$> reconcileTemplate ns name w)) 1 [] m in
  Register "persistentvolumeclaim" PVCGVR reconcilePVC 2 [] m.

(** [StartDriverEvents]: a container event of a sandbox. *)
Definition on_driver_event (ev : DriverEvent) (m : list (controller U World))
  : option (controller U World * qcall) :=
  if decide (de_Sandbox ev = "") then None else Enqueue "sandbox" (de_Namespace ev) (de_Sandbox ev) m.
End wire.
