(* ===== verification/ManagerSpec.v ===== *)
(** What the manager guarantees: events wake the reconcilers that depend on
    the object, and a sandbox that is neither ready nor finished keeps coming
    back. *)

From S2P Require Import Prelude GoStrings K8s Apis Store StoreFacts Patch Persist Concrete.
From S2P Require Import StoreSpec Core Driver Mapping Build Reconciler ConcreteApi Cascade Pvc.
From S2P Require Import Sandbox SandboxSpec Claim ClaimSpec WarmPool WarmPoolSpec Manager.
Local Open Scope string_scope.

Section wire.
Context {U P D : Type} `{UnstructuredLaws U} `{Codec U} `{Persister P}.
Context `{Oracle} `{GoRuntime} `{PatchLib} `{!Converter U} `{Driver D} `{ConditionLib}.
Context `{SandboxAPI} `{ErrorText}.
#[local] Notation World := (world U P D).
Context (r : Reconcilers) (env : nat → World → World).
Implicit Types (w : World) (u : U) (sb : Sandbox).

(** ** Events reach the right reconciler *)

(** An event on [obj] of [g] has [fn] run for [ns]/[name]. *)
Definition wakes (m : list (controller U World)) g (obj : U)
  (fn : string → string → World → World * res rec_error Result) (ns name : string) : Prop :=
  ∃ c k, c ∈ m ∧ c_reconcile c = fn ∧ QAdd k ∈ on_event c g obj ∧ splitKey k = (ns, name).

Lemma splitKey_key ns name : no_byte slash ns = true → splitKey (ns +:+ "/" +:+ name) = (ns, name).
Proof. intros Hns. unfold splitKey, split_n2. by rewrite cut_sep. Qed.

Lemma key_nonempty (ns name : string) : ns +:+ "/" +:+ name ≠ "".
Proof. by destruct ns. Qed.

Lemma on_event_add (c : controller U World) g (obj : U) src k :
  src ∈ watches c → src_gvr src = g → k ∈ src_map src obj → k ≠ "" → QAdd k ∈ on_event c g obj.
Proof.
  intros Hs Hg Hk Hne. unfold on_event. apply list_elem_of_bind. exists src. split.
  - unfold watch_calls. apply list_elem_of_fmap_2. by apply list_elem_of_filter.
  - by apply list_elem_of_filter.
Qed.

Lemma wakes_intro m (c : controller U World) g obj src ns name :
  c ∈ m → src ∈ watches c → src_gvr src = g → no_byte slash ns = true →
  (ns +:+ "/" +:+ name) ∈ src_map src obj → wakes m g obj (c_reconcile c) ns name.
Proof.
  intros Hc Hs Hg Hns Hk. exists c, (ns +:+ "/" +:+ name). split_and!; [done|done| |by apply splitKey_key].
  eapply on_event_add; eauto using key_nonempty.
Qed.

(** C32. A change of a sandbox reaches everyone who depends on it: the sandbox
    reconciler runs for its name, and the claim and the warm pool that own it
    are reconciled under their own names; a container event runs the
    reconciler of the sandbox it belongs to. *)
Theorem event_wakes_owner u :
  no_byte slash (GetNamespace u) = true →
  let m := Wire r env NewManager in
  wakes m SandboxGVR u (reconcileSandbox r) (GetNamespace u) (GetName u) ∧
  (∀ i ref, list_find (λ o, or_Kind o = "SandboxClaim") (GetOwnerReferences u) = Some (i, ref) →
     wakes m SandboxGVR u (reconcileClaim env) (GetNamespace u) (or_Name ref)) ∧
  (∀ i ref, list_find (λ o, or_Kind o = "SandboxWarmPool") (GetOwnerReferences u) = Some (i, ref) →
     wakes m SandboxGVR u reconcileWarmPool (GetNamespace u) (or_Name ref)) ∧
  (∀ ev, de_Sandbox ev ≠ "" → no_byte slash (de_Namespace ev) = true →
     ∃ c k, on_driver_event ev m = Some (c, QAdd k) ∧ c_reconcile c = reconcileSandbox r ∧
            splitKey k = (de_Namespace ev, de_Sandbox ev)).
Proof.
  intros Hns m. split_and!.
  - eapply (wakes_intro m (mkController "sandbox" SandboxGVR (reconcileSandbox r) 4 []));
      [left|left|done|done|]. simpl. by left.
  - intros i ref Hf. eapply (wakes_intro m (mkController "sandboxclaim" SandboxClaimGVR (reconcileClaim env) 4
      [Source SandboxGVR (ownerMap "SandboxClaim")])); [right; left|right; left|done|done|].
    simpl. unfold ownerMap. rewrite Hf. by left.
  - intros i ref Hf. eapply (wakes_intro m (mkController "sandboxwarmpool" WarmPoolGVR reconcileWarmPool 2
      [Source SandboxGVR (ownerMap "SandboxWarmPool")])); [right; right; left|right; left|done|done|].
    simpl. unfold ownerMap. rewrite Hf. by left.
  - intros ev Hs Hev. unfold on_driver_event. rewrite decide_False by done.
    eexists _, _. split; [reflexivity|]. split; [done|by apply splitKey_key].
Qed.

(** ** A sandbox that is not there yet comes back *)

Lemma requeue_pos wall sb c :
  IsStatusConditionTrue c CondReady = false → IsStatusConditionTrue c CondFinished = false →
  (0 < RequeueAfter (running_requeue wall sb c))%Z.
Proof.
  unfold running_requeue, expiryRequeue, Until, clamp_i64, readyRequeue, maxDur, second, millisecond.
  change (IsStatusConditionPresentAndEqual c CondFinished ConditionTrue)
    with (IsStatusConditionTrue c CondFinished). intros -> ->.
  destruct (sb_ShutdownTime sb) as [exp|]; cbn [RequeueAfter no_requeue negb andb orb]; [|done].
  repeat match goal with |- context [(?a <? ?b)%Z] => destruct (Z.ltb_spec a b)
                       | |- context [(?a =? ?b)%Z] => destruct (Z.eqb_spec a b) end;
    cbn [RequeueAfter orb andb]; lia.
Qed.

(** The last write of a pass: a status that is Ready or Finished. *)
Definition reported_done u w' : Prop :=
  ∃ (st : SandboxStatus) w1, w' = (writeStatus SandboxGVR u st w1).1 ∧
    (IsStatusConditionTrue (ss_Conditions st) CondReady = true ∨
     IsStatusConditionTrue (ss_Conditions st) CondFinished = true).

Definition comes_back u (out : res rec_error Result) w' : Prop :=
  match out with Ok res => (0 < RequeueAfter res)%Z ∨ reported_done u w' | Err _ => True end.

Lemma back_volumes_requeue u sb vols w w' out :
  back_volumes u sb vols w = (w', Some out) → comes_back u out w'.
Proof.
  revert w; induction vols as [|v vols IH]; intros w; simpl; [done|].
  destruct (vo_PersistentVolumeClaim v) as [src|]; [|apply IH].
  destruct (Get PVCGVR _ _ _) as [pu|e].
  - destruct (drv _ _) as [w1 [x|e]]; [apply IH|]. by intros [= _ <-].
  - destruct (IsNotFound e); [|by intros [= _ <-]].
    destruct (writeStatus _ _ _ _) as [w1 [x|e']]; intros [= _ <-]; [by left|done].
Qed.

Lemma finishRunning_requeue u sb pod info w w' out :
  finishRunning r u sb pod info w = (w', out) → comes_back u out w'.
Proof.
  unfold finishRunning. destruct (probe_container _ _ _) as [w1 probe].
  set (st := running_status _ _ _ _ _ _). destruct (writeStatus SandboxGVR u st w1) as [w2 e] eqn:E.
  intros [= <- <-]. destruct e as [x|e]; [|done]. simpl.
  destruct (IsStatusConditionTrue (ss_Conditions st) CondReady) eqn:Hr;
    [right; exists st, w1; rewrite E; auto|].
  destruct (IsStatusConditionTrue (ss_Conditions st) CondFinished) eqn:Hf;
    [right; exists st, w1; rewrite E; auto|].
  left. by apply requeue_pos.
Qed.

Lemma reconcileRunning_requeue u sb w w' out :
  reconcileRunning r u sb w = (w', out) → comes_back u out w'.
Proof.
  assert (Hfail : ∀ msg w0, (let '(w1, res) := failReady u sb msg w0 in (w1, Ok res)) = (w', out) → comes_back u out w').
  { intros msg w0. unfold failReady. intros [= _ <-]. by left. }
  unfold reconcileRunning. case_decide; [by apply Hfail|].
  destruct (foldl _ _ _) as [w1 pod]. destruct (back_volumes _ _ _ _) as [w2 [o|]] eqn:Eb.
  { intros [= <- <-]. by eapply back_volumes_requeue. }
  destruct (ensureImage _ _ _) as [w3 [x|e]]; [|apply Hfail].
  destruct (get_container _ _ _ _) as [w4 [info|msg|e]].
  - apply finishRunning_requeue.
  - apply Hfail.
  - by intros [= _ <-].
Qed.

(** C31. Liveness: a worker that takes the key of a sandbox that should be
    running never loses it.  Unless the process panics, either the pass ends
    by reporting the sandbox Ready or Finished, or the key is put back on the
    queue, delayed or rate-limited. *)
Theorem unready_comes_back ns name w w' calls u sb :
  let c := mkController "sandbox" SandboxGVR (reconcileSandbox r) 4 [] in
  let k := ns +:+ "/" +:+ name in
  no_byte slash ns = true → Get SandboxGVR ns name (w_store w) = Ok u → FromUnstructured u = Some sb →
  orphaned u w = false → (∀ exp, sb_ShutdownTime sb = Some exp → w_now w < exp)%Z →
  sb_OperatingMode sb ≠ OperatingModeSuspended →
  process (U := U) c k w = (w', Some calls) →
  (∃ d, 0 < d ∧ QAddAfter k d ∈ calls)%Z ∨ QAddRateLimited k ∈ calls ∨ reported_done u w'.
Proof.
  intros c k Hns Hg Hu Ho Hexp Hmode. unfold process, k. rewrite splitKey_key by done.
  cbn [c c_reconcile]. unfold reconcileSandbox. rewrite Hg, Hu, Ho.
  assert (match sb_ShutdownTime sb with Some exp => negb (w_now w <? exp)%Z | None => false end = false) as ->.
  { destruct (sb_ShutdownTime sb) as [exp|]; [|done]. by rewrite (proj2 (Z.ltb_lt _ _) (Hexp _ eq_refl)). }
  rewrite decide_False by done. destruct (reconcileRunning r u sb w) as [w1 out] eqn:E.
  pose proof (reconcileRunning_requeue _ _ _ _ _ E) as Hc. intros Ep.
  destruct out as [res|e].
  - apply pair_eq in Ep as [<- [= <-]]. destruct Hc as [Hc|Hc]; [left|by right; right].
    exists (RequeueAfter res). split; [done|]. rewrite (proj2 (Z.ltb_lt _ _) Hc). right. by left.
  - right. left. destruct e; simplify_eq; by left.
Qed.
End wire.
