(* ===== verification/Workers.v ===== *)
(** [internal/reconciler/manager.go], the running part: the goroutines of
    [Start], which watch and work on one queue per controller.

    The queue is client-go's: [WorkQueue] is its interface and [WorkQueueLaws]
    what its documentation promises (items are handed out in the order they were
    added, an item added again before it is handed out is handed out once, an
    item added while it is being processed is handed out again afterwards).  A
    controller at work is a queue, the key each worker is busy with, and the
    world; [cstep] takes any interleaving of its goroutines with the rest of the
    program. *)

From S2P Require Import Prelude GoStrings K8s Apis Store Concrete Core Driver Build Reconciler Manager.
From stdpp Require Import gmap.
Local Open Scope string_scope.

(** ** The queue *)

Class WorkQueue (Q : Type) := {
  q_Add : string → Q → Q;
  q_AddRateLimited : string → Q → Q;
  q_AddAfter : string → Z → Q → Q;
  q_Forget : string → Q → Q;
  q_Done : string → Q → Q;
  (** [None] when [Get] blocks *)
  q_Get : Q → option (string * Q);
  (** the delay of a key has passed *)
  q_due : string → Q → Q;
  (** what the documentation speaks of: the keys in line, those added while
      they were processed, those being processed, and the delayed ones *)
  q_line : Q → list string;
  q_redo : Q → gset string;
  q_busy : Q → gset string;
  q_later : Q → gset string;
}.

(** [Add] seen through the four views. *)
Definition added (k : string) (line : list string) (redo busy : gset string) : list string * gset string :=
  if decide (k ∈ line ∨ k ∈ redo) then (line, redo)
  else if decide (k ∈ busy) then (line, {[k]} ∪ redo) else ((line ++ [k])%list, redo).

Class WorkQueueLaws (Q : Type) `{WorkQueue Q} := {
  add_view : ∀ k q, let q' := q_Add k q in
    (q_line q', q_redo q') = added k (q_line q) (q_redo q) (q_busy q) ∧
    q_busy q' = q_busy q ∧ q_later q' = q_later q;
  later_view : ∀ k q q', q' = q_AddRateLimited k q ∨ (∃ d, (0 < d)%Z ∧ q' = q_AddAfter k d q) →
    q_line q' = q_line q ∧ q_redo q' = q_redo q ∧ q_busy q' = q_busy q ∧ q_later q' = {[k]} ∪ q_later q;
  forget_view : ∀ k q, let q' := q_Forget k q in
    q_line q' = q_line q ∧ q_redo q' = q_redo q ∧ q_busy q' = q_busy q ∧ q_later q' = q_later q;
  done_view : ∀ k q, let q' := q_Done k q in
    q_line q' = (q_line q ++ (if decide (k ∈ q_redo q) then [k] else []))%list ∧
    q_redo q' = q_redo q ∖ {[k]} ∧ q_busy q' = q_busy q ∖ {[k]} ∧ q_later q' = q_later q;
  get_view : ∀ q, match q_Get q with
    | None => q_line q = []
    | Some (k, q') => q_line q = k :: q_line q' ∧ q_redo q' = q_redo q ∧
        q_busy q' = {[k]} ∪ q_busy q ∧ q_later q' = q_later q
    end;
  due_view : ∀ k q, k ∈ q_later q → let q' := q_due k q in
    (q_line q', q_redo q') = added k (q_line q) (q_redo q) (q_busy q) ∧
    q_busy q' = q_busy q ∧ q_later q' = q_later q ∖ {[k]};
}.

Section workers.
Context {U W Q : Type} `{Unstructured U} `{WorkQueueLaws Q}.
Implicit Types (q : Q) (w : W) (c : controller U W) (k : string).

(** The calls of a controller on its queue. *)
Definition run_call q (x : qcall) : Q :=
  match x with
  | QAdd k => q_Add k q
  | QForget k => q_Forget k q
  | QAddRateLimited k => q_AddRateLimited k q
  | QAddAfter k d => q_AddAfter k d q
  | QDone k => q_Done k q
  end.
Definition run_calls (xs : list qcall) q : Q := foldl run_call q xs.

Record cstate := mkC { ct_world : W; ct_queue : Q; ct_workers : list (option string) }.
Implicit Types s : cstate.

(** [Start]: as many idle workers as the controller asks for. *)
Definition start c w q : cstate := mkC w q (replicate (Z.to_nat (c_workers c)) None).

Inductive label :=
| LEvent (calls : list qcall)
| LTake (i : nat) (k : string)
| LFinish (i : nat) (k : string) (calls : list qcall)
| LDue (k : string)
| LOther.
Implicit Types (l : label) (ls : list label).

(** One step: a watch delivers an event ([startWatch]), a worker takes a key and
    later finishes its pass ([runWorker], [process]), a delay passes, or the rest
    of the program changes the world.  A pass that panics ends the process: it
    has no step. *)
Inductive cstep c : label → cstate → cstate → Prop :=
| step_event g obj w q ws :
    cstep c (LEvent (on_event c g obj)) (mkC w q ws) (mkC w (run_calls (on_event c g obj) q) ws)
| step_take i k q q' w ws : ws !! i = Some None → q_Get q = Some (k, q') →
    cstep c (LTake i k) (mkC w q ws) (mkC w q' (<[i := Some k]> ws))
| step_finish i k calls q w w' ws : ws !! i = Some (Some k) → process c k w = (w', Some calls) →
    cstep c (LFinish i k calls) (mkC w q ws) (mkC w' (run_calls calls q) (<[i := None]> ws))
| step_due k q w ws : k ∈ q_later q → cstep c (LDue k) (mkC w q ws) (mkC w (q_due k q) ws)
| step_other w w' q ws : cstep c LOther (mkC w q ws) (mkC w' q ws).

Inductive cpath c : list label → cstate → cstate → Prop :=
| path_nil s : cpath c [] s s
| path_snoc ls l s1 s2 s3 : cpath c ls s1 s2 → cstep c l s2 s3 → cpath c (ls ++ [l]) s1 s3.

Definition is_take l : bool := match l with LTake _ _ => true | _ => false end.
Definition takes ls : nat := length (filter (λ l, is_take l = true) ls).

(** ** The views after a step *)

Lemma process_calls c k w w' calls : process c k w = (w', Some calls) →
  calls = [QAddRateLimited k; QDone k] ∨ calls = [QForget k; QDone k] ∨
  ∃ d, (0 < d)%Z ∧ calls = [QForget k; QAddAfter k d; QDone k].
Proof.
  unfold process. destruct (splitKey k) as [ns name]. destruct (c_reconcile c ns name w) as [w1 [res|[| | |]]];
    intros [= _ <-]; [|by left..]. right. destruct (0 <? RequeueAfter res)%Z eqn:E; [|by left].
  right. exists (RequeueAfter res). split; [by apply Z.ltb_lt|done].
Qed.

Lemma on_event_adds c g obj : ∃ ks, on_event c g obj = QAdd <$> ks.
Proof.
  unfold on_event. induction (filter _ (watches c)) as [|src l [ks IH]]; [by exists []|]. cbn.
  exists (filter (λ k, k ≠ "") (src_map src obj) ++ ks)%list. by rewrite fmap_app, IH.
Qed.

(** A finished pass releases its key, puts it back in line if it was added
    meanwhile, and never forgets a delayed one. *)
Lemma finish_view c k w w' calls q : process c k w = (w', Some calls) →
  let q' := run_calls calls q in
  q_line q' = (q_line q ++ (if decide (k ∈ q_redo q) then [k] else []))%list ∧
  q_redo q' = q_redo q ∖ {[k]} ∧ q_busy q' = q_busy q ∖ {[k]} ∧ q_later q ⊆ q_later q' ∧
  ((QAddRateLimited k ∈ calls ∨ ∃ d, QAddAfter k d ∈ calls) → k ∈ q_later q').
Proof.
  intros Hp. cbv zeta. destruct (process_calls _ _ _ _ _ Hp) as [-> | [-> | (d & Hd & ->)]]; cbn.
  - destruct (done_view k (q_AddRateLimited k q)) as (-> & -> & -> & ->).
    destruct (later_view k q _ (or_introl eq_refl)) as (-> & -> & -> & ->). set_solver.
  - destruct (done_view k (q_Forget k q)) as (-> & -> & -> & ->).
    destruct (forget_view k q) as (-> & -> & -> & ->). split_and!; try done.
    intros [Hx|[d Hx]]; repeat (apply elem_of_cons in Hx as [Hx|Hx]; [done|]); by apply elem_of_nil in Hx.
  - destruct (done_view k (q_AddAfter k d (q_Forget k q))) as (-> & -> & -> & ->).
    destruct (later_view k (q_Forget k q) (q_AddAfter k d (q_Forget k q))) as (-> & -> & -> & ->); [by right; exists d|].
    destruct (forget_view k q) as (-> & -> & -> & ->). set_solver.
Qed.

Lemma added_cases k line redo busy line' redo' : (line', redo') = added k line redo busy →
  (line' = line ∧ redo' = redo ∧ (k ∈ line ∨ k ∈ redo)) ∨
  (line' = line ∧ redo' = {[k]} ∪ redo ∧ k ∈ busy ∧ (k ∉ line) ∧ (k ∉ redo)) ∨
  (line' = (line ++ [k])%list ∧ redo' = redo ∧ (k ∉ busy) ∧ (k ∉ line) ∧ (k ∉ redo)).
Proof. unfold added. repeat case_decide; intros [= -> ->]; naive_solver. Qed.

(** ** One key, one worker *)

Record queue_ok q (ws : list (option string)) : Prop := {
  qo_line : NoDup (q_line q);
  qo_apart : ∀ k, k ∈ q_line q → k ∉ q_busy q;
  qo_redo : q_redo q ⊆ q_busy q;
  qo_busy : ∀ k, k ∈ q_busy q ↔ Some k ∈ ws;
  qo_one : ∀ i j k, ws !! i = Some (Some k) → ws !! j = Some (Some k) → i = j;
}.
Definition ctl_ok s : Prop := queue_ok (ct_queue s) (ct_workers s).

Lemma queue_ok_added k q q' ws : queue_ok q ws →
  (q_line q', q_redo q') = added k (q_line q) (q_redo q) (q_busy q) → q_busy q' = q_busy q → queue_ok q' ws.
Proof.
  intros [Hn Ha Hr Hb Ho] Hadd Hbusy.
  destruct (added_cases _ _ _ _ _ _ Hadd) as [(E1 & E2 & _)|[(E1 & E2 & Hk & _)|(E1 & E2 & Hk & Hl & _)]];
    constructor; rewrite ?E1, ?E2, ?Hbusy; try done.
  - set_solver.
  - apply NoDup_app. split; [done|]. split; [|apply NoDup_singleton]. intros x Hx Hx'.
    apply list_elem_of_singleton in Hx'. by subst.
  - intros x [Hx|Hx]%elem_of_app; [by apply Ha|]. apply list_elem_of_singleton in Hx. by subst.
Qed.

Lemma queue_ok_adds ks q ws : queue_ok q ws → queue_ok (run_calls (QAdd <$> ks) q) ws.
Proof.
  revert q. induction ks as [|k ks IH]; intros q Hq; [done|]. apply IH.
  destruct (add_view k q) as (Hv & Hb & _). by eapply queue_ok_added.
Qed.

Lemma queue_ok_take i k q q' ws : queue_ok q ws → ws !! i = Some None → q_Get q = Some (k, q') →
  queue_ok q' (<[i := Some k]> ws).
Proof.
  intros [Hn Ha Hr Hb Ho] Hi Hg. pose proof (get_view q) as Hv. rewrite Hg in Hv.
  destruct Hv as (El & Er & Eb & _). rewrite El in Hn, Ha. apply NoDup_cons in Hn as [Hk Hn].
  assert (k ∉ q_busy q) as Hkb by (apply Ha; left).
  assert (i < length ws)%nat as Hlt by (by apply lookup_lt_Some in Hi).
  constructor; rewrite ?Er, ?Eb; try done.
  - intros x Hx. assert (x ≠ k) by (by intros ->). specialize (Ha x). set_solver.
  - set_solver.
  - intros x. rewrite elem_of_union, elem_of_singleton, Hb. split.
    + intros [-> |Hx]; [by apply list_elem_of_insert|]. apply list_elem_of_lookup in Hx as [j Hj].
      apply list_elem_of_lookup. exists j. rewrite list_lookup_insert_ne; [done|]. intros ->. congruence.
    + intros Hx. apply list_elem_of_lookup in Hx as [j Hj].
      destruct (decide (i = j)) as [<-|Hne]; [rewrite list_lookup_insert_eq in Hj by done; left; congruence|].
      rewrite list_lookup_insert_ne in Hj by done. right. apply list_elem_of_lookup. by exists j.
  - assert (∀ j, ws !! j ≠ Some (Some k)) as Hno.
    { intros j Hj. apply Hkb, Hb, list_elem_of_lookup. by exists j. }
    intros a b x. destruct (decide (i = a)) as [<-|Ha'], (decide (i = b)) as [<-|Hb'];
      rewrite ?list_lookup_insert_eq, ?list_lookup_insert_ne by done; try done; try (by intros [= <-] ?%Hno);
      try (by intros ? [= <-]%symmetry); eauto.
    intros Hx [= <-]. by apply Hno in Hx.
Qed.

Lemma queue_ok_finish i k q ws q' : queue_ok q ws → ws !! i = Some (Some k) →
  q_line q' = (q_line q ++ (if decide (k ∈ q_redo q) then [k] else []))%list →
  q_redo q' = q_redo q ∖ {[k]} → q_busy q' = q_busy q ∖ {[k]} → queue_ok q' (<[i := None]> ws).
Proof.
  intros [Hn Ha Hr Hb Ho] Hi El Er Eb.
  assert (i < length ws)%nat as Hlt by (by apply lookup_lt_Some in Hi).
  constructor; rewrite ?El, ?Er, ?Eb.
  - case_decide as Hk; [|by rewrite app_nil_r]. apply NoDup_app. split; [done|]. split; [|apply NoDup_singleton].
    intros x Hx Hx'. apply list_elem_of_singleton in Hx' as ->. apply Ha in Hx. set_solver.
  - intros x [Hx|Hx]%elem_of_app; [apply Ha in Hx; set_solver|]. case_decide; [|by apply elem_of_nil in Hx].
    apply list_elem_of_singleton in Hx as ->. set_solver.
  - set_solver.
  - intros x. rewrite elem_of_difference, elem_of_singleton, Hb. split.
    + intros [Hx Hne]. apply list_elem_of_lookup in Hx as [j Hj]. apply list_elem_of_lookup. exists j.
      rewrite list_lookup_insert_ne; [done|]. intros ->. congruence.
    + intros Hx. apply list_elem_of_lookup in Hx as [j Hj].
      destruct (decide (i = j)) as [<-|Hne]; [by rewrite list_lookup_insert_eq in Hj|].
      rewrite list_lookup_insert_ne in Hj by done. split; [apply list_elem_of_lookup; by exists j|].
      intros ->. by apply Hne, (Ho _ _ k).
  - intros a b x. destruct (decide (i = a)) as [<-|Ha'], (decide (i = b)) as [<-|Hb'];
      rewrite ?list_lookup_insert_eq, ?list_lookup_insert_ne by done; try done. eauto.
Qed.

Lemma step_ok c l s s' : cstep c l s s' → ctl_ok s → ctl_ok s'.
Proof.
  unfold ctl_ok. destruct 1 as [g obj w q ws|i k q q' w ws Hi Hg|i k calls q w w' ws Hi Hp|k q w ws Hk|w w' q ws];
    cbn [ct_queue ct_workers]; intros Hok.
  - destruct (on_event_adds c g obj) as [ks ->]. by apply queue_ok_adds.
  - by eapply queue_ok_take.
  - destruct (finish_view _ _ _ _ _ q Hp) as (El & Er & Eb & _). by eapply queue_ok_finish.
  - destruct (due_view k q Hk) as (Hv & Hb & _). by eapply queue_ok_added.
  - done.
Qed.

Lemma path_ok c ls s s' : cpath c ls s s' → ctl_ok s → ctl_ok s'.
Proof. induction 1; eauto using step_ok. Qed.

Lemma start_ok c w q : q_line q = [] → q_redo q = ∅ → q_busy q = ∅ → ctl_ok (start c w q).
Proof.
  intros El Er Eb. unfold ctl_ok. cbn. constructor; rewrite ?El, ?Er, ?Eb; try set_solver.
  - apply NoDup_nil_2.
  - intros k. split; [set_solver|]. intros [Hx _]%elem_of_replicate. done.
  - intros i j k Hi. apply lookup_replicate in Hi as [Hx _]. done.
Qed.

(** C10. A key is never processed twice at the same time: however the watches,
    the workers and the delays of a controller interleave, no two of its workers
    are busy with the same key. *)
Theorem one_at_a_time c w q ls s i j k :
  q_line q = [] → q_redo q = ∅ → q_busy q = ∅ → cpath c ls (start c w q) s →
  ct_workers s !! i = Some (Some k) → ct_workers s !! j = Some (Some k) → i = j.
Proof.
  intros El Er Eb Hp. pose proof (path_ok _ _ _ _ Hp (start_ok c w q El Er Eb)) as Hok. apply (qo_one _ _ Hok).
Qed.

(** ** A key that was asked for is not forgotten *)

Definition in_line q k : Prop := k ∈ q_line q ∨ k ∈ q_redo q.

Lemma added_self k line redo busy line' redo' : (line', redo') = added k line redo busy → k ∈ line' ∨ k ∈ redo'.
Proof. intros [(->&->&?)|[(->&->&_)|(->&->&_)]]%added_cases; set_solver. Qed.

Lemma added_keep k x line redo busy line' redo' :
  (line', redo') = added k line redo busy → x ∈ line ∨ x ∈ redo → x ∈ line' ∨ x ∈ redo'.
Proof. intros [(->&->&?)|[(->&->&_)|(->&->&_)]]%added_cases; set_solver. Qed.

(** A key already in line keeps its place. *)
Lemma added_place k x n line redo busy line' redo' :
  (line', redo') = added k line redo busy → line !! n = Some x → line' !! n = Some x.
Proof. intros [(->&->&?)|[(->&->&_)|(->&->&_)]]%added_cases Hx; [done..|]. by apply lookup_app_l_Some. Qed.

Lemma adds_view ks q : let q' := run_calls (QAdd <$> ks) q in
  (∀ k, k ∈ ks → in_line q' k) ∧ (∀ k, in_line q k → in_line q' k) ∧
  (∀ n k, q_line q !! n = Some k → q_line q' !! n = Some k) ∧ q_later q' = q_later q.
Proof.
  revert q. induction ks as [|x ks IH]; intros q; cbn; [split_and!; [set_solver|done..]|].
  destruct (IH (q_Add x q)) as (I1 & I2 & I3 & I4). destruct (add_view x q) as (Hv & _ & Hl). split_and!.
  - intros k [-> |Hk]%elem_of_cons; [|by apply I1]. apply I2. by eapply added_self.
  - intros k Hk. apply I2. by eapply added_keep.
  - intros n k Hk. apply I3. by eapply added_place.
  - by rewrite <-Hl.
Qed.

(** What a step leaves of a key it does not hand out. *)
Lemma step_keeps c l s s' k : cstep c l s s' → (∀ i, l ≠ LTake i k) →
  (in_line (ct_queue s) k → in_line (ct_queue s') k) ∧
  (k ∈ q_later (ct_queue s) → k ∈ q_later (ct_queue s') ∨ in_line (ct_queue s') k).
Proof.
  destruct 1 as [g obj w q ws|i x q q' w ws Hi Hg|i x calls q w w' ws Hi Hp|x q w ws Hx|w w' q ws];
    cbn [ct_queue]; intros Hl.
  - destruct (on_event_adds c g obj) as [ks ->]. destruct (adds_view ks q) as (_ & I & _ & ->). auto.
  - pose proof (get_view q) as Hv. rewrite Hg in Hv. destruct Hv as (El & Er & _ & ->). split; [|auto].
    unfold in_line. rewrite El, Er. intros [[-> |]%elem_of_cons|]; [|auto..]. by destruct (Hl i).
  - destruct (finish_view _ _ _ _ _ q Hp) as (El & Er & _ & Hla & _). split; [|set_solver].
    unfold in_line. rewrite El, Er. intros [Hk|Hk]; [set_solver|].
    destruct (decide (k = x)) as [-> |]; [rewrite decide_True by done; set_solver|set_solver].
  - destruct (due_view x q Hx) as (Hv & _ & ->). split; [intros Hk; by eapply added_keep|].
    intros Hk. destruct (decide (k = x)) as [-> |]; [right; by eapply added_self|set_solver].
  - auto.
Qed.

Lemma takes_one l : takes [l] = if is_take l then 1%nat else 0%nat.
Proof. by destruct l. Qed.

(** One hand-out moves everyone one place forward, nothing else moves anyone. *)
Lemma step_place c l s s' k n : cstep c l s s' → (∀ i, l ≠ LTake i k) →
  q_line (ct_queue s) !! n = Some k →
  (takes [l] ≤ n)%nat ∧ q_line (ct_queue s') !! (n - takes [l])%nat = Some k.
Proof.
  destruct 1 as [g obj w q ws|i x q q' w ws Hi Hg|i x calls q w w' ws Hi Hp|x q w ws Hx|w w' q ws];
    cbn [ct_queue]; intros Hl Hn; rewrite takes_one; cbn [is_take]; rewrite ?Nat.sub_0_r.
  - destruct (on_event_adds c g obj) as [ks ->]. destruct (adds_view ks q) as (_ & _ & I & _). auto with lia.
  - pose proof (get_view q) as Hv. rewrite Hg in Hv. destruct Hv as (El & _). rewrite El in Hn.
    destruct n as [|n]; cbn in Hn; [by destruct (Hl i); injection Hn as ->|]. rewrite Nat.sub_succ, Nat.sub_0_r. split; [lia|done].
  - destruct (finish_view _ _ _ _ _ q Hp) as (-> & _). split; [lia|]. by apply lookup_app_l_Some.
  - destruct (due_view x q Hx) as (Hv & _ & _). split; [lia|]. by eapply added_place.
  - split; [lia|done].
Qed.

Lemma takes_snoc ls l : takes (ls ++ [l]) = (takes ls + takes [l])%nat.
Proof. unfold takes. by rewrite filter_app, length_app. Qed.

Lemma path_keeps c ls s s' k : cpath c ls s s' → (∀ i, LTake i k ∉ ls) →
  (in_line (ct_queue s) k → in_line (ct_queue s') k) ∧
  (k ∈ q_later (ct_queue s) → k ∈ q_later (ct_queue s') ∨ in_line (ct_queue s') k) ∧
  (∀ n, q_line (ct_queue s) !! n = Some k →
    (takes ls ≤ n)%nat ∧ q_line (ct_queue s') !! (n - takes ls)%nat = Some k).
Proof.
  induction 1 as [s|ls l s1 s2 s3 _ IH Hs]; intros Hno.
  { split_and!; [auto|auto|]. intros n Hn. change (takes []) with 0%nat. rewrite Nat.sub_0_r. split; [lia|done]. }
  assert (∀ i, l ≠ LTake i k) as Hl by (intros i ->; apply (Hno i), elem_of_app; right; left).
  destruct IH as (I1 & I2 & I3); [intros i Hi; apply (Hno i), elem_of_app; by left|].
  destruct (step_keeps _ _ _ _ k Hs Hl) as [K1 K2]. split_and!; [auto|intros Hk; destruct (I2 Hk); auto|].
  intros n Hn. destruct (I3 n Hn) as [Hle Hn']. destruct (step_place _ _ _ _ k _ Hs Hl Hn') as [Hle' Hn''].
  rewrite takes_snoc. split; [lia|]. rewrite <-Hn''. f_equal. lia.
Qed.

(** The calls by which a key asks for a pass. *)
Definition requests l k : Prop :=
  match l with
  | LEvent calls => QAdd k ∈ calls
  | LFinish _ _ calls => QAddRateLimited k ∈ calls ∨ ∃ d, QAddAfter k d ∈ calls
  | _ => False
  end.

Lemma requested c l s s' k : cstep c l s s' → requests l k →
  k ∈ q_later (ct_queue s') ∨ in_line (ct_queue s') k.
Proof.
  destruct 1 as [g obj w q ws|i x q q' w ws Hi Hg|i x calls q w w' ws Hi Hp|x q w ws Hx|w w' q ws];
    cbn [requests ct_queue]; try done.
  - destruct (on_event_adds c g obj) as [ks ->]. intros (x & [= ->] & Hx)%list_elem_of_fmap.
    right. destruct (adds_view ks q) as (I & _). by apply I.
  - intros Hr. left. destruct (finish_view _ _ _ _ _ q Hp) as (_ & _ & _ & _ & Hlater).
    assert (x = k) as ->; [|by apply Hlater].
    destruct (process_calls _ _ _ _ _ Hp) as [-> | [-> | (d & _ & ->)]];
      destruct Hr as [Hr|[d' Hr]]; repeat (apply elem_of_cons in Hr as [Hr|Hr]; [congruence|]); by apply elem_of_nil in Hr.
Qed.

(** C9. A requested key is neither lost nor starved: once an event or a pass
    that failed or asked to come back has requested a key, then as long as no
    worker has taken it the key stays delayed or in line, whatever the other
    goroutines do; one that is in line stays there, and at most those before it
    are handed out before it; and while a key is in line the workers are not
    stuck, one of them is busy or can take a key now. *)
Theorem key_never_lost c w q ls0 s l s1 ls s2 k :
  q_line q = [] → q_redo q = ∅ → q_busy q = ∅ → cpath c ls0 (start c w q) s →
  cstep c l s s1 → requests l k → cpath c ls s1 s2 → (∀ i, LTake i k ∉ ls) →
  (k ∈ q_later (ct_queue s2) ∨ in_line (ct_queue s2) k) ∧
  (in_line (ct_queue s1) k → in_line (ct_queue s2) k) ∧
  (∀ n, q_line (ct_queue s1) !! n = Some k →
    (takes ls ≤ n)%nat ∧ q_line (ct_queue s2) !! (n - takes ls)%nat = Some k) ∧
  (in_line (ct_queue s2) k → ct_workers s2 ≠ [] →
    (∃ i k', ct_workers s2 !! i = Some (Some k')) ∨ ∃ i k' s3, cstep c (LTake i k') s2 s3).
Proof.
  intros El Er Eb Hp0 Hs Hr Hp Hno. destruct (path_keeps _ _ _ _ k Hp Hno) as (I1 & I2 & I3).
  split; [destruct (requested _ _ _ _ _ Hs Hr); auto|]. split; [done|]. split; [done|]. intros Hk Hw.
  assert (ctl_ok s2) as Hok by (eauto using path_ok, step_ok, start_ok).
  destruct s2 as [w2 q2 ws]. cbn in *. destruct (q_Get q2) as [[k' q']|] eqn:Hg; pose proof (get_view q2) as Hv; rewrite Hg in Hv.
  - destruct ws as [|[k1|] ws]; [done|left; by exists 0%nat, k1|]. right. exists 0%nat, k'. eexists. by apply step_take.
  - left. destruct Hk as [Hk|Hk]; [rewrite Hv in Hk; by apply elem_of_nil in Hk|].
    apply (qo_redo _ _ Hok), (qo_busy _ _ Hok), list_elem_of_lookup in Hk as [i Hi]. eauto.
Qed.
End workers.

(** ** Witness: a queue and a controller of two workers *)

Record demo_queue := mkQ { dq_line : list string; dq_redo : gset string; dq_busy : gset string; dq_later : gset string }.

Definition demo_add (k : string) (q : demo_queue) (later : gset string) : demo_queue :=
  let '(line, redo) := added k (dq_line q) (dq_redo q) (dq_busy q) in mkQ line redo (dq_busy q) later.

#[export] Instance demo_work_queue : WorkQueue demo_queue := {
  q_Add := λ k q, demo_add k q (dq_later q);
  q_AddRateLimited := λ k q, mkQ (dq_line q) (dq_redo q) (dq_busy q) ({[k]} ∪ dq_later q);
  q_AddAfter := λ k _ q, mkQ (dq_line q) (dq_redo q) (dq_busy q) ({[k]} ∪ dq_later q);
  q_Forget := λ _ q, q;
  q_Done := λ k q, mkQ (dq_line q ++ (if decide (k ∈ dq_redo q) then [k] else [])) (dq_redo q ∖ {[k]})
                     (dq_busy q ∖ {[k]}) (dq_later q);
  q_Get := λ q, match dq_line q with
                | [] => None
                | k :: line => Some (k, mkQ line (dq_redo q) ({[k]} ∪ dq_busy q) (dq_later q))
                end;
  q_due := λ k q, demo_add k q (dq_later q ∖ {[k]});
  q_line := dq_line; q_redo := dq_redo; q_busy := dq_busy; q_later := dq_later;
}.

#[export] Instance demo_work_queue_laws : WorkQueueLaws demo_queue.
Proof.
  constructor; cbn; try done.
  - intros k q. unfold demo_add. by destruct (added _ _ _ _).
  - by intros k q q' [-> | (d & _ & ->)].
  - intros q. by destruct (dq_line q).
  - intros k q _. unfold demo_add. by destruct (added _ _ _ _).
Qed.

Definition demo_controller : controller cobj nat :=
  mkController "demo" PodGVR (λ _ _ n, (S n, if decide (n = 0%nat) then Err RConvert else Ok no_requeue)) 2 [].
Definition demo_pod_event : cobj := demo_obj "Pod" "default" "a" "1".

Definition demo_ctl : cstate := start demo_controller 0%nat (mkQ [] ∅ ∅ ∅ : demo_queue).
Definition demo_calls : list qcall := on_event demo_controller PodGVR demo_pod_event.
(** An event, a worker takes the key, the same event again. *)
Definition demo_taken : cstate (W := nat) := mkC 0%nat (mkQ [] ∅ {["default/a"]} ∅ : demo_queue) [Some "default/a"; None].
Definition demo_again : cstate (W := nat) := mkC 0%nat (mkQ [] {["default/a"]} {["default/a"]} ∅ : demo_queue) [Some "default/a"; None].

Lemma demo_calls_eq : demo_calls = [QAdd "default/a"].
Proof. vm_compute. reflexivity. Qed.

Lemma demo_taken_path :
  cpath demo_controller [LEvent demo_calls; LTake 0 "default/a"] demo_ctl demo_taken.
Proof.
  change [LEvent demo_calls; LTake 0 "default/a"] with (([] ++ [LEvent demo_calls]) ++ [LTake 0 "default/a"])%list.
  eapply path_snoc; [eapply path_snoc; [apply path_nil|apply (step_event _ PodGVR demo_pod_event)]|].
  fold demo_calls. rewrite demo_calls_eq. by apply (step_take _ 0 "default/a" (mkQ ["default/a"] ∅ ∅ ∅)).
Qed.

Lemma demo_again_step : cstep demo_controller (LEvent demo_calls) demo_taken demo_again.
Proof.
  assert (demo_again = mkC 0%nat (run_calls demo_calls (ct_queue demo_taken)) (ct_workers demo_taken)) as ->
    by (unfold demo_again; rewrite demo_calls_eq; vm_compute; reflexivity).
  apply (step_event _ PodGVR demo_pod_event).
Qed.

Lemma one_at_a_time_witness : ∃ j, ct_workers demo_taken !! j = Some (Some "default/a") ∧ 0%nat = j.
Proof.
  exists 0%nat. split; [reflexivity|].
  refine (one_at_a_time demo_controller 0%nat (mkQ [] ∅ ∅ ∅ : demo_queue) _ demo_taken 0 0 "default/a"
    _ _ _ demo_taken_path _ _); reflexivity.
Defined.

(** The event that arrives while the key is processed is kept for a second pass. *)
Lemma key_never_lost_witness : in_line (ct_queue demo_again) "default/a" ∧ q_line (ct_queue demo_again) = [].
Proof.
  destruct (key_never_lost demo_controller 0%nat (mkQ [] ∅ ∅ ∅ : demo_queue)
    [LEvent demo_calls; LTake 0 "default/a"] demo_taken (LEvent demo_calls) demo_again
    [] demo_again "default/a") as ([Hk|Hk] & _); [reflexivity|reflexivity|reflexivity|exact demo_taken_path|exact demo_again_step| | | | |].
  - cbn [requests]. rewrite demo_calls_eq. left.
  - apply path_nil.
  - intros i Hi. by apply elem_of_nil in Hi.
  - exfalso. revert Hk. cbn. set_solver.
  - split; [exact Hk|reflexivity].
Defined.
