(* ===== verification/Scenarios.v ===== *)
(** The theorems about the reconcilers applied to concrete worlds: a sandbox
    that starts, one that is suspended, one that is orphaned, one that expired,
    claims racing for a warm pool, a pool that grows. *)

From S2P Require Import Prelude GoStrings K8s Apis Store StoreFacts Patch Persist Concrete.
From S2P Require Import StoreSpec Core Driver Mapping Build Reconciler ConcreteApi Cascade Pvc.
From S2P Require Import Sandbox SandboxSpec Claim ClaimSpec WarmPool WarmPoolSpec Manager.
From S2P Require Import ManagerSpec.
Local Open Scope string_scope.

(** ** Constants and checks *)

#[export] Instance demo_api : SandboxAPI := {
  SandboxWarmPoolLabel := "agents.x-k8s.io/warm-pool-sandbox";
  SandboxTemplateRefHashLabel := "agents.x-k8s.io/sandbox-template-ref-hash";
  SandboxLaunchTypeLabel := "agents.x-k8s.io/launch-type";
  CreatedByLabel := "agents.x-k8s.io/created-by";
  SandboxLaunchTypeWarm := "warm";
  SandboxLaunchTypeCold := "cold";
  AssignedSandboxNameAnnotation := "agents.x-k8s.io/sandbox-name";
}.

#[export] Instance demo_api_laws : SandboxAPILaws.
Proof. constructor. apply (bool_decide_unpack _). vm_compute. exact I. Qed.

#[export] Instance demo_errors : ErrorText := { api_text := λ _, "api error"; convert_text := "convert" }.

Definition demo_rec : Reconcilers := mkReconcilers 0 "" "" "" "".

Notation demo_cstore := (Store cobj demo_db).

Lemma demo_slashless (s : demo_cstore) :
  forallb (λ x, no_byte slash (GetNamespace x.2.2)) (all_objects s) = true → slashless s.
Proof.
  intros Hall g k u Hl. by apply (objects_forall s (λ _ _ u, no_byte slash (GetNamespace u))) in Hl.
Qed.

Lemma demo_namespaced (s : demo_cstore) g :
  match resources s !! g with Some rm => namespaced rm | None => false end = true → namespaced_gvr s g.
Proof. unfold namespaced_gvr. destruct (resources s !! g); [eauto|done]. Qed.

Lemma demo_create_wf g u (s : demo_cstore) : wf s → (rv s + 1 <? u64_mod)%Z = true → wf (demo_create g u s).
Proof. intros W Hr%Z.ltb_lt. by apply (exec_wf (OpCreate g u)). Qed.

(** The objects, decoded. *)
Definition demo_get (g : GVR) (name : string) (s : demo_cstore) : cobj :=
  default new_obj (target s g "default" name).
Definition demo_sandbox (u : cobj) : Sandbox :=
  default (mkSandbox (mkObjectMeta "" "" "" 0) (demo_bp None) "" None None (mkSandboxStatus [] [] "" "" "" ""))
    (FromUnstructured u).
Definition demo_claim (u : cobj) : SandboxClaim :=
  default (mkClaim (mkObjectMeta "" "" "" 0) "" [] [] ∅ ∅ None (mkClaimStatus [] "" [])) (FromUnstructured u).

Ltac demo_side :=
  lazymatch goal with
  | |- _ = (_, _) => apply surjective_pairing
  | |- keyed _ => apply keyed_check_ok; vm_compute; reflexivity
  | |- slashless _ => apply demo_slashless; vm_compute; reflexivity
  | |- namespaced_gvr _ _ => apply demo_namespaced; vm_compute; reflexivity
  | |- _ => vm_compute; reflexivity
  end.

(** ** A sandbox [s] with one volume template, and no container yet *)

Definition demo_sb_spec (extra : gmap string gval) : gval :=
  GMap (extra ∪ {["images" := GList [GStr "img"]; "vcts" := GList [GStr "data"]]}).

Definition demo_sb_store (owners : list OwnerReference) (extra : gmap string gval) : demo_cstore :=
  demo_create SandboxGVR (demo_cr "Sandbox" "default" "s" "u2" owners (demo_sb_spec extra)) demo_store.

Definition demo_sb_world owners extra (d : Fake.FakeDriver) (now : Z) : demo_world :=
  mkWorld (demo_sb_store owners extra) d now now.

Definition demo_s_spec : SandboxContainerSpec :=
  mkSpec "default" "s" "u2" "img" PullIfNotPresent [] [] ∅ "" [] 8888 [] "" false (mkResources 0 0) [] ∅ false.

(** A backend that runs a container for [s]. *)
Definition demo_busy : Fake.FakeDriver := (Fake.create demo_s_spec Fake.NewFakeDriver).1.

Definition demo_start : demo_world * res rec_error Result :=
  let w := demo_sb_world [] ∅ Fake.NewFakeDriver 0 in
  let u := demo_get SandboxGVR "s" (w_store w) in
  reconcileRunning demo_rec u (demo_sandbox u) w.

Lemma reconcileRunning_witness :
  let w := demo_sb_world [] ∅ Fake.NewFakeDriver 0 in
  let u := demo_get SandboxGVR "s" (w_store w) in
  ∃ info, container_of (w_drv demo_start.1) "default" "s" = Some info ∧
    ∃ spec d, container_spec demo_rec (demo_sandbox u) (effective_pod u (demo_sandbox u) w) = Ok spec ∧
      (CreateSandboxContainer spec d).2 = Ok info ∧
      ∀ v src, v ∈ Volumes (effective_pod u (demo_sandbox u) w) → vo_PersistentVolumeClaim v = Some src →
        is_Some (volume_of (w_drv demo_start.1) (VolumeName "default" (ps_ClaimName src))).
Proof.
  intros w u. destruct (container_of (w_drv demo_start.1) "default" "s") as [info|] eqn:Hi.
  - exists info. split; [reflexivity|].
    refine (reconcileRunning_container demo_rec u (demo_sandbox u) w demo_start.1 demo_start.2 _ info _ Hi).
    + apply surjective_pairing.
    + vm_compute. reflexivity.
  - exfalso. vm_compute in Hi. discriminate Hi.
Defined.

Lemma running_status_witness :
  let info := default (mkInfo "" "" "" 0 "" ∅ ∅) (container_of demo_busy "default" "s") in
  let sb := demo_sandbox (demo_get SandboxGVR "s" (demo_sb_store [] ∅)) in
  IsStatusConditionTrue (ss_Conditions (running_status demo_rec sb info 8888 true 0)) CondReady = true.
Proof.
  intros info sb. destruct (running_status_spec demo_rec sb info 8888 true 0) as (Hr & _).
  apply Hr. repeat split; vm_compute; congruence.
Defined.

(** ** Suspending it *)

Definition demo_suspend : demo_world * res rec_error Result :=
  let w := demo_sb_world [] ∅ demo_busy 0 in
  let u := demo_get SandboxGVR "s" (w_store w) in
  reconcileSuspended u (demo_sandbox u) w.

Lemma reconcileSuspended_witness :
  container_of demo_busy "default" "s" ≠ None ∧
  container_of (w_drv demo_suspend.1) "default" "s" = None ∧
  volume_of (w_drv demo_suspend.1) = volume_of demo_busy.
Proof.
  split; [vm_compute; discriminate|]. pose (w := demo_sb_world [] ∅ demo_busy 0).
  pose (u := demo_get SandboxGVR "s" (w_store w)).
  destruct (reconcileSuspended_stops u (demo_sandbox u) w demo_suspend.1 demo_suspend.2) as (Hc & Hv & _).
  - apply surjective_pairing.
  - reflexivity.
  - reflexivity.
  - split; [exact Hc|exact Hv].
Defined.

(** ** Its claim is gone *)

Definition demo_orphan : demo_world :=
  demo_sb_world [controller_of "SandboxClaim" "gone" "u1"] ∅ demo_busy 0.

(** ** Its time is over *)

Definition demo_late (policy : gmap string gval) : demo_world :=
  demo_sb_world [] ({["shutdown" := GInt 5]} ∪ policy) demo_busy 10.

Lemma demo_removable ns n : removable demo_busy ns n.
Proof. by split. Qed.

Lemma demo_orphan_abandoned :
  abandoned (w_store demo_orphan) (demo_get SandboxGVR "s" (w_store demo_orphan)).
Proof.
  exists (controller_of "SandboxClaim" "gone" "u1"). split; [|split; [reflexivity|]].
  - apply (bool_decide_unpack _). vm_compute. exact I.
  - exists SandboxClaimGVR. split; [left; split; reflexivity|].
    assert (match target (w_store demo_orphan) SandboxClaimGVR
      (GetNamespace (demo_get SandboxGVR "s" (w_store demo_orphan))) "gone" with Some _ => false | None => true end = true) as E
      by (vm_compute; reflexivity).
    change (or_Name (controller_of "SandboxClaim" "gone" "u1")) with "gone".
    destruct (target (w_store demo_orphan) SandboxClaimGVR _ "gone"); [discriminate E|exact I].
Qed.

Lemma demo_late_kept policy : ¬ abandoned (w_store (demo_late policy)) (demo_get SandboxGVR "s" (w_store (demo_late policy))) ↔
  orphaned (demo_get SandboxGVR "s" (w_store (demo_late policy))) (demo_late policy) = false.
Proof.
  rewrite <-orphaned_abandoned; [by rewrite not_true_iff_false|vm_compute; eauto|vm_compute; eauto].
Qed.

Lemma sandbox_ends_witness :
  (let r := reconcileSandbox demo_rec "default" "s" demo_orphan in
   target (w_store r.1) SandboxGVR "default" "s" = None ∧ container_of (w_drv r.1) "default" "s" = None ∧
   r.2 = Ok no_requeue) ∧
  let r := reconcileSandbox demo_rec "default" "s" (demo_late ∅) in
  container_of (w_drv r.1) "default" "s" = None ∧ stored_expired (w_store r.1) "default" "s".
Proof.
  split.
  - intros r. pose (u := demo_get SandboxGVR "s" (w_store demo_orphan)).
    destruct (sandbox_ends demo_rec "default" "s" demo_orphan r.1 r.2 u (demo_sandbox u)) as [Ho _]; try demo_side.
    + vm_compute. eauto.
    + vm_compute. eauto.
    + destruct (Ho demo_orphan_abandoned) as (Hg & Hc & Hr). split; [exact Hg|]. split; [|exact Hr].
      apply Hc, demo_removable.
  - intros r. pose (u := demo_get SandboxGVR "s" (w_store (demo_late ∅))).
    destruct (sandbox_ends demo_rec "default" "s" (demo_late ∅) r.1 r.2 u (demo_sandbox u)) as [_ Hl]; try demo_side.
    + vm_compute. eauto.
    + vm_compute. eauto.
    + destruct (Hl (proj2 (demo_late_kept ∅) ltac:(vm_compute; reflexivity)) 5%Z) as [Hc Hp];
        [vm_compute; reflexivity|vm_compute; discriminate|].
      split; [apply Hc, demo_removable|]. apply Hp. vm_compute. reflexivity.
Defined.

(** ** A warm pool [p] of template [t], with one member [p-a], and two claims *)

Definition demo_pool_spec (replicas : Z) : gval :=
  GMap {["replicas" := GInt replicas; "template" := GStr "t"]}.

Definition demo_pool_store (replicas : Z) : demo_cstore :=
  demo_create SandboxClaimGVR (demo_cr "SandboxClaim" "default" "k2" "uid-k2" [] (GMap {["pool" := GStr "p"]}))
    (demo_create SandboxClaimGVR (demo_cr "SandboxClaim" "default" "k1" "uid-k1" [] (GMap {["pool" := GStr "p"]}))
      (demo_create SandboxGVR (demo_cr "Sandbox" "default" "p-a" "uid-a"
                                 [controller_of "SandboxWarmPool" "p" "uid-p"] (demo_sb_spec ∅))
        (demo_create WarmPoolGVR (demo_cr "SandboxWarmPool" "default" "p" "uid-p" [] (demo_pool_spec replicas))
          (demo_create TemplateGVR (demo_cr "SandboxTemplate" "default" "t" "uid-t" []
                                      (GMap {["images" := GList [GStr "img"]]}))
            demo_store)))).

Definition demo_pool_world (replicas : Z) : demo_world := mkWorld (demo_pool_store replicas) Fake.NewFakeDriver 0 0.

Lemma demo_pool_wf replicas : wf (demo_pool_store replicas).
Proof.
  unfold demo_pool_store. do 5 (apply demo_create_wf; [|vm_compute; reflexivity]). exact demo_store_wf.
Qed.

Definition demo_claim_obj (name : string) : cobj := demo_get SandboxClaimGVR name (demo_pool_store 1).

(** The sandbox reconciler writes the status of [p-a] in the window of the first
    attempt. *)
Definition demo_status_write : cobj :=
  mkObj "v1" "Sandbox" "default" "p-a" "" "" "" 0 None None ∅ ∅ [] None (Some (GStr "starting")).

Definition demo_env (i : nat) (w : demo_world) : demo_world :=
  if decide (i = 0 ∧ (rv (w_store w) + 1 < u64_mod)%Z ∧ (0 ≤ rv (w_store w))%Z)
  then put_store (exec (OpUpdate SandboxGVR demo_status_write true) (w_store w)).1 w else w.

Lemma demo_env_evolves i w : evolves (w_store w) (w_store (demo_env i w)).
Proof.
  unfold demo_env. case_decide as Hd; [|reflexivity]. destruct Hd as (_ & Hr & Hp).
  exact (exec_evolves (OpUpdate SandboxGVR demo_status_write true) _ Hr Hp I).
Qed.

#[local] Notation demo_adopt env name :=
  (adoptWarmSandbox env (demo_claim_obj name) (demo_claim (demo_claim_obj name)) "p" (demo_pool_world 1)).

Lemma adoption_witness :
  ∃ sb n, (demo_adopt demo_env "k1").2 = Some sb ∧ GetName sb = "p-a" ∧ (n ≤ 5)%nat ∧
    (∃ name, commits (demo_claim_obj "k1") (demo_claim (demo_claim_obj "k1")) "p" name
       (w_store (run_env demo_env 0 n (demo_pool_world 1))) sb (demo_adopt demo_env "k1").1) ∧
    controllerOwnerUID sb = "uid-k1".
Proof.
  destruct (demo_adopt demo_env "k1").2 as [sb|] eqn:E; [|vm_compute in E; discriminate E].
  destruct (adoption_atomic demo_env (demo_claim_obj "k1") (demo_claim (demo_claim_obj "k1")) "p"
    (demo_pool_world 1) (demo_adopt demo_env "k1").1 (demo_adopt demo_env "k1").2) as (n & Hn & Hc).
  - exact demo_env_evolves.
  - exact (demo_pool_wf 1).
  - apply keyed_check_ok. vm_compute. reflexivity.
  - apply surjective_pairing.
  - rewrite E in Hc. destruct Hc as (Hc & Ho & _).
    exists sb, n. split; [reflexivity|]. split; [|split; [exact Hn|split; [exact Hc|]]].
    + transitivity (match (demo_adopt demo_env "k1").2 with Some x => GetName x | None => "" end);
        [by rewrite E|vm_compute; reflexivity].
    + rewrite Ho. vm_compute. reflexivity.
Defined.

Lemma no_double_adoption_witness :
  let rival := demo_adopt (λ _ w, w) "k2" in
  (demo_adopt (λ _ _, rival.1) "k1").2 = None ∧
  (GetName <$> rival.2) = Some "p-a".
Proof.
  intros rival. split; [|vm_compute; reflexivity].
  destruct rival.2 as [sb|] eqn:E; [|vm_compute in E; discriminate E].
  rewrite (no_double_adoption (λ _ _, rival.1) (demo_claim_obj "k1") (demo_claim_obj "k2")
    (demo_claim (demo_claim_obj "k1")) (demo_claim (demo_claim_obj "k2")) "p" (demo_pool_world 1) rival.1 sb).
  - reflexivity.
  - exact (demo_pool_wf 1).
  - apply keyed_check_ok. vm_compute. reflexivity.
  - vm_compute. reflexivity.
  - vm_compute. reflexivity.
  - rewrite <-E. apply surjective_pairing.
  - reflexivity.
Defined.

Definition demo_template : SandboxTemplate :=
  mkTemplate (mkObjectMeta "" "" "" 0) (demo_bp None) "Allowed" "Allowed" false "".

#[local] Notation demo_bind name :=
  (getOrCreateSandbox (λ _ w, w) (demo_claim_obj name) (demo_claim (demo_claim_obj name)) demo_template "p"
     (demo_pool_world 1)).

Definition demo_bound (r : res build_error (cobj * bool)) : cobj * bool :=
  match r with Ok p => p | Err _ => (new_obj, false) end.

Definition demo_ok_result (r : res rec_error Result) : Result := match r with Ok x => x | Err _ => no_requeue end.

Lemma claim_binds_witness :
  let p := demo_bound (demo_bind "k1").2 in
  controllerOwnerUID p.1 = "uid-k1" ∧ p.2 = true ∧ GetName p.1 = "p-a" ∧
  ∃ k, lookup_obj (w_store (demo_bind "k1").1) SandboxGVR k = Some p.1.
Proof.
  intros p. assert (GetName p.1 = "p-a" ∧ p.2 = true) as [Hn Ha] by (unfold p; vm_compute; split; reflexivity).
  revert Hn Ha. unfold p. clear p. destruct (demo_bind "k1").2 as [[sb a]|e] eqn:E; [|vm_compute in E; discriminate E].
  intros Hn Ha.
  destruct (claim_binds_own (λ _ w, w) (demo_claim_obj "k1") (demo_claim (demo_claim_obj "k1")) demo_template "p"
    (demo_pool_world 1) (demo_bind "k1").1 sb a) as (Ho & Hk & _).
  - vm_compute. reflexivity.
  - rewrite <-E. apply surjective_pairing.
  - split; [|split; [exact Ha|split; [exact Hn|exact Hk]]]. cbn [demo_bound fst].
    rewrite Ho. vm_compute. reflexivity.
Defined.

(** The claim [k1] adopts the pool's member and shows that it is not ready yet. *)
Definition demo_k1_tmpl : SandboxTemplate :=
  match resolve_template "default" (demo_claim (demo_claim_obj "k1")) (demo_pool_world 1) with
  | Resolved t => t | _ => demo_template
  end.

#[local] Notation demo_k1_got :=
  (getOrCreateSandbox (λ _ w, w) (demo_claim_obj "k1") (demo_claim (demo_claim_obj "k1")) demo_k1_tmpl
    (cl_WarmPoolRef (demo_claim (demo_claim_obj "k1"))) (demo_pool_world 1)).
#[local] Notation demo_k1_pass := (reconcileClaim (λ _ w, w) "default" "k1" (demo_pool_world 1)).

Lemma demo_bound_pair (g : demo_world * res build_error (cobj * bool)) :
  is_ok g.2 = true → g = (g.1, Ok ((demo_bound g.2).1, (demo_bound g.2).2)).
Proof. by destruct g as [? [[]|]]. Qed.
Lemma demo_pass_pair (g : demo_world * res rec_error Result) : is_ok g.2 = true → g = (g.1, Ok (demo_ok_result g.2)).
Proof. by destruct g as [? []]. Qed.

Lemma claim_mirrors_witness :
  ∃ st, stored_claim (w_store demo_k1_pass.1) "default" "k1" st ∧ cs_SandboxName st = "p-a" ∧
    (gist <$> FindStatusCondition (cs_Conditions st) "Ready") = Some (ConditionFalse, "SandboxNotReady", "Sandbox is not ready").
Proof.
  assert (is_ok demo_k1_pass.2 = true) as Hok by (vm_compute; reflexivity).
  assert (is_ok demo_k1_got.2 = true) as Hgot by (vm_compute; reflexivity).
  destruct (claim_mirrors (λ _ w, w) "default" "k1" (demo_pool_world 1) demo_k1_pass.1 (demo_ok_result demo_k1_pass.2)
    (demo_claim_obj "k1") (demo_claim (demo_claim_obj "k1")) demo_k1_tmpl demo_k1_got.1 (demo_bound demo_k1_got.2).1
    (demo_bound demo_k1_got.2).2) as (st & Hst & Hn & _ & Hready & _).
  - apply keyed_check_ok. vm_compute. reflexivity.
  - apply demo_slashless. vm_compute. reflexivity.
  - apply demo_namespaced. vm_compute. reflexivity.
  - reflexivity.
  - vm_compute. reflexivity.
  - vm_compute. reflexivity.
  - rewrite <-claimExpired_spec. assert (claimExpired (demo_claim (demo_claim_obj "k1")) (w_now (demo_pool_world 1)) = false) as ->
      by (vm_compute; reflexivity). discriminate.
  - vm_compute. reflexivity.
  - exact (demo_bound_pair demo_k1_got Hgot).
  - exact (demo_pass_pair demo_k1_pass Hok).
  - exists st. split; [exact Hst|]. rewrite Hn, Hready. split; vm_compute; reflexivity.
Defined.

(** ** A claim [e] past its shutdown time, bound to a sandbox *)

Definition demo_expired_store : demo_cstore :=
  demo_create SandboxGVR (demo_cr "Sandbox" "default" "s" "u2" [controller_of "SandboxClaim" "e" "uid-e"] (demo_sb_spec ∅))
    (demo_create SandboxClaimGVR
       (mkObj "v1" "SandboxClaim" "default" "e" "" "uid-e" "" 0 None None ∅ ∅ []
          (Some (GMap {["pool" := GStr "p"; "shutdown" := GInt 5]}))
          (Some (GMap {["sandbox" := GMap {["name" := GStr "s"]}]})))
       demo_store).

Definition demo_expired_world : demo_world := mkWorld demo_expired_store demo_busy 10 10.

Lemma demo_expired_retained : ¬ deletes_claim (demo_claim (demo_get SandboxClaimGVR "e" demo_expired_store)).
Proof. intros Hd. vm_compute in Hd. destruct Hd as (lc & Hlc & Hp). injection Hlc as <-. destruct Hp; discriminate. Qed.

Lemma claim_expiry_witness :
  let r := reconcileClaim (λ _ w, w) "default" "e" demo_expired_world in
  target (w_store r.1) SandboxGVR "default" "s" = None ∧ container_of (w_drv r.1) "default" "s" = None ∧
  ∃ st, stored_claim (w_store r.1) "default" "e" st ∧
    (cd_Reason <$> FindStatusCondition (cs_Conditions st) "Ready") = Some "ClaimExpired".
Proof.
  intros r. pose (u := demo_get SandboxClaimGVR "e" demo_expired_store).
  assert (time_up (demo_claim u) (w_now demo_expired_world)) as Hup by (apply claimExpired_spec; vm_compute; reflexivity).
  pose proof (claim_expiry (λ _ w, w) "default" "e" demo_expired_world r.1 r.2 u (demo_claim u)) as He.
  cbv zeta in He. rewrite decide_False in He by exact demo_expired_retained.
  destruct He as [Hst Hb]; try demo_side; [exact Hup|].
  destruct (Hst ltac:(vm_compute; reflexivity)) as (st & Hstored & _ & Hr).
  pose (sbU := demo_get SandboxGVR "s" demo_expired_store).
  change (cs_SandboxName (cl_Status (demo_claim u))) with "s" in Hb.
  specialize (Hb sbU ltac:(discriminate) ltac:(apply Get_target; vm_compute; reflexivity)).
  rewrite decide_True in Hb by (vm_compute; reflexivity). destruct Hb as [Ht Hc].
  split; [exact Ht|]. split; [apply Hc, demo_removable|]. exists st. split; [exact Hstored|exact Hr].
Defined.

(** ** The pool grows to two members, and panics on a negative count *)


Lemma warmpool_panics_witness : (reconcileWarmPool "default" "p" (demo_pool_world (-1))).2 = Err RPanic.
Proof.
  pose (u := demo_get WarmPoolGVR "p" (demo_pool_store (-1))).
  apply (warmpool_panics "default" "p" (demo_pool_world (-1)) u (mkWarmPool (meta_of u) (Some (-1)%Z) "t")).
  - vm_compute. eexists. reflexivity.
  - vm_compute. reflexivity.
  - vm_compute. reflexivity.
  - vm_compute. reflexivity.
Defined.

(** ** Events and requeues *)

Lemma event_wakes_witness :
  let u := demo_get SandboxGVR "p-a" (demo_pool_store 1) in
  wakes (Wire demo_rec (λ _ w, w) NewManager) SandboxGVR u (reconcileWarmPool (U := cobj)) "default" "p".
Proof.
  intros u. destruct (event_wakes_owner (P := demo_db) (D := Fake.FakeDriver) demo_rec (λ _ w, w) u) as (_ & _ & Hp & _).
  - vm_compute. reflexivity.
  - exact (Hp 0 (controller_of "SandboxWarmPool" "p" "uid-p") eq_refl).
Defined.

Definition demo_deaf : Fake.FakeDriver :=
  Fake.mkFake (Fake.containers demo_busy) (Fake.specs demo_busy) (Fake.volumes demo_busy)
    (Fake.nextPort demo_busy) (Fake.events demo_busy) false (Fake.CreateErr demo_busy) (Fake.PingErr demo_busy).

#[local] Notation demo_pass :=
  (process (U := cobj) (mkController "sandbox" SandboxGVR (reconcileSandbox demo_rec) 4 []) "default/s"
     (demo_sb_world [] ∅ demo_deaf 0)).

Lemma unready_witness :
  ∃ calls, demo_pass.2 = Some calls ∧
    ((∃ d, 0 < d ∧ QAddAfter "default/s" d ∈ calls)%Z ∨ QAddRateLimited "default/s" ∈ calls ∨
     reported_done (demo_get SandboxGVR "s" (demo_sb_store [] ∅)) demo_pass.1).
Proof.
  destruct demo_pass.2 as [calls|] eqn:E; [|vm_compute in E; discriminate E].
  exists calls. split; [reflexivity|]. pose (u := demo_get SandboxGVR "s" (demo_sb_store [] ∅)).
  apply (unready_comes_back demo_rec "default" "s" (demo_sb_world [] ∅ demo_deaf 0) demo_pass.1 calls u (demo_sandbox u));
    try demo_side.
  - intros exp He. vm_compute in He. discriminate He.
  - vm_compute. discriminate.
  - change ("default" +:+ "/" +:+ "s") with "default/s". rewrite <-E. apply surjective_pairing.
Defined.
