(* ===== verification/Runtime.v ===== *)
(** [runtime/split.go] and [runtime/server.go]: the HTTP agent inside a sandbox
    container.

    [splitArgs] tokenizes a command line byte by byte; [safePath] confines a
    requested path to the served directory; the handlers work on a file system
    and a process launcher, which are the operating system's and enter as the
    classes [FileSystem] and [Launcher]. *)

From S2P Require Import Prelude GoStrings.
From Stdlib Require Import Ascii.
Local Open Scope string_scope.

(** ** split.go *)

Definition squote_b : ascii := "039".
Definition dquote_b : ascii := "034".
Definition backslash_b : ascii := "092".

(** the bytes a backslash escapes inside double quotes *)
Definition dq_escapable (c : ascii) : bool :=
  bool_decide (c ∈ [dquote_b; backslash_b; "$"; "`"]%char%list).

Definition is_blank (c : ascii) : bool :=
  bool_decide (c ∈ [" "; "009"; "010"; "013"]%char%list).

(** The variables of the loop. *)
Record lexer := mkLexer {
  lx_args : list string;
  lx_cur : string;
  inSingle : bool;
  inDouble : bool;
  hasToken : bool;
}.

Definition lex0 : lexer := mkLexer [] "" false false false.

Definition write_byte (c : ascii) (lx : lexer) : lexer :=
  mkLexer (lx_args lx) (lx_cur lx +:+ String c "") (inSingle lx) (inDouble lx) (hasToken lx).
Definition set_token (lx : lexer) : lexer :=
  mkLexer (lx_args lx) (lx_cur lx) (inSingle lx) (inDouble lx) true.
Definition set_single (b : bool) (lx : lexer) : lexer :=
  mkLexer (lx_args lx) (lx_cur lx) b (inDouble lx) (hasToken lx).
Definition set_double (b : bool) (lx : lexer) : lexer :=
  mkLexer (lx_args lx) (lx_cur lx) (inSingle lx) b (hasToken lx).

Definition flush (lx : lexer) : lexer :=
  if hasToken lx
  then mkLexer (lx_args lx ++ [lx_cur lx])%list "" (inSingle lx) (inDouble lx) false
  else lx.

(** The loop over the bytes; an escape consumes two of them. *)
Fixpoint lex (s : string) (lx : lexer) : lexer :=
  match s with
  | EmptyString => lx
  | String c s1 =>
      if inSingle lx then
        lex s1 (if ascii_dec c squote_b then set_single false lx else write_byte c lx)
      else if inDouble lx then
        if ascii_dec c dquote_b then lex s1 (set_double false lx)
        else match s1 with
             | String d s2 =>
                 if bool_decide (c = backslash_b) && dq_escapable d
                 then lex s2 (write_byte d lx)
                 else lex s1 (write_byte c lx)
             | EmptyString => lex s1 (write_byte c lx)
             end
      else if ascii_dec c squote_b then lex s1 (set_token (set_single true lx))
      else if ascii_dec c dquote_b then lex s1 (set_token (set_double true lx))
      else if ascii_dec c backslash_b then
        match s1 with
        | String d s2 => lex s2 (set_token (write_byte d lx))
        | EmptyString => lex s1 lx
        end
      else if is_blank c then lex s1 (flush lx)
      else lex s1 (set_token (write_byte c lx))
  end.

Definition splitArgs (s : string) : res string (list string) :=
  let lx := lex s lex0 in
  if inSingle lx || inDouble lx then Err "unbalanced quotes"
  else Ok (lx_args (flush lx)).

(** ** server.go: paths *)

(** [filepath.Clean] of an absolute path, [filepath.Abs] in a working
    directory. *)
Definition is_abs (p : string) : bool := has_prefix "/" p.
Definition Abs (cwd : res string string) (p : string) : res string string :=
  if is_abs p then Ok (clean_abs p)
  else match cwd with
       | Ok wd => Ok (path_join wd p)
       | Err e => Err e
       end.

Record Server := mkServer { root : string; cwd : res string string }.

Definition safePath (s : Server) (p : string) : res string string :=
  match Abs (cwd s) (root s) with
  | Err e => Err e
  | Ok base =>
      let clean := trim_left slash p in
      let full := path_join base clean in
      if negb (bool_decide (full = base)) && negb (has_prefix (base +:+ "/") full)
      then Err "access denied: path escapes root"
      else Ok full
  end.

(** ** server.go: the handlers *)

(** What the handlers ask of the operating system. *)
Record FileInfo := mkFileInfo { fi_Name : string; fi_Size : Z; fi_IsDir : bool; fi_ModTime : Z }.

Class FileSystem (F : Type) := {
  Stat : F → string → res string FileInfo;
  ReadFile : F → string → res string string;
  (** [os.ReadDir] with each entry's [Info()] *)
  ReadDir : F → string → res string (list (res string FileInfo));
  MkdirAll : string → F → F * res string ();
  (** [os.Create], [io.Copy], [Close] *)
  WriteFile : string → string → F → F * res string ();
}.

(** What the upload relies on: a write that succeeded is what a read returns,
    and making directories or writing one path leaves the other files alone. *)
Class FileSystemLaws (F : Type) `{FileSystem F} := {
  mkdir_frame : ∀ p q f, ReadFile (MkdirAll p f).1 q = ReadFile f q;
  write_frame : ∀ p q c f, q ≠ p → ReadFile (WriteFile p c f).1 q = ReadFile f q;
  written : ∀ p c f, (WriteFile p c f).2 = Ok () →
    let f' := (WriteFile p c f).1 in
    ReadFile f' p = Ok c ∧ ∃ i, Stat f' p = Ok i ∧ fi_IsDir i = false;
}.

(** [exec.Command(args...).Run()] in a directory: the outputs, and an exit
    status or a spawn failure. *)
Record RunResult := mkRun { run_Stdout : string; run_Stderr : string; run_Err : option (Z + string) }.
Class Launcher (F : Type) := { run_command : string → string → list string → F → F * RunResult }.

Inductive body :=
| BMessage (msg : string)
| BHealth
| BBytes (content : string)
| BEntries (l : list (string * Z * string * Z))
| BExists (path : string) (found : bool)
| BExec (stdout stderr : string) (exit_code : Z).

Record response := mkResponse { rs_Code : Z; rs_Body : body }.

Definition StatusOK : Z := 200.
Definition StatusBadRequest : Z := 400.
Definition StatusForbidden : Z := 403.
Definition StatusNotFound : Z := 404.
Definition StatusInternalServerError : Z := 500.

Section handlers.
Context {F : Type} `{FileSystem F} `{Launcher F}.
Implicit Types (f : F) (s : Server).

Definition health : response := mkResponse StatusOK BHealth.

(** [req] is the decoded body, or the decoder's error. *)
Definition execute s (req : res string string) f : F * response :=
  match req with
  | Err e => (f, mkResponse StatusOK (BExec "" ("Failed to decode request: " +:+ e) 1))
  | Ok command =>
      match splitArgs command with
      | Err e => (f, mkResponse StatusOK (BExec "" ("Failed to execute command: " +:+ e) 1))
      | Ok [] => (f, mkResponse StatusOK (BExec "" "Failed to execute command: empty command" 1))
      | Ok (name :: args) =>
          let '(f, r) := run_command (root s) name args f in
          (f, mkResponse StatusOK
                match run_Err r with
                | None => BExec (run_Stdout r) (run_Stderr r) 0
                | Some (inl code) => BExec (run_Stdout r) (run_Stderr r) code
                | Some (inr e) => BExec (run_Stdout r) ("Failed to execute command: " +:+ e) 1
                end)
      end
  end.

(** [filepath.Dir] of a cleaned absolute path. *)
Definition dir_of (p : string) : string :=
  clean_abs (str_join "/" (removelast (split_byte slash p))).

(** [form] is what [ParseMultipartForm] and [FormFile] give: a parse error, no
    file field, or the file's name and content. *)
Definition upload s (form : res string (option (string * string))) f : F * response :=
  match form with
  | Err e => (f, mkResponse StatusBadRequest (BMessage ("invalid multipart form: " +:+ e)))
  | Ok None => (f, mkResponse StatusBadRequest (BMessage "missing file field"))
  | Ok (Some (filename, content)) =>
      match safePath s filename with
      | Err _ => (f, mkResponse StatusForbidden (BMessage "Access denied"))
      | Ok dest =>
          let failed e := mkResponse StatusInternalServerError (BMessage ("File upload failed: " +:+ e)) in
          let '(f, r) := MkdirAll (dir_of dest) f in
          match r with
          | Err e => (f, failed e)
          | Ok _ =>
              let '(f, r) := WriteFile dest content f in
              match r with
              | Err e => (f, failed e)
              | Ok _ => (f, mkResponse StatusOK
                              (BMessage ("File '" +:+ filename +:+ "' uploaded successfully.")))
              end
          end
      end
  end.

Definition download s (path : string) f : response :=
  let missing := mkResponse StatusNotFound (BMessage "File not found") in
  match safePath s path with
  | Err _ => mkResponse StatusForbidden (BMessage "Access denied")
  | Ok full =>
      match Stat f full with
      | Err _ => missing
      | Ok fi =>
          if fi_IsDir fi then missing
          else match ReadFile f full with
               | Err _ => missing
               | Ok content => mkResponse StatusOK (BBytes content)
               end
      end
  end.

(** one directory entry: those whose [Info] fails are skipped *)
Definition file_entry (i : res string FileInfo) : option (string * Z * string * Z) :=
  match i with
  | Ok i => Some (fi_Name i, fi_Size i, if fi_IsDir i then "directory" else "file", fi_ModTime i)
  | Err _ => None
  end.

Definition list_files s (path : string) f : response :=
  let not_dir := mkResponse StatusNotFound (BMessage "Path is not a directory") in
  match safePath s path with
  | Err _ => mkResponse StatusForbidden (BMessage "Access denied")
  | Ok full =>
      match Stat f full with
      | Err _ => not_dir
      | Ok fi =>
          if fi_IsDir fi then
            match ReadDir f full with
            | Err e => mkResponse StatusInternalServerError (BMessage ("List files failed: " +:+ e))
            | Ok dirents => mkResponse StatusOK (BEntries (omap file_entry dirents))
            end
          else not_dir
      end
  end.

Definition exists_ s (path : string) f : response :=
  match safePath s path with
  | Err _ => mkResponse StatusForbidden (BMessage "Access denied")
  | Ok full => mkResponse StatusOK (BExists path (is_ok (Stat f full)))
  end.
End handlers.
