(* ===== verification/RuntimeSpec.v ===== *)
(** What the runtime agent promises: the exact grammar of command lines and its
    agreement with shell quoting, confinement of paths, and uploads that can be
    downloaded again. *)

From S2P Require Import Prelude GoStrings Runtime.
From Stdlib Require Import Ascii.
Local Open Scope string_scope.

(** ** The grammar of command lines

    A command line is a sequence of atoms. *)

Inductive datom := DRaw (c : ascii) | DEsc (c : ascii) | DBack (c : ascii).
Inductive atom :=
| Plain (c : ascii) | Esc (c : ascii) | Single (s : string) | Double (l : list datom)
| Blank (c : ascii).

Definition chr (c : ascii) : string := String c "".

Definition datom_text (d : datom) : string :=
  match d with DRaw c => chr c | DEsc c | DBack c => String backslash_b (chr c) end.
(** a backslash before an ordinary byte stays *)
Definition datom_val (d : datom) : string :=
  match d with DRaw c | DEsc c => chr c | DBack c => String backslash_b (chr c) end.
Definition datom_ok (d : datom) : Prop :=
  match d with
  | DRaw c => c ≠ dquote_b ∧ c ≠ backslash_b
  | DEsc c => dq_escapable c = true
  | DBack c => dq_escapable c = false
  end.

Definition concat_str {A} (f : A → string) (l : list A) : string := foldr (λ x s, f x +:+ s) "" l.

Definition atom_text (a : atom) : string :=
  match a with
  | Plain c | Blank c => chr c
  | Esc c => String backslash_b (chr c)
  | Single s => String squote_b (s +:+ chr squote_b)
  | Double l => String dquote_b (concat_str datom_text l +:+ chr dquote_b)
  end.

Definition atom_ok (a : atom) : Prop :=
  match a with
  | Plain c => c ≠ squote_b ∧ c ≠ dquote_b ∧ c ≠ backslash_b ∧ is_blank c = false
  | Esc _ => True
  | Single s => no_byte squote_b s = true
  | Double l => Forall datom_ok l
  | Blank c => is_blank c = true
  end.

(** The words read so far and the word being read: a blank ends a word,
    anything else extends it, even by nothing. *)
Definition word_step (st : list string * option string) (a : atom) : list string * option string :=
  let extend v := (st.1, Some (default "" st.2 +:+ v)) in
  match a with
  | Blank _ => match st.2 with Some w => (st.1 ++ [w], None) | None => st end%list
  | Plain c | Esc c => extend (chr c)
  | Single s => extend s
  | Double l => extend (concat_str datom_val l)
  end.

Definition close_words (st : list string * option string) : list string :=
  (st.1 ++ option_list st.2)%list.
Definition words (l : list atom) : list string := close_words (foldl word_step ([], None) l).

Lemma concat_str_app {A} (f : A → string) l k :
  concat_str f (l ++ k)%list = concat_str f l +:+ concat_str f k.
Proof. induction l as [|x l IH]; simpl; [done|]. by rewrite IH, str_app_assoc. Qed.

(** ** The loop follows the grammar *)

Definition outside (st : list string * option string) : lexer :=
  mkLexer st.1 (default "" st.2) false false (bool_decide (is_Some st.2)).

Lemma outside_some ws w : outside (ws, Some w) = mkLexer ws w false false true.
Proof. reflexivity. Qed.

Lemma lex_single s rest ws w :
  no_byte squote_b s = true →
  lex (s +:+ String squote_b rest) (mkLexer ws w true false true)
  = lex rest (mkLexer ws (w +:+ s) false false true).
Proof.
  revert w; induction s as [|c s IH]; intros w; simpl; [by rewrite str_app_nil_r|].
  rewrite no_byte_cons. intros [Hc Hs]. destruct (ascii_dec c squote_b); [done|].
  unfold write_byte. simpl. rewrite IH, str_app_assoc by done. done.
Qed.

Lemma dq_escapable_special c :
  dq_escapable c = false → c ≠ dquote_b ∧ c ≠ backslash_b.
Proof. unfold dq_escapable. rewrite bool_decide_eq_false. set_solver. Qed.

Lemma lex_datom d rest ws w :
  datom_ok d →
  lex (datom_text d +:+ rest) (mkLexer ws w false true true)
  = lex rest (mkLexer ws (w +:+ datom_val d) false true true).
Proof.
  destruct d as [c|c|c]; simpl; unfold write_byte; simpl.
  - intros [Hq Hb]. destruct (ascii_dec c dquote_b); [done|].
    rewrite (bool_decide_eq_false_2 (c = backslash_b)) by done. by destruct rest.
  - intros ->. done.
  - intros Hc. rewrite Hc. apply dq_escapable_special in Hc as [Hq Hb]. simpl.
    destruct (ascii_dec c dquote_b); [done|].
    rewrite (bool_decide_eq_false_2 (c = backslash_b)) by done.
    rewrite !str_app_assoc. by destruct rest.
Qed.

Lemma lex_double l rest ws w :
  Forall datom_ok l →
  lex (concat_str datom_text l +:+ String dquote_b rest) (mkLexer ws w false true true)
  = lex rest (mkLexer ws (w +:+ concat_str datom_val l) false false true).
Proof.
  intros Hl. revert w; induction Hl as [|d l Hd Hl IH]; intros w; simpl; [by rewrite str_app_nil_r|].
  by rewrite str_app_assoc, lex_datom, IH, str_app_assoc.
Qed.

Lemma lex_atom a rest st :
  atom_ok a → lex (atom_text a +:+ rest) (outside st) = lex rest (outside (word_step st a)).
Proof.
  destruct st as [ws cur]. destruct a as [c|c|s|l|c]; simpl; intros Ha.
  - destruct Ha as (Hs & Hd & Hb & Hbl).
    destruct (ascii_dec c squote_b), (ascii_dec c dquote_b), (ascii_dec c backslash_b); try done.
    by rewrite Hbl.
  - done.
  - rewrite str_app_assoc. apply lex_single, Ha.
  - rewrite str_app_assoc. apply lex_double, Ha.
  - rewrite Ha. destruct (ascii_dec c squote_b) as [->|]; [done|].
    destruct (ascii_dec c dquote_b) as [->|]; [done|].
    destruct (ascii_dec c backslash_b) as [->|]; [done|]. by destruct cur.
Qed.

Lemma lex_atoms l rest st :
  Forall atom_ok l →
  lex (concat_str atom_text l +:+ rest) (outside st) = lex rest (outside (foldl word_step st l)).
Proof.
  intros Hl. revert st; induction Hl as [|a l Ha Hl IH]; intros st; simpl; [done|].
  by rewrite str_app_assoc, lex_atom, IH.
Qed.

(** ** Every input the loop accepts is one of the grammar *)

Definition balanced (lx : lexer) : bool := negb (inSingle lx || inDouble lx).

Lemma unclosed_single s ws w :
  no_byte squote_b s = true → balanced (lex s (mkLexer ws w true false true)) = false.
Proof.
  revert w; induction s as [|c s IH]; intros w; simpl; [done|].
  rewrite no_byte_cons. intros [Hc Hs]. destruct (ascii_dec c squote_b); [done|]. by apply IH.
Qed.

Lemma balanced_double n s ws w :
  (String.length s ≤ n)%nat → balanced (lex s (mkLexer ws w false true true)) = true →
  ∃ l rest, Forall datom_ok l ∧ s = concat_str datom_text l +:+ String dquote_b rest.
Proof.
  revert s w; induction n as [|n IH]; intros [|c s] w Hn; simpl in *; try done; try lia.
  destruct (ascii_dec c dquote_b) as [->|Hq]; [by exists [], s|].
  destruct (decide (c = backslash_b)) as [->|Hb]; destruct s as [|d s]; simpl in *; try done.
  - destruct (dq_escapable d) eqn:Hd; simpl.
    + intros Hbal. destruct (IH s _ ltac:(lia) Hbal) as (l & rest & Hl & ->).
      exists (DEsc d :: l), rest. split; [by constructor|done].
    + pose proof (dq_escapable_special d Hd) as [Hdq Hdb].
      destruct (ascii_dec d dquote_b); [done|]. rewrite (bool_decide_eq_false_2 (d = backslash_b)) by done.
      intros Hbal. destruct (IH s ((w +:+ chr backslash_b) +:+ chr d)) as (l & rest & Hl & ->); [lia|by destruct s|].
      exists (DBack d :: l), rest. split; [by constructor|done].
  - rewrite (bool_decide_eq_false_2 (c = backslash_b)) by done. intros Hbal.
    destruct (IH (String d s) _ ltac:(simpl; lia) Hbal) as (l & rest & Hl & E).
    exists (DRaw c :: l), rest. split; [by constructor|]. simpl. by rewrite E.
Qed.

Lemma length_str_app s t : String.length (s +:+ t) = (String.length s + String.length t)%nat.
Proof. induction s as [|c s IH]; simpl; [done|by rewrite IH]. Qed.

(** The first atom of a balanced input. *)
Lemma first_atom c s st :
  balanced (lex (String c s) (outside st)) = true → String c s = chr backslash_b ∨
  ∃ a rest, atom_ok a ∧ String c s = atom_text a +:+ rest.
Proof.
  destruct st as [ws cur]. simpl.
  destruct (ascii_dec c squote_b) as [->|Hs].
  { intros Hbal. destruct (cut squote_b s) as [[body rest]|] eqn:E.
    - apply cut_Some in E as [-> Hb]. right. exists (Single body), rest. simpl.
      by rewrite str_app_assoc.
    - apply cut_None in E. unfold set_token, set_single in Hbal; simpl in Hbal.
      by rewrite unclosed_single in Hbal. }
  destruct (ascii_dec c dquote_b) as [->|Hd].
  { intros Hbal. right. destruct (balanced_double (String.length s) s _ _ ltac:(lia) Hbal) as (l & rest & Hl & ->).
    exists (Double l), rest. simpl. by rewrite str_app_assoc. }
  destruct (ascii_dec c backslash_b) as [->|Hb].
  { destruct s as [|d s]; [by left|]. right. by exists (Esc d), s. }
  right. destruct (is_blank c) eqn:Hbl; [by exists (Blank c), s|]. by exists (Plain c), s.
Qed.

Lemma balanced_atoms n s st :
  (String.length s ≤ n)%nat → balanced (lex s (outside st)) = true →
  ∃ l tail, Forall atom_ok l ∧ (tail = "" ∨ tail = chr backslash_b) ∧ s = concat_str atom_text l +:+ tail.
Proof.
  revert s st; induction n as [|n IH]; intros [|c s] st Hn Hbal.
  1,3: by exists [], ""; split_and!; [constructor|left|].
  { simpl in Hn. lia. }
  destruct (first_atom c s st Hbal) as [E|(a & rest & Ha & E)].
  { exists [], (chr backslash_b). split_and!; [constructor|by right|done]. }
  rewrite E, lex_atom in Hbal by done. rewrite E.
  destruct (IH rest (word_step st a)) as (l & tail & Hl & Ht & ->); [|done|].
  - apply (f_equal String.length) in E. rewrite length_str_app in E.
    assert (0 < String.length (atom_text a))%nat by (destruct a; simpl; lia). simpl in *. lia.
  - exists (a :: l), tail. split_and!; [by constructor|done|]. simpl. by rewrite str_app_assoc.
Qed.

Lemma splitArgs_atoms l tail :
  Forall atom_ok l → tail = "" ∨ tail = chr backslash_b →
  splitArgs (concat_str atom_text l +:+ tail) = Ok (words l).
Proof.
  intros Hl Ht. unfold splitArgs, lex0. change (mkLexer [] "" false false false) with (outside ([], None)).
  rewrite lex_atoms by done. unfold words, close_words. destruct (foldl word_step ([], None) l) as [ws [w|]];
    destruct Ht as [-> | ->]; simpl; try done; by rewrite app_nil_r.
Qed.

(** C26. A command line is accepted exactly when it is a sequence of plain
    bytes, escapes, quoted strings and blanks, possibly with a lone backslash at
    the end, which is dropped; its arguments are then the words of that
    sequence.  Nothing else is interpreted: no variable, glob or pipe. *)
Theorem splitArgs_grammar s args :
  splitArgs s = Ok args ↔
  ∃ l tail, Forall atom_ok l ∧ (tail = "" ∨ tail = chr backslash_b) ∧
    s = concat_str atom_text l +:+ tail ∧ args = words l.
Proof.
  split.
  - intros E. assert (balanced (lex s (outside ([], None))) = true) as Hbal.
    { unfold splitArgs, lex0, balanced, outside in *. simpl. by destruct (inSingle _ || inDouble _). }
    destruct (balanced_atoms _ _ _ (le_n _) Hbal) as (l & tail & Hl & Ht & ->).
    rewrite splitArgs_atoms in E by done. exists l, tail. naive_solver.
  - intros (l & tail & Hl & Ht & -> & ->). by apply splitArgs_atoms.
Qed.

(** ** Shell quoting

    What a client does to pass arguments through a command line: Python's
    [shlex.join], which quotes each argument with [shlex.quote]. *)

Definition shell_safe (c : ascii) : bool :=
  let n := byte_val c in
  ((48 <=? n) && (n <=? 57) || (65 <=? n) && (n <=? 90) || (97 <=? n) && (n <=? 122))%Z
  || bool_decide (c ∈ ["_"; "@"; "%"; "+"; "="; ":"; ","; "."; "/"; "-"]%char%list).

Definition close_open : string := String squote_b (String dquote_b (String squote_b (String dquote_b (chr squote_b)))).
Definition quote_byte (c : ascii) : string := if ascii_dec c squote_b then close_open else chr c.

Definition shell_quote (s : string) : string :=
  if decide (s ≠ "" ∧ forallb shell_safe (chars s) = true) then s
  else String squote_b (concat_str quote_byte (chars s) +:+ chr squote_b).

Fixpoint quoted_atoms (acc s : string) : list atom :=
  match s with
  | EmptyString => [Single acc]
  | String c s =>
      if ascii_dec c squote_b then Single acc :: Double [DRaw squote_b] :: quoted_atoms "" s
      else quoted_atoms (acc +:+ chr c) s
  end.

Definition arg_atoms (s : string) : list atom :=
  if decide (s ≠ "" ∧ forallb shell_safe (chars s) = true) then Plain <$> chars s
  else quoted_atoms "" s.

Lemma quoted_atoms_text s acc :
  concat_str atom_text (quoted_atoms acc s)
  = String squote_b (acc +:+ concat_str quote_byte (chars s) +:+ chr squote_b).
Proof.
  revert acc; induction s as [|c s IH]; intros acc; simpl; [by rewrite str_app_nil_r|].
  unfold quote_byte at 1. destruct (ascii_dec c squote_b) as [->|Hc]; simpl; rewrite IH; simpl;
    by rewrite !str_app_assoc.
Qed.

Lemma quoted_atoms_ok s acc : no_byte squote_b acc = true → Forall atom_ok (quoted_atoms acc s).
Proof.
  revert acc; induction s as [|c s IH]; intros acc Ha; simpl; [by repeat constructor|].
  destruct (ascii_dec c squote_b).
  - repeat constructor; try done. by apply IH.
  - apply IH. rewrite no_byte_app. split; [done|]. unfold chr. by rewrite no_byte_cons.
Qed.

Lemma quoted_atoms_word s acc ws cur :
  foldl word_step (ws, cur) (quoted_atoms acc s) = (ws, Some (default "" cur +:+ acc +:+ s)).
Proof.
  revert acc cur; induction s as [|c s IH]; intros acc cur; simpl; [by rewrite str_app_nil_r|].
  destruct (ascii_dec c squote_b) as [->|]; simpl; rewrite IH; simpl; by rewrite !str_app_assoc.
Qed.

Lemma shell_safe_plain c : shell_safe c = true → atom_ok (Plain c).
Proof.
  intros H. assert (bool_decide (c ∉ [squote_b; dquote_b; backslash_b]) && negb (is_blank c) = true) as E.
  { revert H. by destruct c as [[] [] [] [] [] [] [] []]. }
  apply andb_true_iff in E as [E1%bool_decide_eq_true E2%negb_true_iff]. simpl. set_solver.
Qed.

Lemma plain_text s : concat_str atom_text (Plain <$> chars s) = s.
Proof. induction s as [|c s IH]; [done|]. exact (f_equal (String c) IH). Qed.

Lemma plain_word s ws w : foldl word_step (ws, Some w) (Plain <$> chars s) = (ws, Some (w +:+ s)).
Proof.
  revert w; induction s as [|c s IH]; intros w; [by simpl; rewrite str_app_nil_r|].
  etrans; [apply IH|]. by rewrite str_app_assoc.
Qed.

Lemma arg_atoms_spec s ws :
  concat_str atom_text (arg_atoms s) = shell_quote s ∧ Forall atom_ok (arg_atoms s) ∧
  foldl word_step (ws, None) (arg_atoms s) = (ws, Some s).
Proof.
  unfold arg_atoms, shell_quote. case_decide as Hs.
  - destruct Hs as [Hne Hsafe]. split; [apply plain_text|]. split.
    + apply Forall_fmap, Forall_forall. intros c Hc. apply shell_safe_plain.
      rewrite forallb_forall in Hsafe. by apply Hsafe, list_elem_of_In.
    + destruct s as [|c s]; [done|]. simpl. by rewrite plain_word.
  - by rewrite quoted_atoms_text, quoted_atoms_word; split_and!; [|apply quoted_atoms_ok|].
Qed.

Fixpoint line_atoms (args : list string) : list atom :=
  match args with
  | [] => []
  | [a] => arg_atoms a
  | a :: args' => arg_atoms a ++ Blank " " :: line_atoms args'
  end%list.

Lemma line_atoms_spec args ws :
  concat_str atom_text (line_atoms args) = str_join " " (shell_quote <$> args) ∧
  Forall atom_ok (line_atoms args) ∧
  close_words (foldl word_step (ws, None) (line_atoms args)) = (ws ++ args)%list.
Proof.
  revert ws; induction args as [|a args IH]; intros ws; [done|].
  destruct (arg_atoms_spec a ws) as (Ht & Hok & Hw). destruct args as [|b args].
  { simpl. rewrite Hw. split_and!; done. }
  destruct (IH (ws ++ [a])%list) as (Ht' & Hok' & Hw').
  change (line_atoms (a :: b :: args)) with (arg_atoms a ++ Blank " " :: line_atoms (b :: args))%list.
  rewrite concat_str_app, foldl_app, Hw. split_and!.
  - rewrite Ht. simpl. f_equal. f_equal. exact Ht'.
  - apply Forall_app. split; [done|]. by constructor.
  - etrans; [exact Hw'|]. by rewrite <-app_assoc.
Qed.

(** Arguments quoted by the client arrive as they were: splitting the
    shell-quoted join of any list of byte strings, empty ones and ones with
    quotes, blanks or backslashes included, gives the list back. *)
Theorem splitArgs_quoted args : splitArgs (str_join " " (shell_quote <$> args)) = Ok args.
Proof.
  destruct (line_atoms_spec args []) as (Ht & Hok & Hw).
  rewrite <-Ht, <-(str_app_nil_r (concat_str _ _)), splitArgs_atoms; [by unfold words; rewrite Hw|done|by left].
Qed.

(** ** Cleaned paths *)

(** A component of a cleaned path. *)
Definition proper (c : string) : Prop := c ≠ "" ∧ c ≠ "." ∧ c ≠ ".." ∧ no_byte slash c = true.

Lemma split_no_sep c s : no_byte c s = true → split_byte c s = [s].
Proof.
  induction s as [|d s IH]; simpl; [done|]. rewrite no_byte_cons. intros [Hd Hs].
  destruct (ascii_dec d c); [done|]. by rewrite IH.
Qed.

Lemma split_nonnil c s : split_byte c s ≠ [].
Proof. destruct s as [|d s]; simpl; [done|]. destruct (ascii_dec d c); [done|]. by destruct (split_byte c s). Qed.

Lemma split_app_sep c s t : split_byte c (s +:+ String c t) = (split_byte c s ++ split_byte c t)%list.
Proof.
  induction s as [|d s IH]; simpl; [by destruct (ascii_dec c c)|].
  destruct (ascii_dec d c); rewrite IH; [done|].
  pose proof (split_nonnil c s). by destruct (split_byte c s).
Qed.

Lemma split_parts c s : Forall (λ x, no_byte c x = true) (split_byte c s).
Proof.
  induction s as [|d s IH]; simpl; [by repeat constructor|].
  destruct (ascii_dec d c); [by constructor|].
  destruct (split_byte c s) as [|x xs]; [by repeat constructor; rewrite no_byte_cons|].
  inversion_clear IH. constructor; [|done]. by rewrite no_byte_cons.
Qed.

Lemma split_rooted l : Forall proper l → split_byte slash (rooted l) = "" :: match l with [] => [""] | _ => l end.
Proof.
  intros Hl. unfold rooted. simpl. f_equal. induction Hl as [|c l (_ & _ & _ & Hc) Hl IH]; [done|].
  destruct l as [|d l]; [by apply split_no_sep|].
  change (str_join "/" (c :: d :: l)) with (c +:+ String slash (str_join "/" (d :: l))).
  rewrite split_app_sep, split_no_sep by done. simpl. f_equal. exact IH.
Qed.

Lemma rooted_inj l k : Forall proper l → Forall proper k → rooted l = rooted k → l = k.
Proof.
  intros Hl Hk E. apply (f_equal (split_byte slash)) in E. rewrite !split_rooted in E by done.
  apply (inj2 cons) in E as [_ E]. destruct l, k; try done; inversion E; subst.
  - inversion_clear Hk. by destruct H.
  - inversion_clear Hl. by destruct H.
Qed.

Lemma join_cons sep c l : l ≠ [] → str_join sep (c :: l) = c +:+ sep +:+ str_join sep l.
Proof. by destruct l. Qed.

Lemma push_empty stack : clean_push stack "" = stack.
Proof. done. Qed.

Lemma push_proper stack l :
  Forall (λ x, no_byte slash x = true) l → Forall proper stack → Forall proper (foldl clean_push stack l).
Proof.
  intros Hl. revert stack; induction Hl as [|c l Hc Hl IH]; intros stack Hs; [done|]. simpl. apply IH.
  unfold clean_push. repeat case_decide; [done|destruct stack; by inversion_clear Hs|].
  constructor; [|done]. split_and!; naive_solver.
Qed.

Lemma clean_proper p : Forall proper (clean_components (split_byte slash p)).
Proof. unfold clean_components. apply Forall_reverse, push_proper; [apply split_parts|done]. Qed.

Lemma push_plain l stack : Forall proper l → foldl clean_push stack l = (reverse l ++ stack)%list.
Proof.
  intros Hl. revert stack; induction Hl as [|c l (H1 & H2 & H3 & _) Hl IH]; intros stack; [done|].
  simpl. unfold clean_push at 2. rewrite decide_False by tauto. rewrite decide_False by done.
  by rewrite IH, reverse_cons, <-app_assoc.
Qed.

Lemma clean_app bl l :
  Forall proper bl → clean_components ("" :: bl ++ l)%list = reverse (foldl clean_push (reverse bl) l).
Proof.
  intros Hb. unfold clean_components. cbn [foldl]. by rewrite push_empty, foldl_app, (push_plain bl), app_nil_r.
Qed.

Lemma clean_rooted bl : Forall proper bl → clean_abs (rooted bl) = rooted bl.
Proof.
  intros Hb. unfold clean_abs. rewrite split_rooted by done. destruct bl as [|b bl]; [done|].
  rewrite <-(app_nil_r (b :: bl)), clean_app by done. simpl. by rewrite reverse_involutive, app_nil_r.
Qed.

Lemma trim_left_push p stack :
  foldl clean_push stack (split_byte slash (trim_left slash p)) = foldl clean_push stack (split_byte slash p).
Proof.
  revert stack; induction p as [|c p IH]; intros stack; [done|]. simpl. destruct (ascii_dec c slash) as [->|Hc].
  - rewrite IH. cbn [foldl]. by rewrite push_empty.
  - simpl. by destruct (ascii_dec c slash).
Qed.

(** The absolute path a request is resolved to, before the check. *)
Definition resolved (bl : list string) (p : string) : list string :=
  reverse (foldl clean_push (reverse bl) (split_byte slash p)).

Lemma resolved_proper bl p : Forall proper bl → Forall proper (resolved bl p).
Proof. intros Hb. apply Forall_reverse, push_proper; [apply split_parts|]. by apply Forall_reverse. Qed.

Lemma join_resolved bl p :
  Forall proper bl → path_join (rooted bl) (trim_left slash p) = rooted (resolved bl p).
Proof.
  intros Hb. unfold path_join, resolved. rewrite <-trim_left_push. case_decide as Hp.
  - rewrite Hp, clean_rooted by done. cbn [split_byte foldl]. by rewrite push_empty, reverse_involutive.
  - unfold clean_abs. f_equal. change (?a +:+ "/" +:+ ?b) with (a +:+ String slash b).
    rewrite split_app_sep, split_rooted by done. destruct bl as [|b bl].
    + unfold clean_components. cbn [app foldl]. by rewrite !push_empty.
    + rewrite <-clean_app by done. done.
Qed.

Lemma prefix_str s t : has_prefix s t = true ↔ ∃ k, t = s +:+ k.
Proof.
  unfold has_prefix. revert t; induction s as [|c s IH]; intros [|d t]; simpl.
  1,2: naive_solver. { split; [done|]. naive_solver. }
  destruct (ascii_dec c d) as [->|Hc]; [|split; [done|naive_solver]].
  rewrite IH. naive_solver.
Qed.

Lemma below_prefix bl fl :
  Forall proper bl → Forall proper fl → fl ≠ bl →
  has_prefix (rooted bl +:+ "/") (rooted fl) = true ↔ bl ≠ [] ∧ bl `prefix_of` fl.
Proof.
  intros Hb Hf Hne. rewrite prefix_str. split.
  - intros [k E]. rewrite str_app_assoc in E. apply (f_equal (split_byte slash)) in E.
    change ("/" +:+ k) with (String slash k) in E. rewrite split_app_sep, !split_rooted in E by done.
    destruct bl as [|b bl].
    { destruct fl as [|x fl]; [done|]. apply (inj2 cons) in E as [_ E]. simpl in E.
      inversion_clear Hf as [|? ? [Hx _]]. by inversion E. }
    split; [done|]. destruct fl as [|x fl]; apply (inj2 cons) in E as [_ E].
    + exfalso. inversion E. inversion_clear Hb as [|? ? [Hx _]]. done.
    + by exists (split_byte slash k).
  - intros [Hnil [k ->]]. destruct k as [|x k]; [by rewrite app_nil_r in Hne|].
    exists (str_join "/" (x :: k)). clear -Hnil. unfold rooted. rewrite !str_app_assoc. f_equal.
    induction bl as [|b bl IH]; [done|]. destruct bl as [|b' bl]; [done|].
    change ((b :: b' :: bl) ++ x :: k)%list with (b :: ((b' :: bl) ++ x :: k))%list.
    rewrite !join_cons by done. rewrite IH by done. by rewrite !str_app_assoc.
Qed.

Lemma Abs_rooted wd p base :
  Abs wd p = Ok base → ∃ bl, base = rooted bl ∧ Forall proper bl.
Proof.
  unfold Abs, path_join, clean_abs. intros E. destruct (is_abs p); [|destruct wd as [w|]; [case_decide|done]];
    injection E as <-; eexists; (split; [reflexivity|apply clean_proper]).
Qed.

(** Requests stay inside the served directory.  Whatever the
    requested path, dots, repeated slashes and an absolute look included, the
    path it is resolved to is clean, and it is accepted exactly when it is the
    served directory itself or, lexically, a path below it.  A server of the
    root directory accepts nothing but the root. *)
Theorem safePath_confined s p base :
  Abs (cwd s) (root s) = Ok base →
  ∃ bl, base = rooted bl ∧ Forall proper (resolved bl p) ∧
    safePath s p = if decide (resolved bl p = bl ∨ bl ≠ [] ∧ bl `prefix_of` resolved bl p)
                   then Ok (rooted (resolved bl p)) else Err "access denied: path escapes root".
Proof.
  intros E. destruct (Abs_rooted _ _ _ E) as (bl & -> & Hb). exists bl.
  pose proof (resolved_proper bl p Hb) as Hp. split_and!; [done|done|].
  unfold safePath. rewrite E, join_resolved by done.
  destruct (decide (resolved bl p = bl)) as [Heq|Hne].
  - rewrite Heq, bool_decide_eq_true_2 by done. simpl. by rewrite decide_True by tauto.
  - rewrite bool_decide_eq_false_2 by (intros ?%rooted_inj; done). simpl.
    pose proof (below_prefix bl _ Hb Hp Hne) as Hiff.
    destruct (has_prefix _ _); simpl; case_decide as Hd; try done; naive_solver.
Qed.

(** ** Uploads *)

Section uploads.
Context {F : Type} `{FileSystemLaws F}.

Lemma safePath_below s p q :
  safePath s p = Ok q → ∃ bl rest, Abs (cwd s) (root s) = Ok (rooted bl) ∧
    q = rooted (bl ++ rest) ∧ Forall proper rest.
Proof.
  intros Eq. destruct (Abs (cwd s) (root s)) as [base|e] eqn:E;
    [|by unfold safePath in Eq; rewrite E in Eq].
  destruct (Abs_rooted _ _ _ E) as (bl & -> & Hb). exists bl.
  unfold safePath in Eq. rewrite E, join_resolved in Eq by done.
  pose proof (resolved_proper bl p Hb) as Hp.
  destruct (decide (resolved bl p = bl)) as [Heq|Hne].
  { rewrite Heq, bool_decide_eq_true_2 in Eq by done. injection Eq as <-. exists [].
    rewrite app_nil_r. split_and!; [done|done|constructor]. }
  rewrite bool_decide_eq_false_2 in Eq by (intros ?%rooted_inj; done).
  destruct (has_prefix _ _) eqn:Hpre; [|done]. injection Eq as <-.
  apply below_prefix in Hpre as [_ [k Hk]]; [|done..]. exists k. split_and!; [done|by rewrite <-Hk|].
  rewrite Hk in Hp. by apply Forall_app in Hp as [_ Hp].
Qed.

Lemma upload_writes s filename content f f' r :
  upload s (Ok (Some (filename, content))) f = (f', r) →
  (∀ q, ReadFile f' q = ReadFile f q) ∨
  ∃ dest, safePath s filename = Ok dest ∧ (∀ q, q ≠ dest → ReadFile f' q = ReadFile f q).
Proof.
  unfold upload. destruct (safePath s filename) as [dest|e]; [|intros [= <- _]; by left].
  pose proof (mkdir_frame (dir_of dest)) as Hm. pose proof (write_frame dest) as Hw.
  destruct (MkdirAll (dir_of dest) f) as [f1 [[]|e]] eqn:E1.
  - intros E. right. exists dest. split; [done|]. intros q Hq.
    specialize (Hw q content f1 Hq). specialize (Hm q f). rewrite E1 in Hm. cbn [fst] in Hm.
    destruct (WriteFile dest content f1) as [f2 [[]|e]]; injection E as <- _; cbn [fst] in Hw; congruence.
  - intros [= <- _]. left. intros q. specialize (Hm q f). by rewrite E1 in Hm.
Qed.

(** What is uploaded can be downloaded: after an upload that reported
    success the same name downloads exactly the bytes that were sent and is
    reported to exist; and whatever the name and the outcome, no file outside
    the served directory was changed. *)
Theorem upload_download s filename content f f' r :
  upload s (Ok (Some (filename, content))) f = (f', r) →
  (rs_Code r = StatusOK →
   download s filename f' = mkResponse StatusOK (BBytes content) ∧
   exists_ s filename f' = mkResponse StatusOK (BExists filename true)) ∧
  (∀ q, ReadFile f' q ≠ ReadFile f q →
   ∃ bl rest, Abs (cwd s) (root s) = Ok (rooted bl) ∧ q = rooted (bl ++ rest) ∧ Forall proper rest).
Proof.
  intros E. split.
  - intros Hok. unfold upload in E. unfold download, exists_.
    destruct (safePath s filename) as [dest|e]; [|by injection E as _ <-].
    destruct (MkdirAll (dir_of dest) f) as [f1 [[]|e]]; [|by injection E as _ <-].
    pose proof (written dest content f1) as Hw.
    destruct (WriteFile dest content f1) as [f2 [[]|e]]; [|by injection E as _ <-].
    injection E as <- _. destruct (Hw eq_refl) as (Hr & i & Hs & Hd). cbn [fst] in Hr, Hs.
    by rewrite Hs, Hd, Hr.
  - intros q Hq. destruct (upload_writes _ _ _ _ _ _ E) as [Hall|(dest & Hdest & Hne)]; [by destruct Hq|].
    apply (safePath_below s filename). rewrite Hdest. f_equal.
    destruct (decide (q = dest)); [done|]. destruct Hq. by apply Hne.
Qed.
End uploads.

(** ** A concrete file system *)

(** Files by cleaned path; a path is a directory when a file lies below it. *)
#[local] Notation memfs := (gmap string string).

Definition mem_stat (f : memfs) (p : string) : res string FileInfo :=
  match f !! p with
  | Some c => Ok (mkFileInfo p (String.length c) false 0)
  | None => if existsb (λ kv, has_prefix (p +:+ "/") kv.1) (map_to_list f)
            then Ok (mkFileInfo p 0 true 0) else Err "no such file or directory"
  end.

#[export] Instance mem_filesystem : FileSystem memfs := {
  Stat := mem_stat;
  ReadFile f p := of_opt "no such file or directory" (f !! p);
  ReadDir f p := Ok ((λ kv, Ok (mkFileInfo kv.1 (String.length kv.2) false 0)) <$>
                       filter (λ kv, has_prefix (p +:+ "/") kv.1 = true) (map_to_list f));
  MkdirAll _ f := (f, Ok ());
  WriteFile p c f := (<[p := c]> f, Ok ());
}.

#[export] Instance mem_filesystem_laws : FileSystemLaws memfs.
Proof.
  split; simpl.
  - done.
  - intros p q c f Hq. by rewrite lookup_insert_ne by done.
  - intros p c f _. unfold mem_stat. rewrite lookup_insert_eq. naive_solver.
Qed.

Definition demo_server : Server := mkServer "/app/" (Ok "/").

Lemma safePath_confined_witness :
  Abs (cwd demo_server) (root demo_server) = Ok "/app" ∧
  ∃ bl, "/app" = rooted bl ∧ Forall proper (resolved bl "/a/../b") ∧
    safePath demo_server "/a/../b"
    = if decide (resolved bl "/a/../b" = bl ∨ bl ≠ [] ∧ bl `prefix_of` resolved bl "/a/../b")
      then Ok (rooted (resolved bl "/a/../b")) else Err "access denied: path escapes root".
Proof. split; [reflexivity|]. apply safePath_confined. reflexivity. Defined.

Example safePath_accepts : safePath demo_server "/a/../b" = Ok "/app/b".
Proof. reflexivity. Qed.
Example safePath_refuses : safePath demo_server "x/../../etc/passwd" = Err "access denied: path escapes root".
Proof. reflexivity. Qed.
(** a server of the root directory serves none of its files *)
Example safePath_of_root : safePath (mkServer "/" (Ok "/")) "etc" = Err "access denied: path escapes root".
Proof. reflexivity. Qed.

Lemma upload_download_witness :
  download demo_server "x.txt" (upload demo_server (Ok (Some ("x.txt", "hello"))) (∅ : memfs)).1
  = mkResponse StatusOK (BBytes "hello").
Proof.
  exact (proj1 (proj1 (upload_download demo_server "x.txt" "hello" (∅ : memfs) _ _
    (surjective_pairing _)) eq_refl)).
Defined.
