(* ===== verification/Paths.v ===== *)
(** [path/filepath] on Unix, for rooted and relative paths.  A path is cleaned to
    a normal form: whether it is rooted, and its components. *)

From S2P Require Import Prelude GoStrings RuntimeSpec.
From Stdlib Require Import Ascii.
Local Open Scope string_scope.

(** One component pushed on the (reversed) stack of a relative path. *)
Definition rel_push (stack : list string) (c : string) : list string :=
  if decide (c = "" ∨ c = ".") then stack
  else if decide (c = "..") then
    match stack with
    | [] => [".."]
    | d :: stack' => if decide (d = "..") then ".." :: stack else stack'
    end
  else c :: stack.

Definition norm (p : string) : bool * list string :=
  if has_prefix "/" p then (true, clean_components (split_byte slash p))
  else (false, reverse (foldl rel_push [] (split_byte slash p))).

Definition joined (l : list string) : string :=
  match l with [] => "." | _ => str_join "/" l end.

(** [filepath.Clean] *)
Definition Clean (p : string) : string :=
  let '(b, l) := norm p in if b : bool then rooted l else joined l.

(** [filepath.Join]: leading empty elements are dropped. *)
Fixpoint Join (elems : list string) : string :=
  match elems with
  | [] => ""
  | e :: rest => if decide (e = "") then Join rest else Clean (str_join "/" elems)
  end.

(** [filepath.Dir] *)
Definition Dir (p : string) : string :=
  Clean (str_join "/" (removelast (split_byte slash p) ++ [""])).

Fixpoint strip (b t : list string) : list string * list string :=
  match b, t with
  | x :: b', y :: t' => if decide (x = y) then strip b' t' else (b, t)
  | _, _ => (b, t)
  end.

(** [filepath.Rel] (for a target that is not the current directory) *)
Definition Rel (basepath targpath : string) : option string :=
  let '(rb, b) := norm (Clean basepath) in
  let '(rt, t) := norm (Clean targpath) in
  if bool_decide (rb = rt) then
    let '(b, t) := strip b t in
    if decide (head b = Some "..") then None
    else Some (joined (replicate (length b) ".." ++ t)%list)
  else None.

(** ** Cleaning *)

Lemma split_join l : l ≠ [] → Forall (λ x, no_byte slash x = true) l → split_byte slash (str_join "/" l) = l.
Proof.
  intros Hne Hl. induction Hl as [|x l Hx Hl IH]; [done|]. destruct l as [|y l]; [by apply split_no_sep|].
  change (str_join "/" (x :: y :: l)) with (x +:+ String slash (str_join "/" (y :: l))).
  by rewrite split_app_sep, split_no_sep, IH.
Qed.

Lemma proper_parts l : Forall proper l → Forall (λ x, no_byte slash x = true) l.
Proof. intros Hl. eapply Forall_impl; [exact Hl|]. by intros ? (_ & _ & _ & ?). Qed.

(** Components of a cleaned relative path: some [..], then proper names. *)
Definition normal (l : list string) : Prop := ∃ k m, l = (replicate k ".." ++ m)%list ∧ Forall proper m.

Lemma rel_push_proper stack c : proper c → rel_push stack c = c :: stack.
Proof. intros (H1 & H2 & H3 & _). unfold rel_push. by rewrite !decide_False by naive_solver. Qed.

Lemma rel_pushes stack m : Forall proper m → foldl rel_push stack m = (reverse m ++ stack)%list.
Proof.
  intros Hm. revert stack. induction Hm as [|c m Hc Hm IH]; intros stack; [done|]. cbn [foldl].
  by rewrite rel_push_proper, IH, reverse_cons, <-app_assoc.
Qed.

Lemma rel_dots k : foldl rel_push [] (replicate k "..") = replicate k "..".
Proof.
  assert (∀ j, foldl rel_push (replicate j "..") (replicate k "..") = replicate (k + j) "..") as Hk.
  { induction k as [|k IH]; intros j; [done|]. cbn [replicate foldl].
    assert (rel_push (replicate j "..") ".." = replicate (S j) "..") as ->.
    { unfold rel_push. rewrite decide_False, decide_True by naive_solver. by destruct j. }
    rewrite IH. f_equal. lia. }
  change [] with (replicate 0 ".."). rewrite Hk. f_equal. lia.
Qed.

Lemma reverse_replicate {A} k (x : A) : reverse (replicate k x) = replicate k x.
Proof. induction k as [|k IH]; [done|]. cbn [replicate]. rewrite reverse_cons, IH. by rewrite <-replicate_cons_app. Qed.

Lemma normal_fold l : normal l → reverse (foldl rel_push [] l) = l.
Proof.
  intros (k & m & -> & Hm). by rewrite foldl_app, rel_dots, rel_pushes, reverse_app, reverse_involutive, reverse_replicate.
Qed.

Lemma push_normal l stack : Forall (λ x, no_byte slash x = true) l → normal (reverse stack) →
  normal (reverse (foldl rel_push stack l)).
Proof.
  intros Hl. revert stack. induction Hl as [|c l Hc Hl IH]; intros stack (k & m & E & Hm); cbn [foldl]; [by exists k, m|].
  apply IH. unfold rel_push. repeat case_decide; [by exists k, m| |].
  - destruct stack as [|d stack]; [by exists 1%nat, []|]. case_decide as Hd.
    + subst. rewrite reverse_cons, E. exists (S k), []. destruct m as [|x m _] using rev_ind.
      * rewrite !app_nil_r. split; [|done]. by rewrite <-replicate_cons_app.
      * rewrite reverse_cons, app_assoc in E. apply app_inj_tail in E as [_ <-].
        apply Forall_app in Hm as [_ Hm]. inversion_clear Hm as [|? ? (_ & _ & Hx & _)]. done.
    + rewrite reverse_cons in E. destruct m as [|x m _] using rev_ind.
      * rewrite app_nil_r in E. destruct k as [|k]; [by destruct (reverse stack)|].
        cbn [replicate] in E. rewrite replicate_cons_app in E. apply app_inj_tail in E as [_ ->]. done.
      * rewrite app_assoc in E. apply app_inj_tail in E as [E _]. exists k, m. split; [done|].
        by apply Forall_app in Hm as [Hm _].
  - rewrite reverse_cons, E. exists k, (m ++ [c])%list. split; [by rewrite app_assoc|].
    apply Forall_app. split; [done|]. constructor; [|done]. split_and!; naive_solver.
Qed.

Lemma norm_normal p : let '(b, l) := norm p in if b : bool then Forall proper l else normal l.
Proof.
  unfold norm. destruct (has_prefix "/" p); [apply clean_proper|].
  apply push_normal; [apply split_parts|]. by exists 0%nat, [].
Qed.

Lemma normal_parts l : normal l → Forall (λ x, no_byte slash x = true ∧ x ≠ "") l.
Proof.
  intros (k & m & -> & Hm). apply Forall_app. split; [by apply Forall_replicate|].
  eapply Forall_impl; [exact Hm|]. by intros x (? & _ & _ & ?).
Qed.

Lemma slash_prefix c t : String.prefix "/" (String c t) = if ascii_dec slash c then true else false.
Proof. change "/" with (String slash ""). cbn [String.prefix]. by destruct (ascii_dec slash c), t. Qed.

Lemma joined_relative l : normal l → has_prefix "/" (joined l) = false.
Proof.
  intros Hl%normal_parts. destruct l as [|x l]; [done|]. inversion_clear Hl as [|? ? [Hx Hne] _].
  unfold joined, has_prefix. destruct x as [|c x]; [done|]. apply no_byte_cons in Hx as [Hc _].
  assert (∀ t, String.prefix "/" (String c t) = false) as Hp.
  { intros t. rewrite slash_prefix. destruct (ascii_dec slash c) as [E|]; [|done]. by destruct Hc. }
  destruct l; apply Hp.
Qed.

Lemma norm_clean p : norm (Clean p) = norm p.
Proof.
  unfold Clean. pose proof (norm_normal p) as Hn. destruct (norm p) as [[|] l].
  - unfold norm. assert (has_prefix "/" (rooted l) = true) as ->
      by (unfold has_prefix, rooted; cbn [String.append]; rewrite slash_prefix; by destruct (ascii_dec _ _)).
    f_equal.
    apply rooted_inj; [apply clean_proper|done|]. by apply clean_rooted.
  - unfold norm. rewrite joined_relative by done. f_equal. destruct l as [|x l]; [done|]. unfold joined.
    rewrite split_join; [by apply normal_fold|done|]. eapply Forall_impl; [by apply normal_parts|]. by intros ? [].
Qed.

(** ** Joining *)

(** Appending proper components appends them to the normal form. *)
Lemma norm_app d rl : Forall proper rl → rl ≠ [] → d ≠ "" →
  norm (d +:+ "/" +:+ str_join "/" rl) = (let '(b, l) := norm d in (b, l ++ rl)%list).
Proof.
  intros Hr Hne Hd. unfold norm.
  assert (has_prefix "/" (d +:+ "/" +:+ str_join "/" rl) = has_prefix "/" d) as ->.
  { destruct d as [|c d]; [done|]. unfold has_prefix. cbn [String.append]. by rewrite !slash_prefix. }
  change (d +:+ "/" +:+ str_join "/" rl) with (d +:+ String slash (str_join "/" rl)).
  rewrite split_app_sep, split_join by auto using proper_parts.
  destruct (has_prefix "/" d); f_equal.
  - unfold clean_components. rewrite foldl_app, push_plain by done. by rewrite reverse_app, reverse_involutive.
  - by rewrite foldl_app, rel_pushes, reverse_app, reverse_involutive.
Qed.

Lemma norm_join d rl : Forall proper rl → rl ≠ [] →
  norm (Join [d; str_join "/" rl]) = (let '(b, l) := norm d in (b, l ++ rl)%list).
Proof.
  intros Hr Hne. cbn [Join]. destruct (decide (d = "")) as [-> |Hd].
  - rewrite decide_False; [|by destruct rl as [|x [|y rl]]; [done|inversion_clear Hr as [|? ? [] _]|destruct x]].
    change (str_join "/" [str_join "/" rl]) with (str_join "/" rl). rewrite norm_clean.
    assert (normal rl) as Hn by (by exists 0%nat, rl).
    pose proof (joined_relative rl Hn) as Hp. unfold norm, joined in *. destruct rl as [|x rl]; [done|]. rewrite Hp.
    rewrite split_join by auto using proper_parts. by rewrite normal_fold.
  - rewrite norm_clean. change (str_join "/" [d; str_join "/" rl]) with (d +:+ "/" +:+ str_join "/" rl).
    by apply norm_app.
Qed.

Lemma strip_prefix l rl : strip l (l ++ rl) = ([], rl).
Proof. induction l as [|x l IH]; cbn; [by destruct rl|]. by rewrite decide_True. Qed.

(** A path under a directory, seen from it. *)
Lemma Rel_join d rl : Forall proper rl → rl ≠ [] → Rel d (Join [d; str_join "/" rl]) = Some (str_join "/" rl).
Proof.
  intros Hr Hne. unfold Rel. rewrite !norm_clean, norm_join by done. destruct (norm d) as [b l].
  rewrite bool_decide_eq_true_2 by done. rewrite strip_prefix. cbn. unfold joined. by destruct rl.
Qed.

Lemma Rel_self d : Rel d d = Some ".".
Proof.
  unfold Rel. destruct (norm (Clean d)) as [b l]. rewrite bool_decide_eq_true_2 by done.
  rewrite <-(app_nil_r l) at 2. by rewrite strip_prefix.
Qed.

(** A path joined with a file name ends with that name. *)
Lemma joined_ends d f : proper f → ∃ x, Join [d; f] = x +:+ f.
Proof.
  intros Hf. assert (∀ l, ∃ x, str_join "/" (l ++ [f])%list = x +:+ f) as Hend.
  { intros l. induction l as [|a [|b' l] IH]; [by exists ""|exists (a +:+ "/"); by rewrite str_app_assoc|].
    destruct IH as [x IH]. exists (a +:+ "/" +:+ x).
    change (str_join "/" ((a :: b' :: l) ++ [f])%list) with (a +:+ "/" +:+ str_join "/" ((b' :: l) ++ [f])%list).
    by rewrite IH, !str_app_assoc. }
  assert (∀ p l, norm p = (let '(b, l) := l in (b, l ++ [f])%list) → ∃ x, Clean p = x +:+ f) as Hc.
  { intros p [b l] E. unfold Clean. rewrite E. destruct (Hend l) as [x Hx]. destruct b.
    - exists ("/" +:+ x). unfold rooted. by rewrite Hx, str_app_assoc.
    - exists x. rewrite <-Hx. unfold joined. by destruct l. }
  pose proof (norm_join d [f] ltac:(by constructor) ltac:(done)) as E. change (str_join "/" [f]) with f in E.
  revert E. cbn [Join]. destruct Hf as (Hne & Hrest). destruct (decide (d = "")).
  - rewrite decide_False by done. intros E. rewrite norm_clean in E. by eapply Hc.
  - intros E. rewrite norm_clean in E. by eapply Hc.
Qed.
