(* ===== verification/Config.v ===== *)
(** [internal/config/config.go] and [internal/kubeconfig/kubeconfig.go]: the
    server's configuration, the addresses and files derived from it, and the
    kubeconfig a client is handed. *)

From S2P Require Import Prelude GoStrings Runtime RuntimeSpec Paths.
From Stdlib Require Import Ascii Decimal DecimalString.
Local Open Scope string_scope.

(** [net.JoinHostPort] *)
Definition JoinHostPort (host port : string) : string :=
  if no_byte ":" host then host +:+ ":" +:+ port else "[" +:+ host +:+ "]:" +:+ port.

(** ** The configuration *)

(** The process environment. *)
Class Environment := {
  Getenv : string → string;
  UserHomeDir : res string string;
  TempDir : string;
}.

Module Config.
Record t := mk {
  Bind : string;
  APIPort : Z;
  RouterPort : Z;
  DataDir : string;
  EphemeralOnShutdown : bool;
  RuntimeImage : string;
  RuntimeBuildContext : string;
  ServerPort : Z;
  ClusterDomain : string;
  Bootstrap : bool;
}.
Implicit Types c : t.

Definition DefaultDataDir `{Environment} : string :=
  let x := Getenv "XDG_DATA_HOME" in
  if decide (x ≠ "") then Join [x; "local-agent-sandbox"]
  else match UserHomeDir with
       | Err _ => Join [TempDir; "local-agent-sandbox"]
       | Ok home => Join [home; ".local"; "share"; "local-agent-sandbox"]
       end.

Definition Defaults `{Environment} : t :=
  mk "127.0.0.1" 6644 8880 DefaultDataDir false "lasd/sandbox-runtime:dev" "" 8888 "cluster.local" true.

Definition DBPath c : string := Join [DataDir c; "state.db"].
Definition KubeconfigPath c : string := Join [DataDir c; "kubeconfig"].

Definition hostPort (bind : string) (port : Z) : string := JoinHostPort bind (itoa port).
Definition APIServerURL c : string := "http://" +:+ hostPort (Bind c) (APIPort c).
Definition RouterURL c : string := "http://" +:+ hostPort (Bind c) (RouterPort c).
End Config.

(** ** The kubeconfig *)

Record KubeContext := mkKubeContext { kx_Cluster : string; kx_AuthInfo : string; kx_Namespace : string }.
(** The cluster entries hold a server, the user entries nothing. *)
Record KubeConfig := mkKubeConfig {
  kc_Clusters : gmap string string;
  kc_AuthInfos : gset string;
  kc_Contexts : gmap string KubeContext;
  kc_CurrentContext : string;
}.

Definition Build (server : string) : KubeConfig :=
  mkKubeConfig {["lasd" := server]} {["lasd"]} {["lasd" := mkKubeContext "lasd" "lasd" "default"]} "lasd".

(** [runtime.Encode(clientcmdlatest.Codec, cfg)] *)
Class KubeEncoder := encode_kube : KubeConfig → res string string.

Definition Bytes `{KubeEncoder} (server : string) : res string string := encode_kube (Build server).

Definition Write {F} `{FileSystem F} `{KubeEncoder} (server path : string) (f : F) : F * res string () :=
  match Bytes server with
  | Err e => (f, Err e)
  | Ok data =>
      let '(f, r) := MkdirAll (Dir path) f in
      match r with
      | Err e => (f, Err e)
      | Ok _ => WriteFile path data f
      end
  end.

(** ** Addresses *)

Lemma digits_no_byte (c : ascii) d :
  (byte_val c < 48)%Z ∨ (57 < byte_val c)%Z → no_byte c (NilEmpty.string_of_uint d) = true.
Proof.
  intros Hc. induction d; cbn; rewrite ?no_byte_cons; split_and?; try done; intros <-; vm_compute in Hc; naive_solver.
Qed.

Lemma format_no_byte (c : ascii) n :
  (byte_val c < 48)%Z ∨ (57 < byte_val c)%Z → no_byte c (format_uint n) = true.
Proof.
  intros Hc. unfold format_uint, NilZero.string_of_uint. pose proof (to_uint_nonnil (Z.to_N n)).
  destruct (N.to_uint (Z.to_N n)) eqn:E; [done|rewrite <-E; by apply digits_no_byte..].
Qed.

Lemma itoa_no_colon n : no_byte ":" (itoa n) = true.
Proof.
  unfold itoa. assert (no_byte ":" (format_uint (- n)) = true ∧ no_byte ":" (format_uint n) = true) as [H1 H2]
    by (split; apply format_no_byte; vm_compute; by right).
  destruct (n <? 0)%Z; [|done]. by apply no_byte_app.
Qed.

Lemma itoa_inj n m : itoa n = itoa m → n = m.
Proof.
  assert (∀ k, no_byte "-" (format_uint k) = true) as Hd by (intros; apply format_no_byte; vm_compute; by left).
  unfold itoa. destruct (Z.ltb_spec n 0), (Z.ltb_spec m 0); intros E.
  - injection E as E. apply format_uint_inj in E; lia.
  - exfalso. specialize (Hd m). rewrite <-E in Hd. done.
  - exfalso. specialize (Hd n). rewrite E in Hd. done.
  - apply format_uint_inj in E; lia.
Qed.

(** A string is cut at its last separator in one way only. *)
Lemma last_sep_inj c s s' t t' :
  no_byte c t = true → no_byte c t' = true → s +:+ String c t = s' +:+ String c t' → s = s' ∧ t = t'.
Proof.
  intros Ht Ht'. assert (∀ x y, no_byte c (x +:+ String c y) = true → False) as Hno.
  { intros x y [_ Hy]%no_byte_app. apply no_byte_cons in Hy as [Hy _]. done. }
  revert s'. induction s as [|d s IH]; intros [|d' s'] E; cbn in E.
  - by injection E.
  - injection E as <- ->. by apply Hno in Ht.
  - injection E as -> <-. by apply Hno in Ht'.
  - injection E as <- E. by apply IH in E as [-> ->].
Qed.

Lemma JoinHostPort_inj h h' p p' : no_byte ":" p = true → no_byte ":" p' = true →
  JoinHostPort h p = JoinHostPort h' p' → h = h' ∧ p = p'.
Proof.
  intros Hp Hp'. set (host h := if no_byte ":" h then h else "[" +:+ h +:+ "]").
  assert (∀ h p, JoinHostPort h p = host h +:+ String ":" p) as Hj.
  { intros x y. unfold JoinHostPort, host. destruct (no_byte ":" x); [done|]. by rewrite !str_app_assoc. }
  rewrite !Hj. intros [E ->]%last_sep_inj; [|done..]. split; [|done].
  unfold host in E. destruct (no_byte ":" h) eqn:E1, (no_byte ":" h') eqn:E2; [done|exfalso..|].
  - rewrite E, !no_byte_app, E2 in E1. naive_solver.
  - rewrite <-E, !no_byte_app, E1 in E2. naive_solver.
  - injection E as E. apply (f_equal chars) in E. rewrite !chars_app in E. apply app_inj_tail in E as [E _].
    by apply chars_inj.
Qed.

(** What is derived from a configuration keeps its meaning: two
    configurations with the same API URL listen on the same interface and port
    (an IPv6 literal or a name, any port), and likewise for the router; and in
    any data directory, written any way, the database and the kubeconfig are
    different files. *)
Theorem config_apart (c c' : Config.t) :
  (Config.APIServerURL c = Config.APIServerURL c' →
    Config.Bind c = Config.Bind c' ∧ Config.APIPort c = Config.APIPort c') ∧
  (Config.RouterURL c = Config.RouterURL c' →
    Config.Bind c = Config.Bind c' ∧ Config.RouterPort c = Config.RouterPort c') ∧
  Config.DBPath c ≠ Config.KubeconfigPath c.
Proof.
  assert (∀ b b' p p', "http://" +:+ Config.hostPort b p = "http://" +:+ Config.hostPort b' p' → b = b' ∧ p = p') as Hu.
  { intros b b' p p' E%str_app_inj_l. apply JoinHostPort_inj in E as [-> E]; [|apply itoa_no_colon..].
    by apply itoa_inj in E as ->. }
  split; [apply Hu|]. split; [apply Hu|]. unfold Config.DBPath, Config.KubeconfigPath.
  destruct (joined_ends (Config.DataDir c) "state.db") as [x ->]; [by repeat split|].
  destruct (joined_ends (Config.DataDir c) "kubeconfig") as [y ->]; [by repeat split|].
  intros E%(f_equal (λ s, last (chars s))). rewrite !chars_app, !last_app in E. done.
Qed.

(** ** The kubeconfig leads to the server *)

(** What a client reads off: the cluster of the current context. *)
Definition current_server (k : KubeConfig) : option (string * string) :=
  x ← kc_Contexts k !! kc_CurrentContext k;
  s ← kc_Clusters k !! kx_Cluster x;
  if decide (kx_AuthInfo x ∈ kc_AuthInfos k) then Some (s, kx_Namespace x) else None.

(** A kubeconfig written with success is read back as written, and its current
    context is the server, in the default namespace. *)
Lemma kubeconfig_written {F} `{FileSystemLaws F} `{KubeEncoder} server path (f f' : F) :
  Write server path f = (f', Ok ()) →
  current_server (Build server) = Some (server, "default") ∧
  ∃ data, encode_kube (Build server) = Ok data ∧ ReadFile f' path = Ok data.
Proof.
  unfold Write, Bytes. intros E. split.
  - unfold current_server, Build. cbn [kc_Contexts kc_CurrentContext kc_Clusters kc_AuthInfos].
    rewrite lookup_singleton_eq. cbn. rewrite lookup_singleton_eq. cbn. by rewrite decide_True by set_solver.
  - destruct (encode_kube (Build server)) as [data|]; [|done]. exists data. split; [done|].
    destruct (MkdirAll (Dir path) f) as [f1 [[]|]]; [|done].
    pose proof (written path data f1) as Hw. rewrite E in Hw. by destruct (Hw eq_refl) as [? _].
Qed.

Example Defaults_linux :
  let env := {| Getenv := λ _, ""; UserHomeDir := Ok "/home/u"; TempDir := "/tmp" |} in
  Config.DBPath Config.Defaults = "/home/u/.local/share/local-agent-sandbox/state.db" ∧
  Config.APIServerURL Config.Defaults = "http://127.0.0.1:6644" ∧
  Config.hostPort "::1" 80 = "[::1]:80" ∧ Join [""; "a"; ".."; ".."; "b"] = "../b" ∧ Join ["x"; "."] = "x".
Proof. vm_compute. split_and!; reflexivity. Qed.
