(* ===== verification/Router.v ===== *)
(** [internal/router/router.go]: the data-plane reverse proxy.

    [Resolver] is the interface between the proxy and the control plane;
    [StoreResolver] implements it from the object store and the driver.
    [ServeHTTP] decides each request: a health answer, a refusal with a JSON
    error, or a proxied request together with what is sent upstream. *)

From S2P Require Import Prelude GoStrings K8s Apis Store Core Driver Reconciler.
From Stdlib Require Import Ascii.
Local Open Scope string_scope.

(** ** Resolution *)

Inductive ResolveState := StateOK | StateSandboxNotFound | StateNotReady | StateNoPort.
#[export] Instance resolve_state_eq_dec : EqDecision ResolveState.
Proof. solve_decision. Defined.

Class Resolver (R : Type) :=
  Resolve : string → string → Z → R → R * (string * ResolveState).

(** [unstructured.NestedSlice(obj, "status", "conditions")] *)
Definition nested_conditions (status : option gval) : option (list gval) :=
  match status with
  | Some (GMap m) => match m !! "conditions" with Some (GList l) => Some l | _ => None end
  | _ => None
  end.

(** [m["type"] == t && m["status"] == st] for an element that is a map *)
Definition is_cond (t st : string) (c : gval) : bool :=
  match c with
  | GMap m => bool_decide (m !! "type" = Some (GStr t)) && bool_decide (m !! "status" = Some (GStr st))
  | _ => false
  end.

Definition ready_json (status : option gval) : bool :=
  match nested_conditions status with
  | Some conds => existsb (is_cond "Ready" "True") conds
  | None => false
  end.

Section resolver.
Context {U P D : Type} `{Unstructured U} `{Driver D}.

Definition sandboxReady (u : U) : bool := ready_json (StatusOf u).

Record StoreResolver := mkResolver { sr_Store : Store U P; sr_Driver : option D }.

Definition target_url (hostPort : Z) : string := "http://127.0.0.1:" +:+ itoa hostPort.

Definition store_resolve (ns id : string) (port : Z) (s : StoreResolver)
  : StoreResolver * (string * ResolveState) :=
  match Get SandboxGVR ns id (sr_Store s) with
  | Err _ => (s, ("", StateSandboxNotFound))
  | Ok u =>
      if negb (sandboxReady u) then (s, ("", StateNotReady))
      else match sr_Driver s with
           | None => (s, ("", StateNotReady))
           | Some d =>
               let '(d, i) := InspectSandbox ns id d in
               let s := mkResolver (sr_Store s) (Some d) in
               (s, match i with
                   | Err _ => ("", StateNotReady)
                   | Ok info =>
                       if decide (ci_State info ≠ "running") then ("", StateNotReady)
                       else
                         let hostPort := default 0%Z (ci_PortMap info !! port) in
                         if decide (hostPort = 0%Z) then ("", StateNoPort)
                         else (target_url hostPort, StateOK)
                   end)
           end
  end.

#[export] Instance StoreResolver_Resolver : Resolver StoreResolver := store_resolve.
End resolver.
Arguments StoreResolver U P D : clear implicits.
Arguments mkResolver {U P D} _ _.

(** ** Requests *)

Notation Header := (gmap string string).
(** [http.Header.Get]: keys are canonical *)
Definition hget (h : Header) (k : string) : string := default "" (h !! k).

Definition headerID := "X-Sandbox-Id".
Definition headerNamespace := "X-Sandbox-Namespace".
Definition headerPort := "X-Sandbox-Port".
Definition headerTimeout := "X-Sandbox-Timeout".

Record Request := mkRequest {
  rq_Method : string;
  rq_Host : string;
  rq_Path : string;
  rq_RawPath : string;
  rq_RawQuery : string;
  rq_Header : Header;
  rq_ClientIP : string;
  rq_TLS : bool;
}.

(** What is sent upstream. *)
Record Outgoing := mkOutgoing {
  out_Scheme : string;
  out_Host : string;
  out_Path : string;
  out_RawPath : string;
  out_RawQuery : string;
  out_Header : Header;
}.

Inductive outcome :=
| Healthy
| Refused (code : Z) (detail : string)
| Proxied (target : string) (out : Outgoing) (timeout : option Z).

(** ** validDNSLabel *)

Definition label_byte (c : ascii) : bool :=
  let n := byte_val c in ((97 <=? n) && (n <=? 122) || (48 <=? n) && (n <=? 57))%Z.

(** The loop over the bytes, at index [i] of a string of length [len]. *)
Fixpoint label_loop (s : string) (i len : nat) : bool :=
  match s with
  | EmptyString => true
  | String c s =>
      if label_byte c then label_loop s (S i) len
      else if ascii_dec c "-" then
        if bool_decide (i = 0 ∨ i = len - 1) then false else label_loop s (S i) len
      else false
  end.

Definition validDNSLabel (s : string) : bool :=
  if decide (String.length s = 0 ∨ 63 < String.length s)%nat then false
  else label_loop s 0 (String.length s).

(** ** The handler *)

Definition statusFor (state : ResolveState) (id : string) (port : Z) : Z * string :=
  match state with
  | StateSandboxNotFound => (502%Z, "sandbox " +:+ go_quote id +:+ " not found")
  | StateNotReady => (503%Z, "sandbox " +:+ go_quote id +:+ " is not ready")
  | StateNoPort => (502%Z, "sandbox " +:+ go_quote id +:+ " does not publish port " +:+ itoa port)
  | StateOK => (502%Z, "unresolved")
  end.

Definition request_port (h : Header) : Z :=
  match atoi (hget h headerPort) with
  | Some n => if ((0 <? n) && (n <=? 65535))%Z then n else 8888
  | None => 8888
  end.

Definition request_namespace (h : Header) : string :=
  let ns := hget h headerNamespace in if decide (ns = "") then "default" else ns.

(** [ProxyRequest.SetXForwarded] *)
Definition SetXForwarded (rq : Request) (h : Header) : Header :=
  let prior := hget h "X-Forwarded-For" in
  <["X-Forwarded-Proto" := if rq_TLS rq then "https" else "http"]>
    (<["X-Forwarded-Host" := rq_Host rq]>
       (<["X-Forwarded-For" := if decide (prior = "") then rq_ClientIP rq
                               else prior +:+ ", " +:+ rq_ClientIP rq]> h)).

(** The scheme and host [url.Parse] finds in a target, which has no path. *)
Definition parse_target (t : string) : string * string :=
  if has_prefix "http://" t then ("http", str_drop 7 t) else ("", "").

(** The proxy's [Rewrite] hook, given the header the proxy prepared. *)
Definition Rewrite (target : string) (rq : Request) (prepared : Header) : Outgoing :=
  let '(scheme, host) := parse_target target in
  mkOutgoing scheme host (rq_Path rq) (rq_RawPath rq) (rq_RawQuery rq)
    (SetXForwarded rq (delete "Origin" (delete "Authorization" prepared))).

Section handler.
Context {R : Type} `{Resolver R}.
(** the header [httputil.ReverseProxy] hands to [Rewrite]: the request's
    without the hop-by-hop and forwarding ones *)
Context (prepare : Header → Header).
(** the timeout of a header value, when [strconv.ParseFloat] reads a positive
    number of seconds in it *)
Context (timeout_of : string → option Z).

Definition ServeHTTP (rq : Request) (r : R) : R * outcome :=
  if decide (rq_Path rq = "/healthz" ∨ rq_Path rq = "/readyz") then (r, Healthy)
  else
    let h := rq_Header rq in
    let id := hget h headerID in
    if negb (validDNSLabel id) then
      (r, Refused 400 "X-Sandbox-ID header is required and must be a DNS label")
    else
      let ns := request_namespace h in
      let port := request_port h in
      let '(r, (target, state)) := Resolve ns id port r in
      (r, if decide (state = StateOK) then
            Proxied target (Rewrite target rq (prepare h)) (timeout_of (hget h headerTimeout))
          else let '(code, msg) := statusFor state id port in Refused code msg).
End handler.
