(* ===== verification/RouterSpec.v ===== *)
(** What the router guarantees: which header values name a sandbox, that a
    request is only ever proxied to the loopback port of a Ready sandbox with a
    running container, and that a sandbox a reconcile pass found healthy can be
    reached. *)

From S2P Require Import Prelude GoStrings K8s Apis Store StoreFacts StoreSpec Patch Persist Core.
From S2P Require Import Concrete Driver Mapping Build Reconciler ConcreteApi Cascade Pvc Sandbox.
From S2P Require Import SandboxSpec Claim ClaimSpec Scenarios Router.
From Stdlib Require Import Ascii.
Local Open Scope string_scope.

(** ** Labels *)

(** RFC 1123: 1 to 63 lower-case letters, digits and dashes, neither the first
    nor the last a dash. *)
Definition rfc1123_label (s : string) : Prop :=
  (1 ≤ String.length s ≤ 63)%nat ∧
  Forall (λ c, label_byte c = true ∨ c = "-"%char) (chars s) ∧
  (∃ c, head (chars s) = Some c ∧ label_byte c = true) ∧
  (∃ c, last (chars s) = Some c ∧ label_byte c = true).

Lemma length_chars s : length (chars s) = String.length s.
Proof. induction s as [|c s IH]; simpl; [done|by rewrite IH]. Qed.

Lemma label_loop_spec s i len :
  len = (i + String.length s)%nat →
  label_loop s i len = true ↔
  Forall (λ c, label_byte c = true ∨ c = "-"%char) (chars s) ∧
  (i = 0%nat → ∀ c, head (chars s) = Some c → label_byte c = true) ∧
  (∀ c, last (chars s) = Some c → label_byte c = true).
Proof.
  revert i; induction s as [|c s IH]; intros i Hlen; simpl in *; [naive_solver|].
  specialize (IH (S i) ltac:(lia)).
  assert (last (c :: chars s) = match chars s with [] => Some c | _ => last (chars s) end) as Hlast
    by (by destruct (chars s)).
  pose proof (length_chars s) as Hls.
  destruct (label_byte c) eqn:Hc; [|destruct (ascii_dec c "-") as [->|Hd]].
  - rewrite IH, Forall_cons, Hlast. split.
    + intros (H1 & _ & H3). split_and!; [by left|done|naive_solver|].
      destruct (chars s); [naive_solver|done].
    + intros ([_ H1] & _ & H3). split_and!; [done|done|]. destruct (chars s); [naive_solver|done].
  - case_bool_decide as Hb.
    + split; [done|]. intros (_ & H2 & H3). exfalso.
      destruct Hb as [->|Hb]; [by specialize (H2 eq_refl _ eq_refl)|].
      assert (chars s = []) as E by (destruct (chars s); [done|simpl in Hls; lia]).
      rewrite Hlast, E in H3. specialize (H3 _ eq_refl). congruence.
    + rewrite IH, Forall_cons, Hlast. split.
      * intros (H1 & _ & H3). split_and!; [by right|done|intros ->; tauto|].
        destruct (chars s) eqn:E; [|done]. simpl in Hls. lia.
      * intros ([_ H1] & _ & H3). split_and!; [done|done|]. destruct (chars s); [naive_solver|done].
  - split; [done|]. rewrite Forall_cons. intros ([[?|?] _] & _); congruence.
Qed.

(** The header check accepts exactly the DNS labels of RFC 1123. *)
Lemma validDNSLabel_spec s : validDNSLabel s = true ↔ rfc1123_label s.
Proof.
  unfold validDNSLabel, rfc1123_label. pose proof (length_chars s) as Hl.
  case_decide as Hd; [split; [done|]; lia|].
  rewrite (label_loop_spec s 0) by done.
  destruct (chars s) as [|c l] eqn:E; [simpl in Hl; lia|].
  destruct (last (c :: l)) as [d|] eqn:Hlast; [|by apply last_None in Hlast].
  split.
  - intros (H1 & H2 & H3). split_and!; [lia|lia|done| |]; eauto.
  - intros (_ & H1 & (c1 & Hc1 & Hc2) & (d1 & Hd1 & Hd2)). split_and!; [done|naive_solver|naive_solver].
Qed.

(** ** What is proxied *)

Section proxied.
Context {U P D : Type} `{Unstructured U} `{DriverLaws D}.
Context (prepare : Header → Header) (timeout_of : string → option Z).

Lemma parse_target_url hp : parse_target (target_url hp) = ("http", "127.0.0.1:" +:+ itoa hp).
Proof. reflexivity. Qed.

Lemma store_resolve_ok ns id port (s s' : StoreResolver U P D) target :
  store_resolve ns id port s = (s', (target, StateOK)) →
  ∃ u d info hp, Get SandboxGVR ns id (sr_Store s) = Ok u ∧ sandboxReady u = true ∧
    sr_Driver s = Some d ∧ container_of d ns id = Some info ∧ ci_State info = "running" ∧
    ci_PortMap info !! port = Some hp ∧ hp ≠ 0%Z ∧ target = target_url hp.
Proof.
  unfold store_resolve. destruct (Get SandboxGVR ns id (sr_Store s)) as [u|]; [|done].
  destruct (sandboxReady u) eqn:Hr; [|done]. simpl. destruct (sr_Driver s) as [d|]; [|done].
  pose proof (inspect_some ns id d) as Hi. destruct (InspectSandbox ns id d) as [d' [info|]]; [|done].
  case_decide as Hs; [done|]. destruct (ci_PortMap info !! port) as [hp|] eqn:Hp; simpl; [|done].
  case_decide as Hz; [done|]. intros [= <- <-]. exists u, d, info, hp.
  split_and!; try done; first [by apply Hi|by apply dec_stable].
Qed.

Lemma store_resolve_frame ns id port (s : StoreResolver U P D) :
  (store_resolve ns id port s).1 = s.
Proof.
  unfold store_resolve. destruct (Get SandboxGVR ns id (sr_Store s)) as [u|]; [|done].
  destruct (sandboxReady u); [|done]. simpl. destruct s as [st [d|]]; [|done]. simpl.
  pose proof (inspect_pure ns id d) as E. destruct (InspectSandbox ns id d) as [d' i]. simpl in E.
  by subst.
Qed.

Lemma request_port_range h : (1 ≤ request_port h ≤ 65535)%Z.
Proof.
  unfold request_port. destruct (atoi _) as [n|]; [|lia].
  destruct (Z.ltb_spec 0 n), (Z.leb_spec n 65535); simpl; lia.
Qed.

(** C15. A request is proxied only to a sandbox that may serve it: its
    header names a DNS label, the sandbox exists and is Ready, its container
    runs and publishes the requested port, and what is sent goes to that
    published port on the loopback interface, with path and query untouched and
    without the caller's credentials.  Routing changes nothing. *)
Theorem proxied_only_ready rq (s s' : StoreResolver U P D) target out timeout :
  ServeHTTP prepare timeout_of rq s = (s', Proxied target out timeout) →
  let id := hget (rq_Header rq) headerID in
  let ns := request_namespace (rq_Header rq) in
  s' = s ∧ rfc1123_label id ∧
  (∃ u d info hp, Get SandboxGVR ns id (sr_Store s) = Ok u ∧ sandboxReady u = true ∧
    sr_Driver s = Some d ∧ container_of d ns id = Some info ∧ ci_State info = "running" ∧
    ci_PortMap info !! request_port (rq_Header rq) = Some hp ∧ hp ≠ 0%Z ∧
    out_Scheme out = "http" ∧ out_Host out = "127.0.0.1:" +:+ itoa hp) ∧
  (1 ≤ request_port (rq_Header rq) ≤ 65535)%Z ∧
  out_Path out = rq_Path rq ∧ out_RawPath out = rq_RawPath rq ∧ out_RawQuery out = rq_RawQuery rq ∧
  out_Header out !! "Authorization" = None ∧ out_Header out !! "Origin" = None.
Proof.
  unfold ServeHTTP. cbv zeta. case_decide; [done|].
  destruct (validDNSLabel _) eqn:Hv; [|done]. apply validDNSLabel_spec in Hv. cbn [negb].
  set (ns := request_namespace _). set (id := hget _ _) in *. set (port := request_port _).
  unfold Resolve, StoreResolver_Resolver. pose proof (store_resolve_frame ns id port s) as Hf.
  destruct (store_resolve ns id port s) as [s1 [t st]] eqn:E. simpl in Hf. subst s1.
  case_decide as Hok; [|by destruct (statusFor _ _ _)]. subst st. intros [= <- <- <- <-].
  destruct (store_resolve_ok _ _ _ _ _ _ E) as (u & d & info & hp & Hu & Hr & Hd & Hc & Hst & Hp & Hz & ->).
  unfold Rewrite. rewrite parse_target_url. cbn [out_Scheme out_Host out_Path out_RawPath out_RawQuery out_Header].
  pose proof (request_port_range (rq_Header rq)).
  split_and!; try done; [by exists u, d, info, hp|unfold port; lia..| |]; unfold SetXForwarded;
    rewrite !lookup_insert_ne by done; [rewrite lookup_delete_ne by done|]; apply lookup_delete_eq.
Qed.
End proxied.

(** ** A healthy sandbox can be reached *)

(** What the encoding of a status keeps: it never fails, the JSON lists the
    conditions with their type and status, and a sandbox decoded from it is Ready
    when the status was. *)
Class StatusReads (U : Type) `{Unstructured U, ConditionLib, !Converter U} := {
  status_encodes : ∀ st : SandboxStatus, is_Some (ToStatus st);
  ready_in_json : ∀ (st : SandboxStatus) v, ToStatus st = Some v →
    IsStatusConditionTrue (ss_Conditions st) CondReady = true → ready_json (Some v) = true;
  ready_read : ∀ (u : U) (st : SandboxStatus) v (sb : Sandbox),
    ToStatus st = Some v → StatusOf u = Some v → FromUnstructured u = Some sb →
    IsStatusConditionTrue (ss_Conditions (sb_Status sb)) CondReady = IsStatusConditionTrue (ss_Conditions st) CondReady;
}.

Section routable.
Context {U P D : Type} `{UnstructuredLaws U} `{Codec U} `{Persister P}.
Context `{Oracle} `{GoRuntime} `{PatchLib} `{!Converter U} `{!ConverterLaws U} `{DriverLaws D} `{Mounts D} `{!MountLaws D}.
Context `{ConditionLaws} `{!StatusReads U}.
Context (r : Reconcilers).
#[local] Notation World := (world U P D).
Implicit Types (w : World) (u : U).

(** The last write of a pass, and what it says of Ready. *)
Definition reported u (st : SandboxStatus) w' : Prop := ∃ w0, w' = (writeStatus SandboxGVR u st w0).1.
Definition reported_ready (b : bool) u w' : Prop :=
  ∃ st, reported u st w' ∧ IsStatusConditionTrue (ss_Conditions st) CondReady = b.

(** If the object is stored after a status write, it has that status. *)
Lemma status_stored u (st : SandboxStatus) w u' :
  Get SandboxGVR (GetNamespace u) (GetName u) (w_store (writeStatus SandboxGVR u st w).1) = Ok u' →
  ∃ v, ToStatus st = Some v ∧ StatusOf u' = Some v.
Proof.
  pose proof (status_written SandboxGVR u st w) as Hw. revert Hw. unfold writeStatus, setStatus.
  destruct (status_encodes st) as [v ->]. rewrite sto_eq. cbn [fst snd]. set (n := SetResourceVersion "" _).
  assert (GetNamespace n = GetNamespace u ∧ GetName n = GetName u ∧ GetResourceVersion n = "") as (Hns & Hnm & Hrv)
    by (split_and!; unfold n; by uget_simpl).
  destruct (Store.Update SandboxGVR n true (w_store w)) as [s' x] eqn:E. cbn [fst snd w_store put_store].
  intros Hw Hget. destruct x as [o|e].
  - destruct (Hw _ eq_refl) as (v' & u2 & Hv & Hg2 & Hst). cbn [w_store put_store] in Hg2.
    rewrite Hget in Hg2. injection Hg2 as ->. by exists v'.
  - exfalso. pose proof E as Ec.
    apply Update_cases in Ec as [(e' & _ & ->)|(rm & old & _ & _ & _ & _ & [=] & _)].
    revert E Hget. unfold Store.Update, Get, Store.meta. destruct (resources (w_store w) !! SandboxGVR) as [rm|]; [|done].
    rewrite Hns, Hnm, key_if. destruct (lookup_obj _ _ _) as [old|]; [|done].
    unfold rv_precondition. rewrite Hrv, bool_decide_eq_true_2 by tauto. by destruct (nextRV (w_store w)).
Qed.

Lemma reported_stored b u w' ns name u' sb' :
  GetNamespace u = ns → GetName u = name → reported_ready b u w' →
  Get SandboxGVR ns name (w_store w') = Ok u' → FromUnstructured u' = Some sb' →
  IsStatusConditionTrue (ss_Conditions (sb_Status sb')) CondReady = b.
Proof.
  intros <- <- (st & [w0 ->] & <-) Hget Hsb. destruct (status_stored u st w0 u' Hget) as (v & Hv & Hst).
  by eapply ready_read.
Qed.

Lemma unready_set l st reason msg g now : st ≠ ConditionTrue →
  IsStatusConditionTrue (setCond l CondReady st reason msg g now) CondReady = false.
Proof. intros Hst. rewrite cond_true_set. by apply bool_decide_eq_false_2. Qed.

Lemma failReady_reports u sb msg w : reported_ready false u (failReady u sb msg w).1.
Proof. eexists. split; [by exists w|]. by apply unready_set. Qed.

Lemma back_volumes_reports u sb vols w w' out :
  back_volumes u sb vols w = (w', Some (Ok out)) → reported_ready false u w'.
Proof.
  revert w; induction vols as [|v vols IH]; intros w; cbn [back_volumes]; [done|].
  destruct (vo_PersistentVolumeClaim v) as [src|]; [|apply IH]. destruct (Get PVCGVR _ _ _) as [pu|e].
  - destruct (drv _ _) as [w1 [x|e]]; [apply IH|done].
  - destruct (IsNotFound e); [|done]. set (st := conds_only _).
    destruct (writeStatus SandboxGVR u st w) as [w1 x] eqn:E. intros [= <- _].
    exists st. split; [exists w; by rewrite E|]. by apply unready_set.
Qed.

Lemma suspended_unready sb gone now :
  IsStatusConditionTrue (ss_Conditions (suspended_status sb gone now)) CondReady = false.
Proof.
  unfold suspended_status, IsStatusConditionTrue, IsStatusConditionPresentAndEqual. cbn [ss_Conditions conds_only].
  rewrite find_remove_ne by done. destruct gone; by apply unready_set.
Qed.

(** Ready is reported of a running container only, with an address and a
    published port that answers. *)
Lemma running_ready_inv sb info port probe now :
  IsStatusConditionTrue (ss_Conditions (running_status r sb info port probe now)) CondReady = true →
  ci_State info = "running" ∧ default 0%Z (ci_PortMap info !! port) ≠ 0%Z ∧ ci_IPAddress info ≠ "" ∧ probe = true.
Proof.
  unfold running_status. case_decide as Hx.
  { destruct (decide (ci_ExitCode info = 0%Z)); destruct (default false _); cbn [ss_Conditions conds_only];
      by rewrite unready_set by done. }
  case_decide as Hs.
  - destruct (bool_decide (default _ _ ≠ 0%Z)) eqn:Hp; destruct probe; destruct (bool_decide (ci_IPAddress info ≠ "")) eqn:Hip;
      cbn [andb]; destruct (default false _); cbn [ss_Conditions]; rewrite cond_true_set;
      try (by intros ?%bool_decide_eq_true).
    all: intros _; by apply bool_decide_eq_true in Hp, Hip.
  - destruct (default false _); cbn [ss_Conditions conds_only]; by rewrite unready_set by done.
Qed.

(** The passes that end well: a report that is not Ready, or the last part of a
    running pass, over the sandbox's container. *)
Lemma reconcileRunning_reports u sb w w' out :
  reconcileRunning r u sb w = (w', Ok out) →
  reported_ready false u w' ∨
  ∃ pod info w0, finishRunning r u sb pod info w0 = (w', Ok out) ∧ Containers pod = Containers (bp_PodSpec (sb_Blueprint sb)) ∧
    container_of (w_drv w0) (m_Namespace (sb_Meta sb)) (m_Name (sb_Meta sb)) = Some info.
Proof.
  assert (Hfail : ∀ msg w0, (let '(w1, x) := failReady u sb msg w0 in (w1, Ok x : res rec_error Result)) = (w', Ok out) →
    reported_ready false u w').
  { intros msg w0. pose proof (failReady_reports u sb msg w0) as Hf. destruct (failReady _ _ _ _). by intros [= <- _]. }
  unfold reconcileRunning. case_decide; [intros Hx; left; by eapply Hfail|].
  assert (∀ l (acc : World * PodSpec), Containers (foldl (vct_step u (m_Name (sb_Meta sb))) acc l).2 = Containers acc.2) as Hpod.
  { induction l as [|v l IH]; intros acc; [done|]. cbn [foldl]. by rewrite IH. }
  specialize (Hpod (bp_VolumeClaimTemplates (sb_Blueprint sb)) (w, bp_PodSpec (sb_Blueprint sb))).
  destruct (foldl _ _ _) as [w1 pod]. cbn [snd] in Hpod.
  destruct (back_volumes _ _ _ _) as [w2 [o|]] eqn:Eb.
  { intros [= -> ->]. left. by eapply back_volumes_reports. }
  destruct (ensureImage _ _ _) as [w3 [x|e]]; [|intros Hx; left; by eapply Hfail].
  destruct (get_container r sb pod w3) as [w4 c] eqn:Eg. destruct c as [info|msg|e]; [|intros Hx; left; by eapply Hfail|done].
  intros Hfin. right. exists pod, info, w4. split; [done|]. split; [done|].
  set (ns := m_Namespace (sb_Meta sb)). set (name := m_Name (sb_Meta sb)). revert Eg. unfold get_container. fold ns name.
  pose proof (inspect_keeps ns name w3) as Hk. pose proof (drv_result (InspectSandbox ns name) w3) as Hr.
  pose proof (inspect_some ns name (w_drv w3)) as Hs.
  destruct (drv (InspectSandbox ns name) w3) as [w5 i]. cbn [fst snd] in Hk, Hr. subst w5. rewrite <-Hr in Hs.
  destruct i as [info'|[|m]]; [intros [= <- <-]; by apply Hs| |done].
  destruct (container_spec r sb pod) as [spec|] eqn:Hspec; [|done].
  destruct (container_spec_named _ _ _ _ Hspec) as [Hsn Hsm]. pose proof (create_ok spec (w_drv w3)) as Hc.
  unfold drv. destruct (CreateSandboxContainer spec (w_drv w3)) as [d c]. cbn [fst snd] in Hc.
  rewrite Hsn, Hsm in Hc. destruct c as [i|]; intros [= <- <-]. by apply Hc.
Qed.

(** A pass after which the stored sandbox reads Ready had a running container that
    publishes the server port, and has left it there. *)
Lemma ready_pass ns name w w' out u u' sb sb' :
  keyed (w_store w) → slashless (w_store w) → namespaced_gvr (w_store w) SandboxGVR → no_byte slash ns = true →
  Get SandboxGVR ns name (w_store w) = Ok u → FromUnstructured u = Some sb →
  reconcileSandbox r ns name w = (w', Ok out) →
  Get SandboxGVR ns name (w_store w') = Ok u' → FromUnstructured u' = Some sb' →
  IsStatusConditionTrue (ss_Conditions (sb_Status sb')) CondReady = true →
  let port := podServerPort (bp_PodSpec (sb_Blueprint sb)) (serverPort r) in
  sandboxReady u' = true ∧ ∃ info hp, container_of (w_drv w') ns name = Some info ∧ ci_State info = "running" ∧
    ci_PortMap info !! port = Some hp ∧ hp ≠ 0%Z.
Proof.
  intros K Hsl Hn Hns Hg Hsb E Hg' Hsb' Hready port. apply from_sandbox_meta in Hsb as Hm.
  pose proof Hg as Ht. apply Get_target in Ht. destruct (target_named _ _ _ _ _ K Hsl Hn Hns Ht) as [Hns' Hname'].
  assert (reported_ready false u w' → False) as Hno.
  { intros Hr. pose proof (reported_stored _ _ _ _ _ _ _ Hns' Hname' Hr Hg' Hsb'). congruence. }
  assert (target (w_store w') SandboxGVR ns name = None → False) as Hgone.
  { intros Hx. apply Get_target in Hg'. congruence. }
  revert E. unfold reconcileSandbox. rewrite Hg, Hsb. destruct (orphaned u w) eqn:Ho.
  { intros E. exfalso. apply Hgone. eapply (orphan_collected r ns name w w' (Ok out) u sb); [done..|].
    unfold reconcileSandbox. by rewrite Hg, Hsb, Ho. }
  destruct (match sb_ShutdownTime sb with Some exp => negb (w_now w <? exp)%Z | None => false end).
  { intros E. exfalso. revert E. unfold handleSandboxExpiry. rewrite Hm. cbn [m_Namespace m_Name meta_of]. rewrite Hns', Hname'.
    pose proof (inspect_keeps ns name w) as Hi. destruct (drv (InspectSandbox ns name) w) as [w0 i]. cbn [fst] in Hi. subst w0.
    set (w1 := match i with Ok info => (drv (RemoveContainer (ci_ID info)) w).1 | Err _ => w end).
    assert (w_store w1 = w_store w) as Hs1.
    { unfold w1. destruct i as [info|]; [|done]. by destruct (remove_frame (ci_ID info) w) as (_ & ? & _). }
    case_decide.
    - unfold delete_sandbox, Delete. rewrite <-Hs1 in K, Hsl, Hn, Ht.
      destruct (sandbox_deleted 2 ns name w1 u K Hsl Hn Hns Ht) as [Hd1 _].
      destruct (Delete_n 3 SandboxGVR ns name w1) as [w2 x]. intros [= <- _]. by apply Hgone.
    - set (st := conds_only _). destruct (writeStatus SandboxGVR u st w1) as [w2 x] eqn:Ew. intros [= <- _].
      apply Hno. exists st. split; [exists w1; by rewrite Ew|by apply unready_set]. }
  case_decide.
  { intros E. exfalso. revert E. unfold reconcileSuspended. destruct (drv _ w) as [w0 i].
    match goal with |- (let '(_, _) := ?p in _) = _ → _ => destruct p as [w1 gone] end.
    set (st := suspended_status _ _ _). destruct (writeStatus SandboxGVR u st w1) as [w2 x] eqn:Ew. intros [= <- _].
    apply Hno. exists st. split; [exists w1; by rewrite Ew|apply suspended_unready]. }
  intros [Hr|(pod & info & w0 & Hfin & Hpod & Hc)]%reconcileRunning_reports; [by destruct Hno|].
  rewrite Hm in Hc. cbn [m_Namespace m_Name meta_of] in Hc. rewrite Hns', Hname' in Hc.
  pose proof (finish_containers r u sb pod info w0) as Hq. rewrite Hfin in Hq. cbn [fst] in Hq.
  revert Hfin. unfold finishRunning. assert (podServerPort pod (serverPort r) = port) as ->
    by (unfold port, podServerPort; by rewrite Hpod).
  destruct (probe_container _ _ _) as [w1 probe]. set (st := running_status _ _ _ _ _ _).
  destruct (writeStatus SandboxGVR u st w1) as [w2 x] eqn:Ew. intros [= <- _].
  pose proof (status_stored u st w1 u') as Hst. rewrite Ew, Hns', Hname' in Hst. destruct (Hst Hg') as (v & Hv & Hsu).
  rewrite (ready_read u' st v sb' Hv Hsu Hsb') in Hready. split; [unfold sandboxReady; rewrite Hsu; by apply (ready_in_json st)|].
  apply running_ready_inv in Hready as (Hs & Hp & _). exists info.
  destruct (ci_PortMap info !! port) as [hp|]; [|done]. exists hp. cbn in Hp.
  split_and!; [by rewrite (q_containers _ _ Hq)|done..].
Qed.

(** C16. From reconciling to routing.  Take a pass over a sandbox that ends well
    and after which the stored sandbox reads Ready, and whose name is a DNS label
    (the router refuses any other).  As long as nothing changes and the driver
    answers the router's inspection, a request for that sandbox and its server
    port is proxied to the port on the loopback interface that its running
    container publishes, with path and query untouched. *)
Theorem ready_is_routable prepare timeout_of ns name w w' out u u' sb sb' rq :
  keyed (w_store w) → slashless (w_store w) → namespaced_gvr (w_store w) SandboxGVR → no_byte slash ns = true →
  Get SandboxGVR ns name (w_store w) = Ok u → FromUnstructured u = Some sb →
  reconcileSandbox r ns name w = (w', Ok out) →
  Get SandboxGVR ns name (w_store w') = Ok u' → FromUnstructured u' = Some sb' →
  IsStatusConditionTrue (ss_Conditions (sb_Status sb')) CondReady = true →
  answers (w_drv w') ns name → rfc1123_label name →
  rq_Path rq ≠ "/healthz" → rq_Path rq ≠ "/readyz" →
  hget (rq_Header rq) headerID = name → request_namespace (rq_Header rq) = ns →
  request_port (rq_Header rq) = podServerPort (bp_PodSpec (sb_Blueprint sb)) (serverPort r) →
  ∃ info hp o, container_of (w_drv w') ns name = Some info ∧ ci_State info = "running" ∧
    ci_PortMap info !! request_port (rq_Header rq) = Some hp ∧ hp ≠ 0%Z ∧
    (ServeHTTP prepare timeout_of rq (mkResolver (w_store w') (Some (w_drv w')))).2 =
      Proxied (target_url hp) o (timeout_of (hget (rq_Header rq) headerTimeout)) ∧
    out_Scheme o = "http" ∧ out_Host o = "127.0.0.1:" +:+ itoa hp ∧
    out_Path o = rq_Path rq ∧ out_RawPath o = rq_RawPath rq ∧ out_RawQuery o = rq_RawQuery rq.
Proof.
  intros K Hsl Hn Hns Hg Hsb E Hg' Hsb' Hready Ha Hlabel Hp1 Hp2 Hid Hrns Hport.
  destruct (ready_pass ns name w w' out u u' sb sb' K Hsl Hn Hns Hg Hsb E Hg' Hsb' Hready)
    as (Hjson & info & hp & Hc & Hs & Hp & Hz).
  exists info, hp, (Rewrite (target_url hp) rq (prepare (rq_Header rq))).
  rewrite Hport. do 4 (split; [done|]). split; [|unfold Rewrite; by rewrite parse_target_url].
  unfold ServeHTTP. cbv zeta. rewrite decide_False by (intros [?|?]; done).
  rewrite Hid, (proj2 (validDNSLabel_spec name) Hlabel), Hrns, Hport. cbn [negb].
  unfold Resolve, StoreResolver_Resolver, store_resolve. cbn [sr_Store sr_Driver]. rewrite Hg', Hjson. cbn [negb].
  unfold answers in Ha. destruct (InspectSandbox ns name (w_drv w')) as [d i]. cbn [snd] in Ha. subst i.
  rewrite Hc. cbn [of_opt]. rewrite Hs, decide_False by (intros ?; done). rewrite Hp. cbn [default from_option id].
  by rewrite decide_False.
Qed.
End routable.

(** ** A request for a running sandbox *)

Lemma cond_json_true c : cd_Status c = ConditionTrue → is_cond (cd_Type c) "True" (cond_json c) = true.
Proof.
  intros Hs. unfold is_cond, cond_json. rewrite Hs, lookup_insert_eq, lookup_insert_ne, lookup_insert_eq by done.
  by rewrite !bool_decide_eq_true_2.
Qed.

Lemma ready_conditions l :
  IsStatusConditionTrue l CondReady = true → existsb (is_cond "Ready" "True") (cond_json <$> l) = true.
Proof.
  unfold IsStatusConditionTrue, IsStatusConditionPresentAndEqual. simpl.
  induction l as [|c l IH]; cbn [cond_find]; [done|]. rewrite fmap_cons. cbn [existsb].
  case_decide as Ht; intros Hl; apply orb_true_iff; [left|right; by apply IH].
  apply bool_decide_eq_true in Hl. etrans; [|exact (cond_json_true c Hl)]. by rewrite Ht.
Qed.

Lemma jcond_json c : jcond (cond_json c) = Some c.
Proof. by destruct c as [t [] re m g at_]. Qed.

Lemma jconds_json l m : m !! "conditions" = Some (GList (cond_json <$> l)) → jconds (Some (GMap m)) = l.
Proof.
  intros Hm. unfold jconds, jget. rewrite Hm. cbn [jlist]. clear Hm.
  induction l as [|c l IH]; [done|]. cbn [fmap list_fmap omap list_omap]. by rewrite jcond_json, IH.
Qed.

#[export] Instance demo_status_reads : StatusReads cobj.
Proof.
  constructor.
  - by eexists.
  - intros st v [= <-] Hr. by apply ready_conditions.
  - intros u st v sb [= <-] Hu [= <-]. cbn [sb_Status ss_Conditions]. change (c_status u) with (StatusOf u).
    by rewrite Hu, (jconds_json (ss_Conditions st)).
Qed.

Definition demo_serving_world : demo_world := demo_sb_world [] ∅ demo_busy 0.
#[local] Notation demo_serving := (reconcileSandbox demo_rec "default" "s" demo_serving_world).

#[local] Notation demo_resolver := (mkResolver (w_store demo_serving.1) (Some (w_drv demo_serving.1))).

Definition demo_request : Request :=
  mkRequest "POST" "localhost:8880" "/execute" "" "q=1"
    {["X-Sandbox-Id" := "s"; "Authorization" := "Bearer t"]} "127.0.0.1" false.

#[local] Notation demo_routed := (ServeHTTP (λ h, h) (λ _, None) demo_request demo_resolver).

Lemma ready_is_routable_witness :
  ∃ hp o, demo_routed.2 = Proxied (target_url hp) o None ∧ out_Path o = "/execute".
Proof.
  pose (u := demo_get SandboxGVR "s" (w_store demo_serving_world)).
  pose (u' := demo_get SandboxGVR "s" (w_store demo_serving.1)).
  edestruct (ready_is_routable demo_rec (λ h, h) (λ _, None) "default" "s" demo_serving_world demo_serving.1
    (demo_ok_result demo_serving.2) u u' (demo_sandbox u) (demo_sandbox u') demo_request)
    as (info & hp & o & _ & _ & _ & _ & Hr & _ & _ & Hp & _).
  - apply keyed_check_ok. vm_compute. reflexivity.
  - apply demo_slashless. vm_compute. reflexivity.
  - apply demo_namespaced. vm_compute. reflexivity.
  - vm_compute. reflexivity.
  - vm_compute. reflexivity.
  - vm_compute. reflexivity.
  - apply demo_pass_pair. vm_compute. reflexivity.
  - vm_compute. reflexivity.
  - vm_compute. reflexivity.
  - vm_compute. reflexivity.
  - vm_compute. reflexivity.
  - apply validDNSLabel_spec. vm_compute. reflexivity.
  - discriminate.
  - discriminate.
  - vm_compute. reflexivity.
  - vm_compute. reflexivity.
  - vm_compute. reflexivity.
  - exists hp, o. split; [exact Hr|exact Hp].
Defined.

Lemma proxied_only_ready_witness :
  ∃ out, demo_routed.2 = Proxied (target_url 40000) out None ∧ rfc1123_label "s" ∧
    out_Path out = "/execute" ∧ out_Header out !! "Authorization" = None.
Proof.
  eexists. split; [vm_compute; reflexivity|].
  edestruct (proxied_only_ready (λ h, h) (λ _, None) demo_request demo_resolver demo_routed.1 (target_url 40000))
    as (_ & Hid & _ & _ & Hpath & _ & _ & Ha & _); [|split; [exact Hid|split; [exact Hpath|exact Ha]]].
  apply pair_snd. vm_compute. reflexivity.
Defined.
