(* ===== verification/Mux.v ===== *)
(** The part of [net/http.ServeMux] the servers rely on: patterns of literal
    and wildcard segments, optionally ending in a wildcard for the rest of the
    path and optionally tied to a method.  A request goes to the most specific
    matching pattern: one tied to its method before one that is not, then, from
    the left, a literal segment before a wildcard and that before the rest.

    Paths are given by their decoded segments; the redirects [ServeMux] answers to
    unclean paths are outside the model. *)

From S2P Require Import Prelude GoStrings.
Local Open Scope string_scope.

(** [Rest] is a final [{name...}]; a pattern that ends in a slash has one
    without a name. *)
Inductive seg := Lit (s : string) | Wild (name : string) | Rest (name : string).
#[export] Instance seg_eq_dec : EqDecision seg.
Proof. solve_decision. Defined.

Notation PathValues := (gmap string string).

Record route (H : Type) := mkRoute {
  rt_Method : option string;
  rt_Segs : list seg;
  rt_Handler : H;
}.
Arguments mkRoute {H} _ _ _.
Arguments rt_Method {H} _.
Arguments rt_Segs {H} _.
Arguments rt_Handler {H} _.

(** A pattern against a path; a wildcard takes one non-empty segment, the rest
    one segment or more. *)
Fixpoint match_segs (ps : list seg) (path : list string) (vs : PathValues) : option PathValues :=
  match ps, path with
  | [], [] => Some vs
  | Lit s :: ps, x :: path => if decide (s = x) then match_segs ps path vs else None
  | Wild n :: ps, x :: path => if decide (x = "") then None else match_segs ps path (<[n := x]> vs)
  | [Rest n], _ :: _ => Some (if decide (n = "") then vs else <[n := str_join "/" path]> vs)
  | _, _ => None
  end.

(** [p] before [q]: at the first segment where they differ in kind, [p] has the
    more specific one. *)
Fixpoint more_specific (p q : list seg) : bool :=
  match p, q with
  | Lit _ :: p, Lit _ :: q | Wild _ :: p, Wild _ :: q => more_specific p q
  | Lit _ :: _, (Wild _ | Rest _) :: _ | Wild _ :: _, Rest _ :: _ => true
  | _, _ => false
  end.

(** A method-tied pattern matches its method; GET patterns also serve HEAD. *)
Definition method_ok {H} (r : route H) (method : string) : bool :=
  match rt_Method r with
  | None => true
  | Some m => bool_decide (m = method ∨ m = "GET" ∧ method = "HEAD")
  end.

Definition before {H} (r r' : route H) : bool :=
  match rt_Method r, rt_Method r' with
  | Some _, None => true
  | None, Some _ => false
  | _, _ => more_specific (rt_Segs r) (rt_Segs r')
  end.

Definition better {H} (best : option (route H * PathValues)) (c : route H * PathValues)
  : option (route H * PathValues) :=
  match best with
  | None => Some c
  | Some b => if before c.1 b.1 then Some c else Some b
  end.

Definition candidates {H} (mux : list (route H)) (method : string) (path : list string)
  : list (route H * PathValues) :=
  omap (λ r, if method_ok r method then (λ vs, (r, vs)) <$> match_segs (rt_Segs r) path ∅ else None) mux.

Inductive dispatch (H : Type) := Found (h : H) (vs : PathValues) | NoRoute | BadMethod.
Arguments Found {H} _ _.
Arguments NoRoute {H}.
Arguments BadMethod {H}.

Definition serve {H} (mux : list (route H)) (method : string) (path : list string) : dispatch H :=
  match foldl better None (candidates mux method path) with
  | Some (r, vs) => Found (rt_Handler r) vs
  | None => if existsb (λ r, bool_decide (is_Some (match_segs (rt_Segs r) path ∅))) mux
            then BadMethod else NoRoute
  end.

(** A path without a final slash that would be matched exactly with one is
    redirected there, unless it is itself matched exactly. *)
Definition exact {H} (r : route H) (path : list string) : bool :=
  match last (rt_Segs r) with
  | Some (Rest _) => bool_decide (last path = Some "" ∧ length path = length (rt_Segs r))
  | _ => true
  end.
Definition best_route {H} (mux : list (route H)) (method : string) (path : list string) : option (route H) :=
  fst <$> foldl better None (candidates mux method path).
Definition exactly {H} (mux : list (route H)) (method : string) (path : list string) : bool :=
  match best_route mux method path with Some r => exact r path | None => false end.
Definition slash_redirect {H} (mux : list (route H)) (method : string) (path : list string) : bool :=
  negb (exactly mux method path) && bool_decide (last path ≠ Some "") && exactly mux method (path ++ [""])%list.
