(* ===== verification/Agent.v ===== *)
(** The agent as a server: [NewServer] and [ServeHTTP] of [runtime/server.go] and
    the environment [runtime/main.go] reads.

    [ServeHTTP] sends a request through the routing table to the handlers of
    Runtime.v; [requests_spec] is the table written out path by path, and the
    theorems are about whole requests and sessions. *)

From S2P Require Import Prelude GoStrings Runtime RuntimeSpec Paths Config Mux.
Local Open Scope string_scope.

(** ** main.go *)

(** The root directory and the address, from the environment. *)
Definition runtime_config `{Environment} : string * string :=
  let root := Getenv "LASD_RUNTIME_ROOT" in
  let root := if decide (root = "") then "/app" else root in
  let port := Getenv "LASD_RUNTIME_PORT" in
  let port := if decide (port = "") then "8888" else port in
  (root, ":" +:+ port).

(** [main] until it listens: the server and its address, or the error that ends
    it. *)
Definition start_runtime {F} `{FileSystem F} `{Environment} (wd : res string string) (f : F)
  : F * res string (Server * string) :=
  let '(root, addr) := runtime_config in
  let '(f, r) := MkdirAll root f in
  (f, (λ _, (mkServer root wd, addr)) <$> r).

(** ** Requests *)

Inductive agent_endpoint := AHealth | AExecute | AUpload | ADownload | AList | AExists.

Definition NewServer : list (route agent_endpoint) := [
  mkRoute (Some "GET") [Rest ""] AHealth;
  mkRoute (Some "POST") [Lit "execute"] AExecute;
  mkRoute (Some "POST") [Lit "upload"] AUpload;
  mkRoute (Some "GET") [Lit "download"; Rest "path"] ADownload;
  mkRoute (Some "GET") [Lit "list"; Rest "path"] AList;
  mkRoute (Some "GET") [Lit "exists"; Rest "path"] AExists
].

(** The body as the two handlers that read one decode it: a command, or the
    uploaded file's name and content. *)
Record agent_request := mkAgentRequest {
  ag_Method : string;
  ag_Path : list string;
  ag_Command : res string string;
  ag_Form : res string (option (string * string));
}.

Inductive agent_answer := Answer (r : response) | Redirect (path : list string) | NotFound | MethodNotAllowed.

Section agent.
Context {F : Type} `{FileSystem F} `{Launcher F}.
Implicit Types (s : Server) (rq : agent_request) (f : F).

Definition handle s (e : agent_endpoint) (vs : PathValues) rq f : F * response :=
  let path := default "" (vs !! "path") in
  match e with
  | AHealth => (f, health)
  | AExecute => execute s (ag_Command rq) f
  | AUpload => upload s (ag_Form rq) f
  | ADownload => (f, download s path f)
  | AList => (f, list_files s path f)
  | AExists => (f, exists_ s path f)
  end.

Definition ServeHTTP s rq f : F * agent_answer :=
  if slash_redirect NewServer (ag_Method rq) (ag_Path rq) then (f, Redirect (ag_Path rq ++ [""])%list)
  else match serve NewServer (ag_Method rq) (ag_Path rq) with
       | Found e vs => let '(f, r) := handle s e vs rq f in (f, Answer r)
       | NoRoute => (f, NotFound)
       | BadMethod => (f, MethodNotAllowed)
       end.

(** ** The table, path by path *)

Definition reading (m : string) : bool := bool_decide (m = "GET" ∨ m = "HEAD").

Definition requests_spec s rq f : F * agent_answer :=
  let answer r := (f, Answer r) in
  if reading (ag_Method rq) then
    match ag_Path rq with
    | [x] => if decide (x = "download" ∨ x = "list" ∨ x = "exists") then (f, Redirect [x; ""]) else answer health
    | x :: rest =>
        let path := str_join "/" rest in
        if decide (x = "download") then answer (download s path f)
        else if decide (x = "list") then answer (list_files s path f)
        else if decide (x = "exists") then answer (exists_ s path f)
        else answer health
    | [] => (f, Redirect [""])
    end
  else if decide (ag_Method rq = "POST") then
    match ag_Path rq with
    | [] => (f, NotFound)
    | [x] =>
        if decide (x = "execute") then let '(f, r) := execute s (ag_Command rq) f in (f, Answer r)
        else if decide (x = "upload") then let '(f, r) := upload s (ag_Form rq) f in (f, Answer r)
        else (f, MethodNotAllowed)
    | _ => (f, MethodNotAllowed)
    end
  else match ag_Path rq with [] => (f, NotFound) | _ => (f, MethodNotAllowed) end.
End agent.

Section table.
Context {F : Type} `{FileSystem F} `{Launcher F}.
Implicit Types (s : Server) (rq : agent_request) (f : F).

(** The patterns that match a path. *)
Lemma match_root x rest : match_segs [Rest ""] (x :: rest) ∅ = Some ∅.
Proof. done. Qed.
Lemma match_one n x rest : match_segs [Lit n] (x :: rest) ∅ = if decide (n = x ∧ rest = []) then Some ∅ else None.
Proof. cbn. destruct (decide (n = x)), rest; repeat case_decide; naive_solver. Qed.
Lemma match_below n x rest : match_segs [Lit n; Rest "path"] (x :: rest) ∅ =
  if decide (n = x ∧ rest ≠ []) then Some {["path" := str_join "/" rest]} else None.
Proof. cbn. destruct (decide (n = x)), rest; repeat case_decide; naive_solver. Qed.

Lemma candidates_step {T} (r : route T) mux m path : candidates (r :: mux) m path =
  ((if method_ok r m then match match_segs (rt_Segs r) path ∅ with Some vs => [(r, vs)] | None => [] end else []) ++
   candidates mux m path)%list.
Proof. unfold candidates. cbn. by destruct (method_ok r m), (match_segs (rt_Segs r) path ∅). Qed.

Lemma method_ok_tied {T} k segs (e : T) m :
  method_ok (mkRoute (Some k) segs e) m = bool_decide (k = m ∨ k = "GET" ∧ m = "HEAD").
Proof. done. Qed.

Definition entry (n : string) (e : agent_endpoint) (x : string) (rest : list string) : list (route agent_endpoint * PathValues) :=
  if decide (n = x ∧ rest ≠ []) then [(mkRoute (Some "GET") [Lit n; Rest "path"] e, {["path" := str_join "/" rest]})] else [].

Lemma candidates_read m x rest : reading m = true → candidates NewServer m (x :: rest) =
  ((mkRoute (Some "GET") [Rest ""] AHealth, ∅) ::
   entry "download" ADownload x rest ++ entry "list" AList x rest ++ entry "exists" AExists x rest)%list.
Proof.
  unfold reading. intros Hm%bool_decide_eq_true. unfold NewServer, entry. rewrite !candidates_step, !method_ok_tied. cbn [rt_Segs].
  rewrite match_root, !match_one, !match_below. rewrite !(bool_decide_true (_ ∨ _ = "GET" ∧ _)) by naive_solver.
  rewrite !(bool_decide_false (_ ∨ _ ∧ _)) by naive_solver. cbn. repeat case_decide; done.
Qed.

(** The endpoint whose pattern starts with a segment. *)
Definition target (x : string) : option agent_endpoint :=
  if decide (x = "download") then Some ADownload
  else if decide (x = "list") then Some AList
  else if decide (x = "exists") then Some AExists else None.

Lemma best_read m x rest : reading m = true → foldl better None (candidates NewServer m (x :: rest)) =
  Some match target x, rest with
       | Some e, _ :: _ => (mkRoute (Some "GET") [Lit x; Rest "path"] e, {["path" := str_join "/" rest]})
       | _, _ => (mkRoute (Some "GET") [Rest ""] AHealth, ∅)
       end.
Proof.
  intros Hm. rewrite candidates_read by done. unfold entry, target. destruct rest as [|y rest].
  - rewrite !decide_False by naive_solver. cbn. by repeat case_decide.
  - destruct (decide (x = "download")) as [->|H1]; [reflexivity|].
    destruct (decide (x = "list")) as [->|H2]; [reflexivity|].
    destruct (decide (x = "exists")) as [->|H3]; [reflexivity|].
    by rewrite !decide_False by naive_solver.
Qed.

Lemma exactly_read m x rest : reading m = true →
  exactly NewServer m (x :: rest) = bool_decide (x = "" ∧ rest = [] ∨ is_Some (target x) ∧ rest = [""]).
Proof.
  intros Hm. unfold exactly, best_route. rewrite best_read by done. cbn. destruct rest as [|y rest].
  - assert (exact (mkRoute (Some "GET") [Rest ""] AHealth) [x] = bool_decide (x = "" ∧ [] = ([] : list string) ∨
      is_Some (target x) ∧ [] = [""])) as Hx; [|by destruct (target x)].
    unfold exact. cbn. apply bool_decide_ext. naive_solver.
  - destruct (target x) as [e|] eqn:Et; unfold exact; cbn; apply bool_decide_ext.
    + destruct rest as [|z rest]; cbn; [naive_solver|].
      split; [intros [_ Hl]; discriminate|intros [[_ [=]]|[_ [=]]]].
    + destruct rest; cbn; split; intros Hd; try naive_solver; destruct Hd as [_ Hl]; discriminate.
Qed.

Lemma redirect_read m x rest : reading m = true →
  slash_redirect NewServer m (x :: rest) = bool_decide (is_Some (target x) ∧ rest = []).
Proof.
  intros Hm. unfold slash_redirect. change ((x :: rest) ++ [""])%list with (x :: (rest ++ [""]))%list.
  rewrite !exactly_read by done. apply eq_bool_prop_intro. rewrite !andb_True, negb_True, !bool_decide_spec.
  assert (∀ l : list string, (l ++ [""])%list = [""] ↔ l = []) as Hl.
  { intros l. split; [|by intros ->]. destruct l as [|a [|b l]]; [done|discriminate|discriminate]. }
  rewrite Hl. split; [intros [[_ _] [[_ Hr]|Hr]]; [by destruct rest|done]|].
  intros [Ht ->]. assert (x ≠ "") as Hx by (intros ->; by destruct Ht). cbn. naive_solver.
Qed.

Lemma candidates_post m x rest : reading m = false → candidates NewServer m (x :: rest) =
  if decide (m = "POST" ∧ rest = [] ∧ x = "execute") then [(mkRoute (Some "POST") [Lit "execute"] AExecute, ∅)]
  else if decide (m = "POST" ∧ rest = [] ∧ x = "upload") then [(mkRoute (Some "POST") [Lit "upload"] AUpload, ∅)]
  else [].
Proof.
  unfold reading. intros Hm%bool_decide_eq_false. unfold NewServer. rewrite !candidates_step, !method_ok_tied. cbn [rt_Segs].
  rewrite !match_one. rewrite !(bool_decide_false (_ ∨ _ = "GET" ∧ _)) by naive_solver. cbn [app].
  destruct (decide (m = "POST")) as [->|Hp].
  - rewrite !(bool_decide_true (_ = "POST" ∨ _)) by (by left). cbn [app]. repeat case_decide; naive_solver.
  - rewrite !(bool_decide_false (_ ∨ _)) by naive_solver. cbn [app]. by rewrite !decide_False by naive_solver.
Qed.

Lemma redirect_other m path : reading m = false → slash_redirect NewServer m path = false.
Proof.
  intros Hm. unfold slash_redirect. assert (exactly NewServer m (path ++ [""]) = false) as ->; [|by rewrite andb_false_r].
  unfold exactly, best_route. destruct path as [|x rest].
  - cbn [app]. by rewrite candidates_post, !decide_False by naive_solver.
  - cbn [app]. rewrite candidates_post, !decide_False by first [done | intros (_ & Hr & _); by destruct rest]. done.
Qed.

Lemma candidates_nil m : candidates NewServer m [] = [].
Proof. unfold NewServer. rewrite !candidates_step. cbn. by repeat case_match. Qed.
Lemma no_path_unserved m : serve NewServer m [] = NoRoute.
Proof. unfold serve. by rewrite candidates_nil. Qed.

Lemma serve_post m x rest : reading m = false → serve NewServer m (x :: rest) =
  if decide (m = "POST" ∧ rest = [] ∧ x = "execute") then Found AExecute ∅
  else if decide (m = "POST" ∧ rest = [] ∧ x = "upload") then Found AUpload ∅ else BadMethod.
Proof.
  intros Hm. unfold serve. rewrite candidates_post by done.
  do 2 (destruct (decide _); [done|]). done.
Qed.

Lemma serve_read m x rest : reading m = true → serve NewServer m (x :: rest) =
  match target x, rest with
  | Some e, _ :: _ => Found e {["path" := str_join "/" rest]}
  | _, _ => Found AHealth ∅
  end.
Proof. intros Hm. unfold serve. rewrite best_read by done. destruct (target x), rest; done. Qed.

(** C33. The routing table means what it lists: a read of [/download/...],
    [/list/...] or [/exists/...] runs that handler on the rest of the path, the
    three bare names are redirected to their directories, every other read is
    answered by the health check; [POST /execute] and [POST /upload] run theirs,
    and nothing else is allowed. *)
Theorem requests_dispatched s rq f : ServeHTTP s rq f = requests_spec s rq f.
Proof.
  unfold ServeHTTP, requests_spec. destruct rq as [m path cmd form]. cbn [ag_Method ag_Path ag_Command ag_Form].
  destruct (reading m) eqn:Hm.
  - destruct path as [|x rest].
    { unfold slash_redirect. change ([] ++ [""])%list with ["" : string]. rewrite exactly_read by done.
      unfold exactly at 1, best_route. by rewrite candidates_nil. }
    rewrite redirect_read, serve_read by done.
    assert (is_Some (target x) ↔ x = "download" ∨ x = "list" ∨ x = "exists") as Ht.
    { unfold target. repeat case_decide; split; naive_solver. }
    destruct rest as [|y rest].
    + destruct (decide (x = "download" ∨ x = "list" ∨ x = "exists")) as [Hx|Hx].
      * by rewrite bool_decide_true by naive_solver.
      * rewrite bool_decide_false by naive_solver. by destruct (target x) eqn:E.
    + rewrite bool_decide_false by naive_solver. unfold target. repeat case_decide; done.
  - rewrite redirect_other by done. destruct path as [|x rest]; [rewrite no_path_unserved; by case_decide|].
    rewrite serve_post by done. destruct (decide (m = "POST")) as [->|Hp]; [|by rewrite !decide_False by naive_solver].
    destruct rest as [|y rest]; [|by rewrite !decide_False by naive_solver].
    destruct (decide (x = "execute")) as [->|He]; [by rewrite decide_True|].
    rewrite (decide_False (P := _ ∧ _ ∧ x = "execute")) by naive_solver.
    destruct (decide (x = "upload")) as [->|Hu]; [by rewrite decide_True|].
    by rewrite decide_False by naive_solver.
Qed.
End table.

(** ** Sessions *)

Section sessions.
Context {F : Type} `{FileSystemLaws F} `{!Launcher F}.
Implicit Types (s : Server) (rq : agent_request) (f : F).

(** A regular file stays one when directories are made or another file is
    written. *)
Definition regular f (p : string) : Prop := ∃ i, Stat f p = Ok i ∧ fi_IsDir i = false.
Class FileSystemStable := {
  mkdir_regular : ∀ p q f, regular f q → regular (MkdirAll p f).1 q;
  write_regular : ∀ p q c f, q ≠ p → regular f q → regular (WriteFile p c f).1 q;
}.

(** A command may change any file; the other requests are the agent's own. *)
Definition runs_command rq : Prop := ag_Method rq = "POST" ∧ ag_Path rq = ["execute"].

Definition session s (l : list agent_request) f : F := foldl (λ f rq, (ServeHTTP s rq f).1) f l.

(** The destination of a request, if it writes a file. *)
Definition destination s rq : option string :=
  if decide (ag_Method rq = "POST" ∧ ag_Path rq = ["upload"]) then
    match ag_Form rq with Ok (Some (name, _)) => ok_val (safePath s name) | _ => None end
  else None.

Lemma upload_frame s filename content f f' r q :
  upload s (Ok (Some (filename, content))) f = (f', r) → safePath s filename ≠ Ok q →
  ReadFile f' q = ReadFile f q ∧ (`{FileSystemStable} → regular f q → regular f' q).
Proof.
  unfold upload. destruct (safePath s filename) as [dest|e]; [|by intros [= <- _] _].
  intros E Hne. assert (q ≠ dest) as Hq by congruence.
  pose proof (mkdir_frame (dir_of dest) q f) as Hm. pose proof (λ f, write_frame dest q content f Hq) as Hw.
  destruct (MkdirAll (dir_of dest) f) as [f1 x] eqn:E1. cbn [fst] in Hm.
  assert (`{FileSystemStable} → regular f q → regular f1 q) as Hm'.
  { intros Hst Hr. apply (mkdir_regular (dir_of dest)) in Hr. by rewrite E1 in Hr. }
  destruct x as [[]|e]; [|injection E as <- _; auto]. specialize (Hw f1).
  assert (f' = (WriteFile dest content f1).1) as -> by (destruct (WriteFile dest content f1) as [f2 [x|e]]; by injection E as <- _).
  split; [congruence|]. intros Hst Hr. apply write_regular; auto.
Qed.

(** A request leaves every file alone but its destination. *)
Lemma request_frame s rq f q : ¬ runs_command rq → destination s rq ≠ Some q →
  let f' := (ServeHTTP s rq f).1 in
  ReadFile f' q = ReadFile f q ∧ (`{FileSystemStable} → regular f q → regular f' q).
Proof.
  intros Hc Hd. cbv zeta. rewrite requests_dispatched. unfold requests_spec.
  destruct (reading (ag_Method rq)); [by repeat case_match|]. case_decide as Hp; [|by case_match].
  destruct (ag_Path rq) as [|x [|y rest]] eqn:Epath; try done.
  case_decide as Hx; [by destruct Hc; split; [|rewrite Epath, Hx]|]. case_decide as Hu; [|done]. subst x.
  unfold destination in Hd. rewrite decide_True in Hd by done. destruct (ag_Form rq) as [[[name content]|]|e]; [|done..].
  destruct (upload s (Ok (Some (name, content))) f) as [f' r] eqn:E. apply (upload_frame _ _ _ _ _ _ _ E).
  intros Hs. by rewrite Hs in Hd.
Qed.

Lemma session_frame s l f q : Forall (λ rq, ¬ runs_command rq) l → Forall (λ rq, destination s rq ≠ Some q) l →
  ReadFile (session s l f) q = ReadFile f q ∧ (`{FileSystemStable} → regular f q → regular (session s l f) q).
Proof.
  intros Hc Hd. revert f. induction Hc as [|rq l Hrq Hc IH]; intros f; [done|]. inversion_clear Hd as [|? ? Hq Hl].
  destruct (request_frame s rq f q Hrq Hq) as [H1 H2]. destruct (IH Hl (ServeHTTP s rq f).1) as [H3 H4].
  cbn [session foldl]. unfold session in *. split; [congruence|auto].
Qed.

Definition below s (q : string) : Prop :=
  ∃ bl rest, Abs (cwd s) (root s) = Ok (rooted bl) ∧ q = rooted (bl ++ rest) ∧ Forall proper rest.

Definition post_upload (name content : string) : agent_request :=
  mkAgentRequest "POST" ["upload"] (Err "") (Ok (Some (name, content))).
Definition get_download (rest : list string) : agent_request :=
  mkAgentRequest "GET" ("download" :: rest) (Err "") (Err "").

Lemma serve_upload s name content f :
  ServeHTTP s (post_upload name content) f =
  let '(f, r) := upload s (Ok (Some (name, content))) f in (f, Answer r).
Proof. by rewrite requests_dispatched. Qed.

Lemma serve_download s rest f : rest ≠ [] →
  ServeHTTP s (get_download rest) f = (f, Answer (download s (str_join "/" rest) f)).
Proof. intros Hr. rewrite requests_dispatched. by destruct rest. Qed.

(** C25. An uploaded file stays: once an upload has been answered with success,
    and until another upload goes to the same place or a command is run, every
    download of its name returns exactly the bytes that were sent. *)
Theorem uploads_kept `{!FileSystemStable} s name content f f' msg l rest :
  ServeHTTP s (post_upload name content) f = (f', Answer (mkResponse StatusOK msg)) →
  Forall (λ rq, ¬ runs_command rq) l →
  Forall (λ rq, destination s rq ≠ destination s (post_upload name content)) l →
  rest ≠ [] → str_join "/" rest = name →
  let f'' := session s l f' in
  ServeHTTP s (get_download rest) f'' = (f'', Answer (mkResponse StatusOK (BBytes content))).
Proof.
  rewrite serve_upload. intros E Hc Hd Hr Hn f''. rewrite serve_download, Hn by done. unfold destination in Hd at 2.
  rewrite decide_True in Hd by done. cbn in Hd. unfold upload in E. unfold download.
  destruct (safePath s name) as [dest|e]; [|discriminate].
  destruct (MkdirAll (dir_of dest) f) as [f1 [[]|e]]; [|discriminate].
  pose proof (written dest content f1) as Hw. destruct (WriteFile dest content f1) as [f2 [[]|e]]; [|discriminate].
  injection E as <- _. destruct (Hw eq_refl) as (Hread & Hreg). cbn [fst] in Hread, Hreg.
  destruct (session_frame s l f2 dest Hc Hd) as [Hsame Hstay].
  destruct (Hstay _ Hreg) as (i & Hi & Hdir). unfold f''. by rewrite Hi, Hdir, Hsame, Hread.
Qed.

End sessions.

(** ** Witnesses *)

#[local] Notation memfs := (gmap string string).

#[export] Instance mem_stable : FileSystemStable (F := memfs).
Proof.
  assert (∀ (f : memfs) q, regular f q ↔ is_Some (f !! q)) as Hreg.
  { intros f q. unfold regular. cbn. unfold mem_stat. destruct (f !! q); [split; eauto|].
    split; [|by intros [? ?]]. intros (i & Hi & Hd). destruct (existsb _ _); [injection Hi as <-|]; done. }
  split; [done|]. intros p q c f Hq. rewrite !Hreg. cbn. by rewrite lookup_insert_ne.
Qed.

(** No program can be started. *)
#[export] Instance no_launcher : Launcher memfs := {| run_command _ _ _ f := (f, mkRun "" "" (Some (inr "not found"))) |}.

Definition demo_requests : list agent_request := [post_upload "b.txt" "bye"; get_download ["a.txt"]; post_upload "../x" "no"].
Notation demo_uploaded := ((ServeHTTP demo_server (post_upload "a.txt" "hello") (∅ : memfs)).1).

Lemma demo_quiet : Forall (λ rq, ¬ runs_command rq) demo_requests.
Proof. repeat constructor; intros [_ E]; discriminate E. Qed.

Lemma uploads_kept_witness :
  (ServeHTTP demo_server (get_download ["a.txt"]) (session demo_server demo_requests demo_uploaded)).2
  = Answer (mkResponse StatusOK (BBytes "hello")).
Proof.
  rewrite (uploads_kept demo_server "a.txt" "hello" (∅ : memfs) demo_uploaded
    (BMessage "File 'a.txt' uploaded successfully.") demo_requests ["a.txt"]);
    [reflexivity|vm_compute; reflexivity|exact demo_quiet| |discriminate|reflexivity].
  repeat constructor; vm_compute; discriminate.
Defined.


(** A read of a command's path is answered by the health check. *)
Example get_execute : (ServeHTTP demo_server (mkAgentRequest "GET" ["execute"] (Ok "ls") (Err "")) (∅ : memfs)).2 = Answer health.
Proof. vm_compute. reflexivity. Qed.
Example bare_list : (ServeHTTP demo_server (mkAgentRequest "GET" ["list"] (Err "") (Err "")) (∅ : memfs)).2 = Redirect ["list"; ""].
Proof. vm_compute. reflexivity. Qed.
