(* ===== verification/Facade.v ===== *)
(** [internal/kubefacade]: the Kubernetes REST API over the object store.

    [buildMux] is the routing table; [handleCollection] and [handleItem] are what
    the handlers do to the world of the reconcilers (deleting an object runs the
    delete hook) and what they answer; [api] is the whole server.  Discovery and
    OpenAPI documents are in Discovery.v. *)

From S2P Require Import Prelude GoStrings K8s Apis Selectors Store StoreFacts Patch StoreSpec.
From S2P Require Import Concrete Watch Core Driver Build Reconciler Mux.
Local Open Scope string_scope.

(** ** server.go: routes *)

Inductive endpoint :=
| EVersion | EAPIVersions | ECoreResources | EGroups | EGroupResources
| EOpenAPIRoot | EOpenAPICore | EOpenAPIGroup
| ECollection (namespaced : bool)
| EItem (namespaced sub : bool)
| EPortForward
| EHealth.
#[export] Instance endpoint_eq_dec : EqDecision endpoint.
Proof. solve_decision. Defined.

Definition get (segs : list seg) (e : endpoint) : route endpoint := mkRoute (Some "GET") segs e.
Definition any (segs : list seg) (e : endpoint) : route endpoint := mkRoute None segs e.

Definition core_prefix : list seg := [Lit "api"; Lit "v1"].
Definition group_prefix : list seg := [Lit "apis"; Wild "group"; Wild "version"].
Definition in_namespace : list seg := [Lit "namespaces"; Wild "namespace"].

(** The resource routes below a prefix: namespaced collection, item and
    subresource, cluster collection and item. *)
Definition resource_routes (pre : list seg) : list (route endpoint) := [
  any (pre ++ in_namespace ++ [Wild "resource"]) (ECollection true);
  any (pre ++ in_namespace ++ [Wild "resource"; Wild "name"]) (EItem true false);
  any (pre ++ in_namespace ++ [Wild "resource"; Wild "name"; Wild "subresource"]) (EItem true true);
  any (pre ++ [Wild "resource"]) (ECollection false);
  any (pre ++ [Wild "resource"; Wild "name"]) (EItem false false)
].

Definition buildMux (portForward : bool) : list (route endpoint) := ([
  get [Lit "version"] EVersion;
  get [Lit "api"] EAPIVersions;
  get core_prefix ECoreResources;
  get [Lit "apis"] EGroups;
  get group_prefix EGroupResources;
  get [Lit "openapi"; Lit "v3"] EOpenAPIRoot;
  get [Lit "openapi"; Lit "v3"; Lit "api"; Lit "v1"] EOpenAPICore;
  get [Lit "openapi"; Lit "v3"; Lit "apis"; Wild "group"; Wild "version"] EOpenAPIGroup
] ++ resource_routes core_prefix ++ resource_routes group_prefix ++
  (if portForward
   then [any (core_prefix ++ in_namespace ++ [Lit "pods"; Wild "name"; Lit "portforward"]) EPortForward]
   else []) ++
  [get [Lit "healthz"] EHealth; get [Lit "readyz"] EHealth])%list.

Definition path_value (vs : PathValues) (n : string) : string := default "" (vs !! n).

(** [resolveByPath] *)
Definition resolveByPath (reg : Registry.t) (vs : PathValues) : option Resource :=
  let version := path_value vs "version" in
  Registry.ResolveResource reg (path_value vs "group")
    (if decide (version = "") then "v1" else version) (path_value vs "resource").

(** ** Requests and replies *)

Record rest_request := mkRest {
  rest_Method : string;
  rest_Query : gmap string string;
  rest_ContentType : string;
  (** the body read to its end, or the error of reading it *)
  rest_Body : res string string;
  rest_CanFlush : bool;
}.

Definition query (rq : rest_request) (k : string) : string := default "" (rest_Query rq !! k).

Definition maxBodyBytes : Z := Z.shiftl 64 20.

(** [io.LimitReader]: the first [n] bytes *)
Fixpoint limit_reader (n : Z) (s : string) : string :=
  match s with
  | String c s' => if (n <=? 0)%Z then "" else String c (limit_reader (n - 1) s')
  | EmptyString => ""
  end.

Definition read_body (rq : rest_request) : res string string := limit_reader maxBodyBytes <$> rest_Body rq.

(** The [autoscaling/v1] Scale view of an object. *)
Record Scale := mkScale {
  sc_Name : string; sc_Namespace : string; sc_ResourceVersion : string;
  sc_Created : option Z; sc_SpecReplicas : Z; sc_StatusReplicas : Z;
}.

Inductive reply (U : Type) `{SelectorLib} :=
| RObject (code : Z) (u : U)
| RScale (code : Z) (s : Scale)
| RList (apiVersion kind resourceVersion : string) (items : list U)
| RStatus (e : api_error)
| RWatch (p : pump_state (U := U)) (timeout : option Z).
Arguments RObject {U _} _ _.
Arguments RScale {U _} _ _.
Arguments RList {U _} _ _ _ _.
Arguments RStatus {U _} _.
Arguments RWatch {U _} _ _.

(** What the server answers: a handler's reply, another handler's answer, or
    the router's own errors. *)
Inductive answer (U : Type) `{SelectorLib} :=
| AReply (r : reply U)
| ADocument (e : endpoint) (vs : PathValues)
| ANoRoute
| AMethodNotAllowed.
Arguments AReply {U _} _.
Arguments ADocument {U _} _ _.
Arguments ANoRoute {U _}.
Arguments AMethodNotAllowed {U _}.

(** [encoding/json.Unmarshal] into [map[string]any], where every number is a
    [float64]. *)
Class StdJson := json_unmarshal : string → option gval.

(** What [encoding/json] documents for numbers in an [any]. *)
Class StdJsonLaws `{StdJson} := numbers_are_floats : ∀ b v m spec,
  json_unmarshal b = Some (GMap m) → m !! "spec" = Some (GMap spec) → spec !! "replicas" = Some v →
  ∀ z, v ≠ GInt z.

(** [unstructured.NestedInt64(obj, "spec", "replicas")] and the like *)
Definition nested_int64 (v : option gval) (k : string) : option Z :=
  match v with
  | Some (GMap m) => match m !! k with Some (GInt z) => Some z | _ => None end
  | _ => None
  end.

Definition extractReplicas `{StdJson} (data : string) : option Z :=
  match json_unmarshal data with
  | Some (GMap m) => nested_int64 (m !! "spec") "replicas"
  | _ => None
  end.

(** [SetNestedField(obj.Object, replicas, "spec", "replicas")]: a spec that is
    not a map is an error, which the caller drops. *)
Definition set_replicas (n : Z) (spec : option gval) : option gval :=
  match spec with
  | None => Some (GMap {["replicas" := GInt n]})
  | Some (GMap m) => Some (GMap (<["replicas" := GInt n]> m))
  | _ => spec
  end.

Section facade.
Context {U P D : Type} `{UnstructuredLaws U} `{Codec U} `{Persister P}.
Context `{Oracle} `{GoRuntime} `{PatchLib} `{SelectorLib} `{StdJson}.
Context `{!Converter U} `{Driver D}.
#[local] Notation World := (world U P D).
Implicit Types (w : World) (rq : rest_request) (u : U).

Definition scaleObject u : Scale :=
  let specReplicas := default 0%Z (nested_int64 (SpecOf u) "replicas") in
  mkScale (GetName u) (GetNamespace u) (GetResourceVersion u) (GetCreationTimestamp u)
    specReplicas (default specReplicas (nested_int64 (StatusOf u) "replicas")).

Definition decodeObject rq : res string U :=
  match read_body rq with
  | Err e => Err e
  | Ok data => of_opt "unmarshal" (UnmarshalJSON data)
  end.

Definition isWatch rq : bool :=
  bool_decide (query rq "watch" = "true" ∨ query rq "watch" = "1").

(** ** Handlers *)

Definition ensureNamespace (name : string) w : World :=
  if decide (name = "") then w
  else match Get NamespaceGVR "" name (w_store w) with
       | Ok _ => w
       | Err _ =>
           let ns := SetStatusField (Some (GMap {["phase" := GStr "Active"]}))
                       (SetName name (SetKind "Namespace" (SetAPIVersion "v1" u_new))) in
           (sto (Create NamespaceGVR ns) w).1
       end.

Definition list_objects rq (r : Resource) (namespace : string) w : World * reply U :=
  match ParseSelectors (query rq "labelSelector") (query rq "fieldSelector") with
  | Err e => (w, RStatus (BadRequest e))
  | Ok sel =>
      match List (r_GVR r) namespace (Matches sel) (w_store w) with
      | Err e => (w, RStatus e)
      | Ok result => (w, RList (GVR.GroupVersion (r_GVR r)) (r_ListKind r)
                           (format_uint (lr_RV result)) (lr_Items result))
      end
  end.

(** The options of a watch request. *)
Definition watch_options rq (namespace : string) (sel : Selectors) : WatchOptions :=
  match parse_uint64 (query rq "resourceVersion") with
  | Some n => mkWatchOptions _ namespace sel n true
  | None => mkWatchOptions _ namespace sel 0 false
  end.

Definition watch_timeout rq : option Z :=
  match atoi (query rq "timeoutSeconds") with
  | Some secs => if (0 <? secs)%Z then Some (wrap_i64 (secs * second)) else None
  | None => None
  end.

Definition watch rq (r : Resource) (namespace : string) w : World * reply U :=
  match ParseSelectors (query rq "labelSelector") (query rq "fieldSelector") with
  | Err e => (w, RStatus (BadRequest e))
  | Ok sel =>
      if negb (rest_CanFlush rq) then
        (w, RStatus (InternalError "kubefacade: ResponseWriter does not support flushing (required for watch)"))
      else
        let '(w, p) := sto (Watch (r_GVR r) (watch_options rq namespace sel)) w in
        (w, match p with Err e => RStatus e | Ok p => RWatch p (watch_timeout rq) end)
  end.

(** The stream of a watch: each event's type and document; an object that does
    not marshal is skipped. *)
Definition stream (p : pump_state (U := U)) : list (EventType * string) :=
  omap (λ e, (λ raw, (ev_Type e, raw)) <$> MarshalJSON (ev_Object e)) (p_out p).

Definition get_object (r : Resource) (namespace name : string) w : World * reply U :=
  (w, match Get (r_GVR r) namespace name (w_store w) with
      | Err e => RStatus e
      | Ok u => RObject 200 u
      end).

(** The namespace checks of [create]. *)
Definition admit_namespace (r : Resource) (namespace : string) u : res api_error U :=
  if negb (r_Namespaced r) then Ok u
  else if decide (GetNamespace u = "") then
    let u := SetNamespace namespace u in
    if decide (GetNamespace u = "")
    then Err (BadRequest ("the namespace of the object (" +:+ GetName u +:+ ") must be specified"))
    else Ok u
  else if decide (namespace ≠ "" ∧ GetNamespace u ≠ namespace)
  then Err (BadRequest "namespace in body does not match namespace in URL")
  else Ok u.

(** Kind and version filled in, the status dropped where it has an endpoint. *)
Definition admit_defaults (r : Resource) u : U :=
  let u := if decide (GetKind u = "") then SetKind (r_Kind r) u else u in
  let u := if decide (GetAPIVersion u = "") then SetAPIVersion (GVR.GroupVersion (r_GVR r)) u else u in
  if r_HasStatus r then SetStatusField None u else u.

Definition create rq (r : Resource) (namespace : string) w : World * reply U :=
  match decodeObject rq with
  | Err e => (w, RStatus (BadRequest e))
  | Ok u =>
      match admit_namespace r namespace u with
      | Err e => (w, RStatus e)
      | Ok u =>
          let '(w, c) := sto (Create (r_GVR r) (admit_defaults r u)) w in
          match c with
          | Err e => (w, RStatus e)
          | Ok created => (ensureNamespace (GetNamespace created) w, RObject 201 created)
          end
      end
  end.

Definition update rq (r : Resource) (namespace name : string) (isStatus : bool) w : World * reply U :=
  match decodeObject rq with
  | Err e => (w, RStatus (BadRequest e))
  | Ok u =>
      let u := SetName name u in
      let u := if r_Namespaced r then SetNamespace namespace u else u in
      let '(w, c) := sto (Store.Update (r_GVR r) u isStatus) w in
      (w, match c with Err e => RStatus e | Ok u => RObject 200 u end)
  end.

Definition patch rq (r : Resource) (namespace name : string) (isStatus : bool) w : World * reply U :=
  match read_body rq with
  | Err e => (w, RStatus (BadRequest e))
  | Ok data =>
      let '(w, c) := sto (Patch (r_GVR r) namespace name (rest_ContentType rq) data isStatus) w in
      (w, match c with Err e => RStatus e | Ok u => RObject 200 u end)
  end.

Definition delete_object (r : Resource) (namespace name : string) w : World * reply U :=
  let '(w, c) := Delete (r_GVR r) namespace name w in
  (w, match c with Err e => RStatus e | Ok u => RObject 200 u end).

(** [env] is what other goroutines do between the read and the write. *)
Definition handleScale (env : World → World) rq (r : Resource) (namespace name : string) w : World * reply U :=
  match Get (r_GVR r) namespace name (w_store w) with
  | Err e => (w, RStatus e)
  | Ok obj =>
      if decide (rest_Method rq = "GET") then (w, RScale 200 (scaleObject obj))
      else if decide (rest_Method rq ≠ "PUT" ∧ rest_Method rq ≠ "PATCH") then
        (w, RStatus (MethodNotSupported (GVR.GroupResource (r_GVR r)) (rest_Method rq)))
      else
        match read_body rq with
        | Err e => (w, RStatus (BadRequest e))
        | Ok data =>
            match extractReplicas data with
            | None => (w, RStatus (BadRequest "scale: could not read spec.replicas from request body"))
            | Some n =>
                let obj := uset FSpec (set_replicas n (SpecOf obj)) obj in
                let '(w, c) := sto (Store.Update (r_GVR r) obj false) (env w) in
                (w, match c with Err e => RStatus e | Ok u => RScale 200 (scaleObject u) end)
            end
        end
  end.

(** ** Dispatch *)

Section handle.
Context (reg : Registry.t) (env : World → World).

Definition unknown_resource (vs : PathValues) (name : string) : api_error :=
  NotFound (mkGR (path_value vs "group") (path_value vs "resource")) name.

Definition handleCollection (nsd : bool) rq (vs : PathValues) w : World * reply U :=
  match resolveByPath reg vs with
  | None => (w, RStatus (unknown_resource vs ""))
  | Some r =>
      let namespace := if nsd then path_value vs "namespace" else "" in
      if decide (rest_Method rq = "GET") then
        if isWatch rq then watch rq r namespace w else list_objects rq r namespace w
      else if decide (rest_Method rq = "POST") then create rq r namespace w
      else (w, RStatus (MethodNotSupported (GVR.GroupResource (r_GVR r)) (rest_Method rq)))
  end.

Definition handleItem (nsd sub : bool) rq (vs : PathValues) w : World * reply U :=
  match resolveByPath reg vs with
  | None => (w, RStatus (unknown_resource vs (path_value vs "name")))
  | Some r =>
      let namespace := if nsd then path_value vs "namespace" else "" in
      let name := path_value vs "name" in
      let subresource := if sub then path_value vs "subresource" else "" in
      if decide (subresource = "scale") then handleScale env rq r namespace name w
      else
        let isStatus := bool_decide (subresource = "status") in
        if decide (rest_Method rq = "GET") then get_object r namespace name w
        else if decide (rest_Method rq = "PUT") then update rq r namespace name isStatus w
        else if decide (rest_Method rq = "PATCH") then patch rq r namespace name isStatus w
        else if decide (rest_Method rq = "DELETE") then delete_object r namespace name w
        else (w, RStatus (MethodNotSupported (GVR.GroupResource (r_GVR r)) (rest_Method rq)))
  end.

(** [ServeHTTP]: the request goes to the handler its method and path select.
    The handlers of documents, health and port forwarding do not touch the
    world; which one answers is what is recorded of them. *)
Definition api (portForward : bool) (path : list string) rq w : World * answer U :=
  match serve (buildMux portForward) (rest_Method rq) path with
  | Found (ECollection nsd) vs => let '(w, r) := handleCollection nsd rq vs w in (w, AReply r)
  | Found (EItem nsd sub) vs => let '(w, r) := handleItem nsd sub rq vs w in (w, AReply r)
  | Found e vs => (w, ADocument e vs)
  | NoRoute => (w, ANoRoute)
  | BadMethod => (w, AMethodNotAllowed)
  end.
End handle.
End facade.
