(* ===== verification/Writers.v ===== *)
(** What the handlers write to: the response recorders of
    [internal/kubefacade/server.go] and [internal/router/router.go], the writers
    of [kubefacade/write.go] and the event stream of a watch.

    [http.ResponseWriter] is a class, with the optional interfaces
    [http.ResponseController] looks for; net/http's own writer, as documented,
    and the program's recorders are its instances. *)

From S2P Require Import Prelude GoStrings K8s.
From Stdlib Require Import Ascii.
Local Open Scope string_scope.

(** How a write ends: done, failed, or never (the peer does not read and no
    deadline is set). *)
Inductive wres := Written | WriteFailed | Blocked.
#[export] Instance wres_eq_dec : EqDecision wres.
Proof. solve_decision. Defined.

Class ResponseWriter (W : Type) := {
  WriteHeader : Z → W → W;
  WriteBytes : string → W → W * wres;
  Flush : W → W;
  can_Hijack : W → bool;
  (** [SetWriteDeadline], of the writer or of one it unwraps to *)
  as_deadline : option (W → W);
}.

(** [http.NewResponseController(w).SetWriteDeadline]: whether it is supported. *)
Definition SetWriteDeadline {W} `{ResponseWriter W} (w : W) : W * bool :=
  match as_deadline with Some f => (f w, true) | None => (w, false) end.

(** ** net/http's writer *)

(** The final status sent, the body, how much the peer still reads, and whether
    a write deadline is set. *)
Record Conn := mkConn { cn_Code : option Z; cn_Body : string; cn_Room : nat; cn_Deadline : bool }.

(** Only the first final status counts; 1xx statuses but 101 are sent ahead. *)
Definition informational (code : Z) : bool := ((100 <=? code) && (code <=? 199) && negb (code =? 101))%Z.

Definition conn_header (code : Z) (c : Conn) : Conn :=
  match cn_Code c with
  | Some _ => c
  | None => if informational code then c else mkConn (Some code) (cn_Body c) (cn_Room c) (cn_Deadline c)
  end.
Definition conn_write (b : string) (c : Conn) : Conn * wres :=
  let c := conn_header 200 c in
  if (String.length b <=? cn_Room c)%nat
  then (mkConn (cn_Code c) (cn_Body c +:+ b) (cn_Room c - String.length b) (cn_Deadline c), Written)
  else (c, if cn_Deadline c then WriteFailed else Blocked).

#[export] Instance conn_writer : ResponseWriter Conn := {|
  WriteHeader := conn_header;
  WriteBytes := conn_write;
  Flush := conn_header 200;
  can_Hijack := λ _, true;
  as_deadline := Some (λ c, mkConn (cn_Code c) (cn_Body c) (cn_Room c) true);
|}.

(** ** The recorders *)

Section recorder.
Context {W : Type} `{ResponseWriter W}.

(** [statusWriter]; the router's [statusRecorder] has the same fields and
    methods.  Neither has [SetWriteDeadline] or [Unwrap]. *)
Record statusWriter := mkSW { sw_inner : W; sw_code : Z; sw_wroteHeader : bool }.
Implicit Types s : statusWriter.

Definition newStatusWriter (w : W) : statusWriter := mkSW w 200 false.

Definition sw_WriteHeader (code : Z) s : statusWriter :=
  mkSW (WriteHeader code (sw_inner s)) (if sw_wroteHeader s then sw_code s else code) true.
Definition sw_Write (b : string) s : statusWriter * wres :=
  let '(w, r) := WriteBytes b (sw_inner s) in (mkSW w (sw_code s) true, r).
Definition sw_Flush s : statusWriter := mkSW (Flush (sw_inner s)) (sw_code s) (sw_wroteHeader s).
Definition sw_Hijack s : bool := can_Hijack (sw_inner s).

#[export] Instance status_writer : ResponseWriter statusWriter := {|
  WriteHeader := sw_WriteHeader;
  WriteBytes := sw_Write;
  Flush := sw_Flush;
  can_Hijack := sw_Hijack;
  as_deadline := None;
|}.
End recorder.
Arguments statusWriter W : clear implicits.

(** What a handler does to its writer. *)
Inductive wcall := CHeader (code : Z) | CWrite (b : string) | CFlush.

Definition do_call {W} `{ResponseWriter W} (w : W) (c : wcall) : W :=
  match c with
  | CHeader code => WriteHeader code w
  | CWrite b => (WriteBytes b w).1
  | CFlush => Flush w
  end.
Definition do_calls {W} `{ResponseWriter W} (l : list wcall) (w : W) : W := foldl do_call w l.

(** ** Errors on the wire *)

(** [metav1.Status] *)
Record Status := mkStatus { st_Status : string; st_Message : string; st_Reason : string; st_Code : Z }.

(** [apierrors.APIStatus], and [encoding/json] of a status. *)
Class StatusLib := {
  APIStatus : api_error → option Status;
  error_text : api_error → string;
  encode_status : Status → string;
  decode_status : string → option Status;
}.

(** What the constructors of [apierrors] promise, and the round trip of the
    encoder. *)
Class StatusLibLaws `{StatusLib} := {
  decode_status_encode : ∀ s, decode_status (encode_status s) = Some s;
  api_reasons : ∀ e, match e with
    | NotFound _ _ => ∃ m, APIStatus e = Some (mkStatus "Failure" m "NotFound" 404)
    | AlreadyExists _ _ => ∃ m, APIStatus e = Some (mkStatus "Failure" m "AlreadyExists" 409)
    | Conflict _ _ => ∃ m, APIStatus e = Some (mkStatus "Failure" m "Conflict" 409)
    | BadRequest m => APIStatus e = Some (mkStatus "Failure" m "BadRequest" 400)
    | InternalError m => ∃ m', APIStatus e = Some (mkStatus "Failure" m' "InternalError" 500)
    | MethodNotSupported _ _ => ∃ m, APIStatus e = Some (mkStatus "Failure" m "MethodNotAllowed" 405)
    | OtherError _ | Diverged => APIStatus e = None
    end;
}.

Section writing.
Context {W : Type} `{ResponseWriter W} `{StatusLib}.

Definition writeJSON (code : Z) (body : string) (w : W) : W :=
  (WriteBytes body (WriteHeader code w)).1.

Definition err_status (e : api_error) : Status :=
  let status := mkStatus "Failure" (error_text e) "InternalError" 500 in
  match APIStatus e with
  | Some s => mkStatus (st_Status status) (st_Message s) (st_Reason s) (st_Code s)
  | None => status
  end.

Definition writeErr (e : api_error) (w : W) : W :=
  let status := err_status e in writeJSON (st_Code status) (encode_status status) w.

(** The stream of a watch: one event after the other (a frame, or [None] when it
    cannot be encoded) until a write fails or blocks. *)
Fixpoint stream_events (l : list (option string)) (w : W) : W * wres :=
  match l with
  | [] => (w, Written)
  | None :: l => stream_events l w
  | Some frame :: l =>
      let w := (SetWriteDeadline w).1 in
      match WriteBytes frame w with
      | (w, Written) => stream_events l (Flush w)
      | (w, r) => (w, r)
      end
  end.
Definition watch_body (l : list (option string)) (w : W) : W * wres :=
  stream_events l (Flush (WriteHeader 200 w)).
End writing.

(** The client's helpers on a failed response: [apierrors.ReasonForError]. *)
Definition reason_is (reason : string) (s : Status) : bool := bool_decide (st_Reason s = reason).

(** ** The recorders are transparent *)

(** The calls of a handler that sends a final status first. *)
Definition final (c : wcall) : Prop := match c with CHeader code => informational code = false | _ => True end.
Definition orderly (l : list wcall) : Prop := Forall final l ∧ head l ≠ Some CFlush.

Definition recorded (s : statusWriter Conn) : Prop :=
  sw_code s = default 200%Z (cn_Code (sw_inner s)) ∧
  (sw_wroteHeader s = true ↔ is_Some (cn_Code (sw_inner s))).

Lemma conn_header_sent code c : informational code = false → is_Some (cn_Code (conn_header code c)).
Proof. intros Hc. unfold conn_header. destruct (cn_Code c) eqn:E; rewrite ?Hc, ?E; eauto. Qed.
Lemma conn_header_some code c x : cn_Code c = Some x → conn_header code c = c.
Proof. unfold conn_header. by intros ->. Qed.

Lemma conn_write_code b c : cn_Code (conn_write b c).1 = Some (default 200%Z (cn_Code c)).
Proof. unfold conn_write, conn_header. destruct (cn_Code c) eqn:E; cbn; destruct (_ <=? _)%nat; cbn; by rewrite ?E. Qed.

Lemma recorded_step s c : recorded s → final c → (c = CFlush → sw_wroteHeader s = true) →
  recorded (do_call s c) ∧ sw_wroteHeader (do_call s c) = true.
Proof.
  destruct s as [d code0 b0]. unfold recorded. cbn. intros [-> Hw] Hf Hfl. destruct c as [code|b|]; cbn in *.
  - split; [|done]. split; [|split; [intros _; by apply conn_header_sent|done]]. unfold conn_header.
    destruct (cn_Code d) as [x|] eqn:E.
    + rewrite E, (proj2 Hw); eauto.
    + rewrite Hf. destruct b0; [|done]. destruct (proj1 Hw eq_refl) as [? [=]].
  - unfold sw_Write. cbn. pose proof (conn_write_code b d) as Hcode. destruct (conn_write b d) as [d' r]. cbn in *.
    rewrite Hcode. split; [|done]. split; [done|]. split; eauto.
  - specialize (Hfl eq_refl). destruct (proj1 Hw Hfl) as [x Hx]. by rewrite (conn_header_some _ _ _ Hx).
Qed.

Lemma do_calls_inner l (s : statusWriter Conn) : sw_inner (do_calls l s) = do_calls l (sw_inner s).
Proof.
  revert s. induction l as [|c l IH]; intros s; [done|]. cbn [do_calls foldl]. unfold do_calls in IH. rewrite IH. f_equal.
  destruct c; try done. cbn. unfold sw_Write. cbn. by destruct (conn_write b (sw_inner s)).
Qed.

(** The recorders are transparent: whatever a handler sends through one
    arrives as if it had written to the connection itself, and the status that
    is logged is the one the client got, provided the handler sends no
    informational status and does not flush before it writes. *)
Theorem recorder_transparent l (c : Conn) : cn_Code c = None → orderly l →
  let s := do_calls l (newStatusWriter c) in
  sw_inner s = do_calls l c ∧ sw_code s = default 200%Z (cn_Code (do_calls l c)).
Proof.
  intros Hc [Hf Hh] s. assert (sw_inner s = do_calls l c) as Hi by apply do_calls_inner. split; [done|].
  rewrite <-Hi. cut (recorded s); [by intros [? _]|]. unfold s. clear s Hi.
  assert (recorded (newStatusWriter c)) as R by (split; cbn; rewrite Hc; [done|by split; [|intros [? ?]]]).
  destruct l as [|x l]; [done|]. inversion_clear Hf as [|? ? Hx Hl]. cbn [do_calls foldl].
  destruct (recorded_step _ x R Hx) as [R1 W1]; [by intros ->|]. clear R.
  revert R1 W1. generalize (do_call (newStatusWriter c) x). clear Hx Hh Hc.
  induction Hl as [|y l Hy Hl IH]; intros s R W; [done|]. cbn [foldl].
  destruct (recorded_step s y R Hy) as [R1 W1]; [done|]. by apply IH.
Qed.

(** ** What a client recognises *)

(** An error keeps its meaning over the wire: the status and the body of the
    answer agree, the body decodes to a failure, and the client's helpers find
    the reason the server's helpers find in the error itself. *)
Theorem errors_recognised `{StatusLibLaws} e (c : Conn) :
  cn_Code c = None → (String.length (encode_status (err_status e)) ≤ cn_Room c)%nat → cn_Body c = "" →
  let c' := writeErr e c in
  ∃ s, decode_status (cn_Body c') = Some s ∧ cn_Code c' = Some (st_Code s) ∧ st_Status s = "Failure" ∧
    (400 ≤ st_Code s ≤ 599)%Z ∧
    reason_is "NotFound" s = IsNotFound e ∧ reason_is "AlreadyExists" s = IsAlreadyExists e ∧
    reason_is "Conflict" s = IsConflict e.
Proof.
  intros Hc Hr Hb c'. exists (err_status e).
  assert (st_Status (err_status e) = "Failure" ∧ (400 ≤ st_Code (err_status e) ≤ 599)%Z ∧
    reason_is "NotFound" (err_status e) = IsNotFound e ∧ reason_is "AlreadyExists" (err_status e) = IsAlreadyExists e ∧
    reason_is "Conflict" (err_status e) = IsConflict e) as (Hs & Hcode & Hreasons).
  { pose proof (api_reasons e) as Ha. unfold err_status. destruct e;
      repeat match type of Ha with ex _ => destruct Ha as [? Ha] end; rewrite Ha; split_and!; done. }
  unfold c', writeErr, writeJSON. cbn. unfold conn_write, conn_header. rewrite Hc.
  assert (informational (st_Code (err_status e)) = false) as ->.
  { unfold informational. destruct (Z.leb_spec (st_Code (err_status e)) 199); [lia|]. by rewrite andb_false_r. }
  cbn. rewrite (proj2 (Nat.leb_le _ _)) by done. cbn. rewrite Hb. split; [apply decode_status_encode|]. tauto.
Qed.

(** ** A client that stops reading *)

Definition frames (l : list (option string)) : nat := sum_list (String.length <$> omap id l).

Lemma stream_recorded l (s : statusWriter Conn) : cn_Deadline (sw_inner s) = false → is_Some (cn_Code (sw_inner s)) →
  (stream_events l s).2 = if (frames l <=? cn_Room (sw_inner s))%nat then Written else Blocked.
Proof.
  revert s. induction l as [|[frame|] l IH]; intros s Hd [x Hx]; [done| |by apply IH].
  cbn. unfold sw_Write. cbn. unfold conn_write. rewrite (conn_header_some _ _ _ Hx). change (frames (Some frame :: l)) with (String.length frame + frames l)%nat.
  destruct (Nat.leb_spec (String.length frame) (cn_Room (sw_inner s))) as [Hle|Hgt].
  - rewrite IH; cbn; rewrite ?Hx; eauto.
    unfold conn_header. cbn [cn_Code cn_Room].
    change (sum_list (String.length <$> omap id l)) with (frames l).
    repeat match goal with |- context [(?a <=? ?b)%nat] => destruct (Nat.leb_spec a b) end; try done; lia.
  - rewrite Hd. cbn. by rewrite (proj2 (Nat.leb_gt _ _)) by lia.
Qed.

Lemma stream_direct l (c : Conn) : cn_Deadline c = true ∨ (∃ f l', l = Some f :: l') → is_Some (cn_Code c) →
  (stream_events l c).2 ≠ Blocked.
Proof.
  revert c. induction l as [|[frame|] l IH]; intros c Hd [x Hx]; [done| |].
  - cbn. unfold conn_write. rewrite (conn_header_some _ _ x) by done. cbn.
    destruct (_ <=? _)%nat; [|done]. apply IH; [left|]; cbn; rewrite (conn_header_some _ _ x); eauto.
  - apply IH; [|eauto]. destruct Hd as [Hd|(f & l' & [=])]. by left.
Qed.

(** A client that stops reading stops its watch only without the recorder:
    on the connection itself the write deadline ends the stream, but the
    recorder hides the deadline from the response controller, so the handler
    blocks on the first frame the client does not take. *)
Theorem stalled_watch_blocks f l (c : Conn) : cn_Code c = None → cn_Deadline c = false →
  (cn_Room c < frames (Some f :: l))%nat →
  (watch_body (Some f :: l) (newStatusWriter c)).2 = Blocked ∧
  (watch_body (Some f :: l) c).2 ≠ Blocked.
Proof.
  intros Hc Hd Hr. unfold watch_body. split.
  - rewrite stream_recorded; cbn; unfold conn_header; rewrite Hc; cbn; eauto.
    by rewrite (proj2 (Nat.leb_gt _ _)) by done.
  - apply stream_direct; [eauto|]. cbn. by apply conn_header_sent.
Qed.

(** ** Witnesses *)

(** A status as the binary digits of its code in stdpp's numbering. *)
Fixpoint bits (p : positive) : string :=
  match p with xH => "" | xO p => String "0"%char (bits p) | xI p => String "1"%char (bits p) end.
Fixpoint unbits (s : string) : positive :=
  match s with
  | EmptyString => xH
  | String c s => if Ascii.ascii_dec c "0"%char then xO (unbits s) else xI (unbits s)
  end.
Lemma unbits_bits p : unbits (bits p) = p.
Proof. induction p as [p IH|p IH|]; cbn; by rewrite ?IH. Qed.

Notation fields s := (st_Status s, st_Message s, st_Reason s, st_Code s).

#[local] Instance demo_status_lib : StatusLib := {|
  APIStatus e := match e with
    | NotFound _ n => Some (mkStatus "Failure" (n +:+ " not found") "NotFound" 404)
    | AlreadyExists _ n => Some (mkStatus "Failure" (n +:+ " already exists") "AlreadyExists" 409)
    | Conflict _ n => Some (mkStatus "Failure" (n +:+ " was modified") "Conflict" 409)
    | BadRequest m => Some (mkStatus "Failure" m "BadRequest" 400)
    | InternalError m => Some (mkStatus "Failure" m "InternalError" 500)
    | MethodNotSupported _ a => Some (mkStatus "Failure" (a +:+ " not supported") "MethodNotAllowed" 405)
    | OtherError _ | Diverged => None
    end;
  error_text e := match e with OtherError m => m | _ => "" end;
  encode_status s := bits (encode (fields s));
  decode_status t := (λ '(a, b, c, d), mkStatus a b c d) <$> decode (unbits t);
|}.

#[local] Instance demo_status_laws : StatusLibLaws.
Proof.
  split.
  - intros [a b c d]. cbn. by rewrite unbits_bits, decode_encode.
  - intros []; cbn; eauto.
Qed.

Definition demo_conn (room : nat) : Conn := mkConn None "" room false.

Lemma recorder_transparent_witness :
  sw_code (do_calls [CHeader 409; CWrite "{}"; CFlush; CHeader 500] (newStatusWriter (demo_conn 10))) = 409%Z ∧
  cn_Body (sw_inner (do_calls [CHeader 409; CWrite "{}"; CFlush; CHeader 500] (newStatusWriter (demo_conn 10)))) = "{}".
Proof.
  destruct (recorder_transparent [CHeader 409; CWrite "{}"; CFlush; CHeader 500] (demo_conn 10)) as [Hi Hc];
    [reflexivity|split; [repeat constructor|discriminate]|].
  rewrite Hi, Hc. split; reflexivity.
Defined.

(** With a flush or an early hint first, the log and the client disagree. *)
Example flushed_first :
  let s := do_calls [CFlush; CHeader 404] (newStatusWriter (demo_conn 10)) in
  sw_code s = 404%Z ∧ cn_Code (sw_inner s) = Some 200%Z.
Proof. split; reflexivity. Qed.
Example early_hint :
  let s := do_calls [CHeader 103; CHeader 404] (newStatusWriter (demo_conn 10)) in
  sw_code s = 103%Z ∧ cn_Code (sw_inner s) = Some 404%Z.
Proof. split; reflexivity. Qed.

Lemma errors_recognised_witness :
  ∃ s, decode_status (cn_Body (writeErr (Conflict (mkGR "" "pods") "a") (demo_conn 5000))) = Some s ∧
    reason_is "Conflict" s = true ∧ st_Code s = 409%Z.
Proof.
  destruct (errors_recognised (Conflict (mkGR "" "pods") "a") (demo_conn 5000))
    as (s & Hd & Hc & _ & _ & _ & _ & Hr); [reflexivity|apply Nat.leb_le; vm_compute; reflexivity|reflexivity|].
  exists s. split; [exact Hd|]. split; [exact Hr|]. injection Hc as <-. reflexivity.
Defined.

Lemma stalled_watch_witness :
  (watch_body [Some "ADDED"; Some "MODIFIED"] (newStatusWriter (demo_conn 6))).2 = Blocked ∧
  (watch_body [Some "ADDED"; Some "MODIFIED"] (demo_conn 6)).2 ≠ Blocked.
Proof. apply stalled_watch_blocks; [reflexivity|reflexivity|vm_compute; repeat constructor]. Defined.
