(* ===== verification/RouterWire.v ===== *)
(** What the router sends: [writeProxyError], the recorder and the error handler
    of [internal/router/router.go] around the decision of Router.v.

    The proxy itself is httputil's: [upstream] answers, for a request sent
    upstream, what it writes back, or the error that made the round trip fail. *)

From S2P Require Import Prelude GoStrings K8s Apis Runtime RuntimeSpec Config Router Writers.
From Stdlib Require Import Ascii.
Local Open Scope string_scope.

(** ** The recorder *)

Section recorder.
Context {W : Type} `{ResponseWriter W}.

Record statusRecorder := mkSR { sr_inner : W; sr_code : Z; sr_wroteHeader : bool }.
Implicit Types s : statusRecorder.

Definition sr_WriteHeader (code : Z) s : statusRecorder :=
  mkSR (WriteHeader code (sr_inner s)) (if sr_wroteHeader s then sr_code s else code) true.
Definition sr_Write (b : string) s : statusRecorder * wres :=
  let '(w, r) := WriteBytes b (sr_inner s) in (mkSR w (sr_code s) true, r).
Definition sr_Flush s : statusRecorder := mkSR (Flush (sr_inner s)) (sr_code s) (sr_wroteHeader s).
Definition sr_Hijack s : bool := can_Hijack (sr_inner s).

#[export] Instance status_recorder : ResponseWriter statusRecorder := {|
  WriteHeader := sr_WriteHeader;
  WriteBytes := sr_Write;
  Flush := sr_Flush;
  can_Hijack := sr_Hijack;
  as_deadline := None;
|}.

Lemma sr_inner_call s c : sr_inner (do_call s c) = do_call (sr_inner s) c.
Proof. destruct c; [done| |done]. cbn. unfold sr_Write. by destruct (WriteBytes b (sr_inner s)). Qed.

Lemma sr_inner_calls l s : sr_inner (do_calls l s) = do_calls l (sr_inner s).
Proof.
  unfold do_calls. revert s. induction l as [|c l IH]; intros s; [done|]. cbn [foldl]. by rewrite IH, sr_inner_call.
Qed.
End recorder.
Arguments statusRecorder W : clear implicits.

(** ** The answers *)

(** The format [{"detail":%q}]. *)
Definition detail_json (msg : string) : string :=
  "{" +:+ dquote +:+ "detail" +:+ dquote +:+ ":" +:+ go_quote msg +:+ "}".

Section serve.
Context {R W : Type} `{Resolver R} `{ResponseWriter W}.
Context (prepare : Header → Header) (timeout_of : string → option Z).
Context (upstream : Outgoing → option Z → res string (list wcall)).

Definition writeProxyError {V} `{ResponseWriter V} (code : Z) (msg : string) (w : V) : V :=
  (WriteBytes (detail_json msg) (WriteHeader code w)).1.

(** The proxy on a recorder, with its [ErrorHandler]. *)
Definition proxy (out : Outgoing) (timeout : option Z) (s : statusRecorder W) : statusRecorder W :=
  match upstream out timeout with
  | Ok calls => do_calls calls s
  | Err _ => writeProxyError 502 "upstream request failed" s
  end.

(** [ServeHTTP] on a connection, and the status it logs for a proxied request. *)
Definition serve_wire (rq : Request) (r : R) (w : W) : R * W * option Z :=
  let '(r, o) := ServeHTTP prepare timeout_of rq r in
  match o with
  | Healthy => (r, (WriteBytes "ok" w).1, None)
  | Refused code msg => (r, writeProxyError code msg w, None)
  | Proxied _ out timeout =>
      let s := proxy out timeout (mkSR w 200 false) in (r, sr_inner s, Some (sr_code s))
  end.
End serve.

(** ** Error bodies are JSON *)

(** The byte a JSON escape stands for; [\u] is left out. *)
Definition json_unescape (c : ascii) : option ascii :=
  let n := byte_val c in
  if decide (n = 34 ∨ n = 92 ∨ n = 47)%Z then Some c
  else if decide (n = 98)%Z then Some (ascii_of_nat 8) else if decide (n = 102)%Z then Some (ascii_of_nat 12)
  else if decide (n = 110)%Z then Some (ascii_of_nat 10) else if decide (n = 114)%Z then Some (ascii_of_nat 13)
  else if decide (n = 116)%Z then Some (ascii_of_nat 9) else None.

(** The rest of a JSON string after its opening quote: its value and what
    follows the closing quote.  Control characters must be escaped. *)
Fixpoint json_string (s : string) : option (string * string) :=
  match s with
  | EmptyString => None
  | String c s =>
      let n := byte_val c in
      if decide (n = 34)%Z then Some ("", s)
      else if decide (n = 92)%Z then
        match s with
        | EmptyString => None
        | String e s => b ← json_unescape e; p ← json_string s; Some (String b p.1, p.2)
        end
      else if decide (n < 32)%Z then None
      else p ← json_string s; Some (String c p.1, p.2)
  end.

(** The [detail] of a body that is an object with that member only. *)
Definition json_detail (body : string) : option string :=
  let start := "{" +:+ dquote +:+ "detail" +:+ dquote +:+ ":" +:+ dquote in
  if has_prefix start body then
    p ← json_string (str_drop (String.length start) body);
    if decide (p.2 = "}") then Some p.1 else None
  else None.

(** Strings without control characters; [%q] quotes them as JSON does. *)
Definition control (c : ascii) : Prop := (byte_val c < 32)%Z ∨ byte_val c = 127%Z.
Definition plain (s : string) : Prop := ∀ c, control c → no_byte c s = true.

Lemma plain_app s t : plain s → plain t → plain (s +:+ t).
Proof. intros Hs Ht c Hc. apply no_byte_app. auto. Qed.

Lemma plain_cons c s : plain (String c s) ↔ ¬ control c ∧ plain s.
Proof.
  unfold plain. setoid_rewrite no_byte_cons. split.
  - intros Hp. split; [intros Hc; by destruct (Hp c Hc)|intros d Hd; by destruct (Hp d Hd)].
  - intros [Hc Hp] d Hd. split; [by intros ->|by apply Hp].
Qed.

Lemma plain_itoa n : plain (itoa n).
Proof.
  intros c Hc. assert (∀ k, no_byte c (format_uint k) = true) as Hk
    by (intros k; apply format_no_byte; unfold control in Hc; lia).
  unfold itoa. destruct (n <? 0)%Z; [|done]. apply no_byte_app. split; [|done].
  apply no_byte_cons. split; [|done]. intros <-. unfold control in Hc. vm_compute in Hc. by destruct Hc.
Qed.

Lemma quote_json c rest : ¬ control c →
  json_string (quote_char c +:+ rest) = (p ← json_string rest; Some (String c p.1, p.2)).
Proof.
  intros Hc. destruct c as [[] [] [] [] [] [] [] []];
    first [reflexivity | exfalso; apply Hc; by left | exfalso; apply Hc; by right].
Qed.

Lemma quoted_json s t : plain s →
  json_string (foldr (λ c acc, quote_char c +:+ acc) dquote (chars s) +:+ t) = Some (s, t).
Proof.
  induction s as [|c s IH]; [done|]. intros [Hc Hs]%plain_cons. change (chars (String c s)) with (c :: chars s).
  cbn [foldr]. rewrite str_app_assoc, quote_json, IH by done. done.
Qed.

(** An error body decodes to the message. *)
Lemma detail_decodes msg : plain msg → json_detail (detail_json msg) = Some msg.
Proof.
  intros Hp.
  assert (∀ x, json_detail ("{" +:+ dquote +:+ "detail" +:+ dquote +:+ ":" +:+ (dquote +:+ x))
    = (p ← json_string x; if decide (p.2 = "}") then Some p.1 else None)) as E by (by destruct x).
  unfold detail_json, go_quote. rewrite str_app_assoc, E, quoted_json by done. cbn. by rewrite decide_True.
Qed.

Lemma plain_quote s : plain s → plain (go_quote s).
Proof.
  intros Hs. unfold go_quote. assert (plain dquote) as Hq by (intros c Hc; apply no_byte_cons; split; [|done];
    intros <-; by vm_compute in Hc; destruct Hc).
  apply plain_app; [done|]. induction s as [|c s IH]; [done|]. apply plain_cons in Hs as [Hc Hs].
  change (chars (String c s)) with (c :: chars s). cbn [foldr]. apply plain_app; [|by apply IH].
  destruct c as [[] [] [] [] [] [] [] []];
    first [ exfalso; apply Hc; by left | exfalso; apply Hc; by right
          | intros d Hd; repeat (apply no_byte_cons; split; [intros <-; by vm_compute in Hd; destruct Hd|]); done ].
Qed.

Lemma label_plain s i len : label_loop s i len = true → plain s.
Proof.
  revert i. induction s as [|c s IH]; intros i; [done|]. cbn [label_loop]. intros Hl. apply plain_cons.
  unfold control. destruct (label_byte c) eqn:Hb.
  - split; [|by apply (IH (S i))]. unfold label_byte in Hb.
    apply orb_true_iff in Hb as [[?%Z.leb_le ?%Z.leb_le]%andb_true_iff|[?%Z.leb_le ?%Z.leb_le]%andb_true_iff]; lia.
  - destruct (ascii_dec c "-") as [->|]; [|done]. split; [by vm_compute; intros [?|?]|].
    destruct (bool_decide _); [done|]. by apply (IH (S i)).
Qed.

Lemma statusFor_plain state id port : validDNSLabel id = true → plain (statusFor state id port).2.
Proof.
  unfold validDNSLabel. destruct (decide _); [done|]. intros Hid%label_plain.
  assert (∀ s, forallb (λ c, (32 <=? byte_val c)%Z && negb (byte_val c =? 127)%Z) (chars s) = true → plain s) as Hlit.
  { induction s as [|c s IH]; [done|]. change (chars (String c s)) with (c :: chars s). cbn [forallb].
    intros [[?%Z.leb_le ?%negb_true_iff%Z.eqb_neq]%andb_true_iff Hs]%andb_true_iff.
    apply plain_cons. split; [unfold control; lia|by apply IH]. }
  pose proof (plain_quote id Hid) as Hq.
  destruct state; cbn [statusFor snd]; repeat first [exact Hq|apply plain_itoa|apply plain_app|apply Hlit; vm_compute; reflexivity].
Qed.

Section spec.
Context {R : Type} `{Resolver R}.
Context (prepare : Header → Header) (timeout_of : string → option Z).
Context (upstream : Outgoing → option Z → res string (list wcall)).
Implicit Types (c : Conn).

(** A connection on which nothing was sent yet, with room for a body. *)
Definition open_conn c (body : string) : Prop :=
  cn_Code c = None ∧ cn_Body c = "" ∧ (String.length body ≤ cn_Room c)%nat.

Definition answered c (code : Z) (body : string) : Prop := cn_Code c = Some code ∧ cn_Body c = body.

Lemma write_answer body c : open_conn c body → answered (conn_write body c).1 200 body.
Proof.
  destruct c as [c0 b0 rm dl]. unfold open_conn. cbn [cn_Code cn_Body cn_Room]. intros (-> & -> & Hr%Nat.leb_le).
  unfold conn_write. change (conn_header 200 (mkConn None "" rm dl)) with (mkConn (Some 200%Z) "" rm dl).
  cbn [cn_Room]. by rewrite Hr.
Qed.

Lemma answer_error code msg c : informational code = false → open_conn c (detail_json msg) →
  answered (writeProxyError code msg c) code (detail_json msg).
Proof.
  destruct c as [c0 b0 rm dl]. unfold open_conn. cbn [cn_Code cn_Body cn_Room]. intros Hi (-> & -> & Hr%Nat.leb_le).
  unfold writeProxyError. set (body := detail_json msg) in *.
  change (answered (conn_write body (conn_header code (mkConn None "" rm dl))).1 code body).
  assert (conn_header code (mkConn None "" rm dl) = mkConn (Some code) "" rm dl) as ->
    by (unfold conn_header; cbn [cn_Code]; by rewrite Hi).
  unfold conn_write. change (conn_header 200 (mkConn (Some code) "" rm dl)) with (mkConn (Some code) "" rm dl).
  cbn [cn_Room]. by rewrite Hr.
Qed.

Lemma writeProxyError_calls {W} `{ResponseWriter W} code msg (w : W) :
  writeProxyError code msg w = do_calls [CHeader code; CWrite (detail_json msg)] w.
Proof. done. Qed.

(** What the client of the router receives.  A refusal is answered with its
    status and a JSON body whose detail is the message, so is a round trip that
    failed; the answer of the sandbox arrives as it was written, whatever its
    status; health checks are answered with ok. *)
Theorem answers_on_wire rq (r r' : R) c o :
  ServeHTTP prepare timeout_of rq r = (r', o) →
  let c' := (serve_wire prepare timeout_of upstream rq r c).1.2 in
  match o with
  | Healthy => open_conn c "ok" → answered c' 200 "ok"
  | Refused code msg => open_conn c (detail_json msg) →
      answered c' code (detail_json msg) ∧ json_detail (cn_Body c') = Some msg ∧ (400 ≤ code ≤ 599)%Z
  | Proxied _ out timeout =>
      match upstream out timeout with
      | Ok calls => c' = do_calls calls c
      | Err _ => open_conn c (detail_json "upstream request failed") →
          cn_Code c' = Some 502%Z ∧ json_detail (cn_Body c') = Some "upstream request failed"
      end
  end.
Proof.
  intros E c'. unfold c', serve_wire. rewrite E. clear c'. destruct o as [|code msg|t out timeout]; cbn [fst snd].
  - apply write_answer.
  - intros Ho. assert (plain msg ∧ (400 ≤ code ≤ 599)%Z) as [Hp Hcode].
    { revert E. unfold ServeHTTP. destruct (decide _); [done|]. destruct (validDNSLabel _) eqn:Hid; cbn [negb].
      - destruct (Resolve _ _ _ _) as [r1 [t state]]. intros [_ E]%pair_eq. destruct (decide _); [done|].
        pose proof (statusFor_plain state (hget (rq_Header rq) headerID) (request_port (rq_Header rq)) Hid) as Hp.
        destruct (statusFor _ _ _) as [c0 m0] eqn:Es. injection E as <- <-. split; [done|].
        destruct state; injection Es as <- _; lia.
      - intros [_ [= <- <-]]%pair_eq. split; [|lia]. intros x Hx. destruct x as [[] [] [] [] [] [] [] []]; try reflexivity;
          vm_compute in Hx; by destruct Hx. }
    assert (informational code = false) as Hi.
    { unfold informational. destruct (Z.leb_spec code 199); [lia|]. by rewrite andb_false_r. }
    pose proof (answer_error _ _ _ Hi Ho) as [Hc Hb]. split; [done|]. rewrite Hb. by rewrite detail_decodes.
  - unfold proxy. destruct (upstream out timeout) as [calls|e]; [by rewrite sr_inner_calls|].
    intros Ho. rewrite writeProxyError_calls, sr_inner_calls, <-writeProxyError_calls.
    destruct (answer_error 502 _ c eq_refl Ho) as [Hc Hb]. cbn [sr_inner]. by rewrite Hc, Hb.
Qed.
End spec.

(** ** Witness *)

#[local] Instance demo_resolver : Resolver () := λ ns id port r,
  (r, if decide (id = "up") then ("http://127.0.0.1:40000", StateOK) else ("", StateSandboxNotFound)).
Definition demo_wire_get (id : string) : Request := mkRequest "GET" "lasd" "/" "" "" {[headerID := id]} "127.0.0.1" false.
Definition demo_wire (id : string) : Conn :=
  (serve_wire (λ h, h) (λ _, None) (λ _ _, Ok [CHeader 404; CWrite "no such page"]) (demo_wire_get id) ()
     (mkConn None "" 1000 false)).1.2.

Lemma answers_on_wire_witness :
  cn_Code (demo_wire "a-1") = Some 502%Z ∧
  json_detail (cn_Body (demo_wire "a-1")) = Some ("sandbox " +:+ go_quote "a-1" +:+ " not found") ∧
  demo_wire "up" = mkConn (Some 404%Z) "no such page" 988 false.
Proof.
  split; [|split].
  - refine (proj1 (proj1 (answers_on_wire (λ h, h) (λ _, None) (λ _ _, Ok [CHeader 404; CWrite "no such page"])
      (demo_wire_get "a-1") () () (mkConn None "" 1000 false) (Refused 502 ("sandbox " +:+ go_quote "a-1" +:+ " not found")) _ _)));
      [vm_compute; reflexivity|]. split; [done|split; [done|apply Nat.leb_le; vm_compute; reflexivity]].
  - refine (proj1 (proj2 (answers_on_wire (λ h, h) (λ _, None) (λ _ _, Ok [CHeader 404; CWrite "no such page"])
      (demo_wire_get "a-1") () () (mkConn None "" 1000 false) (Refused 502 ("sandbox " +:+ go_quote "a-1" +:+ " not found")) _ _)));
      [vm_compute; reflexivity|]. split; [done|split; [done|apply Nat.leb_le; vm_compute; reflexivity]].
  - vm_compute. reflexivity.
Defined.
