(* ===== verification/FacadeRoutes.v ===== *)
(** The routing table of the API facade: the path a client builds for a resource
    reaches the handler of that resource. *)

From S2P Require Import Prelude GoStrings K8s Apis Mux Facade.
Local Open Scope string_scope.

(** ** Routing *)

(** The path a client builds for a resource, in a namespace or not. *)
Definition client_path (r : Resource) (ns : option string) (rest : list string) : list string :=
  ((if decide (Group (r_GVR r) = "") then ["api"; Version (r_GVR r)]
    else ["apis"; Group (r_GVR r); Version (r_GVR r)]) ++
   match ns with Some n => ["namespaces"; n] | None => [] end ++ Resource_ (r_GVR r) :: rest)%list.

(** The request reaches endpoint [e] of resource [r], with these path values. *)
Definition reaches (pf : bool) (method : string) (path : list string) (e : endpoint) (r : Resource)
  (vals : list (string * string)) : Prop :=
  ∃ vs, serve (buildMux pf) method path = Found e vs ∧
    resolveByPath Registry.NewDefaultRegistry vs = Some r ∧
    Forall (λ kv, path_value vs kv.1 = kv.2) vals.

(** Only the patterns of the path's length matter. *)
Definition of_length (n : nat) (mux : list (route endpoint)) : list (route endpoint) :=
  filter (λ r, length (rt_Segs r) = n) mux.

Definition segment (p : seg) : bool := match p with Rest _ => false | _ => true end.

Lemma match_length ps path vs vs' : forallb segment ps = true →
  match_segs ps path vs = Some vs' → length ps = length path.
Proof.
  revert path vs; induction ps as [|[s|n|n] ps IH]; intros [|x path] vs; simpl; try done;
    intros ?; case_decide; try done; intros ?; f_equal; eauto.
Qed.

Lemma candidates_cons (r : route endpoint) mux m path :
  candidates (r :: mux) m path =
  (match match_segs (rt_Segs r) path ∅ with
   | Some vs => if method_ok r m then [(r, vs)] else []
   | None => []
   end ++ candidates mux m path)%list.
Proof. unfold candidates. cbn. by destruct (match_segs _ _ _), (method_ok r m). Qed.

Definition segmented (mux : list (route endpoint)) : bool := forallb (λ r, forallb segment (rt_Segs r)) mux.

Lemma candidates_length (mux : list (route endpoint)) m path : segmented mux = true →
  candidates mux m path = candidates (of_length (length path) mux) m path.
Proof.
  induction mux as [|r mux IH]; [done|]. unfold of_length, segmented in *. cbn [forallb].
  intros [Hr Hs]%andb_true_iff. rewrite filter_cons, candidates_cons, (IH Hs).
  case_decide as Hl; [by rewrite candidates_cons|].
  by destruct (match_segs (rt_Segs r) path ∅) as [vs|] eqn:E; [apply match_length in E|].
Qed.

Lemma serve_found mux m path mo segs e vs : segmented mux = true →
  foldl better None (candidates (of_length (length path) mux) m path) = Some (mkRoute mo segs e, vs) →
  serve mux m path = Found e vs.
Proof. intros Hs E. unfold serve. by rewrite candidates_length, E. Qed.

Lemma match_lit s ps path vs : match_segs (Lit s :: ps) (s :: path) vs = match_segs ps path vs.
Proof. simpl. by rewrite decide_True. Qed.
Lemma match_lit_ne s x ps path vs : s ≠ x → match_segs (Lit s :: ps) (x :: path) vs = None.
Proof. intros. simpl. by rewrite decide_False. Qed.
Lemma match_wild n x ps path vs :
  x ≠ "" → match_segs (Wild n :: ps) (x :: path) vs = match_segs ps path (<[n := x]> vs).
Proof. intros. simpl. by rewrite decide_False. Qed.

Ltac solve_match :=
  repeat first
    [ rewrite match_lit | rewrite match_lit_ne by (discriminate || done)
    | rewrite match_wild by (discriminate || done) ].

(** The few patterns of the path's length, tried one by one. *)
Ltac solve_serve :=
  eapply serve_found; [vm_compute; reflexivity|]; simpl length;
  match goal with
  | |- context [of_length ?n ?m] => let x := eval vm_compute in (of_length n m) in change (of_length n m) with x
  end;
  rewrite !candidates_cons; cbn [rt_Segs]; solve_match; cbn; reflexivity.

Ltac solve_reaches := eexists; split; [solve_serve|split; [vm_compute; reflexivity|repeat constructor]].

(** Every served resource is reached under its path: the collection and
    the objects of a namespaced resource inside a namespace, with their
    subresources, and the collection of all namespaces; for a cluster-scoped
    resource its collection and objects; with the path's namespace, name and
    subresource, whatever the method, and whether or not port forwarding is
    wired. *)
Lemma routes_reach pf method r ns name sub :
  r ∈ Registry.list_ Registry.NewDefaultRegistry → ns ≠ "" → name ≠ "" → sub ≠ "" → sub ≠ "portforward" →
  reaches pf method (client_path r None []) (ECollection false) r [] ∧
  if r_Namespaced r then
    reaches pf method (client_path r (Some ns) []) (ECollection true) r [("namespace", ns)] ∧
    reaches pf method (client_path r (Some ns) [name]) (EItem true false) r
      [("namespace", ns); ("name", name)] ∧
    reaches pf method (client_path r (Some ns) [name; sub]) (EItem true true) r
      [("namespace", ns); ("name", name); ("subresource", sub)]
  else reaches pf method (client_path r None [name]) (EItem false false) r [("name", name)].
Proof.
  intros Hr Hns Hname Hsub Hpf. assert ("portforward" ≠ sub) as Hpf' by congruence.
  let l := eval vm_compute in (Registry.list_ Registry.NewDefaultRegistry) in
    change (Registry.list_ Registry.NewDefaultRegistry) with l in Hr.
  repeat (apply elem_of_cons in Hr as [->|Hr]); [..|by apply elem_of_nil in Hr].
  all: destruct pf; cbn [r_Namespaced]; split_and!; unfold reaches, client_path; simpl; solve_reaches.
Qed.
