(* ===== verification/FacadeSpec.v ===== *)
(** What the API facade promises about creation, writes and the scale endpoint,
    and that a client that lists and then watches ends with the store's objects. *)

From S2P Require Import Prelude GoStrings K8s Apis Selectors Store StoreFacts Patch StoreSpec.
From S2P Require Import Concrete Watch WatchSpec Core Driver Build Reconciler ConcreteApi Cascade.
From S2P Require Import Persist Pvc Sandbox SandboxSpec Claim ClaimSpec Mux Facade.
Local Open Scope string_scope.

(** ** Handlers *)

Section handlers.
Context {U P D : Type} `{UnstructuredLaws U} `{Codec U} `{Persister P}.
Context `{Oracle} `{GoRuntime} `{PatchLib} `{SelectorLib} `{StdJson}.
Context `{!Converter U} `{Driver D}.
#[local] Notation World := (world U P D).
Implicit Types (w : World) (rq : rest_request) (u : U) (r : Resource).

(** The store serves a resource as the registry declares it. *)
Definition served (s : Store U P) r : Prop :=
  ∃ rm, resources s !! r_GVR r = Some rm ∧ namespaced rm = r_Namespaced r.

(** *** Create *)

Lemma admit_namespace_spec r ns u u' :
  admit_namespace r ns u = Ok u' →
  (u' = u ∨ u' = SetNamespace ns u) ∧
  (r_Namespaced r = true → GetNamespace u' ≠ "" ∧ (ns ≠ "" → GetNamespace u' = ns)).
Proof.
  unfold admit_namespace. destruct (r_Namespaced r); [|intros [= ->]; by split; [left|]]. simpl.
  case_decide as He; [case_decide as He2; [done|]|case_decide as Hd; [done|]]; intros [= <-].
  - split; [by right|]. intros _. split; [done|]. intros _. by uget_simpl.
  - split; [by left|]. intros _. split; [done|]. intros Hns.
    destruct (decide (GetNamespace u = ns)); [done|]. by destruct Hd.
Qed.

Lemma admit_defaults_spec r u :
  GetNamespace (admit_defaults r u) = GetNamespace u ∧ GetName (admit_defaults r u) = GetName u ∧
  GetGenerateName (admit_defaults r u) = GetGenerateName u ∧ SpecOf (admit_defaults r u) = SpecOf u ∧
  StatusOf (admit_defaults r u) = (if r_HasStatus r then None else StatusOf u) ∧
  (r_Kind r ≠ "" → GetKind (admit_defaults r u) ≠ "").
Proof.
  unfold admit_defaults. destruct (r_HasStatus r); repeat case_decide; split_and!; intros; uget_simpl; done.
Qed.

Lemma resolve_name_nonempty (s : Store U P) g rm ns u name u1 :
  resolve_name s g rm ns u = Ok (name, u1) → name ≠ "".
Proof.
  unfold resolve_name. repeat case_decide; [done| |naive_solver].
  destruct (generateUniqueName s g rm ns (GetGenerateName u)) as [n|] eqn:E; [|done]. intros [= <- _].
  apply gen_loop_spec in E as (j & _ & -> & _). unfold name_candidate. by destruct (GetGenerateName u).
Qed.

(** What a created object keeps, and where it is found. *)
Lemma Create_get g rm u s s' v :
  resources s !! g = Some rm → Create g u s = (s', Ok v) →
  Get g (GetNamespace v) (GetName v) s' = Ok v ∧ resources s' = resources s ∧
 GetNamespace v = (if namespaced rm then GetNamespace u else "") ∧
  (GetName u ≠ "" → GetName v = GetName u) ∧
  StatusOf v = StatusOf u ∧ SpecOf v = SpecOf u ∧ GetKind v = GetKind u ∧ GetName v ≠ "".
Proof.
  intros Hg E. apply Create_cases in E as [(e & ? & _)|(rm' & name & u1 & Hm & Hn & Hw & [= Hv] & ->)]; [done|].
  apply meta_ok in Hm. assert (rm' = rm) as -> by congruence.
  set (v' := stamp_new _ _ u1) in *. subst v.
  destruct (stamp_new_name (rv s) (next_rv s) u1) as [Hn1 Hn2].
  destruct (resolve_name_spec _ _ _ _ _ _ _ Hn) as [Hr1 Hr2].
  assert (∀ f, f ≠ FName → f ≠ FNamespace → f ≠ FUID → f ≠ FResourceVersion → f ≠ FGeneration →
    f ≠ FCreationTimestamp → uget f v' = uget f u) as Hf.
  { intros f H1f H2f H3f H4f H5f H6f. transitivity (uget f u1).
    - unfold v', stamp_new. case_decide; destruct (GetCreationTimestamp _); uget_unfold; by rewrite !get_set_ne.
    - revert Hn. unfold resolve_name. repeat case_decide; [done| |].
      + destruct (generateUniqueName _ _ _ _ _); [|done]. intros [= _ <-]. uget_unfold.
        rewrite get_set_ne by done. destruct (namespaced rm); [done|]. by rewrite get_set_ne.
      + intros [= _ <-]. destruct (namespaced rm); [done|]. uget_unfold. by rewrite get_set_ne. }
  assert (GetNamespace v' = if namespaced rm then GetNamespace u else "") as Hns.
  { unfold v'. rewrite Hn2, Hr2. destruct (namespaced rm); [done|]. by uget_simpl. }
  assert (GetName v' = name) as Hnm by (unfold v'; by rewrite Hn1).
  split_and!.
  - rewrite (Get_apply _ _ _ _ _ _ Hg). cbn [w_gvr w_key w_result].
    by rewrite Hns, Hnm, decide_True.
  - apply resources_apply.
  - done.
  - intros Hne. rewrite Hnm. revert Hn. unfold resolve_name.
    assert (GetName (if namespaced rm then u else SetNamespace "" u) = GetName u) as ->
      by (destruct (namespaced rm); [done|]; by uget_simpl).
    rewrite decide_False by done. by intros [= <- _].
  - by apply (Hf FStatus).
  - by apply (Hf FSpec).
  - by apply (Hf FKind).
  - rewrite Hnm. by eapply resolve_name_nonempty.
Qed.

Lemma Create_fails g u s s' e : Create g u s = (s', Err e) → s' = s.
Proof. intros E. by apply Create_cases in E as [(? & _ & ->)|(? & ? & ? & _ & _ & _ & [=] & _)]. Qed.

(** Creating a named object that is not there succeeds. *)
Lemma Create_named g rm u s :
  resources s !! g = Some rm → GetName u ≠ "" → namespaced rm = false →
  Get g "" (GetName u) s = Err (NotFound (groupRes rm) (GetName u)) → is_ok (Create g u s).2 = true.
Proof.
  intros Hg Hn Hns. unfold Get, Create, meta. rewrite Hg, Hns. unfold resolve_name.
  assert (GetName (SetNamespace "" u) = GetName u) as -> by (by uget_simpl).
  rewrite decide_False by done. destruct (lookup_obj s g _); [done|]. done.
Qed.

(** *** Namespaces *)

Definition namespaces_served (s : Store U P) : Prop :=
  ∃ nsm, resources s !! NamespaceGVR = Some nsm ∧ namespaced nsm = false.

Lemma ensureNamespace_spec name w :
  namespaces_served (w_store w) → name ≠ "" →
  (∃ n, Get NamespaceGVR "" name (w_store (ensureNamespace name w)) = Ok n) ∧
  (∀ g ns n, g ≠ NamespaceGVR →
    Get g ns n (w_store (ensureNamespace name w)) = Get g ns n (w_store w)).
Proof.
  intros (nsm & Hn & Hf) Hne. unfold ensureNamespace. rewrite decide_False by done.
  destruct (Get NamespaceGVR "" name (w_store w)) as [n|e] eqn:Hget; [split; [by exists n|done]|].
  set (o := SetStatusField _ _). rewrite sto_eq. cbn [fst w_store].
  assert (GetName o = name) as Ho by (unfold o; by uget_simpl).
  assert (e = NotFound (groupRes nsm) (GetName o)) as He.
  { unfold Get, meta in Hget. rewrite Hn in Hget. destruct (lookup_obj _ _ _); [done|].
    rewrite Ho. by injection Hget as <-. }
  pose proof (Create_named NamespaceGVR nsm o (w_store w) Hn) as Hok. rewrite Ho in Hok, He.
  specialize (Hok Hne Hf). rewrite Hget, He in Hok. specialize (Hok eq_refl).
  destruct (Create NamespaceGVR o (w_store w)) as [s' [v|e']] eqn:Ec; [|done]. cbn [fst].
  destruct (Create_get _ _ _ _ _ _ Hn Ec) as (Hg & Hr & Hns & Hnm & _).
  rewrite Ho in Hnm. specialize (Hnm Hne). split.
  - exists v. rewrite Hnm in Hg. unfold Get, meta in Hg |- *. simpl. rewrite Hr, Hn, Hf in *. exact Hg.
  - intros g ns n Hne'. apply Create_cases in Ec as [(? & [=] & _)|(? & ? & ? & _ & _ & _ & _ & ->)].
    cbn [w_store put_store]. unfold Get, meta. rewrite resources_apply.
    destruct (resources (w_store w) !! g); [|done].
    by rewrite lookup_apply, decide_False by (intros [E _]; by apply Hne').
Qed.

Lemma ensureNamespace_frame name w :
  resources (w_store (ensureNamespace name w)) = resources (w_store w) ∧
  (keyed (w_store w) → keyed (w_store (ensureNamespace name w))).
Proof.
  unfold ensureNamespace. case_decide; [done|]. destruct (Get _ _ _ _); [done|].
  set (o := SetStatusField _ _). rewrite sto_eq. cbn [fst w_store put_store]. split.
  - destruct (Create NamespaceGVR o (w_store w)) as [s' c] eqn:Ec.
    apply Create_cases in Ec as [(? & _ & ->)|(? & ? & ? & _ & _ & _ & _ & ->)]; [done|apply resources_apply].
  - intros K. exact (exec_keyed (OpCreate NamespaceGVR o) _ K I).
Qed.

(** A create request either answers an error and changes nothing, or
    stores the object it answers: named and specified as the body says, in the
    namespace of the URL (or of the body, on the all-namespaces path), without
    the status a client may not set; and the namespace exists afterwards. *)
Lemma create_outcome rq r ns w w' rep :
  served (w_store w) r → namespaces_served (w_store w) →
  create rq r ns w = (w', rep) →
  (∃ e, rep = RStatus e ∧ w' = w) ∨
  (∃ u v, rep = RObject 201 v ∧ decodeObject rq = Ok u ∧
    Get (r_GVR r) (GetNamespace v) (GetName v) (w_store w') = Ok v ∧
    SpecOf v = SpecOf u ∧ StatusOf v = (if r_HasStatus r then None else StatusOf u) ∧
    (GetName u ≠ "" → GetName v = GetName u) ∧ GetName v ≠ "" ∧
    resources (w_store w') = resources (w_store w) ∧ (keyed (w_store w) → keyed (w_store w')) ∧
    if r_Namespaced r then
      GetNamespace v ≠ "" ∧ (ns ≠ "" → GetNamespace v = ns) ∧
      ∃ n, Get NamespaceGVR "" (GetNamespace v) (w_store w') = Ok n
    else GetNamespace v = "").
Proof.
  intros (rm & Hr & Hrn) Hnss. unfold create. destruct (decodeObject rq) as [u|e]; [|intros [= <- <-]; left; eauto].
  destruct (admit_namespace r ns u) as [u1|e] eqn:Ha; [|intros [= <- <-]; left; eauto].
  destruct (admit_namespace_spec _ _ _ _ Ha) as [Hu1 Hns]. rewrite sto_eq.
  destruct (admit_defaults_spec r u1) as (Hd1 & Hd2 & _ & Hd4 & Hd5 & _).
  destruct (Create (r_GVR r) (admit_defaults r u1) (w_store w)) as [s' [v|e]] eqn:Ec; cycle 1.
  { apply Create_fails in Ec as ->. intros [= <- <-]. left. exists e. split; [done|]. by destruct w. }
  intros [= <- <-]. right. exists u, v. cbn [fst snd].
  destruct (Create_get _ _ _ _ _ _ Hr Ec) as (Hg & Hres & Hvns & Hvn & Hst & Hsp & _ & Hne0).
  destruct (ensureNamespace_frame (GetNamespace v) (put_store s' w)) as [Hfr Hfk]. cbn [w_store put_store] in Hfr, Hfk.
  assert (keyed (w_store w) → keyed s') as Hk.
  { intros K. pose proof (exec_keyed (OpCreate (r_GVR r) (admit_defaults r u1)) _ K I) as Hk.
    simpl in Hk. by rewrite Ec in Hk. }
  assert (SpecOf u1 = SpecOf u ∧ StatusOf u1 = StatusOf u ∧ GetName u1 = GetName u) as (E1 & E2 & E3)
    by (destruct Hu1 as [-> | ->]; split_and!; by uget_simpl).
  split; [done|]. split; [done|]. rewrite Hst, Hsp, Hd4, Hd5, E1, E2, Hfr, Hres.
  rewrite Hd2, E3 in Hvn. rewrite Hrn in Hvns. destruct (r_Namespaced r).
  - rewrite Hd1 in Hvns. destruct (Hns eq_refl) as [Hne Heq].
    destruct (ensureNamespace_spec (GetNamespace v) (put_store s' w)) as [Hex Hother].
    { destruct Hnss as (nsm & ? & ?). exists nsm. cbn [w_store put_store]. by rewrite Hres. }
    { by rewrite Hvns. }
    split_and!; try done; [|by auto|by rewrite Hvns|by rewrite Hvns].
    rewrite Hother; [done|]. destruct Hnss as (nsm & Hnsm & Hf). intros E. rewrite E, Hnsm in Hr. congruence.
  - unfold ensureNamespace. rewrite Hvns, decide_True by done. rewrite Hvns in Hg. split_and!; by auto.
Qed.

(** *** Writes *)

(** C23. A write to an object, or to its status, touches that object only:
    whatever name and namespace the body of a PUT carries, and whatever a patch
    says, every other object is as before, no container is touched, and a
    request answered with an error changed nothing. *)
Theorem writes_confined rq r ns name isStatus w w' rep :
  served (w_store w) r →
  update rq r ns name isStatus w = (w', rep) ∨ patch rq r ns name isStatus w = (w', rep) →
  (∀ g k, g ≠ r_GVR r ∨ k ≠ key (r_Namespaced r) ns name →
     lookup_obj (w_store w') g k = lookup_obj (w_store w) g k) ∧
  w_drv w' = w_drv w ∧ (∀ e, rep = RStatus e → w' = w).
Proof.
  intros (rm & Hr & Hrn) Hor.
  assert (Hfin : ∀ (f : Store U P → Store U P * res api_error U),
    (∀ s' c, f (w_store w) = (s', c) → (∃ e, c = Err e ∧ s' = w_store w) ∨
       ∃ t v, c = Ok v ∧ s' = apply_write (WPut t (r_GVR r) (key (r_Namespaced r) ns name) v) (w_store w)) →
    (let '(w1, c) := sto f w in (w1, match c with Err e => RStatus e | Ok u => RObject 200 u end)) = (w', rep) →
    (∀ g k, g ≠ r_GVR r ∨ k ≠ key (r_Namespaced r) ns name →
       lookup_obj (w_store w') g k = lookup_obj (w_store w) g k) ∧
    w_drv w' = w_drv w ∧ (∀ e, rep = RStatus e → w' = w)).
  { intros f Hf. rewrite sto_eq. destruct (f (w_store w)) as [s' c] eqn:E. cbn [fst snd].
    destruct (Hf s' c eq_refl) as [(e & -> & ->)|(t & v & -> & ->)]; intros [= <- <-].
    - split_and!; [done|done|]. intros _ _. by destruct w.
    - split_and!; [|done|done]. intros g k Hne.
      change (lookup_obj (apply_write (WPut t (r_GVR r) (key (r_Namespaced r) ns name) v) (w_store w)) g k
              = lookup_obj (w_store w) g k).
      rewrite lookup_apply. cbn [w_gvr w_key]. by rewrite decide_False by naive_solver. }
  destruct Hor as [E|E].
  - unfold update in E. destruct (decodeObject rq) as [u|e]; [|by injection E as <- <-].
    revert E. apply Hfin. intros s' c Ec.
    apply Update_cases in Ec as [?|(rm' & old & Hm & _ & _ & _ & -> & ->)]; [by left|right].
    apply meta_ok in Hm. assert (rm' = rm) as -> by congruence. eexists _, _. split; [done|].
    rewrite Hrn. f_equal. f_equal. destruct (r_Namespaced r); simpl; by uget_simpl.
  - unfold patch in E. destruct (read_body rq) as [data|e]; [|by injection E as <- <-].
    revert E. apply Hfin. intros s' c Ec.
    apply Patch_cases in Ec as [?|(rm' & old & patched & Hm & _ & _ & _ & -> & -> & _)]; [by left|right].
    apply meta_ok in Hm. assert (rm' = rm) as -> by congruence. eexists _, _. split; [done|].
    by rewrite Hrn, key_if.
Qed.

(** *** Scale *)

Lemma extractReplicas_none `{!StdJsonLaws} data : extractReplicas data = None.
Proof.
  unfold extractReplicas. destruct (json_unmarshal data) as [[]|] eqn:E; try done.
  unfold nested_int64. destruct (m !! "spec") as [[]|] eqn:Hs; try done.
  destruct (_ !! "replicas") as [[]|] eqn:Hr; try done.
  by destruct (numbers_are_floats _ _ _ _ E Hs Hr z).
Qed.

(** The scale endpoint cannot scale: a PUT or PATCH of [/scale] on an
    existing object is refused whatever its body, because [encoding/json]
    decodes the replica count as a float and the accessor wants an integer; the
    object keeps its replicas. *)
Theorem scale_write_refused `{!StdJsonLaws} env rq r ns name w obj data :
  Get (r_GVR r) ns name (w_store w) = Ok obj → read_body rq = Ok data →
  rest_Method rq = "PUT" ∨ rest_Method rq = "PATCH" →
  handleScale env rq r ns name w
  = (w, RStatus (BadRequest "scale: could not read spec.replicas from request body")).
Proof.
  intros Hget Hbody Hm. unfold handleScale. rewrite Hget, Hbody, extractReplicas_none.
  destruct Hm as [-> | ->]; reflexivity.
Qed.
End handlers.

(** ** List, then watch *)

Section informer.
Context {U P D : Type} `{UnstructuredLaws U} `{Codec U} `{Persister P}.
Context `{Oracle} `{GoRuntime} `{PatchLib} `{SelectorLib} `{!SelectorLaws}.
#[local] Notation World := (world U P D).
Implicit Types (s : Store U P) (g : GVR).

(** [log] was committed, write by write, between the two stores. *)
Inductive committed s : list (write U) → Store U P → Prop :=
| committed_nil : committed s [] s
| committed_snoc log s' w : committed s log s' → room s' → valid_write w s' →
    committed s (log ++ [w]) (apply_write w s').

Lemma committed_wf s log s' : wf s → committed s log s' → wf s'.
Proof. intros W. induction 1; [done|]. by apply write_wf. Qed.

Lemma committed_represents s0 s l0 log s' :
  wf s → represents s0 s l0 → committed s log s' → represents s0 s' (l0 ++ log).
Proof.
  intros W R. induction 1 as [|log s' w Hc IH Hr Hw]; [by rewrite app_nil_r|].
  rewrite app_assoc. apply represents_write; [by eapply committed_wf|done|done|done].
Qed.

(** What the log says of a resource takes a mirror of it from one to the other. *)
Lemma committed_cache s log s' g nsd r0 :
  committed s log s' → Forall (well_keyed nsd g) log →
  objects s' g = client_cache nsd (filter (λ e, ev_GVR e = g) (log_events r0 log)) (objects s g).
Proof.
  induction 1 as [|log s' w Hc IH Hr Hw]; [done|]. intros [Hk [Hw1 _]%Forall_cons]%Forall_app.
  rewrite log_events_snoc, filter_app. unfold client_cache in *. rewrite foldl_app, <-IH by done.
  rewrite filter_cons, filter_nil. cbn [ev_GVR]. case_decide as Hg.
  - simpl. subst g. symmetry. by apply client_write.
  - simpl. by rewrite objects_apply, decide_False.
Qed.

Lemma log_events_below r0 (log : list (write U)) e :
  e ∈ log_events r0 log → (ev_RV e ≤ r0 + length log)%Z.
Proof.
  intros He. assert (ev_RV e ∈ ev_RV <$> log_events r0 log) as Hin by set_solver.
  rewrite log_events_RV in Hin. apply elem_of_seqZ in Hin. lia.
Qed.

(** The part of the whole log a client at the version in between has not seen. *)
Lemma unseen_events r0 (l1 l2 : list (write U)) g :
  filter (λ e, (r0 + length l1 < ev_RV e)%Z ∧ ev_GVR e = g) (log_events r0 (l1 ++ l2))
  = filter (λ e, ev_GVR e = g) (log_events (r0 + length l1) l2).
Proof.
  rewrite log_events_app, filter_app, filter_none; [|intros e He%log_events_below [? _]; lia].
  apply filter_ext_elem. intros e He%log_events_above. naive_solver lia.
Qed.

(** The cache a client builds from a list reply. *)
Definition list_cache (nsd : bool) (items : list U) : gmap string U :=
  list_to_map ((λ u, (key nsd (GetNamespace u) (GetName u), u)) <$> items).

Lemma list_cache_objects s g rm :
  keyed s → resources s !! g = Some rm →
  list_cache (namespaced rm) (range_map (objects s g)).*2 = objects s g.
Proof.
  intros K Hg. unfold list_cache. rewrite <-list_fmap_compose.
  assert (((λ u, (key (namespaced rm) (GetNamespace u) (GetName u), u)) ∘ snd) <$> range_map (objects s g)
          = range_map (objects s g)) as ->.
  { rewrite <-(list_fmap_id (range_map (objects s g))) at 2. apply list_fmap_ext. intros i [k u] Hi. simpl.
    apply list_elem_of_lookup_2 in Hi. rewrite range_map_perm in Hi. apply elem_of_map_to_list in Hi.
    by rewrite <-(K g k u rm). }
  rewrite (list_to_map_proper _ (map_to_list (objects s g))); [apply list_to_map_to_list| |apply range_map_perm].
  rewrite range_map_perm. apply NoDup_fst_map_to_list.
Qed.

Lemma wanted_every (p : pump_state (U := U)) l :
  wo_Namespace (p_opts p) = "" → (∀ u : U, Matches (wo_Selectors (p_opts p)) u = true) → wanted p l = l.
Proof.
  intros Hns Hm. apply filter_all. intros e _. unfold match_event.
  rewrite bool_decide_eq_false_2 by (intros Hne; by apply Hne). rewrite andb_false_r. apply Hm.
Qed.

(** An unfiltered list, and the watch that continues it. *)
Lemma list_all rq r (w w' : World) gv kind rvs items rm :
  resources (w_store w) !! r_GVR r = Some rm →
  query rq "labelSelector" = "" → query rq "fieldSelector" = "" →
  list_objects rq r "" w = (w', RList gv kind rvs items) →
  rvs = format_uint (rv (w_store w)) ∧ items = (range_map (objects (w_store w) (r_GVR r))).*2.
Proof.
  intros Hr Hl Hf. unfold list_objects. rewrite Hl, Hf.
  destruct (ParseSelectors "" "") as [sel|] eqn:Hsel; [|done].
  unfold List, meta. rewrite Hr. intros [= <- <- <- <- <-]. cbn [lr_RV lr_Items]. split; [done|].
  apply filter_all. intros u _. destruct (namespaced rm); simpl; by apply Matches_everything.
Qed.

End informer.

(** ** Witnesses *)

Definition pods_resource : Resource :=
  mkResource PodGVR "Pod" "PodList" "pod" ["po"] true true false defaultVerbs.

Example pods_registered : Registry.Get Registry.NewDefaultRegistry PodGVR = Some pods_resource.
Proof. vm_compute. reflexivity. Qed.

Notation demo_pods := (mkWorld demo_pod_store Fake.NewFakeDriver 0 0 : demo_world).

(** a request with this method and body *)
Definition demo_rest (method body : string) : rest_request := mkRest method ∅ MergePatchType (Ok body) true.

(** every document is a scale to three replicas, as [encoding/json] reads it *)
#[export] Instance demo_json : StdJson :=
  λ _, Some (GMap {["spec" := GMap {["replicas" := GFloat 4613937818241073152]}]}).

#[export] Instance demo_json_laws : StdJsonLaws.
Proof.
  intros b v m spec [= <-] Hs Hr z. rewrite lookup_singleton_eq in Hs. injection Hs as <-.
  rewrite lookup_singleton_eq in Hr. by injection Hr as <-.
Qed.

Lemma demo_pods_served : served (w_store demo_pods) pods_resource.
Proof. exists (demo_meta PodGVR true). split; vm_compute; reflexivity. Qed.

Definition demo_body (name : string) : string := default "" (MarshalJSON (demo_obj "Pod" "" name "")).

Definition is_object {U} `{SelectorLib} (x : reply U) : bool :=
  match x with RObject _ _ => true | _ => false end.

Notation demo_put := (update (demo_rest "PUT" (demo_body "z")) pods_resource "default" "a" true demo_pods).

Lemma writes_confined_witness :
  lookup_obj (w_store demo_put.1) PodGVR "default/z" = lookup_obj demo_pod_store PodGVR "default/z".
Proof.
  destruct (writes_confined (demo_rest "PUT" (demo_body "z")) pods_resource "default" "a" true demo_pods
    demo_put.1 demo_put.2) as (Hl & _).
  - exact demo_pods_served.
  - left. apply surjective_pairing.
  - apply Hl. right. vm_compute. discriminate.
Defined.

Lemma scale_write_refused_witness :
  (handleScale (λ w, w) (demo_rest "PUT" "3") pods_resource "default" "a" demo_pods).2
  = RStatus (BadRequest "scale: could not read spec.replicas from request body").
Proof.
  rewrite (scale_write_refused (λ w, w) (demo_rest "PUT" "3") pods_resource "default" "a" demo_pods
    (default new_obj (lookup_obj demo_pod_store PodGVR "default/a")) "3"); [reflexivity| | |].
  - vm_compute. reflexivity.
  - vm_compute. reflexivity.
  - left. reflexivity.
Defined.

Definition demo_query (q : gmap string string) : rest_request := mkRest "GET" q "" (Ok "") true.
Definition demo_resume : rest_request := demo_query {["resourceVersion" := "1"; "watch" := "1"]}.

Definition demo_opts : WatchOptions :=
  mkWatchOptions _ "" (mkSelectors _ (Some labels_Everything) (Some fields_Everything)) 1 true.
Notation demo_watching := (mkWorld (demo_watch PodGVR demo_opts demo_pod_store).1 Fake.NewFakeDriver 0 0 : demo_world).

Definition demo_list : ListResult :=
  default (mkListResult [] 0) (ok_val (List PodGVR "" (Matches (wo_Selectors demo_opts)) demo_pod_store)).

Lemma list_objects_eq {U P D} `{Unstructured U, GoRuntime, SelectorLib} rq r ns (w : world U P D) sel lr :
  ParseSelectors (query rq "labelSelector") (query rq "fieldSelector") = Ok sel →
  List (r_GVR r) ns (Matches sel) (w_store w) = Ok lr →
  list_objects rq r ns w
  = (w, RList (GVR.GroupVersion (r_GVR r)) (r_ListKind r) (format_uint (lr_RV lr)) (lr_Items lr)).
Proof. intros Hp Hl. unfold list_objects. by rewrite Hp, Hl. Qed.

Lemma watch_eq {U P D} `{Unstructured U, GoRuntime, SelectorLib} rq r ns (w : world U P D) sel s p :
  ParseSelectors (query rq "labelSelector") (query rq "fieldSelector") = Ok sel → rest_CanFlush rq = true →
  Watch (r_GVR r) (watch_options rq ns sel) (w_store w) = (s, Ok p) →
  watch rq r ns w = (put_store s w, RWatch p (watch_timeout rq)).
Proof. intros Hp Hf Hw. unfold watch. rewrite Hp, Hf. simpl. unfold sto. by rewrite Hw. Qed.

(** The time limit of a watch is the one asked for while it fits a duration of 64
    bits; a longer one wraps, and may end the watch at once. *)
Lemma watch_timeout_exact rq secs : atoi (query rq "timeoutSeconds") = Some secs →
  (0 < secs ≤ 9223372036)%Z → watch_timeout rq = Some (secs * second)%Z.
Proof.
  intros Hs Hr. unfold watch_timeout, second. rewrite Hs, (proj2 (Z.ltb_lt 0 _)) by lia.
  by rewrite wrap_i64_small by lia.
Qed.

Example watch_timeout_wraps rq : query rq "timeoutSeconds" = "9223372037" →
  watch_timeout rq = Some (-9223372036709551616)%Z.
Proof. intros Hs. unfold watch_timeout. rewrite Hs. reflexivity. Qed.

