(* ===== verification/FacadeApi.v ===== *)
(** The API as a client sees it: requests by method and path, through the routing
    table, the handlers, the store and the delete cascade. *)

From S2P Require Import Prelude GoStrings K8s Apis Selectors Store StoreFacts Patch StoreSpec.
From S2P Require Import Concrete Core Driver Build Reconciler ConcreteApi Cascade Persist.
From S2P Require Import Mux Facade FacadeRoutes FacadeSpec.
Local Open Scope string_scope.

Section api.
Context {U P D : Type} `{UnstructuredLaws U} `{Codec U} `{Persister P}.
Context `{Oracle} `{GoRuntime} `{PatchLib} `{SelectorLib} `{StdJson}.
Context `{!Converter U} `{Driver D}.
#[local] Notation World := (world U P D).
Implicit Types (w : World) (rq : rest_request) (u : U) (r : Resource).
Context (env : World → World) (pf : bool).

(** The server, with the resources it registers. *)
Notation server := (api Registry.NewDefaultRegistry env pf).

Lemma api_collection r ns rq w :
  r ∈ Registry.list_ Registry.NewDefaultRegistry → r_Namespaced r = true → ns ≠ "" → rest_Method rq = "POST" →
  server (client_path r (Some ns) []) rq w = (let '(w, x) := create rq r ns w in (w, AReply x)).
Proof.
  intros Hr Hn Hns Hm. destruct (routes_reach pf (rest_Method rq) r ns "x" "x" Hr Hns) as [_ Hrt]; [done..|].
  rewrite Hn in Hrt. destruct Hrt as ((vs & Hs & Hres & Hv) & _ & _).
  apply Forall_inv in Hv. cbn in Hv. unfold api. rewrite Hs. unfold handleCollection. rewrite Hres, Hv, Hm. done.
Qed.

Lemma api_item r ns name rq w :
  r ∈ Registry.list_ Registry.NewDefaultRegistry → r_Namespaced r = true → ns ≠ "" → name ≠ "" →
  server (client_path r (Some ns) [name]) rq w =
  let m := rest_Method rq in
  let '(w, x) :=
    if decide (m = "GET") then get_object r ns name w
    else if decide (m = "PUT") then update rq r ns name false w
    else if decide (m = "PATCH") then patch rq r ns name false w
    else if decide (m = "DELETE") then delete_object r ns name w
    else (w, RStatus (MethodNotSupported (GVR.GroupResource (r_GVR r)) m)) in
  (w, AReply x).
Proof.
  intros Hr Hn Hns Hname. destruct (routes_reach pf (rest_Method rq) r ns name "x" Hr Hns Hname) as [_ Hrt]; [done..|].
  rewrite Hn in Hrt. destruct Hrt as (_ & (vs & Hs & Hres & Hv) & _).
  inversion Hv as [|? ? Hv1 Hv']; subst. apply Forall_inv in Hv'. cbn in Hv1, Hv'.
  unfold api. rewrite Hs. unfold handleItem. rewrite Hres, Hv1, Hv'. done.
Qed.

(** The path of a namespace. *)
Definition namespace_resource : Resource :=
  mkResource NamespaceGVR "Namespace" "NamespaceList" "namespace" ["ns"] false true false defaultVerbs.

Lemma api_namespace ns rq w :
  ns ≠ "" → rest_Method rq = "GET" →
  server ["api"; "v1"; "namespaces"; ns] rq w =
  (let '(w, x) := get_object namespace_resource "" ns w in (w, AReply x)).
Proof.
  intros Hns Hm.
  assert (namespace_resource ∈ Registry.list_ Registry.NewDefaultRegistry) as Hin
    by (apply (bool_decide_unpack _); vm_compute; exact I).
  destruct (routes_reach pf (rest_Method rq) namespace_resource ns ns "x" Hin Hns Hns) as [_ Hrt]; [done..|].
  destruct Hrt as (vs & Hs & Hres & Hv). apply Forall_inv in Hv. cbn in Hv.
  unfold api. change ["api"; "v1"; "namespaces"; ns] with (client_path namespace_resource None [ns]).
  rewrite Hs. unfold handleItem. rewrite Hres, Hv, Hm. done.
Qed.

Lemma get_object_ok r ns name w v :
  Get (r_GVR r) ns name (w_store w) = Ok v → get_object r ns name w = (w, RObject 200 v).
Proof. intros E. unfold get_object. by rewrite E. Qed.

(** Deleting an object that is there answers it and leaves nothing to read. *)
Lemma delete_object_gone r ns name w v rm :
  resources (w_store w) !! r_GVR r = Some rm → Get (r_GVR r) ns name (w_store w) = Ok v → keyed (w_store w) →
  ∃ w' x, delete_object r ns name w = (w', RObject 200 x) ∧
    Get (r_GVR r) ns name (w_store w') = Err (NotFound (groupRes rm) name).
Proof.
  intros Hrm Hget K. apply Get_target in Hget as Ht. pose proof (delete_locked_target (r_GVR r) ns name (w_store w)) as Hd.
  rewrite Ht in Hd. destruct Hd as (rm' & Hrm' & _ & Hd). assert (rm' = rm) as -> by congruence.
  unfold delete_object, Delete. cbn [Delete_n]. unfold Store.Delete. rewrite Hd. do 2 eexists. split; [reflexivity|].
  set (x := SetResourceVersion _ v). set (k := key _ _ _). set (w1 := put_store _ w).
  assert (target (w_store w1) (r_GVR r) ns name = None) as Hnone.
  { unfold target, w1. cbn [w_store put_store]. rewrite resources_apply, Hrm. fold k.
    rewrite lookup_apply. destruct (decide _) as [_|Hno]; [done|]. by destruct Hno. }
  assert (resources (w_store w1) = resources (w_store w)) as Hr1 by apply resources_apply.
  assert (keyed (w_store w1)) as K1.
  { intros g k' u m Hl Hm. rewrite Hr1 in Hm. apply (K g k' u m); [|done].
    unfold w1 in Hl. cbn [w_store put_store] in Hl. rewrite lookup_apply in Hl. by case_decide. }
  pose proof (hook_safe _ _ _ (r_GVR r) x w1 (Delete_safe_any 2) (within_any _ K1)) as Hrem.
  set (w2 := OnDelete _ _ _ _) in *. unfold Get, meta. rewrite (rm_res _ _ _ Hrem), Hr1, Hrm.
  fold k. destruct (lookup_obj (w_store w2) (r_GVR r) k) as [y|] eqn:Hy; [|done].
  apply (rm_sub _ _ _ Hrem) in Hy. unfold target in Hnone. rewrite Hr1, Hrm in Hnone. fold k in Hnone. congruence.
Qed.

(** C27. An object's life through the API: a POST to the collection of a
    namespaced resource either answers an error and changes nothing, or answers
    an object with the spec of the body, in the namespace of the path, without
    a client-supplied status.  That object is what a GET of its path answers,
    its namespace exists, and once a DELETE has answered, a GET is answered
    NotFound. *)
Theorem api_object_life r ns rq rg rd w w' a :
  r ∈ Registry.list_ Registry.NewDefaultRegistry → r_Namespaced r = true → ns ≠ "" →
  served (w_store w) r → namespaces_served (w_store w) → keyed (w_store w) →
  rest_Method rq = "POST" → rest_Method rg = "GET" → rest_Method rd = "DELETE" →
  server (client_path r (Some ns) []) rq w = (w', a) →
  (∃ e, a = AReply (RStatus e) ∧ w' = w) ∨
  (∃ u v, a = AReply (RObject 201 v) ∧ decodeObject rq = Ok u ∧ GetNamespace v = ns ∧
    SpecOf v = SpecOf u ∧ StatusOf v = (if r_HasStatus r then None else StatusOf u) ∧
    (GetName u ≠ "" → GetName v = GetName u) ∧
    let path := client_path r (Some ns) [GetName v] in
    server path rg w' = (w', AReply (RObject 200 v)) ∧
    (∃ n, server ["api"; "v1"; "namespaces"; ns] rg w' = (w', AReply (RObject 200 n))) ∧
    ∃ w2 x gr, server path rd w' = (w2, AReply (RObject 200 x)) ∧
      server path rg w2 = (w2, AReply (RStatus (NotFound gr (GetName v))))).
Proof.
  intros Hr Hn Hns Hsv Hnss K Hm Hg Hd E. rewrite api_collection in E by done.
  destruct (create rq r ns w) as [w1 rep] eqn:Ec. injection E as <- <-.
  destruct (create_outcome rq r ns w w1 rep Hsv Hnss Ec)
    as [(e & -> & ->)|(u & v & -> & Hu & Hget & Hspec & Hst & Hname & Hne & Hres & Hk & Hrest)]; [left; eauto|right].
  rewrite Hn in Hrest. destruct Hrest as (_ & Hvns & n & Hnget). pose proof (Hvns Hns) as Hvn. rewrite Hvn in Hget, Hnget.
  exists u, v. do 6 (split; [done|]). cbv zeta. split_and!.
  - rewrite api_item by done. cbv zeta. rewrite decide_True by done. by rewrite (get_object_ok _ _ _ _ _ Hget).
  - exists n. rewrite api_namespace by done. by rewrite (get_object_ok namespace_resource _ _ _ _ Hnget).
  - destruct Hsv as (rm & Hrm & _). rewrite <-Hres in Hrm.
    destruct (delete_object_gone r ns (GetName v) w1 v rm Hrm Hget (Hk K)) as (w2 & x & Hdel & Hgone).
    exists w2, x, (groupRes rm). split.
    + rewrite api_item by done. cbv zeta. rewrite Hd. cbn. by rewrite Hdel.
    + rewrite api_item by done. cbv zeta. rewrite decide_True by done. unfold get_object. by rewrite Hgone.
Qed.
End api.

(** ** Witness *)

Notation demo_api := (api (U := cobj) Registry.NewDefaultRegistry (λ w, w) true).
Notation demo_posted := (demo_api (client_path pods_resource (Some "default") []) (demo_rest "POST" (demo_body "b")) demo_pods).

Lemma api_object_life_witness :
  ∃ v, demo_posted.2 = AReply (RObject 201 v) ∧ GetNamespace v = "default" ∧
    demo_api (client_path pods_resource (Some "default") [GetName v]) (demo_rest "GET" "") demo_posted.1
    = (demo_posted.1, AReply (RObject 200 v)).
Proof.
  assert (match demo_posted.2 with AReply (RObject _ _) => true | _ => false end = true) as Hk by (vm_compute; reflexivity).
  destruct demo_posted as [w' a] eqn:E.
  destruct (api_object_life (λ w, w) true pods_resource "default" (demo_rest "POST" (demo_body "b"))
    (demo_rest "GET" "") (demo_rest "DELETE" "") demo_pods w' a)
    as [(e & -> & _)|(u & v & -> & _ & Hns & _ & _ & _ & Hget & _)].
  - apply (bool_decide_unpack _). vm_compute. exact I.
  - reflexivity.
  - discriminate.
  - exact demo_pods_served.
  - exists (demo_meta NamespaceGVR false). split; vm_compute; reflexivity.
  - apply keyed_check_ok. vm_compute. reflexivity.
  - reflexivity.
  - reflexivity.
  - reflexivity.
  - exact E.
  - discriminate Hk.
  - exists v. split; [reflexivity|split; [exact Hns|exact Hget]].
Defined.
