(* ===== verification/Discovery.v ===== *)
(** [internal/kubefacade/discovery.go] and [openapi.go]: the documents from which
    a client learns the served groups, versions, resources and schemas.  They
    are functions of the registry; the theorems relate them to the names the
    handlers resolve and to the paths the routing table serves. *)

From S2P Require Import Prelude GoStrings K8s Apis Mux Facade FacadeRoutes.
Local Open Scope string_scope.

(** ** Discovery *)

Record VersionInfo := mkVersionInfo {
  vi_Major : string; vi_Minor : string; vi_GitVersion : string; vi_GitTreeState : string; vi_Platform : string;
}.
Definition GitVersion := "v1.33.0-lasd".
Definition handleVersion : VersionInfo := mkVersionInfo "1" "33" GitVersion "clean" "local-docker".
Definition handleAPIVersions : list string := ["v1"].

Record APIResource := mkAPIResource {
  ar_Name : string; ar_SingularName : string; ar_Namespaced : bool; ar_Kind : string;
  ar_Group : string; ar_Version : string; ar_Verbs : list string; ar_ShortNames : list string;
}.

Record APIGroup := mkAPIGroup {
  ag_Name : string;
  (** group/version and version *)
  ag_Versions : list (string * string);
  ag_Preferred : string * string;
}.

Definition sub_verbs : list string := ["get"; "patch"; "update"].

(** The entries of one resource: itself and its subresources. *)
Definition resource_entries (r : Resource) : list APIResource :=
  let name := Resource_ (r_GVR r) in
  (mkAPIResource name (r_Singular r) (r_Namespaced r) (r_Kind r) "" "" (r_Verbs r) (r_ShortNames r) ::
   (if r_HasStatus r
    then [mkAPIResource (name +:+ "/status") "" (r_Namespaced r) (r_Kind r) "" "" sub_verbs []] else []) ++
   (if r_HasScale r
    then [mkAPIResource (name +:+ "/scale") "" (r_Namespaced r) "Scale" "autoscaling" "v1" sub_verbs []] else []))%list.

Section discovery.
Context `{GoRuntime}.
Context (reg : Registry.t).

(** The group/version of the list, and its entries. *)
Definition writeResourceList (group version : string) : string * list APIResource :=
  (if decide (group = "") then version else group +:+ "/" +:+ version,
   Registry.ResourcesForGroupVersion reg group version ≫= resource_entries).

Definition handleCoreResourceList : string * list APIResource := writeResourceList "" "v1".
Definition handleGroupResourceList (vs : PathValues) : string * list APIResource :=
  writeResourceList (path_value vs "group") (path_value vs "version").

(** The inner loop of [handleAPIGroupList]: the versions seen and listed. *)
Definition version_step (g : string) (acc : gset string * list (string * string)) (r : Resource)
  : gset string * list (string * string) :=
  let v := Version (r_GVR r) in
  if decide (Group (r_GVR r) ≠ g ∨ v ∈ acc.1) then acc
  else ({[v]} ∪ acc.1, (acc.2 ++ [(g +:+ "/" +:+ v, v)])%list).

Definition group_versions (g : string) : list (string * string) :=
  (foldl (version_step g) (∅, []) (Registry.All reg)).2.

Definition handleAPIGroupList : list APIGroup :=
  omap (λ g, match group_versions g with
             | [] => None
             | (gv :: _) as gvs => Some (mkAPIGroup g gvs gv)
             end) (Registry.Groups reg).

(** ** OpenAPI *)

Definition hash_url (p : string) : string := "/openapi/v3/" +:+ p +:+ "?hash=lasd".

Definition root_step (acc : gset string * gmap string string) (r : Resource) : gset string * gmap string string :=
  if decide (Group (r_GVR r) = "") then acc
  else
    let gv := Group (r_GVR r) +:+ "/" +:+ Version (r_GVR r) in
    if decide (gv ∈ acc.1) then acc
    else ({[gv]} ∪ acc.1, <["apis/" +:+ gv := hash_url ("apis/" +:+ gv)]> acc.2).

Definition handleOpenAPIV3Root : gmap string string :=
  (foldl root_step (∅, {["api/v1" := hash_url "api/v1"]}) (Registry.All reg)).2.

(** group, version and kind *)
Notation gvk := (string * string * string)%type.

(** A schema is permissive but for its kind; an operation names the schema of
    its body and its kind, and takes [fieldValidation]. *)
Record operation := mkOperation { op_Param : string; op_SchemaRef : string; op_GVK : gvk }.
#[export] Instance operation_eq_dec : EqDecision operation.
Proof. solve_decision. Defined.

(** The operations of a path, by method. *)
Notation path_item := (list (string * operation)).

Record OpenAPI := mkOpenAPI { oa_Paths : gmap string path_item; oa_Schemas : gmap string gvk }.

Definition mutatingOp (schemaName : string) (k : gvk) : operation :=
  mkOperation "fieldValidation" ("#/components/schemas/" +:+ schemaName) k.

Definition doc_prefix (group version : string) : string :=
  if decide (group = "") then "/api/" +:+ version else "/apis/" +:+ group +:+ "/" +:+ version.

Definition schema_name (group version : string) (r : Resource) : string :=
  (if decide (group = "") then "io.lasd." +:+ version else group +:+ "." +:+ version) +:+ "." +:+ r_Kind r.

Definition coll_path (group version : string) (r : Resource) : string :=
  doc_prefix group version +:+ (if r_Namespaced r then "/namespaces/{namespace}/" else "/") +:+ Resource_ (r_GVR r).
Definition item_path (group version : string) (r : Resource) : string := coll_path group version r +:+ "/{name}".

Definition doc_step (group version : string) (doc : OpenAPI) (r : Resource) : OpenAPI :=
  let k := (group, version, r_Kind r) in
  let name := schema_name group version r in
  mkOpenAPI
    (<[item_path group version r := [("PUT", mutatingOp name k); ("PATCH", mutatingOp name k)]]>
       (<[coll_path group version r := [("POST", mutatingOp name k)]]> (oa_Paths doc)))
    (<[name := k]> (oa_Schemas doc)).

Definition openAPIV3Doc (group version : string) : OpenAPI :=
  foldl (doc_step group version) (mkOpenAPI ∅ ∅) (Registry.ResourcesForGroupVersion reg group version).

Definition handleOpenAPIV3Core : OpenAPI := openAPIV3Doc "" "v1".
Definition handleOpenAPIV3Group (vs : PathValues) : OpenAPI :=
  openAPIV3Doc (path_value vs "group") (path_value vs "version").
End discovery.

(** ** The documents agree with the server *)

Section agrees.
Context `{GoRuntime}.

Lemma resources_of_gv reg g v r :
  r ∈ Registry.ResourcesForGroupVersion reg g v ↔
  r ∈ Registry.list_ reg ∧ Group (r_GVR r) = g ∧ Version (r_GVR r) = v.
Proof.
  unfold Registry.ResourcesForGroupVersion. rewrite sort_slice_perm, list_elem_of_filter. tauto.
Qed.

Lemma version_step_spec g rs : ∀ acc,
  (∀ v, v ∈ acc.1 → (g +:+ "/" +:+ v, v) ∈ acc.2) →
  let acc' := foldl (version_step g) acc rs in
  (∀ x, x ∈ acc.2 → x ∈ acc'.2) ∧
  (∀ r, r ∈ rs → Group (r_GVR r) = g → (g +:+ "/" +:+ Version (r_GVR r), Version (r_GVR r)) ∈ acc'.2).
Proof.
  induction rs as [|r rs IH]; intros [sn l] Hs; cbn [foldl]; [split; [done|set_solver]|].
  unfold version_step at 2 4. cbn [fst snd]. case_decide as Hd; cbn [fst snd] in *.
  - destruct (IH (sn, l) Hs) as [Hk Hr]. split; [done|]. intros r' [->|Hin]%elem_of_cons Hg; [|by apply Hr].
    apply Hk, Hs. destruct Hd as [?|?]; done.
  - destruct (IH ({[Version (r_GVR r)]} ∪ sn, l ++ [(g +:+ "/" +:+ Version (r_GVR r), Version (r_GVR r))])%list) as [Hk Hr].
    { cbn. intros v. set_solver. }
    split; [intros x Hx; apply Hk; set_solver|].
    intros r' [->|Hin]%elem_of_cons Hg; [|by apply Hr]. apply Hk. set_solver.
Qed.

(** The name of an entry without its subresource. *)
Definition base_name (n : string) : string := match cut slash n with Some (b, _) => b | None => n end.

Lemma base_name_sub n s : no_byte slash n = true → base_name (n +:+ "/" +:+ s) = n.
Proof. intros Hn. unfold base_name. by rewrite cut_sep. Qed.

Lemma base_name_plain n : no_byte slash n = true → base_name n = n.
Proof. intros Hn. unfold base_name. by rewrite (proj2 (cut_None slash n) Hn). Qed.

Lemma entry_of r e :
  no_byte slash (Resource_ (r_GVR r)) = true → e ∈ resource_entries r →
  base_name (ar_Name e) = Resource_ (r_GVR r) ∧ ar_Namespaced e = r_Namespaced r ∧
  (ar_Name e = Resource_ (r_GVR r) ∧ ar_Kind e = r_Kind r ∧ ar_Verbs e = r_Verbs r ∨
   ar_Name e = Resource_ (r_GVR r) +:+ "/status" ∧ ar_Kind e = r_Kind r ∧ r_HasStatus r = true ∨
   ar_Name e = Resource_ (r_GVR r) +:+ "/scale" ∧ ar_Kind e = "Scale" ∧ r_HasScale r = true).
Proof.
  intros Hplain. unfold resource_entries. intros [->|[Hr|Hr]%elem_of_app]%elem_of_cons.
  - cbn [ar_Name ar_Namespaced ar_Kind ar_Verbs]. rewrite base_name_plain by done. tauto.
  - destruct (r_HasStatus r); [|by apply not_elem_of_nil in Hr]. apply list_elem_of_singleton in Hr as ->.
    cbn [ar_Name ar_Namespaced ar_Kind]. rewrite (base_name_sub _ "status") by done. tauto.
  - destruct (r_HasScale r); [|by apply not_elem_of_nil in Hr]. apply list_elem_of_singleton in Hr as ->.
    cbn [ar_Name ar_Namespaced ar_Kind]. rewrite (base_name_sub _ "scale") by done. tauto.
Qed.

Lemma default_plural r :
  r ∈ Registry.list_ Registry.NewDefaultRegistry →
  no_byte slash (Resource_ (r_GVR r)) = true ∧
  Registry.ResolveResource Registry.NewDefaultRegistry (Group (r_GVR r)) (Version (r_GVR r)) (Resource_ (r_GVR r)) = Some r.
Proof.
  assert (Forall (λ r, no_byte slash (Resource_ (r_GVR r)) = true) (Registry.list_ Registry.NewDefaultRegistry)) as Hplain
    by (repeat constructor).
  pose proof default_registry_resolves as Hres. rewrite Forall_forall in Hplain, Hres. intros Hin.
  split; [by apply Hplain|]. destruct (Hres r Hin) as [Hr _]. unfold aliases in Hr. cbn [forallb] in Hr.
  apply andb_true_iff in Hr as [Hr _]. exact (bool_decide_eq_true_1 _ Hr).
Qed.


(** *** OpenAPI *)

Definition post_item g v r : list (string * operation) := [("POST", mutatingOp (schema_name g v r) (g, v, r_Kind r))].
Definition put_item g v r : list (string * operation) :=
  [("PUT", mutatingOp (schema_name g v r) (g, v, r_Kind r)); ("PATCH", mutatingOp (schema_name g v r) (g, v, r_Kind r))].

(** What a step may write under the keys of [r] is what [r] has there. *)
Definition no_clash g v (r r' : Resource) : bool :=
  bool_decide (coll_path g v r' = coll_path g v r → r' = r) &&
  bool_decide (item_path g v r' = item_path g v r → r' = r) &&
  bool_decide (item_path g v r' ≠ coll_path g v r) && bool_decide (coll_path g v r' ≠ item_path g v r) &&
  bool_decide (schema_name g v r' = schema_name g v r → r' = r).

Definition documents g v (doc : OpenAPI) (r : Resource) : Prop :=
  oa_Paths doc !! coll_path g v r = Some (post_item g v r) ∧
  oa_Paths doc !! item_path g v r = Some (put_item g v r) ∧
  oa_Schemas doc !! schema_name g v r = Some (g, v, r_Kind r).

Lemma doc_step_keeps g v doc r r' :
  no_clash g v r r' = true → documents g v doc r → documents g v (doc_step g v doc r') r.
Proof.
  unfold no_clash. rewrite !andb_true_iff, !bool_decide_eq_true. intros ((((Hc & Hi) & Hic) & Hci) & Hs) (Dc & Di & Ds).
  unfold doc_step, documents. cbn [oa_Paths oa_Schemas]. split_and!.
  - rewrite lookup_insert_ne by done. destruct (decide (coll_path g v r' = coll_path g v r)) as [E|E].
    + rewrite E, lookup_insert_eq. by rewrite (Hc E).
    + by rewrite lookup_insert_ne.
  - destruct (decide (item_path g v r' = item_path g v r)) as [E|E].
    + rewrite E, lookup_insert_eq. by rewrite (Hi E).
    + by rewrite !lookup_insert_ne.
  - destruct (decide (schema_name g v r' = schema_name g v r)) as [E|E].
    + rewrite E, lookup_insert_eq. by rewrite (Hs E).
    + by rewrite lookup_insert_ne.
Qed.

Lemma doc_step_adds g v doc r : no_clash g v r r = true → documents g v (doc_step g v doc r) r.
Proof.
  unfold no_clash. rewrite !andb_true_iff, !bool_decide_eq_true. intros ((((_ & _) & Hic) & _) & _).
  unfold doc_step, documents. cbn [oa_Paths oa_Schemas].
  by rewrite lookup_insert_ne, !lookup_insert_eq by done.
Qed.

Lemma doc_fold g v r l doc :
  (∀ r', r' ∈ l → no_clash g v r r' = true) → r ∈ l ∨ documents g v doc r →
  documents g v (foldl (doc_step g v) doc l) r.
Proof.
  revert doc; induction l as [|r' l IH]; intros doc Hl; cbn [foldl].
  { intros [Hin|?]; [by apply not_elem_of_nil in Hin|done]. }
  intros Hd. apply IH; [intros x Hx; apply Hl; by right|].
  assert (no_clash g v r r' = true) as Hr' by (apply Hl; left).
  destruct Hd as [[->|?]%elem_of_cons|?]; [right; by apply doc_step_adds|by left|right; by apply doc_step_keeps].
Qed.

Lemma default_no_clash r r' :
  r ∈ Registry.list_ Registry.NewDefaultRegistry → r' ∈ Registry.list_ Registry.NewDefaultRegistry →
  no_clash (Group (r_GVR r)) (Version (r_GVR r)) r r' = true.
Proof.
  assert (forallb (λ r, forallb (no_clash (Group (r_GVR r)) (Version (r_GVR r)) r)
            (Registry.list_ Registry.NewDefaultRegistry)) (Registry.list_ Registry.NewDefaultRegistry) = true) as Hall
    by (vm_compute; reflexivity).
  rewrite forallb_forall in Hall. intros Hr%list_elem_of_In Hr'%list_elem_of_In.
  specialize (Hall r Hr). rewrite forallb_forall in Hall. by apply Hall.
Qed.

(** The path template of a resource, written the way a client builds a path. *)
Definition template_path (r : Resource) (rest : list string) : string :=
  "/" +:+ str_join "/" (client_path r (if r_Namespaced r then Some "{namespace}" else None) rest).

Lemma default_templates :
  Forall (λ r, template_path r [] = coll_path (Group (r_GVR r)) (Version (r_GVR r)) r ∧
               template_path r ["{name}"] = item_path (Group (r_GVR r)) (Version (r_GVR r)) r)
    (Registry.list_ Registry.NewDefaultRegistry).
Proof. repeat constructor; vm_compute; reflexivity. Qed.

(** The OpenAPI documents cover the API: for every served resource, the
    document of its group and version has the POST of its collection and the
    PUT and PATCH of its objects, under the very paths clients build and the
    server routes, each naming a schema that is in the document and carries the
    resource's kind. *)
Theorem openapi_covers (r : Resource) :
  let reg := Registry.NewDefaultRegistry in
  let g := Group (r_GVR r) in let v := Version (r_GVR r) in
  r ∈ Registry.list_ reg →
  let doc := openAPIV3Doc reg g v in
  let op := mutatingOp (schema_name g v r) (g, v, r_Kind r) in
  oa_Paths doc !! template_path r [] = Some [("POST", op)] ∧
  oa_Paths doc !! template_path r ["{name}"] = Some [("PUT", op); ("PATCH", op)] ∧
  op_SchemaRef op = "#/components/schemas/" +:+ schema_name g v r ∧
  oa_Schemas doc !! schema_name g v r = Some (g, v, r_Kind r).
Proof.
  intros reg g v Hin doc op.
  assert (template_path r [] = coll_path g v r ∧ template_path r ["{name}"] = item_path g v r) as [-> ->].
  { pose proof default_templates as Ht. rewrite Forall_forall in Ht. by apply Ht. }
  destruct (doc_fold g v r (Registry.ResourcesForGroupVersion reg g v) (mkOpenAPI ∅ ∅)) as (Hc & Hi & Hs).
  - intros r' Hr'%resources_of_gv. apply default_no_clash; [done|apply Hr'].
  - left. by apply resources_of_gv.
  - by split_and!.
Qed.
End agrees.

Lemma openapi_covers_witness :
  let pods := default (mkResource PodGVR "" "" "" [] false false false []) (Registry.Get Registry.NewDefaultRegistry PodGVR) in
  oa_Schemas (openAPIV3Doc (H := default_runtime) Registry.NewDefaultRegistry "" "v1") !! "io.lasd.v1.Pod" = Some ("", "v1", "Pod").
Proof.
  intros pods. refine (proj2 (proj2 (proj2 (openapi_covers (H := default_runtime) pods _)))).
  apply (bool_decide_unpack _). vm_compute. exact I.
Defined.
