(* ===== verification/Docker.v ===== *)
(** [internal/driver/docker.go]: the driver over the Docker Engine API.

    [DockerClient] is the client library's interface and [NatLib] its port
    type; the driver's methods are the code between them and the [Driver]
    class, of which [docker_driver] is an instance.  Building the bundled image
    ([image.go]: a tar archive and a build request) is a parameter. *)

From S2P Require Import Prelude GoStrings K8s Driver.
Local Open Scope string_scope.

(** ** The client library *)

Inductive docker_error := DockerNotFound (msg : string) | DockerFailed (msg : string).
Definition docker_msg (e : docker_error) : string :=
  match e with DockerNotFound m | DockerFailed m => m end.
(** [client.IsErrNotFound] *)
Definition IsErrNotFound (e : docker_error) : bool :=
  match e with DockerNotFound _ => true | _ => false end.

Record PortBinding := mkPortBinding { pb_HostIP : string; pb_HostPort : string }.

Record Config := mkConfig {
  cc_Image : string; cc_Env : list string; cc_WorkingDir : string;
  cc_Labels : gmap string string; cc_ExposedPorts : gset string; cc_User : string;
  cc_Entrypoint : list string; cc_Cmd : list string;
}.

Inductive mount_type := TypeVolume | TypeTmpfs.
#[export] Instance mount_type_eq_dec : EqDecision mount_type.
Proof. solve_decision. Defined.

Record dmount := mkDMount {
  dm_Type : mount_type; dm_Source : string; dm_Target : string; dm_ReadOnly : bool;
  dm_TmpfsSize : option Z;
}.

(** The restart policy is always [disabled]. *)
Record HostConfig := mkHostConfig {
  hc_PortBindings : gmap string (list PortBinding); hc_Mounts : list dmount;
  hc_ReadonlyRootfs : bool; hc_DNS : list string; hc_NanoCPUs : Z; hc_Memory : Z;
}.

(** What [ContainerInspect] reports: the state, and the networks' addresses
    with the published ports. *)
Record Inspect := mkInspect {
  in_ID : string; in_Name : string; in_Labels : gmap string string;
  in_State : option (string * Z);
  in_Network : option (gmap string string * gmap string (list PortBinding));
}.

Class DockerClient (C : Type) := {
  (** the image's configured user, [None] without a configuration *)
  ImageInspect : string → C → C * res docker_error (option string);
  ImagePull : string → C → C * res docker_error ();
  ContainerCreate : Config → HostConfig → string → C → C * res docker_error string;
  ContainerStart : string → C → C * res docker_error ();
  (** returns once the container is not running, on an error, or when the
      context ends *)
  ContainerWait : string → C → C;
  ContainerStop : string → C → C * res docker_error ();
  (** with [Force] *)
  ContainerRemove : string → C → C * res docker_error ();
  ContainerInspect : string → C → C * res docker_error Inspect;
  (** the ids of all containers carrying the labels *)
  ContainerList : gmap string string → C → C * res docker_error (list string);
  VolumeCreate : string → gmap string string → C → C * res docker_error string;
  VolumeList : gmap string string → C → C * res docker_error (list (string * gmap string string));
  VolumeRemove : string → C → C * res docker_error ();
  (** the status code of a GET of the root path on a loopback port *)
  HttpGet : Z → C → C * res docker_error Z;
}.

(** [nat.NewPort] and [Port.Int]. *)
Class NatLib := { NewPort : string → string → option string; port_Int : string → Z }.

(** ** Images *)

Section docker.
Context {C : Type} `{DockerClient C} `{NatLib} `{GoRuntime}.
Implicit Types (c : C) (spec : SandboxContainerSpec).

Definition failed (what : string) (e : docker_error) : driver_error := DriverFailed (what +:+ docker_msg e).

Definition imagePresent (ref : string) c : C * bool :=
  let '(c, r) := ImageInspect ref c in (c, is_ok r).

Definition imageUser (ref : string) c : C * string :=
  let '(c, r) := ImageInspect ref c in
  (c, match r with Ok (Some user) => user | _ => "" end).

Definition docker_EnsureImage (ref : string) (policy : PullPolicy) c : C * res driver_error () :=
  let '(c, present) := imagePresent ref c in
  let pull c :=
    let '(c, r) := ImagePull ref c in
    (c, match r with
        | Ok _ => Ok ()
        | Err e => if present then Ok () else Err (failed ("driver: pull " +:+ go_quote ref +:+ ": ") e)
        end) in
  match policy with
  | PullNever =>
      (c, if present then Ok ()
          else Err (DriverFailed ("driver: image " +:+ go_quote ref +:+ " not present and pull policy is Never")))
  | PullIfNotPresent => if present then (c, Ok ()) else pull c
  | PullAlways => pull c
  end.

(** ** What a container is asked to be *)

Definition identity spec : gmap string string :=
  {[LabelManaged := "true"; LabelNamespace := s_Namespace spec; LabelSandbox := s_SandboxName spec;
    LabelUID := s_UID spec; LabelServerPort := itoa (s_ServerPort spec)]}.

(** The labels of the spec are written last. *)
Definition labels_of spec : gmap string string := s_Labels spec ∪ identity spec.

Definition loopback : PortBinding := mkPortBinding "127.0.0.1" "".

Fixpoint publish (ports : list Z) (exposed : gset string) (bindings : gmap string (list PortBinding))
  : res driver_error (gset string * gmap string (list PortBinding)) :=
  match ports with
  | [] => Ok (exposed, bindings)
  | p :: ports =>
      match NewPort "tcp" (itoa p) with
      | None => Err (DriverFailed ("driver: bad port " +:+ itoa p))
      | Some port => publish ports ({[port]} ∪ exposed) (<[port := [loopback]]> bindings)
      end
  end.

Definition env_of spec : list string := (λ kv, kv.1 +:+ "=" +:+ kv.2) <$> range_map (s_Env spec).

Definition mount_of (m : Mount) : option dmount :=
  if mt_Tmpfs m then
    Some (mkDMount TypeTmpfs "" (mt_MountPath m) false
            (if (0 <? mt_TmpfsSizeBytes m)%Z then Some (mt_TmpfsSizeBytes m) else None))
  else if decide (mt_VolumeName m ≠ "") then
    Some (mkDMount TypeVolume (mt_VolumeName m) (mt_MountPath m) (mt_ReadOnly m) None)
  else None.

Definition mounts_of spec : list dmount := omap mount_of (s_Mounts spec).

Definition config_of spec (exposed : gset string) : Config :=
  mkConfig (s_Image spec) (env_of spec) (s_WorkingDir spec) (labels_of spec) exposed (s_User spec)
    (s_Command spec) (s_Args spec).

Definition host_of spec (bindings : gmap string (list PortBinding)) : HostConfig :=
  mkHostConfig bindings (mounts_of spec) (s_ReadOnlyRoot spec) (s_DNSServers spec)
    (NanoCPUs (s_Resources spec)) (MemoryBytes (s_Resources spec)).

(** The container a spec asks for. *)
Definition container_request spec : res driver_error (Config * HostConfig) :=
  match publish (s_RuntimePorts spec) ∅ ∅ with
  | Err e => Err e
  | Ok (exposed, bindings) => Ok (config_of spec exposed, host_of spec bindings)
  end.

Definition container_name spec : string :=
  Fake.containerName (s_Namespace spec) (s_SandboxName spec) (s_UID spec).

(** ** prepareVolumePermissions *)

Definition is_root (owner : string) : bool :=
  bool_decide (owner = "" ∨ owner = "0" ∨ owner = "root") || has_prefix "0:" owner || has_prefix "root:" owner.

Definition writable (m : dmount) : bool :=
  bool_decide (dm_Type m = TypeVolume) && negb (dm_ReadOnly m).

Definition chown_config spec (owner : string) (paths : list string) : Config :=
  mkConfig (s_Image spec) [] ""
    {[LabelManaged := "true"; LabelNamespace := s_Namespace spec; LabelSandbox := s_SandboxName spec]} ∅ "0"
    ["sh"; "-c"] ["chown -R " +:+ owner +:+ " " +:+ str_join " " paths].

Definition chown_host (vols : list dmount) : HostConfig := mkHostConfig ∅ vols false [] 0 0.

(** The deferred removal runs on every path after the creation. *)
Definition prepareVolumePermissions spec (mounts : list dmount) c : C :=
  let '(c, owner) := if decide (s_User spec = "") then imageUser (s_Image spec) c else (c, s_User spec) in
  if is_root owner then c
  else
    let vols := filter (λ m, writable m = true) mounts in
    if decide (vols = []) then c
    else
      let '(c, r) := ContainerCreate (chown_config spec owner (dm_Target <$> vols)) (chown_host vols)
                       (container_name spec +:+ "-init") c in
      match r with
      | Err _ => c
      | Ok id =>
          let '(c, s) := ContainerStart id c in
          let c := match s with Ok _ => ContainerWait id c | Err _ => c end in
          (ContainerRemove id c).1
      end.

(** ** Inspection *)

(** One binding of a container port: the last loopback one wins over the
    first of the others. *)
Definition bind_port (p : Z) (pm : gmap Z Z) (b : PortBinding) : gmap Z Z :=
  if decide (pb_HostPort b = "") then pm
  else
    let hp := atoi_value (pb_HostPort b) in
    if bool_decide (pb_HostIP b = "127.0.0.1") || bool_decide (default 0%Z (pm !! p) = 0%Z)
    then <[p := hp]> pm else pm.

Definition port_map (ports : gmap string (list PortBinding)) : gmap Z Z :=
  foldl (λ pm pb, foldl (bind_port (port_Int pb.1)) pm pb.2) ∅ (range_map ports).

(** The first address found. *)
Fixpoint first_address (l : list string) : string :=
  match l with [] => "" | a :: l => if decide (a = "") then first_address l else a end.

(** [strings.TrimPrefix(s, "/")] *)
Definition trim_slash (s : string) : string := if has_prefix "/" s then str_drop 1 s else s.

Definition info_of (i : Inspect) : ContainerInfo :=
  let '(state, code) := default ("", 0%Z) (in_State i) in
  let '(ip, ports) := match in_Network i with
                      | Some (nets, ports) => (first_address (range_map nets).*2, port_map ports)
                      | None => ("", ∅)
                      end in
  mkInfo (in_ID i) (trim_slash (in_Name i)) state code ip ports (in_Labels i).

Definition docker_inspect (id : string) c : C * res driver_error ContainerInfo :=
  let '(c, r) := ContainerInspect id c in
  (c, match r with Ok i => Ok (info_of i) | Err e => Err (failed "driver: inspect: " e) end).

Definition managedFilter : gmap string string := {[LabelManaged := "true"]}.

Definition sandboxFilter (ns name : string) : gmap string string :=
  <[LabelSandbox := name]> (<[LabelNamespace := ns]> managedFilter).

Definition docker_InspectSandbox (ns name : string) c : C * res driver_error ContainerInfo :=
  let '(c, r) := ContainerList (sandboxFilter ns name) c in
  match r with
  | Err e => (c, Err (failed "" e))
  | Ok [] => (c, Err ErrNotFound)
  | Ok (id :: _) => docker_inspect id c
  end.

(** The containers that still inspect, in order. *)
Fixpoint inspect_all (ids : list string) c : C * list ContainerInfo :=
  match ids with
  | [] => (c, [])
  | id :: ids =>
      let '(c, r) := docker_inspect id c in
      let '(c, l) := inspect_all ids c in
      (c, match r with Ok i => i :: l | Err _ => l end)
  end.

Definition docker_ListManaged c : C * res driver_error (list ContainerInfo) :=
  let '(c, r) := ContainerList managedFilter c in
  match r with
  | Err e => (c, Err (failed "" e))
  | Ok ids => let '(c, l) := inspect_all ids c in (c, Ok l)
  end.

(** ** Creation *)

Definition docker_create spec c : C * res driver_error ContainerInfo :=
  match container_request spec with
  | Err e => (c, Err e)
  | Ok (cfg, host) =>
      let c := prepareVolumePermissions spec (mounts_of spec) c in
      let '(c, r) := ContainerCreate cfg host (container_name spec) c in
      match r with
      | Err e => (c, Err (failed "driver: create container: " e))
      | Ok id =>
          let '(c, s) := ContainerStart id c in
          match s with
          | Err e => ((ContainerRemove id c).1, Err (failed "driver: start container: " e))
          | Ok _ => docker_inspect id c
          end
      end
  end.

(** ** Stopping, removing, volumes *)

(** An absent object is not an error. *)
Definition tolerate (r : res docker_error ()) : res driver_error () :=
  match r with
  | Ok _ => Ok ()
  | Err e => if IsErrNotFound e then Ok () else Err (failed "" e)
  end.

Definition docker_stop (id : string) c : C * res driver_error () :=
  let '(c, r) := ContainerStop id c in (c, tolerate r).
Definition docker_remove (id : string) c : C * res driver_error () :=
  let '(c, r) := ContainerRemove id c in (c, tolerate r).

Definition docker_EnsureVolume (v : VolumeSpec) c : C * res driver_error string :=
  let labels := v_Labels v ∪ {[LabelManaged := "true"; LabelNamespace := v_Namespace v; LabelVolume := v_PVCName v]} in
  let '(c, r) := VolumeCreate (v_Name v) labels c in
  (c, match r with
      | Ok name => Ok name
      | Err e => Err (failed ("driver: create volume " +:+ go_quote (v_Name v) +:+ ": ") e)
      end).

Definition volume_spec (v : string * gmap string string) : VolumeSpec :=
  mkVolumeSpec v.1 (default "" (v.2 !! LabelNamespace)) (default "" (v.2 !! LabelVolume)) v.2.

Definition docker_ListManagedVolumes c : C * res driver_error (list VolumeSpec) :=
  let '(c, r) := VolumeList managedFilter c in
  (c, match r with Ok l => Ok (volume_spec <$> l) | Err e => Err (failed "" e) end).

Definition docker_RemoveVolume (name : string) c : C * res driver_error () :=
  let '(c, r) := VolumeRemove name c in (c, tolerate r).

Definition docker_ProbeRuntime (hostPort : Z) c : C * res driver_error () :=
  let '(c, r) := HttpGet hostPort c in
  (c, match r with
      | Err e => Err (failed "" e)
      | Ok code => if ((code <? 200) || (500 <=? code))%Z
                   then Err (DriverFailed ("driver: runtime probe status " +:+ itoa code)) else Ok ()
      end).

(** ** Events *)

(** A message of the daemon's event stream: action, container, attributes. *)
Record message := mkMessage { ms_Action : string; ms_ID : string; ms_Attributes : gmap string string }.

Definition event_of (m : message) : DriverEvent :=
  let attr k := default "" (ms_Attributes m !! k) in
  mkDriverEvent (ms_Action m) (ms_ID m) (attr LabelNamespace) (attr LabelSandbox)
    (match ms_Attributes m !! "exitCode" with Some code => atoi_value code | None => 0%Z end).

(** What a turn of the forwarding loop selects: the end of the context, an item
    of the client's error channel, or a message, which is sent on unless the
    context ends first. *)
Inductive turn := TDone | TErr (e : option docker_error) | TMessage (m : message) (sent : bool).

(** The events on the channel before it is closed. *)
Fixpoint forwarded (l : list turn) : list DriverEvent :=
  match l with
  | [] => []
  | TDone :: _ => []
  | TErr (Some _) :: _ => []
  | TErr None :: l => forwarded l
  | TMessage m sent :: l => if sent then event_of m :: forwarded l else []
  end.

(** ** The driver *)

Context (build : string → string → C → C * res driver_error ()).

Definition docker_driver : Driver C := {|
  EnsureImage := docker_EnsureImage;
  CreateSandboxContainer := docker_create;
  InspectSandbox := docker_InspectSandbox;
  ListManaged := docker_ListManaged;
  StopContainer := docker_stop;
  RemoveContainer := docker_remove;
  EnsureVolume := docker_EnsureVolume;
  ListManagedVolumes := docker_ListManagedVolumes;
  RemoveVolume := docker_RemoveVolume;
  ProbeRuntime := docker_ProbeRuntime;
  BuildRuntimeImage := Some build;
|}.
End docker.
