(* ===== verification/DockerSpec.v ===== *)
(** The Docker driver keeps the contract of the interface on a well-behaved
    daemon: what it asks to run is published on the loopback interface only, a
    failed creation leaves no container behind, a created container is the one
    an inspection finds, and a removed one is gone. *)

From S2P Require Import Prelude GoStrings K8s Concrete Driver Docker.
Local Open Scope string_scope.

(** ** The daemon

    [dk_containers] is the daemon's list of containers, by id and labels, in
    the order a listing shows them. *)

Class DockerView (C : Type) := dk_containers : C → list (string * gmap string string).

(** The documented behaviour of the calls: reads change nothing, a creation
    adds one container with the given labels, starting and waiting keep
    containers and labels, a removal takes one container away, and a failed
    call leaves the containers alone.  Image and volume calls do not touch
    containers. *)
Class DockerLaws (C : Type) `{DockerClient C, DockerView C} := {
  dk_list : ∀ f c, (ContainerList f c).1 = c ∧
    (∀ l, (ContainerList f c).2 = Ok l → l = (filter (λ x, f ⊆ x.2) (dk_containers c)).*1);
  dk_inspect : ∀ id c, (ContainerInspect id c).1 = c ∧
    (∀ i, (ContainerInspect id c).2 = Ok i → in_ID i = id ∧ (id, in_Labels i) ∈ dk_containers c);
  dk_create_ok : ∀ cfg h n c id, (ContainerCreate cfg h n c).2 = Ok id →
    (id ∉ (dk_containers c).*1) ∧ dk_containers (ContainerCreate cfg h n c).1 = (id, cc_Labels cfg) :: dk_containers c;
  dk_create_err : ∀ cfg h n c e, (ContainerCreate cfg h n c).2 = Err e →
    dk_containers (ContainerCreate cfg h n c).1 = dk_containers c;
  dk_start : ∀ id c, dk_containers (ContainerStart id c).1 = dk_containers c;
  dk_wait : ∀ id c, dk_containers (ContainerWait id c) = dk_containers c;
  dk_stop : ∀ id c, dk_containers (ContainerStop id c).1 = dk_containers c;
  dk_remove_ok : ∀ id c, (ContainerRemove id c).2 = Ok () →
    dk_containers (ContainerRemove id c).1 = filter (λ x, x.1 ≠ id) (dk_containers c);
  dk_remove_err : ∀ id c e, (ContainerRemove id c).2 = Err e →
    dk_containers (ContainerRemove id c).1 = dk_containers c ∧
    (IsErrNotFound e = true → id ∉ (dk_containers c).*1);
  dk_image : ∀ ref c, dk_containers (ImageInspect ref c).1 = dk_containers c;
  dk_pull : ∀ ref c, dk_containers (ImagePull ref c).1 = dk_containers c;
}.

(** A daemon that answers listings and inspections of what it has, and
    removes what it is asked to. *)
Class DockerReliable (C : Type) `{DockerClient C, DockerView C} := {
  dk_list_total : ∀ f c, is_ok (ContainerList f c).2 = true;
  dk_remove_total : ∀ id c, id ∈ (dk_containers c).*1 → (ContainerRemove id c).2 = Ok ();
}.

Class NatLaws `{NatLib} := port_roundtrip : ∀ p q, NewPort "tcp" (itoa p) = Some q → port_Int q = p.

Section published.
Context `{NatLaws}.

Lemma publish_ok ports e0 b0 e b :
  publish ports e0 b0 = Ok (e, b) →
  (∀ q, q ∈ e ↔ q ∈ e0 ∨ ∃ p, p ∈ ports ∧ NewPort "tcp" (itoa p) = Some q) ∧
  (∀ q l, b !! q = Some l → b0 !! q = Some l ∨ l = [loopback] ∧ ∃ p, p ∈ ports ∧ NewPort "tcp" (itoa p) = Some q) ∧
  (∀ q, is_Some (b0 !! q) ∨ (∃ p, p ∈ ports ∧ NewPort "tcp" (itoa p) = Some q) → is_Some (b !! q)).
Proof.
  revert e0 b0; induction ports as [|p ports IH]; intros e0 b0; cbn [publish].
  { intros [= <- <-]. set_solver. }
  destruct (NewPort "tcp" (itoa p)) as [q0|] eqn:Ep; [|done]. intros E. destruct (IH _ _ E) as (He & Hb & Ht).
  split_and!.
  - intros q. rewrite He, elem_of_union, elem_of_singleton. setoid_rewrite elem_of_cons. naive_solver.
  - intros q l Hq. destruct (Hb q l Hq) as [Hq0|(-> & p' & ? & ?)]; [|right; set_solver].
    destruct (decide (q0 = q)) as [<-|Hne]; [|rewrite lookup_insert_ne in Hq0 by done; by left].
    rewrite lookup_insert_eq in Hq0. injection Hq0 as <-. right. split; [done|]. exists p. set_solver.
  - intros q Hq. apply Ht. destruct (decide (q0 = q)) as [<-|Hne]; [left; rewrite lookup_insert_eq; eauto|].
    rewrite lookup_insert_ne by done. setoid_rewrite elem_of_cons in Hq. naive_solver.
Qed.

Lemma publish_ports ports e0 b0 e b :
  publish ports e0 b0 = Ok (e, b) → ∀ p, p ∈ ports → is_Some (NewPort "tcp" (itoa p)).
Proof.
  revert e0 b0; induction ports as [|p l IH]; intros e0 b0; cbn [publish]; [set_solver|].
  destruct (NewPort "tcp" (itoa p)) eqn:Ep; [|done]. intros E q [->|Hq]%elem_of_cons; [eauto|by eapply IH].
Qed.

End published.

(** ** Containers come and go whole *)

Section lifecycle.
Context {C : Type} `{DockerLaws C, !DockerReliable C} `{NatLib} `{GoRuntime}.
Implicit Types (c : C) (spec : SandboxContainerSpec).

(** Removing the container just created restores the list. *)
Lemma remove_new id labels c l :
  dk_containers c = (id, labels) :: l → id ∉ l.*1 → dk_containers (ContainerRemove id c).1 = l.
Proof.
  intros Hc Hid. rewrite (dk_remove_ok id c), Hc, filter_cons, decide_False by
    (first [apply dk_remove_total; rewrite Hc; left | naive_solver]).
  apply filter_all. intros x Hx Heq. apply Hid. rewrite <-Heq. apply list_elem_of_fmap. eauto.
Qed.

Lemma imageUser_containers ref c : dk_containers (imageUser ref c).1 = dk_containers c.
Proof. unfold imageUser. pose proof (dk_image ref c). by destruct (ImageInspect ref c). Qed.

(** The container that fixes permissions is always removed. *)
Lemma prepare_containers spec mounts c :
  dk_containers (prepareVolumePermissions spec mounts c) = dk_containers c.
Proof.
  unfold prepareVolumePermissions.
  destruct (if decide (s_User spec = "") then _ else _) as [c0 owner] eqn:E0.
  assert (dk_containers c0 = dk_containers c) as <-.
  { destruct (decide (s_User spec = "")); [|by simplify_eq].
    pose proof (imageUser_containers (s_Image spec) c) as Hi. by rewrite E0 in Hi. }
  destruct (is_root owner); [done|]. cbv zeta. destruct (decide (filter _ mounts = [])) as [_|_]; [done|].
  set (cfg := chown_config _ _ _). set (h := chown_host _). set (n := _ +:+ "-init").
  pose proof (dk_create_ok cfg h n c0) as Hok. pose proof (dk_create_err cfg h n c0) as Herr.
  destruct (ContainerCreate cfg h n c0) as [c1 [id|e]]; simpl in *; [|by eapply Herr].
  destruct (Hok id eq_refl) as [Hid Hc1]. pose proof (dk_start id c1) as Hst.
  destruct (ContainerStart id c1) as [c2 s]. simpl in Hst.
  apply (remove_new id (cc_Labels cfg)); [|done]. destruct s; by rewrite ?dk_wait, Hst, Hc1.
Qed.

Lemma container_request_labels spec cfg host :
  container_request spec = Ok (cfg, host) → cc_Labels cfg = labels_of spec.
Proof. unfold container_request. destruct (publish _ _ _) as [[? ?]|]; [|done]. by intros [= <- _]. Qed.

Lemma docker_inspect_pure id c : (docker_inspect id c).1 = c.
Proof.
  unfold docker_inspect. destruct (dk_inspect id c) as [Hp _]. by destruct (ContainerInspect id c).
Qed.

Lemma docker_inspect_ok id c info :
  (docker_inspect id c).2 = Ok info → ci_ID info = id ∧ (id, ci_Labels info) ∈ dk_containers c.
Proof.
  unfold docker_inspect. destruct (dk_inspect id c) as [_ Hi].
  destruct (ContainerInspect id c) as [c' [i|e]]; [|done]. simpl in *. intros [= <-].
  destruct (Hi i eq_refl) as [Hid Hin]. unfold info_of.
  by destruct (in_State i) as [[]|], (in_Network i) as [[]|].
Qed.

(** A successful creation ends by inspecting the container it made. *)
Lemma docker_created spec c c' info :
  docker_create spec c = (c', Ok info) →
  dk_containers c' = (ci_ID info, labels_of spec) :: dk_containers c ∧
  (ci_ID info ∉ (dk_containers c).*1) ∧ ci_Labels info = labels_of spec ∧
  docker_inspect (ci_ID info) c' = (c', Ok info).
Proof.
  unfold docker_create. destruct (container_request spec) as [[cfg host]|e] eqn:Er; [|done].
  apply container_request_labels in Er as Hlab. pose proof (prepare_containers spec (mounts_of spec) c) as Hprep.
  set (c0 := prepareVolumePermissions _ _ _) in *. set (n := container_name spec).
  pose proof (dk_create_ok cfg host n c0) as Hok.
  destruct (ContainerCreate cfg host n c0) as [c1 [id|e]]; simpl in *; [|done].
  destruct (Hok id eq_refl) as [Hid Hc1]. rewrite Hprep, Hlab in *. pose proof (dk_start id c1) as Hst.
  destruct (ContainerStart id c1) as [c2 [[]|e]]; simpl in Hst; [|done].
  intros E. pose proof (docker_inspect_pure id c2) as Hp. pose proof (docker_inspect_ok id c2) as Hi.
  rewrite E in Hp, Hi. simpl in *. subst c2. rewrite Hc1 in Hst. destruct (Hi info eq_refl) as [<- Hin].
  split_and!; try done. rewrite Hst in Hin. apply elem_of_cons in Hin as [[= ?]|Hin]; [done|].
  destruct Hid. apply list_elem_of_fmap. by exists (ci_ID info, ci_Labels info).
Qed.


(** A listing reads the first container carrying the labels. *)
Lemma docker_found ns name c :
  docker_InspectSandbox ns name c =
  match (filter (λ x, sandboxFilter ns name ⊆ x.2) (dk_containers c)).*1 with
  | [] => (c, Err ErrNotFound)
  | id :: _ => docker_inspect id c
  end.
Proof.
  unfold docker_InspectSandbox. destruct (dk_list (sandboxFilter ns name) c) as [Hp Hl].
  pose proof (dk_list_total (sandboxFilter ns name) c) as Ht.
  destruct (ContainerList (sandboxFilter ns name) c) as [c0 [l|e]]; [|done]. simpl in *. subst c0.
  by rewrite (Hl l eq_refl).
Qed.

(** The identity a spec gives, when its own labels do not say otherwise. *)
Lemma identity_labels spec :
  s_Labels spec ##ₘ identity spec →
  sandboxFilter (s_Namespace spec) (s_SandboxName spec) ⊆ labels_of spec ∧
  labels_of spec !! LabelNamespace = Some (s_Namespace spec) ∧
  labels_of spec !! LabelSandbox = Some (s_SandboxName spec) ∧ labels_of spec !! LabelUID = Some (s_UID spec).
Proof.
  intros Hd. assert (∀ k v, identity spec !! k = Some v → labels_of spec !! k = Some v) as Hk.
  { intros k v Hi. unfold labels_of. rewrite lookup_union_r; [done|]. by eapply map_disjoint_Some_r. }
  split_and!; try (by apply Hk).
  apply map_subseteq_spec. intros k v. unfold sandboxFilter, managedFilter.
  rewrite !lookup_insert_Some, lookup_singleton_Some.
  intros [[<- <-]|(_ & [[<- <-]|(_ & <- & <-)])]; by apply Hk.
Qed.

End lifecycle.

(** ** Events *)

(** The messages a list of turns takes in. *)
Definition messages (l : list turn) : list message :=
  omap (λ t, match t with TMessage m _ => Some m | _ => None end) l.

(** The channel carries the messages' events in order, without gap; all of them
    until the context ends or the client reports an error, and none after. *)
Lemma forwarded_prefix l : forwarded l `prefix_of` event_of <$> messages l.
Proof.
  induction l as [|[|[e|]|m []] l IH]; cbn; try done; try apply prefix_nil.
  by apply prefix_cons.
Qed.

Lemma forwarded_all l : Forall (λ t, match t with TDone | TErr (Some _) | TMessage _ false => False | _ => True end) l →
  forwarded l = event_of <$> messages l.
Proof. induction 1 as [|[|[e|]|m []] l Ht Hl IH]; cbn in *; try done. by rewrite IH. Qed.

Lemma forwarded_error l e l' : forwarded (l ++ TErr (Some e) :: l') = forwarded l.
Proof. induction l as [|[|[e'|]|m []] l IH]; cbn; try done. by rewrite IH. Qed.

(** ** A daemon in memory *)

Record daemon := mkDaemon { dd_containers : list Inspect; dd_images : list string }.

(** An id longer than every id in use. *)
Definition fresh_id (ids : list string) : string := foldr String.append "c" ids.

Lemma length_append (s t : string) : String.length (s +:+ t) = (String.length s + String.length t)%nat.
Proof. induction s as [|c s IH]; simpl; [done|]. by rewrite IH. Qed.

Lemma fresh_id_ge ids x : x ∈ ids → (String.length x < String.length (fresh_id ids))%nat.
Proof.
  induction ids as [|y ids IH]; [by intros ?%not_elem_of_nil|]. cbn [fresh_id foldr]. rewrite length_append.
  intros [->|Hx%IH]%elem_of_cons; [|unfold fresh_id in Hx; lia].
  assert (0 < String.length (foldr String.append "c" ids))%nat; [|lia].
  clear IH. induction ids as [|z ids IH]; simpl; [lia|]. rewrite length_append. lia.
Qed.

Lemma fresh_id_not_in ids : fresh_id ids ∉ ids.
Proof. intros Hin%fresh_id_ge. lia. Qed.

Definition find_container (id : string) (d : daemon) : option Inspect :=
  head (filter (λ i, in_ID i = id) (dd_containers d)).

Definition with_state (id state : string) (i : Inspect) : Inspect :=
  if decide (in_ID i = id) then mkInspect (in_ID i) (in_Name i) (in_Labels i) (Some (state, 0%Z)) (in_Network i) else i.

Definition set_running (id state : string) (d : daemon) : daemon :=
  mkDaemon (with_state id state <$> dd_containers d) (dd_images d).

(** The answer to a call on a container that may be absent. *)
Definition known (id : string) (d : daemon) : res docker_error () :=
  match find_container id d with Some _ => Ok () | None => Err (DockerNotFound id) end.

#[export] Instance daemon_client : DockerClient daemon := {|
  ImageInspect := λ ref d, (d, if decide (ref ∈ dd_images d) then Ok (Some "1000") else Err (DockerNotFound ref));
  ImagePull := λ ref d, (mkDaemon (dd_containers d) (ref :: dd_images d), Ok ());
  ContainerCreate := λ cfg h n d,
    let id := fresh_id (in_ID <$> dd_containers d) in
    let ports := (λ _, [mkPortBinding "127.0.0.1" "32768"]) <$> hc_PortBindings h in
    (mkDaemon (mkInspect id ("/" +:+ n) (cc_Labels cfg) (Some ("created", 0%Z)) (Some ({["bridge" := "172.17.0.2"]}, ports))
       :: dd_containers d) (dd_images d), Ok id);
  ContainerStart := λ id d, (set_running id "running" d, known id d);
  ContainerWait := λ id d, set_running id "exited" d;
  ContainerStop := λ id d, (set_running id "exited" d, known id d);
  ContainerRemove := λ id d,
    (mkDaemon (filter (λ i, in_ID i ≠ id) (dd_containers d)) (dd_images d), known id d);
  ContainerInspect := λ id d, (d, of_opt (DockerNotFound id) (find_container id d));
  ContainerList := λ f d, (d, Ok (in_ID <$> filter (λ i, f ⊆ in_Labels i) (dd_containers d)));
  VolumeCreate := λ n _ d, (d, Ok n);
  VolumeList := λ _ d, (d, Ok []);
  VolumeRemove := λ n d, (d, Err (DockerNotFound n));
  HttpGet := λ _ d, (d, Ok 200%Z);
|}.

#[export] Instance daemon_view : DockerView daemon := λ d, (λ i, (in_ID i, in_Labels i)) <$> dd_containers d.

Lemma view_filter (Q : string * gmap string string → Prop) (R : Inspect → Prop)
  `{∀ x, Decision (Q x), ∀ x, Decision (R x)} (l : list Inspect) :
  (∀ i, R i ↔ Q (in_ID i, in_Labels i)) →
  (λ i, (in_ID i, in_Labels i)) <$> filter R l = filter Q ((λ i, (in_ID i, in_Labels i)) <$> l).
Proof.
  intros HQ. induction l as [|i l IH]; [done|]. rewrite fmap_cons, !filter_cons, <-IH.
  destruct (decide (R i)) as [Hr|Hr]; [rewrite decide_True by (by apply HQ)|rewrite decide_False by (by rewrite <-HQ)]; done.
Qed.

Lemma known_spec id d : match known id d with
  | Ok _ => id ∈ (dk_containers d).*1 | Err e => id ∉ (dk_containers d).*1 end.
Proof.
  unfold known, find_container, dk_containers, daemon_view. rewrite <-list_fmap_compose.
  destruct (filter (λ i, in_ID i = id) (dd_containers d)) as [|i l] eqn:E; simpl.
  - intros (i & Hid & Hin)%list_elem_of_fmap.
    assert (i ∈ filter (λ j, in_ID j = id) (dd_containers d)) as Hi by (by apply list_elem_of_filter).
    rewrite E in Hi. by apply not_elem_of_nil in Hi.
  - assert (i ∈ filter (λ i, in_ID i = id) (dd_containers d)) as [<- Hin]%list_elem_of_filter by (rewrite E; left).
    apply list_elem_of_fmap. by exists i.
Qed.

Lemma set_running_view id st d : dk_containers (set_running id st d) = dk_containers d.
Proof.
  unfold dk_containers, daemon_view, set_running. cbn [dd_containers]. rewrite <-list_fmap_compose.
  apply list_fmap_ext. intros _ i _. unfold with_state. simpl. by case_decide.
Qed.

#[export] Instance daemon_laws : DockerLaws daemon.
Proof.
  constructor; cbn [ContainerList ContainerInspect ContainerCreate ContainerStart ContainerWait ContainerStop
    ContainerRemove ImageInspect ImagePull daemon_client fst snd]; try done.
  - intros f d. split; [done|]. intros l [= <-]. unfold dk_containers, daemon_view.
    rewrite <-(view_filter (λ x, f ⊆ x.2) (λ i, f ⊆ in_Labels i)) by done. by rewrite <-list_fmap_compose.
  - intros id d. split; [done|]. unfold find_container. intros i.
    destruct (filter _ _) as [|j l] eqn:E; [done|]. intros [= <-].
    assert (j ∈ filter (λ i, in_ID i = id) (dd_containers d)) as [<- Hin]%list_elem_of_filter by (rewrite E; left).
    split; [done|]. apply list_elem_of_fmap. by exists j.
  - intros cfg h n d id [= <-]. split; [|done]. unfold dk_containers, daemon_view. rewrite <-list_fmap_compose.
    apply fresh_id_not_in.
  - intros id d. apply set_running_view.
  - intros id d. apply set_running_view.
  - intros id d. apply set_running_view.
  - intros id d _. unfold dk_containers, daemon_view. cbn [dd_containers].
    by apply (view_filter (λ x, x.1 ≠ id) (λ i, in_ID i ≠ id)).
  - intros id d e E. pose proof (known_spec id d) as Hk. rewrite E in Hk. split; [|done].
    unfold dk_containers, daemon_view in *. cbn [dd_containers].
    rewrite (view_filter (λ x, x.1 ≠ id) (λ i, in_ID i ≠ id)) by done.
    apply filter_all. intros x Hx Heq. apply Hk. rewrite <-Heq. apply list_elem_of_fmap. by exists x.
Qed.

#[export] Instance daemon_reliable : DockerReliable daemon.
Proof.
  constructor; [done|]. intros id d Hid. cbn. pose proof (known_spec id d) as Hk.
  by destruct (known id d) as [[]|e].
Qed.

(** A port library that knows one port. *)
#[export] Instance demo_nat : NatLib := {|
  NewPort := λ proto s, if decide (proto = "tcp" ∧ s = "8888") then Some "8888/tcp" else None;
  port_Int := λ q, if decide (q = "8888/tcp") then 8888%Z else 0%Z;
|}.

#[export] Instance demo_nat_laws : NatLaws.
Proof.
  intros p q. cbn. case_decide as Hp; [|done]. intros [= <-]. rewrite decide_True by done.
  destruct Hp as [_ Hp]. unfold itoa in Hp. destruct (Z.ltb_spec p 0); [done|].
  symmetry. by apply format_uint_inj.
Qed.

Definition demo_docker_spec : SandboxContainerSpec :=
  mkSpec "default" "s" "0123456789" "img" PullIfNotPresent [] [] {["K" := "v"]} "/app" [8888%Z] 8888
    [mkMount "las-default-data-s" false 0 "/data" false] "1000" false (mkResources 0 0) [] ∅ false.

Definition demo_daemon : daemon := mkDaemon [mkInspect "c9" "/other" ∅ None None] ["img"].

Definition demo_asked : Config * HostConfig :=
  default (config_of demo_docker_spec ∅, host_of demo_docker_spec ∅) (ok_val (container_request demo_docker_spec)).


Notation demo_created := (docker_create demo_docker_spec demo_daemon).
Definition demo_info : ContainerInfo := default (mkInfo "" "" "" 0 "" ∅ ∅) (ok_val demo_created.2).

Lemma demo_created_eq : demo_created = (demo_created.1, Ok demo_info).
Proof. apply pair_snd. vm_compute. reflexivity. Qed.


