(* ===== verification/Image.v ===== *)
(** [internal/driver/image.go]: building the bundled runtime image from a
    directory.

    [filepath.Walk], the encoding of a tar archive and Docker's build request are
    parameters; the model says which entries the archive holds and how the
    daemon's answer is read. *)

From S2P Require Import Prelude GoStrings Runtime RuntimeSpec Paths Driver Docker.
Local Open Scope string_scope.

(** The calls of the walk function, in order: the path, and the file's
    information or an error. *)
Class Walker (F : Type) := Walk : F → string → list (string * res string FileInfo).
(** What the documentation promises: the root first, then what is under it, each
    path being the root joined with proper names. *)
Class WalkerLaws (F : Type) `{Walker F} := walk_under : ∀ (f : F) dir, ∃ rest,
  Walk f dir = match rest with None => [(dir, Err "lstat")] | Some (i, l) => (dir, i) :: l end ∧
  ∀ i l path r, rest = Some (i, l) → (path, r) ∈ l →
    ∃ rl, rl ≠ [] ∧ Forall proper rl ∧ path = Join [dir; str_join "/" rl].

(** An entry: the name and the information in its header, and what was copied
    after it. *)
Record TarEntry := mkTar { tar_Name : string; tar_Info : FileInfo; tar_Body : string }.

(** The bytes of an archive, or the writer's error (of a body that is not of the
    size its header gives, for one). *)
Class TarWriter := write_tar : list TarEntry → res string string.

(** The build request: the archive and the tag; the error, or the text read from
    the daemon with the error that ended the reading early, if one did. *)
Class ImageBuilder (C : Type) := ImageBuild : string → string → C → C * res string (string * option string).

(** The white space [strings.TrimSpace] cuts, for ASCII text. *)
Definition is_space (c : Ascii.ascii) : bool :=
  let n := byte_val c in ((9 <=? n) && (n <=? 13) || (n =? 32))%Z.
Fixpoint drop_space (l : list Ascii.ascii) : list Ascii.ascii :=
  match l with c :: l' => if is_space c then drop_space l' else l | [] => [] end.
Definition TrimSpace (s : string) : string :=
  of_chars (reverse (drop_space (reverse (drop_space (chars s))))).

Definition newline : Ascii.ascii := Ascii.ascii_of_nat 10.
Definition lastLine (s : string) : string := List.last (split_byte newline (TrimSpace s)) "".

(** [strings.Contains] *)
Fixpoint contains (sub s : string) : bool :=
  has_prefix sub s || match s with EmptyString => false | String _ s' => contains sub s' end.

Section image.
Context {F C : Type} `{FileSystem F, !Walker F} `{TarWriter} `{!ImageBuilder C}.

(** The walk function on one path: nothing for the root, else an entry named
    relative to the root, a directory with a final slash. *)
Definition tar_one (f : F) (dir : string) (x : string * res string FileInfo) : res string (list TarEntry) :=
  match x.2 with
  | Err e => Err e
  | Ok info =>
      match Rel dir x.1 with
      | None => Err "rel"
      | Some rel =>
          if decide (rel = ".") then Ok []
          else if fi_IsDir info then Ok [mkTar (rel +:+ "/") info ""]
          else match ReadFile f x.1 with Err e => Err e | Ok body => Ok [mkTar rel info body] end
      end
  end.

(** The walk stops at the first error. *)
Fixpoint tar_walk (f : F) (dir : string) (l : list (string * res string FileInfo)) : res string (list TarEntry) :=
  match l with
  | [] => Ok []
  | x :: l =>
      match tar_one f dir x with
      | Err e => Err e
      | Ok here => match tar_walk f dir l with Err e => Err e | Ok es => Ok (here ++ es)%list end
      end
  end.

Definition tar_entries (f : F) (dir : string) : res string (list TarEntry) := tar_walk f dir (Walk f dir).

Definition tarDir (f : F) (dir : string) : res string string :=
  match tar_entries f dir with Err e => Err e | Ok l => write_tar l end.

Definition build_failed (out : string) : bool :=
  contains (dquote +:+ "error" +:+ dquote) out || contains "errorDetail" out.

Definition BuildRuntimeImage_ (f : F) (tag contextDir : string) (c : C) : C * res driver_error () :=
  match tarDir f contextDir with
  | Err e => (c, Err (DriverFailed ("driver: tar build context " +:+ go_quote contextDir +:+ ": " +:+ e)))
  | Ok tarball =>
      let '(c, r) := ImageBuild tarball tag c in
      (c, match r with
          | Err e => Err (DriverFailed ("driver: image build: " +:+ e))
          | Ok (out, _) => if build_failed out
                      then Err (DriverFailed ("driver: image build failed: " +:+ lastLine out)) else Ok ()
          end)
  end.

(** ** What the archive holds *)

(** The entry of a path under the root. *)
Definition entry_of (f : F) (dir : string) (rl : list string) (info : FileInfo) (e : TarEntry) : Prop :=
  if fi_IsDir info then e = mkTar (str_join "/" rl +:+ "/") info ""
  else ∃ body, ReadFile f (Join [dir; str_join "/" rl]) = Ok body ∧ e = mkTar (str_join "/" rl) info body.

Lemma joined_not_dot rl : rl ≠ [] → Forall proper rl → str_join "/" rl ≠ ".".
Proof.
  intros Hne Hr E. apply (f_equal (split_byte slash)) in E. rewrite split_join in E by auto using proper_parts.
  rewrite (split_no_sep slash ".") in E by done. subst rl. inversion_clear Hr as [|? ? (_ & Hd & _) _]. done.
Qed.

Lemma tar_one_under f dir rl r here : rl ≠ [] → Forall proper rl →
  tar_one f dir (Join [dir; str_join "/" rl], r) = Ok here →
  ∃ info e, r = Ok info ∧ here = [e] ∧ entry_of f dir rl info e.
Proof.
  intros Hne Hr. unfold tar_one, entry_of. cbn [fst snd]. destruct r as [info|]; [|done].
  rewrite Rel_join by done. rewrite decide_False by by apply joined_not_dot.
  destruct (fi_IsDir info) eqn:Ei; [intros [= <-]; exists info; rewrite Ei; eauto|].
  destruct (ReadFile f _) as [body|] eqn:E; [|done].
  intros [= <-]. exists info, (mkTar (str_join "/" rl) info body). rewrite Ei. eauto.
Qed.

Lemma tar_one_root f dir r here : tar_one f dir (dir, r) = Ok here → here = [].
Proof.
  unfold tar_one. cbn [fst snd]. destruct r; [|done]. rewrite Rel_self, decide_True by done. by intros [= <-].
Qed.

Lemma tar_walk_entries f dir l es :
  (∀ path r, (path, r) ∈ l → ∃ rl, rl ≠ [] ∧ Forall proper rl ∧ path = Join [dir; str_join "/" rl]) →
  tar_walk f dir l = Ok es →
  Forall2 (λ x e, ∃ rl info, rl ≠ [] ∧ Forall proper rl ∧ x = (Join [dir; str_join "/" rl], Ok info) ∧
    entry_of f dir rl info e) l es.
Proof.
  revert es. induction l as [|[path r] l IH]; intros es Hl; cbn [tar_walk]; [by intros [= <-]|].
  destruct (tar_one f dir (path, r)) as [here|] eqn:E; [|done].
  destruct (tar_walk f dir l) as [es'|] eqn:E'; [|done]. intros [= <-].
  destruct (Hl path r) as (rl & Hne & Hr & ->); [by left|].
  destruct (tar_one_under _ _ _ _ _ Hne Hr E) as (info & e & -> & -> & He). cbn. constructor; [eauto 10|].
  apply IH; [|done]. intros p q Hp. apply (Hl p q). by right.
Qed.

(** The outcome of a walk, given the entries of the paths under the root. *)
Lemma tar_entries_under `{!WalkerLaws F} f dir es : tar_entries f dir = Ok es →
  ∃ i l, Walk f dir = (dir, i) :: l ∧
    Forall2 (λ x e, ∃ rl info, rl ≠ [] ∧ Forall proper rl ∧ x = (Join [dir; str_join "/" rl], Ok info) ∧
      entry_of f dir rl info e) l es.
Proof.
  unfold tar_entries. destruct (walk_under f dir) as ([[i l]|] & -> & Hu); [|done]. cbn [tar_walk].
  destruct (tar_one f dir (dir, i)) as [here|] eqn:E; [|done]. apply tar_one_root in E as ->.
  destruct (tar_walk f dir l) as [es'|] eqn:E'; [|done]. intros [= <-].
  exists i, l. split; [done|]. eapply tar_walk_entries; eauto.
Qed.

(** A build context that was archived was archived whole: the archive's
    entries are, in the order of the walk, one for each file and directory under
    the context and none for the context itself, each under its path relative to
    the context (so none is absolute or leads out of it), files with the
    contents they have; and a build is reported successful only if the archive
    was made, the request accepted and no error is in what was read of the
    daemon's answer. *)
Theorem image_built `{!WalkerLaws F} f tag dir (c c' : C) :
  BuildRuntimeImage_ f tag dir c = (c', Ok ()) →
  ∃ es tarball out cut i l, write_tar es = Ok tarball ∧ ImageBuild tarball tag c = (c', Ok (out, cut)) ∧
    build_failed out = false ∧ Walk f dir = (dir, i) :: l ∧
    Forall2 (λ x e, ∃ rl info, rl ≠ [] ∧ Forall proper rl ∧ x = (Join [dir; str_join "/" rl], Ok info) ∧
      entry_of f dir rl info e) l es.
Proof.
  unfold BuildRuntimeImage_, tarDir. destruct (tar_entries f dir) as [es|] eqn:E; [|done].
  destruct (write_tar es) as [tarball|] eqn:Ew; [|done].
  destruct (ImageBuild tarball tag c) as [c1 [[out cut]|]] eqn:Eb; [|done].
  destruct (build_failed out) eqn:Ef; [done|]. intros [= <-].
  destruct (tar_entries_under _ _ _ E) as (i & l & Hw & Hl). by eexists es, tarball, out, cut, i, l.
Qed.

End image.

(** ** A concrete context *)

#[export] Instance proper_dec c : Decision (proper c).
Proof. unfold proper. apply _. Defined.

Definition mem_under (f : gmap string string) (dir : string) (rl : list string) : list (string * res string FileInfo) :=
  if decide (rl ≠ [] ∧ Forall proper rl) then
    let p := Join [dir; str_join "/" rl] in
    match Stat f p with Ok i => [(p, Ok i)] | Err _ => [] end
  else [].

(** The paths met below a directory: each run of components of a key, taken
    under the directory, that names a file or a directory there. *)
Definition runs (l : list string) : list (list string) :=
  flat_map (λ i, (λ n, take (S n) (drop i l)) <$> seq 0 (length l)) (seq 0 (length l)).

#[local] Instance mem_walker : Walker (gmap string string) := λ f dir,
  (dir, Ok (mkFileInfo dir 0 true 0)) ::
  flat_map (mem_under f dir)
    (remove_dups (flat_map (λ kv, runs (split_byte slash kv.1)) (map_to_list f))).

#[local] Instance mem_walker_laws : WalkerLaws (gmap string string).
Proof.
  intros f dir. eexists (Some (Ok (mkFileInfo dir 0 true 0), _)). split; [done|].
  intros i l path r [= <- <-] (rl & _ & Hrl)%list_elem_of_In%in_flat_map.
  unfold mem_under in Hrl. case_decide as Hp; [|done]. destruct Hp. exists rl. split_and!; [done..|].
  remember (Join [dir; str_join "/" rl]) as p. cbv zeta in Hrl. destruct (Stat f p); [|done].
  by destruct Hrl as [[= <- <-]|[]].
Qed.

#[local] Instance plain_tar : TarWriter := λ es,
  Ok (str_join ";" ((λ e, tar_Name e +:+ "=" +:+ tar_Body e) <$> es)).

(** A daemon that keeps the archives it was sent. *)
#[local] Instance keeping_builder : ImageBuilder (list string) := λ tarball tag c,
  (tarball :: c, Ok ("Successfully tagged " +:+ tag, None)).

Notation demo_context :=
  (list_to_map [("ctx/Dockerfile", "FROM scratch"); ("ctx/cmd/main.go", "package main")] : gmap string string).

Lemma image_built_witness :
  BuildRuntimeImage_ demo_context "rt:dev" "ctx" ([] : list string)
    = (["cmd/=;cmd/main.go=package main;Dockerfile=FROM scratch"], Ok ()) ∧
  ∃ es tarball out cut i l, write_tar es = Ok tarball ∧
    ImageBuild tarball "rt:dev" ([] : list string)
      = (["cmd/=;cmd/main.go=package main;Dockerfile=FROM scratch"], Ok (out, cut)) ∧
    build_failed out = false ∧ Walk demo_context "ctx" = ("ctx", i) :: l ∧
    Forall2 (λ x e, ∃ rl info, rl ≠ [] ∧ Forall proper rl ∧ x = (Join ["ctx"; str_join "/" rl], Ok info) ∧
      entry_of demo_context "ctx" rl info e) l es.
Proof. split; [vm_compute; reflexivity|]. apply image_built. vm_compute. reflexivity. Defined.
