(* ===== verification/VRouter.v ===== *)
(** [internal/vrouter/vrouter.go]: the objects that stand in for the in-cluster
    router, so that clients looking for its pod, service and endpoints find
    the local one.  The typed structs are records of the fields the code sets;
    their conversion to objects is the converter library's. *)

From S2P Require Import Prelude GoStrings K8s Apis Store.
Local Open Scope string_scope.

Definition PodName := "sandbox-router-0".
Definition ServiceName := "sandbox-router-svc".
Definition SystemNamespace := "agent-sandbox-system".
Definition routerPort : Z := 8080.
Definition app_labels : gmap string string := {["app" := "sandbox-router"]}.

Record RouterPod := mkRouterPod {
  rp_Namespace : string; rp_Name : string; rp_Labels : gmap string string;
  rp_Containers : list (string * string);
  rp_Phase : string; rp_Conditions : list (string * string);
  rp_PodIP : string; rp_PodIPs : list string;
}.

Record RouterService := mkRouterService {
  rs_Namespace : string; rs_Name : string; rs_Labels : gmap string string;
  rs_ClusterIP : string; rs_Selector : gmap string string;
  (** name, port and target port *)
  rs_Ports : list (string * Z * Z);
}.

Record RouterSlice := mkRouterSlice {
  re_Namespace : string; re_Name : string; re_Labels : gmap string string;
  re_AddressType : string;
  (** addresses, readiness, and the kind, namespace and name of the target *)
  re_Endpoints : list (list string * bool * (string * string * string));
  re_Ports : list (string * Z);
}.

(** [runtime.DefaultUnstructuredConverter.ToUnstructured] on the three. *)
Class RouterConverter (U : Type) := {
  pod_to_u : RouterPod → option U;
  service_to_u : RouterService → option U;
  slice_to_u : RouterSlice → option U;
}.

(** The converter keeps the name, the namespace and the kind of the struct's
    [TypeMeta]. *)
Definition named {U} `{Unstructured U} (u : U) (ns name : string) : Prop :=
  GetNamespace u = ns ∧ GetName u = name.

Class RouterConverterLaws (U : Type) `{Unstructured U, !RouterConverter U} := {
  pod_named : ∀ p u, pod_to_u p = Some u → named u (rp_Namespace p) (rp_Name p);
  service_named : ∀ p u, service_to_u p = Some u → named u (rs_Namespace p) (rs_Name p);
  slice_named : ∀ p u, slice_to_u p = Some u → named u (re_Namespace p) (re_Name p);
  pod_kind : ∀ p u, pod_to_u p = Some u → GetKind u = "Pod";
  service_kind : ∀ p u, service_to_u p = Some u → GetKind u = "Service";
  slice_kind : ∀ p u, slice_to_u p = Some u → GetKind u = "EndpointSlice";
}.

Definition router_pod (ns : string) : RouterPod :=
  mkRouterPod ns PodName app_labels [("router", "lasd/router:virtual")] "Running" [("Ready", "True")]
    "127.0.0.1" ["127.0.0.1"].

Definition router_service (ns : string) : RouterService :=
  mkRouterService ns ServiceName app_labels "None" app_labels [("http", routerPort, routerPort)].

Definition slice_name : string := ServiceName +:+ "-1".
Definition router_slice (ns : string) : RouterSlice :=
  mkRouterSlice ns slice_name {["kubernetes.io/service-name" := ServiceName]} "IPv4"
    [(["127.0.0.1"], true, ("Pod", ns, PodName))] [("http", routerPort)].

Section vrouter.
Context {U P : Type} `{Unstructured U} `{Codec U} `{Persister P} `{Oracle} `{!RouterConverter U}.
Implicit Types s : Store U P.

(** Create an object unless a read finds it; a failed conversion or creation is
    dropped. *)
Definition ensure (g : GVR) (ns name : string) (obj : option U) s : Store U P :=
  match Get g ns name s with
  | Ok _ => s
  | Err _ => match obj with Some u => (Create g u s).1 | None => s end
  end.

Definition ensurePod (ns : string) : Store U P → Store U P :=
  ensure PodGVR ns PodName (pod_to_u (router_pod ns)).
Definition ensureService (ns : string) : Store U P → Store U P :=
  ensure ServiceGVR ns ServiceName (service_to_u (router_service ns)).
Definition ensureEndpointSlice (ns : string) : Store U P → Store U P :=
  ensure EndpointSliceGVR ns slice_name (slice_to_u (router_slice ns)).

Definition EnsureNamespace s (ns : string) : Store U P :=
  ensureEndpointSlice ns (ensureService ns (ensurePod ns s)).
End vrouter.
