(* ===== verification/App.v ===== *)
(** [internal/app/app.go]: start-up and shutdown of the server, and the
    commands of [cmd/lasd/commands.go] that do the same work from outside
    ([gc], [purge], [ls]). *)

From S2P Require Import Prelude GoStrings K8s Apis Store Core Driver Reconciler Router Config VRouter.
Local Open Scope string_scope.

(** ** The default template and pool

    [reconciler.ToUnstructured] on the two structs. *)

Record PoolSpec := mkPoolSpec {
  po_Namespace : string; po_Name : string; po_Replicas : Z; po_TemplateRef : string;
}.
Record TemplateSpec := mkTemplateSpec {
  te_Namespace : string; te_Name : string;
  (** name, image and port of the only container *)
  te_Container : string * string * Z;
  te_EnvPolicy : string; te_VCTPolicy : string;
}.

Class BootConverter (U : Type) := {
  template_to_u : TemplateSpec → option U;
  pool_to_u : PoolSpec → option U;
}.
Class BootConverterLaws (U : Type) `{Unstructured U, !BootConverter U} := {
  template_named : ∀ t u, template_to_u t = Some u → named u (te_Namespace t) (te_Name t);
  pool_named : ∀ p u, pool_to_u p = Some u → named u (po_Namespace p) (po_Name p);
  template_kind : ∀ t u, template_to_u t = Some u → GetKind u = "SandboxTemplate";
  pool_kind : ∀ p u, pool_to_u p = Some u → GetKind u = "SandboxWarmPool";
}.

(** [int32(port)] *)
Definition wrap_i32 (z : Z) : Z := (z + 2 ^ 31) `mod` u32_mod - 2 ^ 31.

Definition default_template (cfg : Config.t) : TemplateSpec :=
  mkTemplateSpec "default" "default" ("runtime", Config.RuntimeImage cfg, wrap_i32 (Config.ServerPort cfg))
    "Allowed" "Allowed".
Definition default_pool : PoolSpec := mkPoolSpec "default" "default" 0 "default".

Section app.
Context {U P D : Type} `{Unstructured U} `{Codec U} `{Persister P} `{Oracle} `{Driver D}.
Context `{!RouterConverter U, !BootConverter U}.
#[local] Notation World := (world U P D).
Implicit Types (w : World) (s : Store U P).

Definition bootstrapObjects (cfg : Config.t) s : Store U P :=
  let s := ensure TemplateGVR "default" "default" (template_to_u (default_template cfg)) s in
  ensure WarmPoolGVR "default" "default" (pool_to_u default_pool) s.

(** ** Adopting the containers that survived *)

Definition adopt_one w (c : ContainerInfo) : World :=
  if decide (ci_Namespace c = "" ∨ ci_Sandbox c = "") then w
  else match Get SandboxGVR (ci_Namespace c) (ci_Sandbox c) (w_store w) with
       | Ok _ => w
       | Err _ => (drv (RemoveContainer (ci_ID c)) w).1
       end.

Definition bootAdoption w : World :=
  let '(w, r) := drv ListManaged w in
  match r with Ok l => foldl adopt_one w l | Err _ => w end.

(** ** The virtual router *)

(** The namespaces a watch reports, in order. *)
Definition follow_namespaces s (events : list (Event U)) : Store U P :=
  foldl (λ s ev, EnsureNamespace s (GetName (ev_Object ev))) s events.

Definition startVirtualRouter s (events : list (Event U)) : Store U P :=
  follow_namespaces (EnsureNamespace (EnsureNamespace s "default") SystemNamespace) events.

(** [Run], up to the servers: adoption when a driver is there, the default
    objects, the router's objects. *)
Definition Run_startup (cfg : Config.t) (has_driver : bool) w : World :=
  let w := if has_driver then bootAdoption w else w in
  let w := if Config.Bootstrap cfg then put_store (bootstrapObjects cfg (w_store w)) w else w in
  put_store (startVirtualRouter (w_store w) []) w.

(** ** Shutdown and the commands *)

Definition remove_containers (d : D) (l : list ContainerInfo) : D :=
  foldl (λ d c, (RemoveContainer (ci_ID c) d).1) d l.
Definition remove_named_volumes (d : D) (l : list VolumeSpec) : D :=
  foldl (λ d v, (RemoveVolume (v_Name v) d).1) d l.

(** A loop of calls whose errors are dropped.  Nothing has stopped the rest of the
    process, the reconcilers and the API among it: before the [i]-th call it does
    [env i].  The flag, which the code does not look at, says whether every call
    succeeded. *)
Fixpoint each {A} (call : A → D → D * res driver_error ()) (env : nat → World → World) (i : nat) (l : list A) w
  : World * bool :=
  match l with
  | [] => (w, true)
  | x :: l =>
      let '(w, r) := drv (call x) (env i w) in
      let '(w, ok) := each call env (S i) l w in
      (w, is_ok r && ok)
  end.

(** [teardownAll]; the flag says whether both listings and every removal of a
    container succeeded. *)
Definition teardown (env : nat → World → World) w : World * bool :=
  let '(w, cs) := drv ListManaged (env 0 w) in
  let l := default [] (ok_val cs) in
  let '(w, ok) := each (λ c, RemoveContainer (ci_ID c)) env 1 l w in
  let i := S (length l) in
  let '(w, vs) := drv ListManagedVolumes (env i w) in
  let '(w, _) := each (λ v, RemoveVolume (v_Name v)) env (S i) (default [] (ok_val vs)) w in
  (w, is_ok cs && ok && is_ok vs).
Definition teardownAll (env : nat → World → World) w : World := (teardown env w).1.

Definition close (cfg : Config.t) (env : nat → World → World) w : World :=
  if Config.EphemeralOnShutdown cfg then teardownAll env w else w.

(** [gc]: [exists_] asks the server for the sandbox, and any failure of that
    request reads as its absence. *)
Definition gc_one (exists_ : string → string → bool) (dryRun : bool) (acc : D * Z) (c : ContainerInfo) : D * Z :=
  if bool_decide (ci_Sandbox c = "") || exists_ (ci_Namespace c) (ci_Sandbox c) then acc
  else (if dryRun then acc.1 else (RemoveContainer (ci_ID c) acc.1).1, (acc.2 + 1)%Z).

Definition gc (exists_ : string → string → bool) (dryRun : bool) (d : D) : D * res driver_error Z :=
  let '(d, r) := ListManaged d in
  match r with
  | Err e => (d, Err e)
  | Ok cs => let '(d, n) := foldl (gc_one exists_ dryRun) (d, 0%Z) cs in (d, Ok n)
  end.

(** [purge], and what it reports: the containers and volumes it removed. *)
Definition purge (d : D) : D * (nat * nat) :=
  let '(d, cs) := ListManaged d in
  let cs := default [] (ok_val cs) in
  let d := remove_containers d cs in
  let '(d, vs) := ListManagedVolumes d in
  let vs := default [] (ok_val vs) in
  (remove_named_volumes d vs, (length cs, length vs)).

(** ** [ls] *)

(** [conditionStatus]: the first condition of the type whose status is a
    string. *)
Fixpoint cond_status (condType : string) (conds : list gval) : string :=
  match conds with
  | [] => "-"
  | GMap m :: conds =>
      if decide (m !! "type" = Some (GStr condType))
      then match m !! "status" with Some (GStr s) => s | _ => cond_status condType conds end
      else cond_status condType conds
  | _ :: conds => cond_status condType conds
  end.
Definition conditionStatus (u : U) (condType : string) : string :=
  match nested_conditions (StatusOf u) with
  | Some conds => cond_status condType conds
  | None => "-"
  end.

Definition ls_key (ns name : string) : string := ns +:+ "/" +:+ name.

(** The maps of states and host ports the listed containers fill. *)
Definition ls_maps (serverPort : Z) (cs : list ContainerInfo) : gmap string string * gmap string Z :=
  foldl (λ acc c,
    let k := ls_key (ci_Namespace c) (ci_Sandbox c) in
    (<[k := ci_State c]> acc.1,
     match ci_PortMap c !! serverPort with Some hp => <[k := hp]> acc.2 | None => acc.2 end))
    (∅, ∅) cs.

Definition ls_row (maps : gmap string string * gmap string Z) (u : U) : list string :=
  let k := ls_key (GetNamespace u) (GetName u) in
  [GetNamespace u; GetName u; conditionStatus u "Ready"; default "" (maps.1 !! k);
   match maps.2 !! k with Some hp => itoa hp | None => "" end].

(** [items] is the server's list; without a driver, or when its listing fails,
    the last two columns are empty. *)
Definition ls (serverPort : Z) (items : list U) (cs : option (list ContainerInfo)) : list (list string) :=
  ls_row (ls_maps serverPort (default [] cs)) <$> items.
End app.
