(* ===== verification/AppSpec.v ===== *)
(** Start-up and the cleaning commands are correct: after a crash exactly the
    containers of the stored sandboxes survive, the router's objects are there
    and nothing stored was touched, [gc] removes what has no sandbox and
    [purge] everything. *)

From S2P Require Import Prelude GoStrings K8s Apis Store StoreFacts StoreSpec Persist Concrete Recovery.
From S2P Require Import Core Driver Reconciler ConcreteApi Router Config VRouter App.
Local Open Scope string_scope.

(** ** Sweeping containers *)

Section sweep.
Context {D : Type} `{DriverLaws D, !ListingLaws D}.
Implicit Types (d : D) (c info : ContainerInfo) (keep : ContainerInfo → bool).

(** The loop all of them run: the containers [keep] spares are left alone. *)
Definition sweep keep : D → list ContainerInfo → D :=
  foldl (λ d c, if keep c then d else (RemoveContainer (ci_ID c) d).1).

(** The removals it asks for, with their answers. *)
Fixpoint removals keep d (l : list ContainerInfo) : list (string * res driver_error ()) :=
  match l with
  | [] => []
  | c :: l =>
      if keep c then removals keep d l
      else (ci_ID c, (RemoveContainer (ci_ID c) d).2) :: removals keep (RemoveContainer (ci_ID c) d).1 l
  end.

Lemma sweep_gone keep l d ns n : container_of d ns n = None → container_of (sweep keep d l) ns n = None.
Proof.
  revert d; induction l as [|c l IH]; intros d Hd; [done|]. cbn. apply IH.
  destruct (keep c); [done|]. by apply remove_gone.
Qed.

Lemma sweep_kept keep l d ns n info :
  container_of d ns n = Some info → (∀ c, c ∈ l → ci_ID c = ci_ID info → keep c = true) →
  container_of (sweep keep d l) ns n = Some info.
Proof.
  revert d; induction l as [|c l IH]; intros d Hd Hk; [done|]. cbn. apply IH; [|intros; apply Hk; [by right|done]].
  destruct (keep c) eqn:E; [done|]. apply remove_other; [done|]. intros Hid.
  rewrite (Hk c) in E; [done|by left|done].
Qed.

Lemma removals_ids keep d l r id : (id, r) ∈ removals keep d l → id ∈ ci_ID <$> l.
Proof.
  revert d; induction l as [|c l IH]; intros d; cbn; [by intros ?%not_elem_of_nil|].
  destruct (keep c); [intros Hin; right; by eapply IH|].
  intros [[= -> _]|Hin]%elem_of_cons; [left|right; by eapply IH].
Qed.

Lemma removals_asked keep d l c : c ∈ l → keep c = false → ∃ r, (ci_ID c, r) ∈ removals keep d l.
Proof.
  revert d; induction l as [|c' l IH]; intros d; [by intros ?%not_elem_of_nil|]. cbn.
  intros [->|Hin]%elem_of_cons Hk; [rewrite Hk; eexists; by left|].
  destruct (keep c'); [by apply IH|]. destruct (IH (RemoveContainer (ci_ID c') d).1 Hin Hk) as [r Hr].
  exists r. by right.
Qed.

Lemma sweep_removed keep l d ns n info :
  NoDup (ci_ID <$> l) → container_of d ns n = Some info → (ci_ID info, Ok ()) ∈ removals keep d l →
  container_of (sweep keep d l) ns n = None.
Proof.
  revert d; induction l as [|c l IH]; intros d Hnd Hd; cbn; [by intros ?%not_elem_of_nil|].
  apply NoDup_cons in Hnd as [Hni Hnd]. destruct (keep c); [by apply IH|].
  intros [[= Hid Hr]|Hin]%elem_of_cons.
  - apply sweep_gone. by apply (remove_ok _ _ _ d info Hd Hid).
  - apply IH; [done| |done]. apply remove_other; [done|]. intros Hid. apply Hni. rewrite <-Hid. by eapply removals_ids.
Qed.

(** A complete listing of containers with distinct ids. *)
Definition listing d (l : list ContainerInfo) : Prop := (ListManaged d).2 = Ok l ∧ NoDup (ci_ID <$> l).

Lemma listing_id d l c info :
  listing d l → c ∈ l → info ∈ l → ci_ID info = ci_ID c → c = info.
Proof.
  intros [_ Hnd] [i Hi]%list_elem_of_lookup [j Hj]%list_elem_of_lookup Heq.
  assert (i = j) as ->; [|congruence].
  apply (NoDup_lookup (ci_ID <$> l) i j (ci_ID c) Hnd); rewrite list_lookup_fmap, ?Hi, ?Hj; simpl; congruence.
Qed.

(** A sweep of the whole listing decides each container by itself: one that is
    kept stays as it is, and the removal of any other is asked for. *)
Lemma sweep_listing keep d l ns n info :
  listing d l → container_of d ns n = Some info →
  if keep info then container_of (sweep keep d l) ns n = Some info
  else (∃ r, (ci_ID info, r) ∈ removals keep d l) ∧
       ((ci_ID info, Ok ()) ∈ removals keep d l → container_of (sweep keep d l) ns n = None).
Proof.
  intros Hl Hc. assert (info ∈ l) as Hin by (eapply list_complete; [apply Hl|done]).
  destruct (keep info) eqn:Hk.
  - apply sweep_kept; [done|]. intros c Hc' Hid. by rewrite (listing_id d l c info Hl Hc' Hin).
  - split; [by apply removals_asked|]. apply sweep_removed; [apply Hl|done].
Qed.

(** When they are all granted nothing else is left. *)
Definition granted (rs : list (string * res driver_error ())) : Prop := Forall (λ p, p.2 = Ok ()) rs.

Lemma sweep_granted keep d l ns n info :
  listing d l → container_of d ns n = Some info → granted (removals keep d l) →
  container_of (sweep keep d l) ns n = if keep info then Some info else None.
Proof.
  intros Hl Hc Hg. pose proof (sweep_listing keep d l ns n info Hl Hc) as Hs.
  destruct (keep info); [done|]. destruct Hs as [[r Hr] Hs]. apply Hs.
  unfold granted in Hg. rewrite Forall_forall in Hg. by rewrite <-(Hg _ Hr).
Qed.

(** The container of a sandbox carries its name and namespace. *)
Definition labelled d : Prop := ∀ ns n info, container_of d ns n = Some info →
  ci_Namespace info = ns ∧ ci_Sandbox info = n ∧ ns ≠ "" ∧ n ≠ "".

(** *** ls *)

(** What the listed containers say of the sandbox with key [k]: its state and the
    host port of [port].  A sandbox without a listed container has neither; one
    with a single container has its. *)
Definition row_columns (port : Z) (cs : list ContainerInfo) (k : string) (state hp : string) : Prop :=
  let key c := ls_key (ci_Namespace c) (ci_Sandbox c) in
  ((∀ c, c ∈ cs → key c ≠ k) → state = "" ∧ hp = "") ∧
  (∀ c, c ∈ cs → key c = k → (∀ c', c' ∈ cs → key c' = k → c' = c) →
   state = ci_State c ∧ hp = match ci_PortMap c !! port with Some p => itoa p | None => "" end).

Lemma row_columns_maps port cs k :
  row_columns port cs k (default "" ((ls_maps port cs).1 !! k))
    (match (ls_maps port cs).2 !! k with Some p => itoa p | None => "" end).
Proof.
  unfold row_columns. cbv zeta. unfold ls_maps.
  set (step := λ (acc : gmap string string * gmap string Z) c, _).
  assert (∀ l acc, (∀ c, c ∈ l → ls_key (ci_Namespace c) (ci_Sandbox c) ≠ k) →
    (foldl step acc l).1 !! k = acc.1 !! k ∧ (foldl step acc l).2 !! k = acc.2 !! k) as Hno.
  { induction l as [|c l IH]; intros acc Hl; [done|]. cbn [foldl].
    destruct (IH (step acc c)) as [-> ->]; [intros c' Hc'; apply Hl; by right|].
    assert (ls_key (ci_Namespace c) (ci_Sandbox c) ≠ k) by (apply Hl; by left).
    unfold step. cbn [fst snd]. split; [by apply lookup_insert_ne|]. case_match; [by apply lookup_insert_ne|done]. }
  split.
  - intros Hk. destruct (Hno cs (∅, ∅) Hk) as [-> ->]. done.
  - intros c Hc Hkey Huniq.
    assert (∀ l acc, (∀ c', c' ∈ l → ls_key (ci_Namespace c') (ci_Sandbox c') = k → c' = c) →
      (acc.2 !! k = None ∨ acc.2 !! k = ci_PortMap c !! port) → c ∈ l →
      (foldl step acc l).1 !! k = Some (ci_State c) ∧ (foldl step acc l).2 !! k = ci_PortMap c !! port) as Hone.
    { induction l as [|c1 l IH]; intros acc Hl Hacc Hin; [by apply not_elem_of_nil in Hin|]. cbn [foldl].
      assert (step acc c = (<[k := ci_State c]> acc.1,
        match ci_PortMap c !! port with Some hp => <[k := hp]> acc.2 | None => acc.2 end)) as Hstep
        by (unfold step; by rewrite Hkey).
      destruct (decide (c ∈ l)) as [Hcl|Hcl].
      - apply IH; [intros c' ?; apply Hl; by right| |done].
        destruct (decide (ls_key (ci_Namespace c1) (ci_Sandbox c1) = k)) as [Hk1|Hk1].
        + assert (c1 = c) as -> by (apply Hl; [by left|done]). rewrite Hstep. cbn [snd].
          destruct (ci_PortMap c !! port); [right; by rewrite lookup_insert_eq|exact Hacc].
        + unfold step. cbn [snd]. destruct (ci_PortMap c1 !! port); [by rewrite lookup_insert_ne|exact Hacc].
      - apply elem_of_cons in Hin as [<-|?]; [|done]. rewrite Hstep.
        destruct (Hno l (<[k := ci_State c]> acc.1,
          match ci_PortMap c !! port with Some hp => <[k := hp]> acc.2 | None => acc.2 end)) as [-> ->].
        { intros c' Hc' Hk'. apply Hcl. rewrite <-(Hl c'); [done|by right|done]. }
        cbn [fst snd]. rewrite lookup_insert_eq. split; [done|].
        destruct (ci_PortMap c !! port); [by rewrite lookup_insert_eq|by destruct Hacc]. }
    destruct (Hone cs (∅, ∅)) as [-> ->]; [done|by left|done|]. split; [done|]. by destruct (ci_PortMap c !! port).
Qed.

(** *** gc *)

Lemma gc_sweep exists_ l d k :
  foldl (gc_one exists_ false) (d, k) l =
    (sweep (λ c, bool_decide (ci_Sandbox c = "") || exists_ (ci_Namespace c) (ci_Sandbox c)) d l,
     (k + length (filter (λ c, bool_decide (ci_Sandbox c = "") || exists_ (ci_Namespace c) (ci_Sandbox c) = false) l))%Z).
Proof.
  revert d k; induction l as [|c l IH]; intros d k; cbn [foldl]; [simpl; f_equal; lia|].
  rewrite filter_cons. unfold gc_one at 2. cbn [sweep foldl fst snd].
  destruct (_ || _) eqn:E; [|rewrite decide_True by done]; rewrite IH; [by rewrite decide_False by done|].
  simpl. unfold sweep. f_equal. lia.
Qed.

Lemma gc_dry exists_ l d k : (foldl (gc_one exists_ true) (d, k) l).1 = d.
Proof.
  revert k; induction l as [|c l IH]; intros k; [done|]. cbn. unfold gc_one at 2. by destruct (_ || _).
Qed.

(** What [gc] spares: what is not a sandbox's, and what the server knows. *)
Definition gc_keep (exists_ : string → string → bool) (c : ContainerInfo) : bool :=
  bool_decide (ci_Sandbox c = "") || exists_ (ci_Namespace c) (ci_Sandbox c).

(** Garbage collection: with [gc], the container of every sandbox the server
    knows stays as it is, and every other sandbox container goes when its
    removal is granted; a dry run touches nothing. *)
Lemma gc_collects exists_ d d' l k :
  listing d l → labelled d →
  gc exists_ false d = (d', Ok k) →
  (∀ ns n info, container_of d ns n = Some info →
     if exists_ ns n then container_of d' ns n = Some info
     else (∃ r, (ci_ID info, r) ∈ removals (gc_keep exists_) d l) ∧
          ((ci_ID info, Ok ()) ∈ removals (gc_keep exists_) d l → container_of d' ns n = None)) ∧
  (gc exists_ true d).1 = d.
Proof.
  intros Hl Hlab. unfold gc. pose proof (list_pure d) as Hp. destruct Hl as [Hl Hnd].
  destruct (ListManaged d) as [d1 r] eqn:E. simpl in Hp, Hl. subst d1 r. rewrite gc_sweep. intros [= <- _]. split.
  - intros ns n info Hc. destruct (Hlab ns n info Hc) as (Hns & Hn & _ & Hne).
    pose proof (sweep_listing (gc_keep exists_) d l ns n info ltac:(split; [by rewrite E|done]) Hc) as Hs.
    unfold gc_keep at 1 in Hs. by rewrite Hns, Hn, bool_decide_eq_false_2 in Hs by done.
  - pose proof (gc_dry exists_ l d 0) as Hdry. by destruct (foldl _ _ _).
Qed.

(** *** purge *)

(** A volume can be removed once no container mounts it, in particular when none
    is left. *)
Definition unused_removable : Prop :=
  ∀ v d, (∀ ns n, container_of d ns n = None) → (RemoveVolume v d).2 = Ok ().

Definition cleared d : Prop := (∀ ns n, container_of d ns n = None) ∧ (∀ v, volume_of d v = None).

(** Volumes are found under their names. *)
Definition volumes_named d : Prop := ∀ v x, volume_of d v = Some x → v_Name x = v.

Lemma remove_containers_volumes d l : volume_of (remove_containers d l) = volume_of d.
Proof.
  revert d; induction l as [|c l IH]; intros d; [done|].
  change (volume_of (remove_containers (RemoveContainer (ci_ID c) d).1 l) = volume_of d).
  by rewrite IH, remove_volumes.
Qed.

Lemma remove_named_volumes_view l d :
  unused_removable → (∀ ns n, container_of d ns n = None) →
  (∀ ns n, container_of (remove_named_volumes d l) ns n = None) ∧
  (∀ v, v ∈ v_Name <$> l ∨ volume_of d v = None → volume_of (remove_named_volumes d l) v = None).
Proof.
  intros Hu. revert d; induction l as [|x l IH]; intros d Hd; [split; [done|set_solver]|].
  change (remove_named_volumes d (x :: l)) with (remove_named_volumes (RemoveVolume (v_Name x) d).1 l).
  destruct (IH (RemoveVolume (v_Name x) d).1) as [Hc Hv]; [intros; by rewrite remove_volume_containers|].
  split; [done|].
  assert (volume_of (RemoveVolume (v_Name x) d).1 (v_Name x) = None) as Hx by by apply remove_volume_ok, Hu.
  intros v Hor. apply Hv. destruct (decide (v = v_Name x)) as [->|Hne]; [by right|].
  rewrite remove_volume_ne by done. set_solver.
Qed.

(** Purging: when both listings and the removals of containers are granted,
    [purge] leaves no container and no volume of the daemon. *)
Lemma purge_complete d cs vs :
  unused_removable → volumes_named d → listing d cs → granted (removals (λ _, false) d cs) →
  (ListManagedVolumes (remove_containers d cs)).2 = Ok vs → cleared (purge d).1.
Proof.
  intros Hu Hv Hl Hg Hvs. unfold purge. pose proof (list_pure d) as Hp.
  assert (∀ ns n, container_of (remove_containers d cs) ns n = None) as Hc.
  { intros ns n. change (container_of (sweep (λ _, false) d cs) ns n = None).
    destruct (container_of d ns n) as [info|] eqn:Hc; [|by apply sweep_gone].
    by rewrite (sweep_granted _ _ _ _ _ info). }
  destruct Hl as [Hl _]. destruct (ListManaged d) as [d0 r]. simpl in Hp, Hl. subst d0 r. cbn [ok_val from_option id].
  set (d1 := remove_containers d cs) in *.
  pose proof (list_volumes_pure d1) as Hp2. pose proof (list_volumes_complete d1 vs) as Hcomp.
  destruct (ListManagedVolumes d1) as [d2 r]. simpl in Hp2, Hvs. subst d2 r. cbn [fst ok_val from_option id].
  destruct (remove_named_volumes_view vs d1 Hu Hc) as [Hc' Hv']. split; [done|].
  intros v. apply Hv'. destruct (volume_of d1 v) as [x|] eqn:Hx; [left|by right].
  pose proof (Hcomp v x eq_refl Hx) as Hin. unfold d1 in Hx. rewrite remove_containers_volumes in Hx.
  apply list_elem_of_fmap. exists x. split; [|done]. symmetry. by apply Hv.
Qed.
End sweep.

(** ** The shutdown, with the rest of the process running *)

Section teardown.
Context {U P D : Type} `{Unstructured U} `{Codec U} `{Persister P}.
Context `{DriverLaws D, !ListingLaws D}.
#[local] Notation World := (world U P D).
Implicit Types (w : World) (env : nat → World → World).

(** Nothing is created in the meantime. *)
Definition no_creation env : Prop := ∀ i w,
  (∀ ns n, container_of (w_drv (env i w)) ns n = None ∨
           container_of (w_drv (env i w)) ns n = container_of (w_drv w) ns n) ∧
  (∀ v, volume_of (w_drv (env i w)) v = None ∨ volume_of (w_drv (env i w)) v = volume_of (w_drv w) v).

Context (env : nat → World → World) (Hq : no_creation env).

Lemma env_none i w ns n : container_of (w_drv w) ns n = None → container_of (w_drv (env i w)) ns n = None.
Proof. intros Hn. by destruct (proj1 (Hq i w) ns n) as [?| ->]. Qed.
Lemma env_volume_none i w v : volume_of (w_drv w) v = None → volume_of (w_drv (env i w)) v = None.
Proof. intros Hn. by destruct (proj2 (Hq i w) v) as [?| ->]. Qed.

Lemma each_containers i l w ns n :
  container_of (w_drv w) ns n = None ∨ (∃ info, container_of (w_drv w) ns n = Some info ∧ info ∈ l) →
  (each (λ c, RemoveContainer (ci_ID c)) env i l w).2 = true →
  container_of (w_drv (each (λ c, RemoveContainer (ci_ID c)) env i l w).1) ns n = None.
Proof.
  revert i w; induction l as [|c l IH]; intros i w Hc; cbn.
  { intros _. destruct Hc as [?|(info & _ & Hin)]; [done|]. by apply not_elem_of_nil in Hin. }
  unfold drv. specialize (IH (S i)).
  pose proof (remove_gone (ci_ID c) ns n (w_drv (env i w))) as Hg.
  pose proof (λ info, remove_ok (ci_ID c) ns n (w_drv (env i w)) info) as Ho.
  pose proof (λ info, remove_other (ci_ID c) ns n (w_drv (env i w)) info) as Hr.
  destruct (RemoveContainer (ci_ID c) (w_drv (env i w))) as [d r]. cbn in Hg, Ho, Hr.
  specialize (IH (put_drv d (env i w))). cbn in IH.
  destruct (each _ env (S i) l (put_drv d (env i w))) as [w2 ok]. cbn in *.
  intros [Hok ->]%andb_true_iff. apply IH; [|done]. destruct r as [[]|]; [|done].
  destruct Hc as [Hc|(info & Hc & Hin)]; [left; apply Hg; by apply env_none|].
  destruct (proj1 (Hq i w) ns n) as [E|E]; [left; by apply Hg|]. rewrite Hc in E.
  destruct (decide (ci_ID info = ci_ID c)) as [Hid|Hid]; [left; by apply (Ho info)|].
  right. exists info. split; [by apply Hr|]. by apply elem_of_cons in Hin as [->|Hin].
Qed.

Lemma each_containers_volumes i l w v :
  volume_of (w_drv (each (λ c, RemoveContainer (ci_ID c)) env i l w).1) v = None ∨
  volume_of (w_drv (each (λ c, RemoveContainer (ci_ID c)) env i l w).1) v = volume_of (w_drv w) v.
Proof.
  revert i w; induction l as [|c l IH]; intros i w; cbn; [by right|]. unfold drv.
  pose proof (remove_volumes (ci_ID c) (w_drv (env i w))) as Hv.
  destruct (RemoveContainer (ci_ID c) (w_drv (env i w))) as [d r]. cbn in Hv.
  specialize (IH (S i) (put_drv d (env i w))). cbn in IH. rewrite Hv in IH.
  destruct (each _ env (S i) l (put_drv d (env i w))) as [w2 ok]. cbn in *.
  destruct IH as [IH|IH]; [by left|]. rewrite IH. apply Hq.
Qed.

Lemma each_volumes i l w :
  unused_removable (D := D) → (∀ ns n, container_of (w_drv w) ns n = None) →
  let w' := (each (λ v, RemoveVolume (v_Name v)) env i l w).1 in
  (∀ ns n, container_of (w_drv w') ns n = None) ∧
  (∀ v, v ∈ v_Name <$> l ∨ volume_of (w_drv w) v = None → volume_of (w_drv w') v = None).
Proof.
  intros Hu. revert i w; induction l as [|x l IH]; intros i w Hd; cbn; [split; [done|set_solver]|]. unfold drv.
  assert (∀ ns n, container_of (w_drv (env i w)) ns n = None) as Hd' by (intros; by apply env_none).
  pose proof (remove_volume_ok (v_Name x) _ (Hu (v_Name x) _ Hd')) as Hx.
  pose proof (λ v, remove_volume_ne (v_Name x) v (w_drv (env i w))) as Hne.
  pose proof (remove_volume_containers (v_Name x) (w_drv (env i w))) as Hc.
  destruct (RemoveVolume (v_Name x) (w_drv (env i w))) as [d r]. cbn in Hx, Hne, Hc.
  destruct (IH (S i) (put_drv d (env i w))) as [IH1 IH2]; [intros; cbn; by rewrite Hc|]. cbn in IH1, IH2.
  destruct (each _ env (S i) l (put_drv d (env i w))) as [w2 ok]. cbn in *. split; [done|].
  intros v Hor. apply IH2. destruct (decide (v = v_Name x)) as [->|Hv]; [by right|].
  rewrite Hne by done. destruct Hor as [[->|Hin]%elem_of_cons|Hn]; [done|by left|right]. by apply env_volume_none.
Qed.

(** A shutdown during which nothing is created, and whose listings and removals
    of containers succeed, leaves nothing. *)
Lemma teardown_complete w :
  unused_removable (D := D) → volumes_named (w_drv w) → (teardown env w).2 = true → cleared (w_drv (teardownAll env w)).
Proof.
  intros Hu Hv. unfold teardownAll, teardown, drv. cbv zeta. set (w0 := env 0%nat w).
  pose proof (list_pure (w_drv w0)) as Hp. pose proof (list_complete (w_drv w0)) as Hc.
  destruct (ListManaged (w_drv w0)) as [d0 r]. cbn in Hp, Hc. subst d0.
  assert (∀ A (f : A → D → D * res driver_error ()) i l, each f env i l (put_drv (w_drv w0) w0) = each f env i l w0)
    as Hsame by (intros; by destruct w0). rewrite Hsame. clear Hsame.
  destruct r as [l|e]; [|by destruct (each _ env 1 _ w0), (ListManagedVolumes _), (each _ env _ _ _)].
  cbn [ok_val from_option id is_ok andb].
  pose proof (each_containers 1 l w0) as Hec. pose proof (each_containers_volumes 1 l w0) as Hev.
  destruct (each _ env 1 l w0) as [w1 ok]. cbn in Hec, Hev. set (w2 := env (S (length l)) w1).
  pose proof (list_volumes_pure (w_drv w2)) as Hp2. pose proof (list_volumes_complete (w_drv w2)) as Hc2.
  destruct (ListManagedVolumes (w_drv w2)) as [d2 vr]. cbn in Hp2, Hc2. subst d2.
  assert (put_drv (w_drv w2) w2 = w2) as -> by by destruct w2.
  destruct vr as [vs|e]; [|by destruct (each _ env _ _ w2); rewrite andb_false_r].
  cbn [ok_val from_option id is_ok].
  destruct ok; [|by destruct (each _ env _ vs w2)]. intros _.
  destruct (each_volumes (S (S (length l))) vs w2 Hu) as [Hfc Hfv].
  { intros ns n. apply env_none, Hec; [|done]. destruct (container_of (w_drv w0) ns n) as [info|] eqn:E; [right|by left].
    exists info. split; [done|]. by eapply Hc. }
  destruct (each _ env _ vs w2) as [w3 ok3]. cbn in *. split; [done|].
  intros v. apply Hfv. destruct (volume_of (w_drv w2) v) as [x|] eqn:Hx; [left|by right].
  pose proof (Hc2 vs v x eq_refl Hx) as Hin. apply list_elem_of_fmap. exists x. split; [|done]. symmetry. apply Hv.
  destruct (proj2 (Hq (S (length l)) w1) v) as [E|E]; [by unfold w2 in Hx; rewrite E in Hx|].
  unfold w2 in Hx. rewrite E in Hx. destruct (Hev v) as [E'|E']; [by rewrite E' in Hx|]. rewrite E' in Hx.
  destruct (proj2 (Hq 0%nat w) v) as [E''|E'']; [by unfold w0 in Hx; rewrite E'' in Hx|].
  unfold w0 in Hx. by rewrite E'' in Hx.
Qed.

(** The loops themselves leave the store alone. *)
Lemma each_store {A} (call : A → D → D * res driver_error ()) i l w :
  (∀ i w, w_store (env i w) = w_store w) → w_store (each call env i l w).1 = w_store w.
Proof.
  intros Hs. revert i w; induction l as [|x l IH]; intros i w; cbn; [done|]. unfold drv.
  destruct (call x (w_drv (env i w))) as [d r]. specialize (IH (S i) (put_drv d (env i w))).
  destruct (each call env (S i) l _). cbn in *. by rewrite IH, Hs.
Qed.

Lemma teardown_store w : (∀ i w, w_store (env i w) = w_store w) → w_store (teardownAll env w) = w_store w.
Proof.
  intros Hs. unfold teardownAll, teardown, drv. destruct (ListManaged _) as [d r].
  pose proof (each_store (λ c, RemoveContainer (ci_ID c)) 1 (default [] (ok_val r)) (put_drv d (env 0%nat w)) Hs) as E1.
  destruct (each _ env 1 _ _) as [w1 ok]. destruct (ListManagedVolumes _) as [d2 r2].
  match goal with |- context [each ?c env ?i ?l ?w2] => pose proof (each_store c i l w2 Hs) as E2; destruct (each c env i l w2) end.
  cbn in *. by rewrite E2, Hs, E1, Hs.
Qed.
End teardown.

(** ** Boot *)

Section boot.
Context {U P D : Type} `{UnstructuredLaws U} `{!Codec U} `{Persister P}.
Context `{DriverLaws D, !ListingLaws D}.
#[local] Notation World := (world U P D).
Implicit Types (w : World) (s : Store U P).

(** What [bootAdoption] keeps: containers without an identity and those of a
    stored sandbox. *)
Definition adopted s (c : ContainerInfo) : bool :=
  bool_decide (ci_Namespace c = "" ∨ ci_Sandbox c = "") ||
  is_ok (Get SandboxGVR (ci_Namespace c) (ci_Sandbox c) s).

Lemma adopt_one_eq w c :
  adopt_one w c = if adopted (w_store w) c then w else put_drv (RemoveContainer (ci_ID c) (w_drv w)).1 w.
Proof.
  unfold adopt_one, adopted, drv. case_decide as Hn; [by rewrite bool_decide_eq_true_2|].
  rewrite bool_decide_eq_false_2 by done. simpl.
  destruct (Get _ _ _ _); [done|]. simpl. by destruct (RemoveContainer _ _).
Qed.

Lemma adopt_sweep l w :
  foldl adopt_one w l = put_drv (sweep (adopted (w_store w)) (w_drv w) l) w.
Proof.
  revert w; induction l as [|c l IH]; intros w; [by destruct w|]. cbn [foldl sweep]. rewrite adopt_one_eq, IH.
  unfold sweep. cbn [foldl]. by destruct (adopted (w_store w) c).
Qed.

Lemma bootAdoption_eq w l :
  (ListManaged (w_drv w)).2 = Ok l → bootAdoption w = put_drv (sweep (adopted (w_store w)) (w_drv w) l) w.
Proof.
  intros Hl. unfold bootAdoption, drv. pose proof (list_pure (w_drv w)) as Hp.
  destruct (ListManaged (w_drv w)) as [d r]. simpl in *. subst d r. rewrite adopt_sweep. by destruct w.
Qed.

(** Adoption leaves the store alone, keeps the containers of stored sandboxes
    and asks for the removal of the others; one that is granted is gone. *)
Lemma adoption_containers w l : listing (w_drv w) l → labelled (w_drv w) →
  w_store (bootAdoption w) = w_store w ∧
  (∀ ns n info, container_of (w_drv w) ns n = Some info →
     if is_ok (Get SandboxGVR ns n (w_store w)) then container_of (w_drv (bootAdoption w)) ns n = Some info
     else (∃ r, (ci_ID info, r) ∈ removals (adopted (w_store w)) (w_drv w) l) ∧
          ((ci_ID info, Ok ()) ∈ removals (adopted (w_store w)) (w_drv w) l →
           container_of (w_drv (bootAdoption w)) ns n = None)) ∧
  (∀ ns n, container_of (w_drv w) ns n = None → container_of (w_drv (bootAdoption w)) ns n = None).
Proof.
  intros Hl Hlab. rewrite (bootAdoption_eq w l) by apply Hl. cbn [w_store w_drv put_drv]. split; [done|]. split.
  - intros ns n info Hc. pose proof (sweep_listing (adopted (w_store w)) _ _ _ _ _ Hl Hc) as Hs. unfold adopted at 1 in Hs.
    destruct (Hlab ns n info Hc) as (Ens & En & Hns & Hn). rewrite Ens, En, bool_decide_eq_false_2 in Hs by tauto. done.
  - intros ns n. apply sweep_gone.
Qed.
End boot.

(** ** The objects of the router *)

Section router_objects.
Context {U P : Type} `{UnstructuredLaws U} `{!Codec U} `{Persister P} `{Oracle}.
Context `{!RouterConverter U, !RouterConverterLaws U}.
Implicit Types s : Store U P.

(** [s'] has everything [s] has. *)
Definition extends s s' : Prop :=
  resources s' = resources s ∧ ∀ g k u, lookup_obj s g k = Some u → lookup_obj s' g k = Some u.

#[export] Instance extends_preorder : PreOrder extends.
Proof.
  split; [by split|]. intros s1 s2 s3 [E1 H1'] [E2 H2']. split; [congruence|]. intros g k u Hu. by apply H2', H1'.
Qed.

Lemma Create_extends g u s : extends s (Create g u s).1.
Proof.
  destruct (Create g u s) as [s' r] eqn:E. simpl.
  apply Create_cases in E as [(? & _ & ->)|(rm & name & u1 & Hm & _ & (_ & _ & Hnone) & _ & ->)]; [done|].
  split; [apply resources_apply|]. intros g' k' u' Hu. rewrite lookup_apply. case_decide as Hk; [|done].
  destruct Hk as [Hg Hk]. simpl in Hg, Hk. subst g' k'. congruence.
Qed.

Lemma ensure_extends g ns name obj s : extends s (ensure g ns name obj s).
Proof. unfold ensure. destruct (Get g ns name s); [done|]. destruct obj; [apply Create_extends|done]. Qed.

Lemma EnsureNamespace_extends s ns : extends s (EnsureNamespace s ns).
Proof. unfold EnsureNamespace. etrans; [|apply ensure_extends]. etrans; apply ensure_extends. Qed.

Lemma follow_extends events s : extends s (follow_namespaces s events).
Proof.
  revert s; induction events as [|e events IH]; intros s; [done|]. cbn. etrans; [apply EnsureNamespace_extends|apply IH].
Qed.

Lemma Get_extends s s' g ns name u : extends s s' → Get g ns name s = Ok u → Get g ns name s' = Ok u.
Proof.
  intros [Er Ho]. unfold Get, meta. rewrite Er. destruct (resources s !! g); [|done].
  destruct (lookup_obj s g _) eqn:E; [|done]. by rewrite (Ho _ _ _ E).
Qed.

(** A named object whose resource is served is there once ensured. *)
Lemma ensure_present g ns name obj s rm u :
  resources s !! g = Some rm → namespaced rm = true → obj = Some u → named u ns name → name ≠ "" →
  ∃ v, Get g ns name (ensure g ns name obj s) = Ok v.
Proof.
  intros Hr Hns -> [Hu Hn] Hne. unfold ensure. destruct (Get g ns name s) as [v|e] eqn:E; [eauto|].
  unfold Get, meta in *. rewrite Hr in E. rewrite Hns in *.
  destruct (lookup_obj s g (key true ns name)) eqn:Hl; [done|].
  destruct (Create g u s) as [s' r] eqn:Ec.
  assert (is_ok r = true) as Hok.
  { unfold Create, meta in Ec. rewrite Hr, Hns in Ec. unfold resolve_name in Ec.
    rewrite Hn, decide_False, Hu, Hl in Ec by done. by injection Ec as _ <-. }
  apply Create_cases in Ec as [(? & -> & _)|(rm' & name' & u1 & Hm & Hn' & _ & _ & ->)]; [done|].
  apply meta_ok in Hm. assert (rm' = rm) as -> by congruence. rewrite Hns in *.
  unfold resolve_name in Hn'. rewrite decide_False in Hn' by congruence. injection Hn' as <- <-.
  cbn [fst]. rewrite resources_apply, Hr, lookup_apply, Hns, decide_True by (cbn; by rewrite Hu, Hn). simpl. eauto.
Qed.

Lemma ensure_twice g ns name obj s v : Get g ns name s = Ok v → ensure g ns name obj s = s.
Proof. intros E. unfold ensure. by rewrite E. Qed.

(** The three objects of a namespace, and the resources they are of. *)
Definition router_objects : list (GVR * string) :=
  [(PodGVR, PodName); (ServiceGVR, ServiceName); (EndpointSliceGVR, slice_name)].

Definition router_ready s (ns : string) : Prop :=
  ∀ g name, (g, name) ∈ router_objects → ∃ v, Get g ns name s = Ok v.

Definition router_served s : Prop :=
  ∀ g name, (g, name) ∈ router_objects → ∃ rm, resources s !! g = Some rm ∧ namespaced rm = true.

Definition converts (ns : string) : Prop :=
  is_Some (pod_to_u (router_pod ns)) ∧ is_Some (service_to_u (router_service ns)) ∧
  is_Some (slice_to_u (router_slice ns)).

Lemma router_ready_extends s s' ns : extends s s' → router_ready s ns → router_ready s' ns.
Proof. intros He Hr g name Hin. destruct (Hr g name Hin) as [v Hv]. exists v. by eapply Get_extends. Qed.

Lemma EnsureNamespace_ready s ns : router_served s → converts ns → router_ready (EnsureNamespace s ns) ns.
Proof.
  intros Hs ([up Hp] & [us Hsv] & [ue He]). unfold EnsureNamespace.
  set (s1 := ensurePod ns s). set (s2 := ensureService ns s1).
  assert (extends s s1) as E1 by apply ensure_extends. assert (extends s1 s2) as E2 by apply ensure_extends.
  assert (extends s2 (ensureEndpointSlice ns s2)) as E3 by apply ensure_extends.
  intros g name Hin. destruct (Hs g name Hin) as (rm & Hr & Hns).
  apply elem_of_cons in Hin as [[= -> ->]|Hin]; [|apply elem_of_cons in Hin as [[= -> ->]|Hin%list_elem_of_singleton]].
  - destruct (ensure_present PodGVR ns PodName _ s rm up Hr Hns Hp (pod_named _ _ Hp) ltac:(done)) as [v Hv].
    exists v. eapply Get_extends, Hv. by etrans.
  - rewrite <-(proj1 E1) in Hr.
    destruct (ensure_present ServiceGVR ns ServiceName _ s1 rm us Hr Hns Hsv (service_named _ _ Hsv) ltac:(done)) as [v Hv].
    exists v. by eapply Get_extends, Hv.
  - injection Hin as -> ->. rewrite <-(proj1 E1), <-(proj1 E2) in Hr.
    by apply (ensure_present _ _ _ _ s2 rm ue Hr Hns He (slice_named _ _ He)).
Qed.

Lemma EnsureNamespace_idle s ns : router_ready s ns → EnsureNamespace s ns = s.
Proof.
  intros Hr. unfold EnsureNamespace, ensurePod, ensureService, ensureEndpointSlice.
  destruct (Hr PodGVR PodName) as [? E1]; [set_solver|]. rewrite (ensure_twice _ _ _ _ _ _ E1).
  destruct (Hr ServiceGVR ServiceName) as [? E2]; [set_solver|]. rewrite (ensure_twice _ _ _ _ _ _ E2).
  destruct (Hr EndpointSliceGVR slice_name) as [? E3]; [set_solver|]. by rewrite (ensure_twice _ _ _ _ _ _ E3).
Qed.

Lemma router_served_extends s s' : extends s s' → router_served s → router_served s'.
Proof. intros [E _] Hs g name Hin. rewrite E. exact (Hs g name Hin). Qed.

Lemma follow_ready events s ns :
  router_served s → (∀ ns, converts ns) →
  router_ready s ns ∨ (∃ e, e ∈ events ∧ GetName (ev_Object e) = ns) → router_ready (follow_namespaces s events) ns.
Proof.
  intros Hs Hc. revert s Hs. induction events as [|e events IH]; intros s Hs; cbn.
  { intros [?|(e & Hin & _)]; [done|by apply not_elem_of_nil in Hin]. }
  pose proof (EnsureNamespace_extends s (GetName (ev_Object e))) as He.
  intros [Hr|(e' & [->|Hin]%elem_of_cons & Hn)]; apply IH; try (by eapply router_served_extends).
  - left. by eapply router_ready_extends.
  - left. subst ns. by apply EnsureNamespace_ready.
  - right. eauto.
Qed.

Lemma follow_idle events s :
  (∀ e, e ∈ events → router_ready s (GetName (ev_Object e))) → follow_namespaces s events = s.
Proof.
  induction events as [|e events IH]; intros Hr; [done|]. cbn.
  rewrite EnsureNamespace_idle by (apply Hr; left). apply IH. intros e' He. apply Hr. by right.
Qed.

(** The namespaces the virtual router serves. *)
Definition routed (events : list (Event U)) (ns : string) : Prop :=
  ns = "default" ∨ ns = SystemNamespace ∨ ∃ e, e ∈ events ∧ GetName (ev_Object e) = ns.

(** The virtual router: after start-up the router's pod, service and
    endpoints are in the default and system namespaces and in every namespace
    the watch has reported; no stored object was touched; and doing it all
    again, as after a restart, changes nothing. *)
Theorem router_objects_present s (events : list (Event U)) :
  router_served s → (∀ ns, converts ns) →
  let s' := startVirtualRouter s events in
  (∀ g k u, lookup_obj s g k = Some u → lookup_obj s' g k = Some u) ∧
  (∀ ns, routed events ns → router_ready s' ns) ∧
  startVirtualRouter s' events = s'.
Proof.
  intros Hs Hc s'.
  set (s1 := EnsureNamespace s "default"). set (s2 := EnsureNamespace s1 SystemNamespace).
  assert (extends s s1) as E1 by apply EnsureNamespace_extends.
  assert (extends s1 s2) as E2 by apply EnsureNamespace_extends.
  assert (extends s2 s') as E3 by apply follow_extends.
  assert (router_served s1) as Hs1 by (by eapply router_served_extends).
  assert (router_served s2) as Hs2 by (by eapply router_served_extends).
  assert (∀ ns, routed events ns → router_ready s' ns) as Hready.
  { intros ns Hns. apply follow_ready; [done|done|]. destruct Hns as [->|[->|Hin]]; [left|left|by right].
    - eapply router_ready_extends; [exact E2|]. by apply EnsureNamespace_ready.
    - by apply EnsureNamespace_ready. }
  split_and!; [|done|].
  - intros g k u Hu. by apply E3, E2, E1.
  - unfold startVirtualRouter. rewrite (EnsureNamespace_idle s' "default") by (apply Hready; by left).
    rewrite (EnsureNamespace_idle s' SystemNamespace) by (apply Hready; right; by left).
    apply follow_idle. intros e He. apply Hready. right. right. eauto.
Qed.

(** The default objects are created when absent and never overwritten. *)
Lemma bootstrap_extends `{!BootConverter U} cfg s : extends s (bootstrapObjects cfg s).
Proof. unfold bootstrapObjects. etrans; apply ensure_extends. Qed.

Lemma bootstrap_present `{!BootConverter U, !BootConverterLaws U} cfg s rt rp :
  resources s !! TemplateGVR = Some rt → namespaced rt = true →
  resources s !! WarmPoolGVR = Some rp → namespaced rp = true →
  is_Some (template_to_u (default_template cfg)) → is_Some (pool_to_u default_pool) →
  let s' := bootstrapObjects cfg s in
  (∃ t, Get TemplateGVR "default" "default" s' = Ok t) ∧ (∃ p, Get WarmPoolGVR "default" "default" s' = Ok p) ∧
  bootstrapObjects cfg s' = s'.
Proof.
  intros Hrt Hnt Hrp Hnp [t Ht] [p Hp] s'.
  set (s1 := ensure TemplateGVR "default" "default" (template_to_u (default_template cfg)) s).
  assert (∃ vt, Get TemplateGVR "default" "default" s1 = Ok vt) as [vt Hvt]
    by exact (ensure_present _ _ _ _ s rt t Hrt Hnt Ht (template_named _ _ Ht) ltac:(done)).
  assert (extends s s1) as E1 by apply ensure_extends. rewrite <-(proj1 E1) in Hrp.
  assert (∃ vp, Get WarmPoolGVR "default" "default" s' = Ok vp) as [vp Hvp]
    by exact (ensure_present _ _ _ _ s1 rp p Hrp Hnp Hp (pool_named _ _ Hp) ltac:(done)).
  assert (Get TemplateGVR "default" "default" s' = Ok vt) as Hvt' by (eapply Get_extends, Hvt; apply ensure_extends).
  split_and!; [by exists vt|by exists vp|]. unfold bootstrapObjects.
  rewrite (ensure_twice _ _ _ _ s' _ Hvt'). by apply (ensure_twice _ _ _ _ s' vp).
Qed.
End router_objects.

(** ** Witnesses *)

Definition demo_running (ns n uid : string) : SandboxContainerSpec :=
  mkSpec ns n uid "img" PullIfNotPresent [] [] ∅ "" [] 8888 [] "" false (mkResources 0 0) [] ∅ false.

(** The containers of the stored sandbox [c] and of one nobody stored, and a
    volume. *)
Definition demo_leftover : Fake.FakeDriver :=
  (Fake.ensure_volume (mkVolumeSpec "las-default-data-c" "default" "data-c" ∅)
     (Fake.create (demo_running "default" "gone" "u9") (Fake.create (demo_running "default" "c" "u2") Fake.NewFakeDriver).1).1).1.

Lemma demo_leftover_labelled : labelled demo_leftover.
Proof.
  assert (map_Forall (λ k c, k = Fake.fkey (ci_Namespace c) (ci_Sandbox c) ∧ no_byte slash (ci_Namespace c) = true ∧
    no_byte slash (ci_Sandbox c) = true ∧ ci_Namespace c ≠ "" ∧ ci_Sandbox c ≠ "") (Fake.containers demo_leftover)) as Hall.
  { apply map_Forall_to_list. vm_compute. repeat constructor; discriminate. }
  intros ns n info Hc. destruct (Hall _ _ Hc) as (Hk & Hs1 & Hs2 & Hns & Hn).
  by destruct (Fake.fkey_inj _ _ _ _ Hs1 Hs2 Hk) as [-> ->].
Qed.

Definition demo_listing : list ContainerInfo := (range_map (Fake.containers demo_leftover)).*2.

Lemma demo_listed : listing demo_leftover demo_listing.
Proof. split; [reflexivity|]. apply (bool_decide_unpack _). vm_compute. exact I. Qed.

Definition demo_c_store : Store cobj demo_db :=
  run [OpCreate SandboxGVR (demo_cr "Sandbox" "default" "c" "u2" [] GNil)]
    (RegisterAll Registry.default_resources (New (Some (mkDB ∅)) 4 0)).

#[export] Instance demo_router_converter : RouterConverter cobj := {
  pod_to_u := λ p, Some (demo_cr "Pod" (rp_Namespace p) (rp_Name p) "" [] GNil);
  service_to_u := λ p, Some (demo_cr "Service" (rs_Namespace p) (rs_Name p) "" [] GNil);
  slice_to_u := λ p, Some (demo_cr "EndpointSlice" (re_Namespace p) (re_Name p) "" [] GNil);
}.

#[export] Instance demo_router_laws : RouterConverterLaws cobj.
Proof. by constructor; intros p u [= <-]. Qed.

Definition demo_ns_event : Event cobj := mkEvent Added (demo_cr "Namespace" "" "team" "u7" [] GNil) 1 NamespaceGVR.

Lemma router_objects_present_witness :
  let s' := startVirtualRouter demo_c_store [demo_ns_event] in
  is_ok (Get SandboxGVR "default" "c" s') = true ∧ router_ready s' "team" ∧
  startVirtualRouter s' [demo_ns_event] = s'.
Proof.
  intros s'. destruct (router_objects_present demo_c_store [demo_ns_event]) as (_ & Hr & Hi).
  - assert (Forall (λ o, resources demo_c_store !! o.1 = Some (demo_meta o.1 true)) router_objects) as Hall
      by (repeat constructor; vm_compute; reflexivity).
    intros g name Hin. rewrite Forall_forall in Hall. exists (demo_meta g true). split; [|reflexivity].
    exact (Hall _ Hin).
  - intros ns. split_and!; by eexists.
  - split; [vm_compute; reflexivity|]. split; [|exact Hi]. apply Hr. right. right. exists demo_ns_event.
    split; [left|vm_compute; reflexivity].
Defined.
