(* ===== verification/Commits.v ===== *)
(** What any part of the program does to the store, seen from outside: it
    commits writes, one after the other, and registers or drops watches.

    [commits s log s'] is such a sequence; [good w w'] says that a step of the
    program is one.  Every handler of the reconcilers, the API and the start-up
    is shown to be good, so that what holds of sequences of writes holds of the
    running system, however its goroutines interleave. *)

From S2P Require Import Prelude GoStrings K8s Apis Selectors Store StoreFacts Patch StoreSpec Persist.
From S2P Require Import Watch WatchSpec Recovery Core Driver Build Reconciler.
From S2P Require Import Pvc Sandbox Claim WarmPool.
Local Open Scope string_scope.

Section commits.
Context {U P : Type} `{UnstructuredLaws U} `{!Codec U, !CodecLaws U} `{Persister P}.
Context `{Oracle} `{GoRuntime} `{PatchLib}.
Implicit Types (s : Store U P) (g : GVR) (u : U) (log : wlog U).

(** Only subscriptions and their channels differ. *)
Record frame s s' : Prop := {
  fr_data : data s' = data s;
  fr_res : resources s' = resources s;
  fr_rv : rv s' = rv s;
  fr_hist : history s' = history s;
  fr_cap : histCap s' = histCap s;
  fr_persist : persist s' = persist s;
  fr_wf : wf s → wf s';
}.

Lemma frame_lookup s s' g k : frame s s' → lookup_obj s' g k = lookup_obj s g k.
Proof. intros F. unfold lookup_obj, objects. by rewrite (fr_data _ _ F). Qed.

(** Each write with what was saved of it. *)
Inductive commits : Store U P → wlog U → Store U P → Prop :=
| commits_nil s : commits s [] s
| commits_write s w log s' : valid_write w s → durable w →
    commits (apply_write w s) log s' → commits s ((w, saved_form s w) :: log) s'
| commits_frame s s1 log s' : frame s s1 → commits s1 log s' → commits s log s'.

Lemma commits_app s1 log s2 log' s3 :
  commits s1 log s2 → commits s2 log' s3 → commits s1 (log ++ log') s3.
Proof. induction 1; cbn; eauto using commits. Qed.

(** Every stored object has a kind, so it can be read back. *)
Definition kinds_ok s : Prop := ∀ g k u, lookup_obj s g k = Some u → GetKind u ≠ "".

Lemma commits_kinds s log s' : commits s log s' → kinds_ok s → kinds_ok s'.
Proof.
  induction 1 as [|s w log s' Hv Hd _ IH|s s1 log s' Hf _ IH]; [done|intros K; apply IH..].
  - intros g k u. rewrite lookup_apply. case_decide; [|apply K].
    destruct w; cbn; [|done]. intros [= <-]. apply Hd.
  - intros g k u. rewrite (frame_lookup _ _ _ _ Hf). apply K.
Qed.

Lemma commits_resources s log s' : commits s log s' → resources s' = resources s.
Proof.
  induction 1 as [| |s s1 log s' Hf _ IH]; [done|by rewrite IHcommits, resources_apply|].
  by rewrite IH, (fr_res _ _ Hf).
Qed.

(** ** Operations commit at most one write *)


(** An operation that leaves a kind on what it stores. *)
Definition kind_kept (o : op (U := U)) : Prop :=
  match o with
  | OpCreate _ u | OpUpdate _ u false => GetKind u ≠ ""
  | _ => True
  end.

Lemma exec_commits o s : kinds_ok s → kind_kept o → ∃ log, commits s log (exec o s).1.
Proof.
  intros K Ho. destruct (exec o s) as [s' r] eqn:E. cbn.
  assert (∀ w, valid_write w s → durable w → ∃ log, commits s log (apply_write w s)) as Hone
    by (intros w ??; eexists; eauto using commits).
  destruct o as [g u|g u st|g ns name|g ns name ty d st]; cbn in E, Ho.
  - apply Create_cases in E as [(?&_&->)|(rm&name&u1&_&Hn&Hw&_&->)]; [exists []; constructor|].
    apply Hone; [done|]. cbn.
    rewrite stamp_kind, (resolve_kind _ _ _ _ _ _ _ Hn).
    destruct (namespaced rm); [done|]. by uget_simpl.
  - apply Update_cases in E as [(?&_&->)|(rm&old&_&Hl&_&Hw&_&->)]; [exists []; constructor|].
    apply Hone; [done|]. cbn.
    rewrite set_rv_kind, merge_kind. destruct st; [|done]. by apply (K _ _ _ Hl).
  - apply delete_cases in E as [(?&_&->)|(rm&old&_&_&Hw&_&->)]; [exists []; constructor|].
    by apply Hone.
  - apply Patch_cases in E as [(?&_&->)|(rm&old&patched&_&Hl&_&Hw&_&->&doc&Hdoc)]; [exists []; constructor|].
    apply Hone; [done|]. cbn.
    rewrite set_rv_kind, merge_kind. destruct st; [by apply (K _ _ _ Hl)|]. by eapply unmarshal_kind.
Qed.
End commits.

(** ** Good steps of the world *)

Section good.
Context {U P D : Type} `{UnstructuredLaws U} `{!Codec U, !CodecLaws U} `{Persister P}.
Context `{Oracle} `{GoRuntime} `{PatchLib} `{!Converter U, !ConverterLaws U} `{Driver D} `{ConditionLib}.
#[local] Notation World := (world U P D).
Implicit Types (w : World) (g : GVR) (u : U).

Definition good w w' : Prop :=
  kinds_ok (w_store w) → ∃ log, commits (w_store w) log (w_store w').

Lemma good_same w w' : w_store w' = w_store w → good w w'.
Proof. intros E _. exists []. rewrite E. constructor. Qed.
Lemma good_refl w : good w w.
Proof. by apply good_same. Qed.

Lemma good_trans w1 w2 w3 : good w1 w2 → good w2 w3 → good w1 w3.
Proof.
  intros G1 G2 K. destruct (G1 K) as [log1 C1]. pose proof (commits_kinds _ _ _ C1 K) as K2.
  destruct (G2 K2) as [log2 C2]. eauto using commits_app.
Qed.

Lemma good_kinds w w' : good w w' → kinds_ok (w_store w) → kinds_ok (w_store w').
Proof. intros G K. destruct (G K). by eapply commits_kinds. Qed.

Lemma good_drv {A} (f : D → D * A) w : good w (drv f w).1.
Proof. unfold drv. destruct (f (w_drv w)). by apply good_same. Qed.

Lemma good_exec o w : kind_kept o → good w (sto (exec o) w).1.
Proof.
  intros Ho K. destruct (exec_commits o (w_store w) K Ho) as [log C].
  exists log. unfold sto. by destruct (exec o (w_store w)).
Qed.

Lemma good_create g u w : GetKind u ≠ "" → good w (sto (Create g u) w).1.
Proof. apply (good_exec (OpCreate g u)). Qed.
Lemma good_update g u st w :
  (kinds_ok (w_store w) → st = false → GetKind u ≠ "") → good w (sto (Store.Update g u st) w).1.
Proof.
  intros Hk K. apply (good_exec (OpUpdate g u st)); [|done]. cbn. destruct st; [done|auto].
Qed.
Lemma good_patch g ns name ty d st w : good w (sto (Patch g ns name ty d st) w).1.
Proof. by apply (good_exec (OpPatch g ns name ty d st)). Qed.

Lemma good_foldl {A} (f : World → A → World) l w : (∀ w a, good w (f w a)) → good w (foldl f w l).
Proof.
  intros Hf. revert w. induction l as [|a l IH]; intros w; [apply good_refl|].
  eapply good_trans; [apply Hf|apply IH].
Qed.

(** An object read from the store has a kind. *)
Lemma kind_read g ns name w u : kinds_ok (w_store w) → Get g ns name (w_store w) = Ok u → GetKind u ≠ "".
Proof.
  unfold Get. intros K. destruct (meta _ _) as [rm|]; [|done].
  destruct (lookup_obj _ _ _) as [v|] eqn:Hl; [|done]. intros [= <-]. by eapply K.
Qed.

Lemma good_writeStatus {T} `{!StatusMap T} g u (st : T) w : good w (writeStatus g u st w).1.
Proof.
  unfold writeStatus. destruct (setStatus u st) as [n|]; [|apply good_refl].
  pose proof (good_update g (SetResourceVersion "" n) true w ltac:(done)) as G.
  by destruct (sto _ w).
Qed.
End good.

Create HintDb good discriminated.
#[export] Hint Resolve good_refl good_drv good_patch good_writeStatus : good.

(** [good_solve] follows the evaluation of a handler applied to the current
    world: a call that hints show to be good becomes the new current world, and
    any other value decided upon is split into its cases. *)
Ltac good_call w e :=
  let G := fresh "G" in
  lazymatch type of e with
  | (_ * _)%type =>
      assert (good w e.1) as G by (eauto 4 with good);
      destruct e as [? ?] eqn:?; cbn [fst snd] in G
  | _ => assert (good w e) as G by (eauto 4 with good); generalize dependent e; intros ? G
  end;
  eapply good_trans; [exact G|]; cbn [fst snd].
Ltac good_redex w t :=
  lazymatch t with
  | fst ?e => good_redex w e
  | snd ?e => good_redex w e
  | (?a, _) => good_redex w a
  | match ?e with _ => _ end =>
      lazymatch e with
      | match _ with _ => _ end => good_redex w e
      | fst _ => good_redex w e
      | _ => lazymatch type of e with
             | (world _ _ _ * _)%type => good_redex w e
             | _ => destruct e eqn:?
             end
      end
  | foldl _ w _ => good_call w t
  | foldl _ ?a _ => good_redex w a
  | ?f w => good_call w t
  | ?f ?x => good_redex w x
  end.
Ltac good_solve :=
  repeat match goal with
  | |- good ?w ?w => apply good_refl
  | |- good ?w ?t => progress cbn [fst snd]
  | |- good ?w ?t => good_redex w t; cbv beta iota zeta
  end.

(** ** The delete cascade *)

Section cascade.
Context {U P D : Type} `{UnstructuredLaws U} `{!Codec U, !CodecLaws U} `{Persister P}.
Context `{Oracle} `{GoRuntime} `{PatchLib} `{!Converter U, !ConverterLaws U} `{Driver D} `{ConditionLib}.
#[local] Notation World := (world U P D).
Implicit Types (w : World) (g : GVR) (u : U).

#[local] Hint Resolve good_foldl : good.

Definition good_delete (del : GVR → string → string → World → World * res api_error U) : Prop :=
  ∀ g ns name w, good w (del g ns name w).1.

Section hook.
Context (del : GVR → string → string → World → World * res api_error U) (Hdel : good_delete del).
#[local] Hint Extern 1 (good _ (del _ _ _ _).1) => apply Hdel : good.

Lemma good_cleanup_vct u w vct : good w (cleanup_vct del u w vct).
Proof. unfold cleanup_vct. good_solve. Qed.

Lemma good_cleanup_container u w : good w (cleanup_container u w).
Proof. unfold cleanup_container. good_solve. Qed.
#[local] Hint Resolve good_cleanup_vct good_cleanup_container : good.

Lemma good_OnDelete g u w : good w (OnDelete del g u w).
Proof.
  unfold OnDelete, cleanupSandboxResources, cascadeClaimDelete, cascadeWarmPoolDelete, cleanupPVCVolume.
  good_solve. apply good_foldl. intros. unfold pool_delete_one. good_solve.
Qed.
End hook.

Lemma good_Delete_n n : good_delete (Delete_n (U := U) (P := P) (D := D) n).
Proof.
  induction n as [|n IH]; intros g ns name w; cbn [Delete_n]; [apply good_refl|]. unfold Store.Delete.
  assert (good w (sto (exec (OpDelete g ns name)) w).1) as G by by apply good_exec.
  unfold sto in G. cbn [exec] in G. destruct (delete_locked g ns name (w_store w)) as [s [v|e]]; cbn in G |- *; [|done].
  eapply good_trans; [exact G|]. by apply good_OnDelete.
Qed.

Lemma good_Delete g ns name w : good w (Delete g ns name w).1.
Proof. apply good_Delete_n. Qed.
End cascade.
#[export] Hint Resolve good_Delete : good.

(** ** The reconcilers *)

Section reconcilers.
Context {U P D : Type} `{UnstructuredLaws U} `{!Codec U, !CodecLaws U} `{Persister P}.
Context `{Oracle} `{GoRuntime} `{PatchLib} `{!Converter U, !ConverterLaws U} `{Driver D} `{ConditionLib}.
Context `{SandboxAPI} `{ErrorText}.
Context (r : Reconcilers).
#[local] Notation World := (world U P D).
Implicit Types (w : World) (g : GVR) (u : U).

#[local] Hint Resolve good_foldl : good.

Lemma good_writePVCStatus u phase w : good w (writePVCStatus u phase w).1.
Proof. unfold writePVCStatus. good_solve. Qed.
#[local] Hint Resolve good_writePVCStatus : good.

Lemma good_reconcilePVC ns name w : good w (reconcilePVC ns name w).1.
Proof. unfold reconcilePVC. good_solve. Qed.

Lemma good_ensureVCTPVCObject u vct n w : good w (ensureVCTPVCObject u vct n w).
Proof.
  unfold ensureVCTPVCObject. destruct (NewPVC _ _) as [pu|] eqn:E; [|apply good_refl].
  apply good_create. apply new_pvc_meta in E as (_&_&_&_&_&_&->&_). done.
Qed.
#[local] Hint Resolve good_ensureVCTPVCObject : good.

Lemma good_failReady u sb msg w : good w (failReady u sb msg w).1.
Proof. unfold failReady. good_solve. Qed.

Lemma good_delete_sandbox ns name w : good w (delete_sandbox ns name w).1.
Proof. unfold delete_sandbox. good_solve. Qed.
#[local] Hint Resolve good_failReady good_delete_sandbox : good.

Lemma good_handleSandboxExpiry u sb w : good w (handleSandboxExpiry u sb w).1.
Proof. unfold handleSandboxExpiry. good_solve. Qed.

Lemma good_reconcileSuspended u sb w : good w (reconcileSuspended u sb w).1.
Proof. unfold reconcileSuspended. good_solve. Qed.

Lemma good_ensurePodNameAnnotation u n w : good w (ensurePodNameAnnotation u n w).
Proof. unfold ensurePodNameAnnotation. good_solve. Qed.

Lemma good_ensureImage image w : good w (ensureImage r image w).1.
Proof. unfold ensureImage. good_solve. Qed.

Lemma good_vct_steps u name vcts (acc : World * PodSpec) : good acc.1 (foldl (vct_step u name) acc vcts).1.
Proof.
  revert acc. induction vcts as [|v vcts IH]; intros acc; [apply good_refl|].
  eapply good_trans; [|apply IH]. unfold vct_step. cbn. auto with good.
Qed.

Lemma good_back_volumes u sb vols w : good w (back_volumes u sb vols w).1.
Proof.
  revert w. induction vols as [|v vols IH]; intros w; cbn [back_volumes]; [apply good_refl|].
  good_solve; apply IH.
Qed.

Lemma good_get_container sb podSpec w : good w (get_container r sb podSpec w).1.
Proof. unfold get_container. good_solve. Qed.

Lemma good_probe_container info port w : good w (probe_container info port w).1.
Proof. unfold probe_container. good_solve. Qed.
#[local] Hint Resolve good_handleSandboxExpiry good_reconcileSuspended good_ensurePodNameAnnotation
  good_ensureImage good_back_volumes good_get_container good_probe_container : good.

Lemma good_finishRunning u sb podSpec info w : good w (finishRunning r u sb podSpec info w).1.
Proof. unfold finishRunning. good_solve. Qed.
#[local] Hint Resolve good_finishRunning : good.

Lemma good_reconcileRunning u sb w : good w (reconcileRunning r u sb w).1.
Proof.
  unfold reconcileRunning. destruct (decide _); [good_solve|].
  pose proof (good_vct_steps u (m_Name (sb_Meta sb)) (bp_VolumeClaimTemplates (sb_Blueprint sb))
    (w, bp_PodSpec (sb_Blueprint sb))) as G.
  destruct (foldl _ _ _) as [w1 podSpec]. eapply good_trans; [exact G|]. cbn [fst]. good_solve.
Qed.
#[local] Hint Resolve good_reconcileRunning : good.

Lemma good_reconcileSandbox ns name w : good w (reconcileSandbox r ns name w).1.
Proof. unfold reconcileSandbox. good_solve. Qed.

(** The window of an adoption, filled by good steps. *)
Section claim.
Context (env : nat → World → World) (Henv : ∀ i w, good w (env i w)).
#[local] Hint Extern 1 (good _ (env _ _)) => apply Henv : good.

Lemma adopt_rewrite_kind u claim pick : GetKind (adopt_rewrite u claim pick) = GetKind pick.
Proof. unfold adopt_rewrite. by uget_simpl. Qed.

Lemma good_adopt_attempt u claim pool name i w : good w (adopt_attempt env u claim pool name i w).1.
Proof.
  unfold adopt_attempt. destruct (Get _ _ _ _) as [pick|] eqn:Hg; [|apply good_refl].
  destruct (negb _); [apply good_refl|].
  assert (good w (sto (Store.Update SandboxGVR (adopt_rewrite u claim pick) false) (env i w)).1) as G.
  { intros K. apply (good_trans _ (env i w)); [apply Henv| |done].
    apply good_update. rewrite adopt_rewrite_kind. intros _ _. by eapply kind_read. }
  destruct (sto _ _) as [w1 [v|e]]; [done|]. cbn in G |- *. by destruct (IsConflict e).
Qed.
#[local] Hint Resolve good_adopt_attempt : good.

Lemma good_adopt_loop u claim pool name fuel i w : good w (adopt_loop env u claim pool name fuel i w).1.
Proof.
  revert i w. induction fuel as [|fuel IH]; intros i w; cbn [adopt_loop]; [apply good_refl|].
  good_solve.
Qed.
#[local] Hint Resolve good_adopt_loop : good.

Lemma good_adoptWarmSandbox u claim pool w : good w (adoptWarmSandbox env u claim pool w).1.
Proof. unfold adoptWarmSandbox. good_solve. Qed.

Lemma built_kind tmpl ns name gname owner ok labels env' vct pm u :
  buildSandbox tmpl ns name gname owner ok labels env' vct pm = Ok u → GetKind u ≠ "".
Proof.
  unfold buildSandbox. destruct (injectEnv _ _ _); [|done]. cbn. destruct (if decide _ then _ else _); [|done].
  cbn. destruct (NewSandbox _ _ _) as [v|] eqn:E; [|done]. intros [= <-].
  apply new_sandbox_meta in E as (_&_&_&_&_&_&->&_). done.
Qed.

Lemma good_cold_create u claim tmpl w : good w (cold_create u claim tmpl w).1.
Proof.
  unfold cold_create. destruct (buildSandbox _ _ _ _ _ _ _ _ _ _) as [sb|] eqn:E; [|apply good_refl].
  apply built_kind in E. pose proof (good_create SandboxGVR sb w E) as G.
  destruct (sto _ w) as [w1 [v|e]]; [done|]. eapply good_trans; [exact G|]. good_solve.
Qed.
#[local] Hint Resolve good_adoptWarmSandbox good_cold_create : good.

Lemma good_getOrCreateSandbox u claim tmpl pool w : good w (getOrCreateSandbox env u claim tmpl pool w).1.
Proof. unfold getOrCreateSandbox. good_solve. Qed.

Lemma good_claimNotReady u claim reason msg w : good w (claimNotReady u claim reason msg w).1.
Proof. unfold claimNotReady. good_solve. Qed.

Lemma good_handleClaimExpiry u claim w : good w (handleClaimExpiry u claim w).1.
Proof. unfold handleClaimExpiry. good_solve. Qed.

Lemma good_mirror_sandbox u claim sbU b w : good w (mirror_sandbox u claim sbU b w).1.
Proof. unfold mirror_sandbox, stampClaimSandboxAnnotation. good_solve. Qed.
#[local] Hint Resolve good_getOrCreateSandbox good_claimNotReady good_handleClaimExpiry good_mirror_sandbox : good.

Lemma good_reconcileClaim ns name w : good w (reconcileClaim env ns name w).1.
Proof. unfold reconcileClaim. good_solve. Qed.
End claim.

Lemma good_create_members u tmpl ns name labels n w : good w (create_members u tmpl ns name labels n w).1.
Proof.
  revert w. induction n as [|n IH]; intros w; cbn [create_members]; [apply good_refl|].
  destruct (buildSandbox _ _ _ _ _ _ _ _ _ _) as [sb|] eqn:E; [|apply good_refl].
  apply built_kind in E. pose proof (good_create SandboxGVR sb w E) as G.
  destruct (sto _ w) as [w1 [v|e]]; [|done]. eapply good_trans; [exact G|apply IH].
Qed.

Lemma good_delete_members ns mine n w : good w (delete_members ns mine n w).1.
Proof. unfold delete_members. apply good_foldl. intros. unfold delete_member. good_solve. Qed.
#[local] Hint Resolve good_create_members good_delete_members : good.

Lemma good_resize u name ns tmpl tn mine desired w : good w (resize u name ns tmpl tn mine desired w).1.
Proof. unfold resize. good_solve. Qed.
#[local] Hint Resolve good_resize : good.

Lemma good_reconcileWarmPool ns name w : good w (reconcileWarmPool ns name w).1.
Proof. unfold reconcileWarmPool. good_solve. Qed.
End reconcilers.
