(* ===== verification/System.v ===== *)
(** The whole server: API requests, worker passes, container events, watches,
    the router's objects and crashes, in any order.

    [run w0 log w] is an execution from [w0] whose steps committed the writes of
    [log].  Whatever the order of its steps, the store is at every moment a
    well-formed image of the log and the database behind it is enough to rebuild
    it. *)

From S2P Require Import Prelude GoStrings K8s Apis Selectors Store StoreFacts Patch StoreSpec Persist.
From S2P Require Import Watch WatchSpec Concrete Recovery Core Driver Build Reconciler ConcreteApi.
From S2P Require Import Pvc Sandbox Claim WarmPool Manager Mux Facade FacadeSpec FacadeApi Config VRouter App AppSpec Commits.
From S2P Require Import Scenarios.
Local Open Scope string_scope.

(** ** The API, the start-up and the watches are good *)

Section api.
Context {U P D : Type} `{UnstructuredLaws U} `{!Codec U, !CodecLaws U} `{Persister P}.
Context `{Oracle} `{GoRuntime} `{PatchLib} `{SelectorLib} `{StdJson}.
Context `{!Converter U, !ConverterLaws U} `{Driver D} `{ConditionLib}.
Context `{!RouterConverter U, !RouterConverterLaws U} `{!BootConverter U, !BootConverterLaws U}.
#[local] Notation World := (world U P D).
Implicit Types (w : World) (g : GVR) (u : U) (s : Store U P) (rq : rest_request).

#[local] Hint Resolve good_foldl : good.

Lemma subscribe_frame g s : frame s (subscribe g s).
Proof. constructor; try done. apply subscribe_wf. Qed.

Lemma pump_frame p s p' s' : pump_next p s = Some (p', s') → frame s s'.
Proof.
  unfold pump_next. destruct (p_done p); [done|]. destruct (p_boot p); [|intros [= _ <-]; by constructor].
  destruct (chans s !! p_id p) as [[[|e buf] closed]|] eqn:Hc; [|intros [= _ <-]|done].
  - destruct closed; [|done]. intros [= _ <-]. constructor; try done. apply removeSub_wf.
  - constructor; try done. intros W. by eapply take_wf.
Qed.

Lemma good_frame s w : frame (w_store w) s → good w (put_store s w).
Proof. intros F _. exists []. eapply commits_frame; [exact F|constructor]. Qed.

Lemma good_watch g opts w : good w (sto (Watch g opts) w).1.
Proof.
  unfold sto, Watch. destruct (meta (w_store w) g); [|by apply good_same].
  apply good_frame, subscribe_frame.
Qed.

Lemma good_ensureNamespace name w : good w (ensureNamespace name w).
Proof.
  unfold ensureNamespace. destruct (decide _); [good_solve|]. destruct (Get _ _ _ _); [good_solve|].
  cbv zeta. apply good_create. by uget_simpl.
Qed.
#[local] Hint Resolve good_watch good_ensureNamespace : good.

Lemma decoded_kind rq u : decodeObject rq = Ok u → GetKind u ≠ "".
Proof.
  unfold decodeObject. destruct (read_body rq); [|done]. destruct (UnmarshalJSON _) eqn:E; [|done].
  intros [= <-]. by eapply unmarshal_kind.
Qed.

Lemma good_api_create rq r ns w : good w (create rq r ns w).1.
Proof.
  unfold create. destruct (decodeObject rq) as [u|] eqn:E; [|apply good_refl]. apply decoded_kind in E.
  destruct (admit_namespace r ns u) as [u1|] eqn:Ha; [|apply good_refl].
  assert (GetKind u1 = GetKind u) as Hk.
  { destruct (admit_namespace_spec _ _ _ _ Ha) as [[-> | ->] _]; [done|by uget_simpl]. }
  assert (GetKind (admit_defaults r u1) ≠ "") as Hd.
  { rewrite <-Hk in E. unfold admit_defaults. destruct (r_HasStatus r); repeat case_decide; uget_simpl; done. }
  pose proof (good_create (r_GVR r) _ w Hd) as G.
  destruct (sto _ w) as [w1 [v|e]]; [|done]. eapply good_trans; [exact G|]. good_solve.
Qed.

Lemma good_api_update rq r ns name st w : good w (update rq r ns name st w).1.
Proof.
  unfold update. destruct (decodeObject rq) as [u|] eqn:E; [|apply good_refl]. apply decoded_kind in E.
  cbv zeta. match goal with |- context [Store.Update _ ?u1 _] => set (v := u1) end.
  assert (GetKind v ≠ "") as Hv by (subst v; case_match; uget_simpl; exact E).
  pose proof (good_update (r_GVR r) v st w ltac:(done)) as G. by destruct (sto _ w).
Qed.

Lemma good_api_patch rq r ns name st w : good w (patch rq r ns name st w).1.
Proof. unfold patch. good_solve. Qed.

Lemma good_delete_object r ns name w : good w (delete_object (U := U) r ns name w).1.
Proof. unfold delete_object. good_solve. Qed.

Context (reg : Registry.t) (env : World → World) (Henv : ∀ w, good w (env w)).

Lemma good_handleScale rq r ns name w : good w (handleScale env rq r ns name w).1.
Proof.
  unfold handleScale. destruct (Get _ _ _ _) as [u|] eqn:Hg; [|apply good_refl].
  repeat (destruct (decide _); [apply good_refl|]). destruct (read_body rq); [|apply good_refl].
  destruct (extractReplicas _) as [k|]; [|apply good_refl]. cbv zeta.
  assert (good w (sto (Store.Update (r_GVR r) (uset FSpec (set_replicas k (SpecOf u)) u) false) (env w)).1) as G.
  { intros K. apply (good_trans _ (env w)); [apply Henv| |done].
    apply good_update. intros _ _. uget_simpl. by apply (kind_read _ _ _ _ _ K Hg). }
  by destruct (sto _ _) as [w1 [v|e]].
Qed.

Lemma good_watch_request rq r ns w : good w (Facade.watch rq r ns w).1.
Proof. unfold Facade.watch. good_solve. Qed.

Lemma good_list_objects rq r ns w : good w (list_objects (U := U) rq r ns w).1.
Proof. unfold list_objects. good_solve. Qed.
#[local] Hint Resolve good_api_create good_api_update good_api_patch good_delete_object good_handleScale
  good_watch_request good_list_objects : good.

Lemma good_api pf path rq w : good w (api reg env pf path rq w).1.
Proof.
  unfold api, handleCollection, handleItem, get_object.
  destruct (serve _ _ _) as [ep vs| |]; [|apply good_refl..]. destruct ep; try apply good_refl.
  all: good_solve.
Qed.

(** ** Start-up *)

Lemma good_ensure g ns name o w : (∀ u, o = Some u → GetKind u ≠ "") →
  good w (put_store (ensure g ns name o (w_store w)) w).
Proof.
  intros Ho. unfold ensure. destruct (Get _ _ _ _); [by apply good_same|].
  destruct o as [u|]; [|by apply good_same].
  pose proof (good_create g u w (Ho u eq_refl)) as G. unfold sto in G.
  by destruct (Create _ _ _).
Qed.

Lemma good_EnsureNamespace ns w : good w (put_store (EnsureNamespace (w_store w) ns) w).
Proof.
  unfold EnsureNamespace, ensurePod, ensureService, ensureEndpointSlice.
  set (w1 := put_store (ensure PodGVR ns PodName (pod_to_u (router_pod ns)) (w_store w)) w).
  set (w2 := put_store (ensure ServiceGVR ns ServiceName (service_to_u (router_service ns)) (w_store w1)) w1).
  apply (good_trans _ w1); [apply good_ensure; intros u E; by rewrite (pod_kind _ _ E)|].
  apply (good_trans _ w2); [apply good_ensure; intros u E; by rewrite (service_kind _ _ E)|].
  apply (good_ensure _ _ _ _ w2). intros u E. by rewrite (slice_kind _ _ E).
Qed.

Lemma good_startVirtualRouter evs w : good w (put_store (startVirtualRouter (w_store w) evs) w).
Proof.
  unfold startVirtualRouter, follow_namespaces.
  eapply good_trans; [apply (good_EnsureNamespace "default")|].
  match goal with |- good ?w1 _ => eapply good_trans; [apply (good_EnsureNamespace SystemNamespace w1)|] end.
  match goal with |- good ?w1 _ => change w1 with (put_store (w_store w1) w); set (w2 := w_store w1) end.
  cbn [w_store put_store] in w2. subst w2. generalize (EnsureNamespace (EnsureNamespace (w_store w) "default") SystemNamespace).
  induction evs as [|e evs IH]; intros s; [by apply good_same|]. cbn [foldl].
  eapply good_trans; [|apply IH]. apply (good_EnsureNamespace _ (put_store s w)).
Qed.

Lemma good_bootstrapObjects cfg w : good w (put_store (bootstrapObjects cfg (w_store w)) w).
Proof.
  unfold bootstrapObjects.
  set (w1 := put_store (ensure TemplateGVR "default" "default" (template_to_u (default_template cfg)) (w_store w)) w).
  apply (good_trans _ w1); [apply good_ensure; intros u E; by rewrite (template_kind _ _ E)|].
  apply (good_ensure _ _ _ _ w1). intros u E. by rewrite (pool_kind _ _ E).
Qed.

Lemma good_bootAdoption w : good w (bootAdoption w).
Proof.
  unfold bootAdoption. good_solve. apply good_foldl. intros w2 c. unfold adopt_one. good_solve.
Qed.

Lemma good_Run_startup cfg b w : good w (Run_startup cfg b w).
Proof.
  unfold Run_startup. cbv zeta. set (w1 := if b then bootAdoption w else w).
  set (w2 := if Config.Bootstrap cfg then _ else w1). apply (good_trans _ w1); [|apply (good_trans _ w2)].
  - unfold w1. destruct b; [apply good_bootAdoption|apply good_refl].
  - unfold w2. destruct (Config.Bootstrap cfg); [apply good_bootstrapObjects|apply good_refl].
  - apply good_startVirtualRouter.
Qed.
End api.

(** ** Executions *)

Section system.
Context {U DB D : Type} `{UnstructuredLaws U} `{!Codec U, !CodecLaws U}.
Context `{Bolt DB} `{!BoltLaws DB}.
Context `{Oracle} `{GoRuntime} `{PatchLib} `{SelectorLib} `{StdJson}.
Context `{!Converter U, !ConverterLaws U} `{Driver D} `{ConditionLib} `{SandboxAPI} `{ErrorText}.
Context `{!RouterConverter U, !RouterConverterLaws U} `{!BootConverter U, !BootConverterLaws U}.
Context (reg : Registry.t) (rs : list Resource) (cfg : Reconcilers).
#[local] Notation World := (world U DB D).
Implicit Types (w : World) (s : Store U DB) (log : wlog U).

(** One step of the server.  [other] is what its other goroutines may do between
    a handler's read and its write, where the code has such a window.  Containers
    and clocks change on their own. *)
Inductive sys_step (other : relation World) : relation World :=
| sys_request env pf path rq w : (∀ w, other w (env w)) →
    sys_step other w (api reg env pf path rq w).1
| sys_worker env c k w : (∀ i w, other w (env i w)) → c ∈ Wire cfg env NewManager →
    sys_step other w (process c k w).1
| sys_startup acfg has_driver w : sys_step other w (Run_startup acfg has_driver w)
| sys_namespace ns w : sys_step other w (put_store (EnsureNamespace (w_store w) ns) w)
| sys_pump p p' s' w : pump_next p (w_store w) = Some (p', s') → sys_step other w (put_store s' w)
| sys_cancel p w : sys_step other w (put_store (pump_cancel p (w_store w)).2 w)
| sys_outside d now wall w : sys_step other w (mkWorld (w_store w) d now wall).

(** Windows nested [n] deep. *)
Fixpoint nested (n : nat) : relation World :=
  match n with 0 => sys_step (=) | S n => sys_step (rtc (nested n)) end.
Definition system : relation World := λ w w', ∃ n, nested n w w'.

(** A run of the server, with the writes it committed and what was saved of each,
    as long as the version counter does not wrap; a crash loses the memory and
    restarts from the database, which has the saved writes. *)
Inductive execution w0 : wlog U → World → Prop :=
| ex_start : execution w0 [] w0
| ex_step log w w' log' : execution w0 log w → system w w' →
    commits (w_store w) log' (w_store w') → (rv (w_store w) + Z.of_nat (length log') < u64_mod)%Z →
    execution w0 (log ++ log') w'
| ex_crash log w db s' d now wall : execution w0 log w → persist (w_store w) = Some db →
    Restart rs db = (s', None) → execution w0 (reloaded log) (mkWorld s' d now wall).

Lemma good_process env c k w :
  (∀ i w, good w (env i w)) → c ∈ Wire cfg env NewManager → good w (process c k w).1.
Proof.
  intros Henv Hc. unfold process. destruct (splitKey k) as [ns name].
  assert (good w (c_reconcile c ns name w).1) as G; [|by destruct (c_reconcile c ns name w)].
  unfold Wire, Register, NewManager in Hc. cbn in Hc.
  repeat (apply elem_of_cons in Hc as [-> | Hc]; cbn [c_reconcile]).
  - by apply good_reconcileSandbox.
  - by apply good_reconcileClaim.
  - by apply good_reconcileWarmPool.
  - apply good_refl.
  - by apply good_reconcilePVC.
  - by apply elem_of_nil in Hc.
Qed.

Lemma step_good other w w' : (∀ w w', other w w' → good w w') → sys_step other w w' → good w w'.
Proof.
  intros Ho S. destruct S as [env pf path rq w He|env c k w He Hc| | |p p' s' w Hp|p w|].
  - apply good_api. intros w1. apply Ho, He.
  - apply (good_process env); [|done]. intros i w1. apply Ho, He.
  - by apply good_Run_startup.
  - by apply good_EnsureNamespace.
  - apply good_frame. by eapply pump_frame.
  - apply good_frame. constructor; try done. apply removeSub_wf.
  - by apply good_same.
Qed.

Lemma system_good w w' : system w w' → good w w'.
Proof.
  intros [n Hn]. revert w w' Hn. induction n as [|n IH]; intros w w'; apply step_good.
  - intros ? ? <-. apply good_refl.
  - induction 1 as [|w1 w2 w3 Hs _ IH']; [apply good_refl|]. eapply good_trans; [by apply IH|done].
Qed.

(** ** What an execution keeps *)

Lemma frame_sound s s' log : frame s s' → sound rs log s → sound rs log s'.
Proof.
  intros F S. constructor; rewrite ?(fr_persist _ _ F), ?(fr_res _ _ F), ?(fr_rv _ _ F); try apply S.
  - by apply (fr_wf _ _ F), S.
  - intros g k. rewrite (frame_lookup _ _ _ _ F). by apply S.
Qed.

Lemma commits_sound s log' s' log :
  commits s log' s' → sound rs log s → (rv s + Z.of_nat (length log') < u64_mod)%Z → sound rs (log ++ log') s'.
Proof.
  intros C. revert log. induction C as [s|s w log' s' Hv Hd _ IH|s s1 log' s' F _ IH]; intros log S Hlen.
  - by rewrite app_nil_r.
  - cbn [length] in Hlen. assert (room s) as Hroom by (unfold room; lia).
    pose proof (wf_range _ (so_wf _ _ _ S)) as Hrange.
    change ((w, saved_form s w) :: log')%list with ([(w, saved_form s w)] ++ log')%list. rewrite app_assoc. apply IH.
    + by apply write_sound.
    + rewrite rv_apply, next_rv_eq by (done || lia). lia.
  - apply IH; [by eapply frame_sound|]. by rewrite (fr_rv _ _ F).
Qed.

(** A server that starts on an empty database. *)
Definition fresh w : Prop := ∃ cap db,
  w_store w = RegisterAll rs (New (Some db) cap 0) ∧ bolt_view db = ∅.

Context (buckets : ∀ g, g ∈ r_GVR <$> rs → bucket_ok g).

Lemma execution_sound w0 log w : fresh w0 → execution w0 log w → sound rs log (w_store w).
Proof.
  intros F E. induction E as [|log w w' log' _ IH _ C Hlen|log w db s' d now wall _ IH Hp Hre].
  - destruct F as (cap & db & -> & Hdb). by apply fresh_store_sound.
  - by eapply commits_sound.
  - cbn. destruct (restart_sound _ _ _ IH) as (db' & s1 & Hp' & Hre' & S & _).
    rewrite Hp in Hp'. injection Hp' as <-. rewrite Hre in Hre'. by injection Hre' as <-.
Qed.


(** C4. Every stored object is accounted for: in every state of every execution
    from an empty database (crashes, failed transactions and interleavings
    included, as long as the version counter has not wrapped) an object of the
    store belongs to a registered resource, has a kind, and is the result of the
    last write under its key; its resourceVersion is positive, at most the
    store's, above that of every earlier write of the log and below that of every
    later one; two objects never share a version, and the history and the buffers
    of all watches stay within their capacity. *)
Theorem system_well_formed w0 log w :
  fresh w0 → execution w0 log w →
  (∀ g k u, lookup_obj (w_store w) g k = Some u →
    is_Some (resources (w_store w) !! g) ∧ GetKind u ≠ "" ∧
    ∃ i wr n, acknowledged log !! i = Some wr ∧ GetResourceVersion u = format_uint n ∧ (0 < n ≤ rv (w_store w))%Z ∧
      w_gvr wr = g ∧ w_key wr = k ∧ w_result wr = Some u ∧
      (∀ j wr', (i < j)%nat → acknowledged log !! j = Some wr' → ¬ (w_gvr wr' = g ∧ w_key wr' = k)) ∧
      (∀ j wr', acknowledged log !! j = Some wr' →
         ((j < i)%nat → (w_rv wr' < n)%Z) ∧ ((i < j)%nat → (n < w_rv wr')%Z))) ∧
  (∀ g k u g' k' u', lookup_obj (w_store w) g k = Some u → lookup_obj (w_store w) g' k' = Some u' →
    GetResourceVersion u = GetResourceVersion u' → g = g' ∧ k = k') ∧
  (length (history (w_store w)) ≤ histCap (w_store w))%nat ∧
  (∀ id c, chans (w_store w) !! id = Some c → (length (ch_buf c) ≤ sub_cap)%nat).
Proof.
  intros F E. pose proof (execution_sound _ _ _ F E) as S. pose proof (so_wf _ _ _ S) as W.
  split_and!; [| |apply W|by intros id c [_ Hc]%(wf_chans _ W)].
  - intros g k u Hu. split; [by apply (wf_obj _ W) in Hu as [? _]|]. split; [by eapply sound_kind|].
    rewrite (so_obj _ _ _ S) in Hu. destruct (replay_last _ _ _ _ Hu) as (i & wr & Hi & Hg & Hk & Hres & Hl).
    destruct (proj1 (Forall_lookup _ _) (so_entries _ _ _ S) _ _ Hi) as (_ & Hv & _).
    pose proof (proj1 (Forall_lookup _ _) (so_issued _ _ _ S) _ _ Hi) as Hn. cbn beta in Hn.
    exists i, wr, (w_rv wr). rewrite <-(result_obj _ _ Hres) at 1. split_and!; [done|done|lia..|done|done|done|done|].
    intros j wr' Hj. split; intros Hlt; by eapply (so_ordered _ _ _ S).
  - apply (wf_uniq _ W).
Qed.
End system.

(** ** Witness: a namespace is posted, then the server crashes and restarts *)

#[export] Instance demo_boot_converter : BootConverter cobj := {
  template_to_u := λ t, Some (demo_cr "SandboxTemplate" (te_Namespace t) (te_Name t) "" [] GNil);
  pool_to_u := λ p, Some (demo_cr "SandboxWarmPool" (po_Namespace p) (po_Name p) "" [] GNil);
}.

#[export] Instance demo_boot_laws : BootConverterLaws cobj.
Proof. by constructor; intros p u [= <-]. Qed.

Definition demo_fresh : demo_world :=
  mkWorld (RegisterAll Registry.default_resources (New (Some (mkDB ∅)) 4 0)) Fake.NewFakeDriver 0 0.

Definition demo_request : rest_request :=
  demo_rest "POST" (default "" (MarshalJSON (demo_obj "Namespace" "" "team" ""))).

Definition demo_after_post : demo_world :=
  (api Registry.NewDefaultRegistry (λ w, w) true ["api"; "v1"; "namespaces"] demo_request demo_fresh).1.

Definition demo_team : cobj := demo_obj "Namespace" "" "team" "".
Notation demo_created :=
  (Create (r_GVR namespace_resource) (admit_defaults namespace_resource demo_team) (w_store demo_fresh)).

(** A POST to a cluster-scoped collection, given what the store does. *)
Lemma post_cluster rq r u w s v :
  decodeObject rq = Ok u → r_Namespaced r = false → GetNamespace v = "" →
  Create (r_GVR r) (admit_defaults r u) (w_store w) = (s, Ok v) →
  (create rq r "" w).1 = put_store s (w : demo_world).
Proof.
  intros Hd Hr Hns Hc. unfold create, admit_namespace, sto. rewrite Hd, Hr. cbn. rewrite Hc. cbn.
  unfold ensureNamespace. by rewrite decide_True by done.
Qed.

Lemma demo_post_eq : demo_after_post = put_store demo_created.1 demo_fresh.
Proof.
  assert (GetNamespace (demo_ok demo_created) = "") as Hns by (vm_compute; reflexivity).
  assert (is_ok demo_created.2 = true) as Hok by (vm_compute; reflexivity).
  apply demo_ok_pair in Hok.
  rewrite <-(post_cluster demo_request namespace_resource demo_team demo_fresh _ _
    ltac:(vm_compute; reflexivity) eq_refl Hns Hok).
  unfold demo_after_post, api.
  assert (serve (buildMux true) (rest_Method demo_request) ["api"; "v1"; "namespaces"]
    = Found (ECollection false) {["resource" := "namespaces"]}) as -> by (vm_compute; reflexivity).
  unfold handleCollection.
  assert (resolveByPath Registry.NewDefaultRegistry {["resource" := "namespaces"]} = Some namespace_resource)
    as -> by (vm_compute; reflexivity).
  rewrite decide_False by discriminate. rewrite decide_True by reflexivity.
  by destruct (create _ _ _ _).
Qed.

Lemma demo_post_commits : ∃ w, commits (w_store demo_fresh) [w] (w_store demo_after_post) ∧ is_Some w.2.
Proof.
  rewrite demo_post_eq. cbn [w_store put_store].
  assert (is_ok demo_created.2 = true) as Hok by (vm_compute; reflexivity).
  assert (GetKind (demo_ok demo_created) = "Namespace") as Hk by (vm_compute; reflexivity).
  revert Hok Hk. destruct demo_created as [s' r] eqn:E. intros Hok Hk.
  apply Create_cases in E as [(e&->&_)|(rm&name&u1&Hm&Hr&Hv&->&->)]; [discriminate Hok|].
  eexists. split; [eapply commits_write; [exact Hv| |apply commits_nil]|apply demo_saved; eexists; vm_compute; reflexivity].
  unfold demo_ok in Hk. cbn [ok_val default snd] in Hk. intros Hno.
  discriminate (eq_trans (eq_sym Hno) Hk).
Qed.

Definition demo_team_stored : bool :=
  match lookup_obj (w_store demo_after_post) NamespaceGVR (key false "" "team") with Some _ => true | None => false end.

(** The execution: the server starts, the request is served. *)
Lemma demo_execution wr : commits (w_store demo_fresh) [wr] (w_store demo_after_post) →
  execution Registry.NewDefaultRegistry Registry.default_resources demo_rec demo_fresh [wr] demo_after_post.
Proof.
  intros C. apply (ex_step _ _ _ _ [] demo_fresh demo_after_post [wr]); [constructor| |exact C|reflexivity].
  exists 0%nat. apply (sys_request _ _ _ (λ w, w) true ["api"; "v1"; "namespaces"] demo_request demo_fresh). reflexivity.
Qed.

Lemma demo_fresh_ok : fresh Registry.default_resources demo_fresh.
Proof. exists 4%Z, (mkDB ∅). split; reflexivity. Qed.

Lemma demo_stored_team : is_Some (lookup_obj (w_store demo_after_post) NamespaceGVR (key false "" "team")).
Proof.
  assert (demo_team_stored = true) as Ht by (unfold demo_team_stored; rewrite demo_post_eq; vm_compute; reflexivity).
  unfold demo_team_stored in Ht. destruct (lookup_obj _ _ _); [eexists; reflexivity|discriminate].
Qed.


(** Its version is that of the only write. *)
Lemma system_well_formed_witness :
  ∃ u n, lookup_obj (w_store demo_after_post) NamespaceGVR (key false "" "team") = Some u ∧
    GetKind u ≠ "" ∧ GetResourceVersion u = format_uint n ∧ (0 < n ≤ rv (w_store demo_after_post))%Z.
Proof.
  destruct demo_post_commits as (wr & C & _). destruct demo_stored_team as [u Hu].
  destruct (system_well_formed Registry.NewDefaultRegistry Registry.default_resources demo_rec
    default_buckets_ok demo_fresh [wr] demo_after_post demo_fresh_ok (demo_execution wr C)) as (Ho & _).
  destruct (Ho _ _ _ Hu) as (_ & Hk & i & wr' & n & _ & Hv & Hn & _). exists u, n.
  split; [exact Hu|]. split; [exact Hk|]. split; [exact Hv|exact Hn].
Defined.
