(* ===== verification/Serve.v ===== *)
(** The process: [New] and [Run] of [internal/app/app.go] from the opened
    database to the shutdown, and the commands [doctor], [status] and
    [kubeconfig] of [cmd/lasd].

    What the operating system answers (a listener, a directory, the Docker
    socket) is an argument; what the API serves before the start-up, what the
    server does between its start-up and its shutdown, and what its reconcilers
    and handlers still do during the shutdown, which does not wait for them, are
    any changes [early], [during] and [env] of the world. *)

From S2P Require Import Prelude GoStrings K8s Apis Selectors Store StoreFacts Patch StoreSpec Persist.
From S2P Require Import Watch WatchSpec Concrete Recovery Core Driver Build Reconciler ConcreteApi.
From S2P Require Import Claim Mux Facade Runtime RuntimeSpec Config VRouter App AppSpec Commits Scenarios System.
Local Open Scope string_scope.

(** [driver.Ping] *)
Class Pinger (D : Type) := Ping : D → D * res driver_error ().

Inductive app_error :=
| DataDirError (e : string)
| OpenError (e : string)
| RestoreError (e : api_error)
| ListenError (addr e : string)
| ListenRouterError (addr e : string)
| ServeError (e : string).

Section serve.
Context {U DB D F : Type} `{UnstructuredLaws U} `{!Codec U, !CodecLaws U}.
Context `{Bolt DB} `{!BoltLaws DB}.
Context `{Oracle} `{GoRuntime} `{PatchLib} `{Driver D} `{!Pinger D}.
Context `{!RouterConverter U, !BootConverter U} `{FileSystem F} `{KubeEncoder}.
#[local] Notation World := (world U DB D).
Implicit Types (w : World) (cfg : Config.t).

Record App := mkApp {
  a_cfg : Config.t;
  a_store : Store U DB;
  a_driver : option D;
  a_recon : option Reconcilers;
}.

(** The reconcilers' configuration. *)
Definition recon_of cfg : Reconcilers :=
  mkReconcilers (Config.ServerPort cfg) (Config.RuntimeImage cfg) (Config.RuntimeBuildContext cfg)
    (Config.ClusterDomain cfg) "".

(** [New]: without a reachable Docker daemon the control plane still serves. *)
Definition New_app cfg (mkdir : res string ()) (opened : res string DB) (docker : res string D)
  : res app_error App :=
  match mkdir with
  | Err e => Err (DataDirError e)
  | Ok _ =>
      match opened with
      | Err e => Err (OpenError e)
      | Ok db =>
          match Restart Registry.default_resources db with
          | (_, Some e) => Err (RestoreError e)
          | (st, None) =>
              Ok (match docker with
                  | Err _ => mkApp cfg st None None
                  | Ok d => match Ping d with
                            | (d, Ok _) => mkApp cfg st (Some d) (Some (recon_of cfg))
                            | (_, Err _) => mkApp cfg st None None
                            end
                  end)
          end
      end
  end.

Definition api_addr cfg : string := JoinHostPort (Config.Bind cfg) (itoa (Config.APIPort cfg)).
Definition router_addr cfg : string := JoinHostPort (Config.Bind cfg) (itoa (Config.RouterPort cfg)).

(** [a.close], which does nothing to a missing driver; when its context has
    [expired], the driver's listings fail and nothing is removed. *)
Definition close_app cfg (has_driver expired : bool) (env : nat → World → World) w : World :=
  if has_driver then if expired then w else close cfg env w else w.

(** [Run]: [listen] is the error of listening on an address, [failed] that of a
    server while it runs.  After an interrupt the servers have ten seconds to
    finish their requests, a watch being one; [drained] says whether they did,
    and if not the context that [a.close] gets has expired.  Nothing waits for the
    reconcilers, and after a failure nothing even tells them to stop: they go on
    between the steps of [a.close], as [env]. *)
Definition Run cfg (has_driver : bool) (listen : string → option string) (early during : World → World)
  (env : nat → World → World) (failed : option string) (drained : bool) (f : F) w : F * World * res app_error () :=
  let f := (Write (Config.APIServerURL cfg) (Config.KubeconfigPath cfg) f).1 in
  match listen (api_addr cfg) with
  | Some e => (f, w, Err (ListenError (api_addr cfg) e))
  | None =>
      match listen (router_addr cfg) with
      | Some e => (f, close_app cfg has_driver false env (early w), Err (ListenRouterError (router_addr cfg) e))
      | None =>
          let w := during (Run_startup cfg has_driver (early w)) in
          match failed with
          | Some e => (f, close_app cfg has_driver false env w, Err (ServeError e))
          | None => (f, close_app cfg has_driver (negb drained) env w, Ok ())
          end
      end
  end.

(** ** Commands *)

(** [doctor]: the lines it prints, marked by whether the check passed, and
    whether it fails; a missing kubectl is only a remark. *)
Inductive finding := DockerClient | DockerDaemon | Kubectl | PortFree (addr : string) | DataDirOk (dir : string).
Definition doctor cfg (docker : res string D) (kubectl : bool) (listen : string → option string)
  (mkdir : res string ()) : list (finding * bool) * bool :=
  let d := match docker with
           | Err _ => (DockerClient, false)
           | Ok d => (DockerDaemon, is_ok (Ping d).2)
           end in
  let port p := let addr := JoinHostPort (Config.Bind cfg) (itoa p) in
                (PortFree addr, bool_decide (listen addr = None)) in
  let checks := [port (Config.APIPort cfg); port (Config.RouterPort cfg);
                 (DataDirOk (Config.DataDir cfg), is_ok mkdir)] in
  (d :: (Kubectl, kubectl) :: checks, negb (d.2 && forallb snd checks)).

(** [status]: the number of objects of the four kinds, zero where listing
    fails, and of containers when there is a driver. *)
Definition status_gvrs : list GVR := [TemplateGVR; WarmPoolGVR; SandboxClaimGVR; SandboxGVR].
Definition status (list_ : GVR → option (list U)) (docker : option D) : list nat * option nat :=
  ((λ g, match list_ g with Some l => length l | None => 0 end) <$> status_gvrs,
   (λ d, length (default [] (ok_val (ListManaged d).2))) <$> docker).

(** [kubeconfig]: what it prints, or its error. *)
Definition kubeconfig cfg (write print_export : bool) (f : F) : F * res string string :=
  let server := Config.APIServerURL cfg in
  let '(f, r) := if write then Write server (Config.KubeconfigPath cfg) f else (f, Ok ()) in
  match r with
  | Err e => (f, Err e)
  | Ok _ =>
      if print_export then (f, Ok ("export KUBECONFIG=" +:+ Config.KubeconfigPath cfg))
      else (f, Bytes server)
  end.

(** [serve] defaults to the build context of a source checkout, before the flags
    are read. *)
Definition serve_config cfg (dockerfile : bool) : Config.t :=
  if decide (Config.RuntimeBuildContext cfg = "") then
    if dockerfile then
      Config.mk (Config.Bind cfg) (Config.APIPort cfg) (Config.RouterPort cfg) (Config.DataDir cfg)
        (Config.EphemeralOnShutdown cfg) (Config.RuntimeImage cfg) "runtime" (Config.ServerPort cfg)
        (Config.ClusterDomain cfg) (Config.Bootstrap cfg)
    else cfg
  else cfg.
End serve.
Arguments App U DB D : clear implicits.

(** ** The process is correct *)

Section spec.
Context {U DB D F : Type} `{UnstructuredLaws U} `{!Codec U, !CodecLaws U}.
Context `{Bolt DB} `{!BoltLaws DB}.
Context `{Oracle} `{GoRuntime} `{PatchLib} `{SelectorLib} `{StdJson}.
Context `{!Converter U, !ConverterLaws U} `{ConditionLib} `{SandboxAPI} `{ErrorText}.
Context `{DriverLaws D, !ListingLaws D, !Pinger D}.
Context `{!RouterConverter U, !RouterConverterLaws U} `{!BootConverter U, !BootConverterLaws U}.
Context `{FileSystem F} `{KubeEncoder}.
#[local] Notation World := (world U DB D).
Implicit Types (w : World) (cfg : Config.t) (f : F).

Lemma startup_extends cfg w l : listing (w_drv w) l → labelled (w_drv w) →
  extends (w_store w) (w_store (Run_startup cfg true w)) ∧
  w_drv (Run_startup cfg true w) = w_drv (bootAdoption w).
Proof.
  intros Hl Hlab. destruct (adoption_containers w l Hl Hlab) as (Hs & _). unfold Run_startup. cbv zeta.
  set (w1 := bootAdoption w) in *. split; [|by destruct (Config.Bootstrap cfg)]. cbn [w_store put_store].
  assert (∀ s : Store U DB, extends s (startVirtualRouter s [])) as Hr.
  { intros s. unfold startVirtualRouter. etrans; [apply EnsureNamespace_extends|].
    etrans; [apply EnsureNamespace_extends|apply follow_extends]. }
  etrans; [|apply Hr]. rewrite <-Hs. destruct (Config.Bootstrap cfg); [apply bootstrap_extends|done].
Qed.


End spec.

(** ** Witnesses *)

#[export] Instance fake_pinger : Pinger Fake.FakeDriver := λ d,
  (d, match Fake.Ping d with None => Ok () | Some e => Err (DriverFailed e) end).
#[export] Instance demo_kube : KubeEncoder := λ k, Ok (kc_CurrentContext k).
#[export] Instance demo_environment : Environment :=
  {| Getenv := λ _, ""; UserHomeDir := Ok "/home/u"; TempDir := "/tmp" |}.

Definition demo_ephemeral : Config.t :=
  Config.mk "127.0.0.1" 6644 8880 "/var/lib/lasd" true "img" "" 8888 "cluster.local" true.



(** With a request still open at the deadline, an ephemeral server leaves its
    containers behind. *)
Example ephemeral_left_behind :
  is_Some (container_of (w_drv (Run demo_ephemeral true (λ _, None) (λ w, w)
    (λ w, put_drv demo_leftover w) (λ _ w, w) None false (∅ : gmap string string) demo_fresh).1.2) "default" "c").
Proof. vm_compute. eauto. Qed.

(** And so does one whose reconcilers start a container while it is removing
    them. *)
Lemma ephemeral_recreated :
  let env := λ (i : nat) (w : demo_world),
    if decide (i = 3%nat) then put_drv (Fake.create (demo_running "default" "c" "u2") (w_drv w)).1 w else w in
  is_Some (container_of (w_drv (Run demo_ephemeral true (λ _, None) (λ w, w)
    (λ w, put_drv demo_leftover w) env (Some "listener closed") false (∅ : gmap string string) demo_fresh).1.2) "default" "c").
Proof. vm_compute. eauto. Qed.
