(* ===== verification/DbFile.v ===== *)
(** The life of the database file: [OpenBolt], [flushLoop] and [Close] of
    [internal/store/persist.go].

    bbolt locks the file while a process has it open.  The persister sets
    [NoSync], so a transaction reaches the operating system and not the disk:
    it survives the death of the process, but a failure of the machine keeps it
    only if [Sync] has run since.  What such a failure leaves of a file with
    unsynced transactions, bbolt does not promise; here it leaves anything. *)

From S2P Require Import Prelude GoStrings K8s Apis Selectors Store StoreFacts Patch StoreSpec Persist.
From S2P Require Import Watch WatchSpec Concrete Recovery Core Driver Build Reconciler ConcreteApi.
From S2P Require Import Claim Mux Facade Runtime RuntimeSpec Config VRouter App AppSpec Commits Scenarios System Serve.
Local Open Scope string_scope.

Section file.
Context {DB : Type} `{Bolt DB}.

(** The content every process sees, the content the disk is known to hold, and
    the process that has the file open. *)
Record dbfile := mkFile { df_db : DB; df_disk : option DB; df_holder : option nat }.
Implicit Types (f : dbfile) (p q : nat).

(** [OpenBolt]: waiting for the lock ends in an error after two seconds; [io] is
    any other error of opening. *)
Definition OpenBolt p (io : option string) f : dbfile * res string DB :=
  match df_holder f with
  | Some _ => (f, Err "timeout")
  | None =>
      match io with
      | Some e => (f, Err e)
      | None => (mkFile (df_db f) (df_disk f) (Some p), Ok (df_db f))
      end
  end.

(** [db.Sync], whose error the callers drop. *)
Definition Sync (ok : bool) f : dbfile :=
  if ok then mkFile (df_db f) (Some (df_db f)) (df_holder f) else f.

(** One turn of [flushLoop]: whether it goes on. *)
Definition flush_turn (done sync_ok : bool) f : dbfile * bool :=
  if done then (f, false) else (Sync sync_ok f, true).

(** [Close]: the flusher is told to stop, then a last [Sync]. *)
Definition Close (sync_ok : bool) f : dbfile :=
  let f := Sync sync_ok f in mkFile (df_db f) (df_disk f) None.

(** A transaction, without a sync. *)
Inductive transaction := TSave (g : GVR) (k doc : string) (r : Z) | TRemove (g : GVR) (k : string) (r : Z).
Definition run_tx (t : transaction) (db : DB) : DB :=
  match t with TSave g k doc r => (SaveObject g k doc r db).1 | TRemove g k r => (RemoveObject g k r db).1 end.
Definition transact (t : transaction) f : dbfile := mkFile (run_tx t (df_db f)) None (df_holder f).

(** ** What happens to a file *)

Inductive fevent :=
| FOpen p (io : option string)
| FTransaction p (t : transaction)
| FTick p (sync_ok : bool)
| FClose p (sync_ok : bool)
| FKill p
| FPower.

Inductive fstep : fevent → dbfile → dbfile → Prop :=
| fs_open p io f : fstep (FOpen p io) f (OpenBolt p io f).1
| fs_transaction p t f : df_holder f = Some p → fstep (FTransaction p t) f (transact t f)
| fs_tick p ok f : df_holder f = Some p → fstep (FTick p ok) f (flush_turn false ok f).1
| fs_close p ok f : df_holder f = Some p → fstep (FClose p ok) f (Close ok f)
| fs_kill p f : df_holder f = Some p → fstep (FKill p) f (mkFile (df_db f) (df_disk f) None)
| fs_power f db : df_disk f = None ∨ df_disk f = Some db → fstep FPower f (mkFile db (Some db) None).

Inductive fpath : list fevent → dbfile → dbfile → Prop :=
| fp_nil f : fpath [] f f
| fp_cons e l f f1 f2 : fstep e f f1 → fpath l f1 f2 → fpath (e :: l) f f2.

Definition no_transaction (e : fevent) : Prop := match e with FTransaction _ _ => False | _ => True end.
Definition flushes (e : fevent) : Prop := match e with FTick _ true | FClose _ true => True | _ => False end.

Definition flushed f : Prop := df_disk f = Some (df_db f).

Lemma step_flushes e f f' : fstep e f f' → flushes e → df_db f' = df_db f ∧ flushed f'.
Proof. destruct 1 as [| |p []|p []| |]; cbn; done. Qed.

Lemma step_flushed e f f' : fstep e f f' → no_transaction e → flushed f → df_db f' = df_db f ∧ flushed f'.
Proof.
  unfold flushed. destruct 1 as [p io f| |p ok f Hh|p ok f Hh| |f db Hd]; cbn; intros Hn Hf; try done.
  - unfold OpenBolt. by destruct (df_holder f), io.
  - by destruct ok.
  - by destruct ok.
  - split; [|done]. destruct Hd; congruence.
Qed.

Lemma path_flushed l f f' : fpath l f f' → Forall no_transaction l → flushed f → df_db f' = df_db f ∧ flushed f'.
Proof.
  induction 1 as [|e l f f1 f2 Hs _ IH]; [done|]. intros [Hn Hl]%Forall_cons Hf.
  destruct (step_flushed _ _ _ Hs Hn Hf) as [E Hf1]. destruct (IH Hl Hf1) as [-> ?]. done.
Qed.

(** ** Exclusion *)

(** The events that end the hold of a process. *)
Definition releases p (e : fevent) : Prop :=
  match e with FClose q _ | FKill q => q = p | FPower => True | _ => False end.

Definition transaction_of (e : fevent) : option transaction :=
  match e with FTransaction _ t => Some t | _ => None end.

Lemma step_held p e f f' : fstep e f f' → df_holder f = Some p → ¬ releases p e →
  df_holder f' = Some p ∧ (∀ q t, e = FTransaction q t → q = p) ∧
  df_db f' = match transaction_of e with Some t => run_tx t (df_db f) | None => df_db f end.
Proof.
  intros Hs Hp Hr. destruct Hs as [q io f|q t f Hq|q ok f Hq|q ok f Hq|q f Hq|f db Hd]; cbn in *.
  - unfold OpenBolt. rewrite Hp. done.
  - split_and!; [done| |done]. intros ? ? [= <- _]. congruence.
  - by destruct ok.
  - congruence.
  - congruence.
  - by destruct Hr.
Qed.

Lemma path_held p l f f' : fpath l f f' → df_holder f = Some p → Forall (λ e, ¬ releases p e) l →
  df_holder f' = Some p ∧ Forall (λ e, ∀ q t, e = FTransaction q t → q = p) l ∧
  df_db f' = foldl (λ db t, run_tx t db) (df_db f) (omap transaction_of l).
Proof.
  intros Hp. induction Hp as [f|e l f f1 f2 Hs _ IH]; [done|]. intros Hh [Hr Hl]%Forall_cons.
  destruct (step_held p _ _ _ Hs Hh Hr) as (H1 & Hown & Edb). destruct (IH H1 Hl) as (H2 & Hall & ->).
  split_and!; [done|by constructor|]. cbn. rewrite Edb. by destruct (transaction_of e).
Qed.
End file.
Arguments dbfile DB : clear implicits.

(** ** The daemon and its file *)

Section daemon.
Context {U DB D : Type} `{UnstructuredLaws U} `{!Codec U, !CodecLaws U}.
Context `{Bolt DB} `{!BoltLaws DB}.
Context `{Oracle} `{GoRuntime} `{PatchLib} `{SelectorLib} `{StdJson}.
Context `{!Converter U, !ConverterLaws U} `{ConditionLib} `{SandboxAPI} `{ErrorText}.
Context `{Driver D, !Pinger D}.
Context `{!RouterConverter U, !RouterConverterLaws U} `{!BootConverter U, !BootConverterLaws U}.
#[local] Notation World := (world U DB D).
Implicit Types (w : World) (cfg : Config.t) (f : dbfile DB).

(** C30. What was flushed survives the machine: take the server in any state of
    any execution from an empty database and its file when a flush succeeds, by
    the timer or by closing it.  Whatever happens then short of another
    transaction, be it the death of the process, power failures, or other openings
    and closings, the next process that opens the file starts, with the replay of
    the writes whose transactions had succeeded until then and the version of the
    last of them: everything the server had, as its encoding is read, when no
    transaction and no encoding had failed. *)
Theorem flushed_restart reg rcfg (w0 : World) log w f e f1 l f2 p io db cfg (docker : res string D) :
  fresh Registry.default_resources w0 → execution reg Registry.default_resources rcfg w0 log w →
  persist (w_store w) = Some (df_db f) →
  fstep e f f1 → flushes e → fpath l f1 f2 → Forall no_transaction l →
  (OpenBolt p io f2).2 = Ok db →
  ∃ a : App U DB D, New_app cfg (Ok ()) (OpenBolt p io f2).2 docker = Ok a ∧
    rv (a_store a) = last_rv (saved log) ∧ (∀ g k, lookup_obj (a_store a) g k = replay g k None (saved log)) ∧
    (all_saved log → rv (a_store a) = rv (w_store w) ∧
       ∀ g k, option_Forall2 (λ u v, v = u ∨ read_as u v) (lookup_obj (w_store w) g k) (lookup_obj (a_store a) g k)).
Proof.
  intros Hf E Hp Hs Hfl Hpath Hno Hopen.
  pose proof (execution_sound reg Registry.default_resources rcfg default_buckets_ok w0 log w Hf E) as S.
  destruct (restart_sound _ _ _ S) as (db' & s' & Hp' & Hr & S' & _).
  rewrite Hp in Hp'. injection Hp' as <-.
  destruct (step_flushes _ _ _ Hs Hfl) as [E1 Hfl1]. destruct (path_flushed _ _ _ Hpath Hno Hfl1) as [E2 _].
  assert (db = df_db f) as ->.
  { rewrite <-E1, <-E2. unfold OpenBolt in Hopen. destruct (df_holder f2), io; cbn in Hopen; congruence. }
  unfold New_app. rewrite Hopen, Hr. eexists. split; [reflexivity|].
  assert (∀ d : res string D, a_store match d with Err _ => mkApp cfg s' None None
    | Ok d => match Ping d with (d, Ok _) => mkApp cfg s' (Some d) (Some (recon_of cfg)) | (_, Err _) => mkApp cfg s' None None end
    end = s') as -> by (intros [d|]; [destruct (Ping d) as [? [|]]|]; done).
  pose proof (so_rv _ _ _ S') as Hrv. pose proof (so_obj _ _ _ S') as Ho. rewrite reloaded_acknowledged in Hrv, Ho.
  split_and!; [done..|]. intros Ha. split.
  - rewrite Hrv, (so_rv _ _ _ S). by destruct (all_saved_replay log NamespaceGVR "" Ha (so_saved _ _ _ S)) as [-> _].
  - intros g k. rewrite Ho, (so_obj _ _ _ S). by apply all_saved_replay; [|apply S].
Qed.

(** Two servers never share a data directory: as long as the process that
    opened the database has neither closed it nor died, any other start fails
    before it has touched a container, and what the file holds is the result of
    that process's own transactions, in order. *)
Theorem data_dir_exclusive p l f f' :
  df_holder f = Some p → fpath l f f' → Forall (λ e, ¬ releases p e) l →
  (∀ q io, ∃ e, OpenBolt q io f' = (f', Err e) ∧
     ∀ cfg (docker : res string D), New_app (U := U) cfg (Ok ()) (OpenBolt q io f').2 docker = Err (OpenError e)) ∧
  Forall (λ e, ∀ q t, e = FTransaction q t → q = p) l ∧
  df_db f' = foldl (λ db t, run_tx t db) (df_db f) (omap transaction_of l).
Proof.
  intros Hh Hpath Hl. destruct (path_held p l f f' Hpath Hh Hl) as (Hh' & Hown & Edb). split; [|done].
  intros q io. exists "timeout". unfold OpenBolt. rewrite Hh'. done.
Qed.
End daemon.

(** ** Witnesses *)

(** The server of System.v flushes and closes; the power fails; the next process
    has the namespace that was created. *)
Lemma flushed_restart_witness :
  ∃ (db : demo_db) (a : App cobj demo_db Fake.FakeDriver),
    let f := mkFile db None (Some 1%nat) in
    let f2 := mkFile db (Some db) None in
    fpath [FClose 1 true; FPower] f f2 ∧
    New_app Config.Defaults (Ok ()) (OpenBolt 2 None f2).2 (Err "no docker") = Ok a ∧
    rv (a_store a) = rv (w_store demo_after_post).
Proof.
  destruct demo_post_commits as (wr & C & Hsaved).
  pose proof (execution_sound Registry.NewDefaultRegistry Registry.default_resources demo_rec default_buckets_ok
    demo_fresh [wr] demo_after_post demo_fresh_ok (demo_execution wr C)) as S.
  destruct (so_disk _ _ _ S) as (db & Hp & _).
  pose proof (fs_close 1 true (mkFile db None (Some 1%nat)) eq_refl) as Hc.
  pose proof (fp_cons FPower [] _ _ _ (fs_power (Close true (mkFile db None (Some 1%nat))) db (or_intror eq_refl)) (fp_nil _)) as Hpw.
  destruct (flushed_restart Registry.NewDefaultRegistry demo_rec demo_fresh [wr] demo_after_post
    (mkFile db None (Some 1%nat)) (FClose 1 true) _ [FPower] _ 2 None db Config.Defaults (Err "no docker" : res string Fake.FakeDriver)
    demo_fresh_ok (demo_execution wr C) Hp Hc I Hpw) as (a & Ha & _ & _ & Hall); [repeat constructor|reflexivity|].
  exists db, a. split; [exact (fp_cons _ _ _ _ _ Hc Hpw)|]. split; [exact Ha|].
  apply Hall. repeat constructor. exact Hsaved.
Defined.

Lemma data_dir_exclusive_witness :
  let db := mkDB ∅ in
  ∃ e, OpenBolt 2 None (mkFile db None (Some 1%nat)) = (mkFile db None (Some 1%nat), Err e) ∧
    New_app (U := cobj) (D := Fake.FakeDriver) Config.Defaults (Ok ()) (OpenBolt 2 None (mkFile db None (Some 1%nat))).2
      (Err "no docker") = Err (OpenError e).
Proof.
  intros db. destruct (data_dir_exclusive (U := cobj) (D := Fake.FakeDriver) 1 [] (mkFile db None (Some 1%nat)) (mkFile db None (Some 1%nat)))
    as (Hopen & _ & _); [reflexivity|constructor|constructor|].
  destruct (Hopen 2%nat None) as (e & Ho & Hn). exists e. split; [exact Ho|apply Hn].
Defined.

(** Without a flush a power failure may leave anything. *)
Example unflushed_lost (db db' : demo_db) :
  fpath [FTransaction 1 (TRemove PodGVR "default/a" 5); FPower] (mkFile db (Some db) (Some 1%nat)) (mkFile db' (Some db') None).
Proof.
  eapply fp_cons; [by apply fs_transaction|]. eapply fp_cons; [apply fs_power; by left|]. constructor.
Qed.
