(* ===== verification/Cli.v ===== *)
(** The command line: [cmd/lasd/main.go] and [commands.go].

    Parsing the arguments is cobra's: the class [Cobra] is given the table of
    commands and flags the program declares and answers which command runs with
    which flags set.  Everything else is here: the tables, the defaults, what
    each flag changes, the choice of the server a client command talks to, and
    the body of every command with the lines it prints.  A command runs on a
    [machine], the files and the container backend, and is told by a [host] what
    the rest of the system answers. *)

From S2P Require Import Prelude GoStrings K8s Apis Selectors Store StoreFacts Patch StoreSpec Persist.
From S2P Require Import Watch WatchSpec Concrete Recovery Core Driver Build Reconciler ConcreteApi.
From S2P Require Import Claim Mux Facade Runtime RuntimeSpec Paths Config VRouter App AppSpec Commits Scenarios System Serve.
Local Open Scope string_scope.

(** ** Flags *)

Inductive value := VString (s : string) | VInt (n : Z) | VBool (b : bool).
Inductive kind := KString | KInt | KBool.
#[export] Instance kind_eq_dec : EqDecision kind.
Proof. solve_decision. Defined.
Definition kind_of (v : value) : kind :=
  match v with VString _ => KString | VInt _ => KInt | VBool _ => KBool end.

(** The variables flags are bound to: the fields of [cfg] and the locals of the
    commands. *)
Inductive variable :=
| FBind | FAPIPort | FRouterPort | FDataDir | FEphemeral | FRuntimeImage | FBuildContext
| FServerPort | FClusterDomain | FBootstrap | FVerbose | FWrite | FPrintExport | FDryRun | FState.
#[export] Instance field_eq_dec : EqDecision variable.
Proof. solve_decision. Defined.

Record options := mkOptions {
  op_cfg : Config.t;
  op_verbose : bool;
  op_write : bool;
  op_printExport : bool;
  op_dryRun : bool;
  op_withState : bool;
}.
Implicit Types (o : options) (x : variable) (v : value).

Definition field_kind x : kind :=
  match x with
  | FBind | FDataDir | FRuntimeImage | FBuildContext | FClusterDomain => KString
  | FAPIPort | FRouterPort | FServerPort => KInt
  | FEphemeral | FBootstrap | FVerbose | FWrite | FPrintExport | FDryRun | FState => KBool
  end.

Definition get_field x o : value :=
  let c := op_cfg o in
  match x with
  | FBind => VString (Config.Bind c)
  | FAPIPort => VInt (Config.APIPort c)
  | FRouterPort => VInt (Config.RouterPort c)
  | FDataDir => VString (Config.DataDir c)
  | FEphemeral => VBool (Config.EphemeralOnShutdown c)
  | FRuntimeImage => VString (Config.RuntimeImage c)
  | FBuildContext => VString (Config.RuntimeBuildContext c)
  | FServerPort => VInt (Config.ServerPort c)
  | FClusterDomain => VString (Config.ClusterDomain c)
  | FBootstrap => VBool (Config.Bootstrap c)
  | FVerbose => VBool (op_verbose o)
  | FWrite => VBool (op_write o)
  | FPrintExport => VBool (op_printExport o)
  | FDryRun => VBool (op_dryRun o)
  | FState => VBool (op_withState o)
  end.

(** Assigning a variable; a value of another kind does not reach it. *)
Definition set_cfg (c : Config.t) o : options :=
  mkOptions c (op_verbose o) (op_write o) (op_printExport o) (op_dryRun o) (op_withState o).
Definition set_field x v o : options :=
  let '(mkOptions (Config.mk b a r d e i bc sp cd bs as c) vb w pe dr st) := o in
  match x, v with
  | FBind, VString s => set_cfg (Config.mk s a r d e i bc sp cd bs) o
  | FAPIPort, VInt n => set_cfg (Config.mk b n r d e i bc sp cd bs) o
  | FRouterPort, VInt n => set_cfg (Config.mk b a n d e i bc sp cd bs) o
  | FDataDir, VString s => set_cfg (Config.mk b a r s e i bc sp cd bs) o
  | FEphemeral, VBool t => set_cfg (Config.mk b a r d t i bc sp cd bs) o
  | FRuntimeImage, VString s => set_cfg (Config.mk b a r d e s bc sp cd bs) o
  | FBuildContext, VString s => set_cfg (Config.mk b a r d e i s sp cd bs) o
  | FServerPort, VInt n => set_cfg (Config.mk b a r d e i bc n cd bs) o
  | FClusterDomain, VString s => set_cfg (Config.mk b a r d e i bc sp s bs) o
  | FBootstrap, VBool t => set_cfg (Config.mk b a r d e i bc sp cd t) o
  | FVerbose, VBool t => mkOptions c t w pe dr st
  | FWrite, VBool t => mkOptions c vb t pe dr st
  | FPrintExport, VBool t => mkOptions c vb w t dr st
  | FDryRun, VBool t => mkOptions c vb w pe t st
  | FState, VBool t => mkOptions c vb w pe dr t
  | _, _ => o
  end.

Record flag := mkFlag { fl_Name : string; fl_Short : string; fl_Field : variable }.

(** ** Commands *)

Inductive command := CServe | CKubeconfig | CVersion | CStatus | CLs | CGc | CPurge | CDoctor.
#[export] Instance command_eq_dec : EqDecision command.
Proof. solve_decision. Defined.
Implicit Types c : command.

Definition Use c : string :=
  match c with
  | CServe => "serve" | CKubeconfig => "kubeconfig" | CVersion => "version" | CStatus => "status"
  | CLs => "ls" | CGc => "gc" | CPurge => "purge" | CDoctor => "doctor"
  end.

Definition serve_flags : list flag := [
  mkFlag "bind" "" FBind; mkFlag "api-port" "" FAPIPort; mkFlag "router-port" "" FRouterPort;
  mkFlag "data-dir" "" FDataDir; mkFlag "ephemeral" "" FEphemeral;
  mkFlag "runtime-image" "" FRuntimeImage; mkFlag "runtime-build-context" "" FBuildContext;
  mkFlag "server-port" "" FServerPort; mkFlag "cluster-domain" "" FClusterDomain;
  mkFlag "bootstrap" "" FBootstrap; mkFlag "verbose" "v" FVerbose
].
Definition kubeconfig_flags : list flag := [
  mkFlag "bind" "" FBind; mkFlag "api-port" "" FAPIPort; mkFlag "data-dir" "" FDataDir;
  mkFlag "write" "" FWrite; mkFlag "print-export" "" FPrintExport
].
Definition bindServerFlags : list flag := [
  mkFlag "bind" "" FBind; mkFlag "api-port" "" FAPIPort; mkFlag "router-port" "" FRouterPort;
  mkFlag "data-dir" "" FDataDir; mkFlag "server-port" "" FServerPort
].

Definition Flags c : list flag :=
  match c with
  | CServe => serve_flags
  | CKubeconfig => kubeconfig_flags
  | CVersion => []
  | CGc => (bindServerFlags ++ [mkFlag "dry-run" "" FDryRun])%list
  | CPurge => (bindServerFlags ++ [mkFlag "state" "" FState])%list
  | CStatus | CLs | CDoctor => bindServerFlags
  end.

Definition rootCmd : list command := [CServe; CKubeconfig; CVersion; CStatus; CLs; CGc; CPurge; CDoctor].

(** What cobra is told. *)
Notation flag_decl := (string * string * kind)%type.
Definition declared (f : flag) : flag_decl := (fl_Name f, fl_Short f, field_kind (fl_Field f)).
Definition root_table : list (string * list flag_decl) := (λ c, (Use c, declared <$> Flags c)) <$> rootCmd.

(** A parsed command line: a text cobra prints itself, an error, or a command
    with the flags that were set, in order. *)
Inductive parsed :=
| PHelp (text : string)
| PUsage (e : string)
| PRun (use : string) (set : list (string * value)).

Class Cobra := parse_args : list (string * list flag_decl) → list string → parsed.

(** A command that runs is one of the table, and the flags set are its own, with
    values of their kind. *)
Class CobraLaws `{Cobra} := {
  parsed_run : ∀ t argv use set, parse_args t argv = PRun use set →
    ∃ fs, (use, fs) ∈ t ∧ Forall (λ nv, ∃ sh, (nv.1, sh, kind_of nv.2) ∈ fs) set;
}.

Definition find_command (use : string) : option command := List.find (λ c, bool_decide (Use c = use)) rootCmd.
Definition find_flag c (name : string) : option flag :=
  List.find (λ f, bool_decide (fl_Name f = name)) (Flags c).

Definition set_flag c o (nv : string * value) : options :=
  match find_flag c nv.1 with Some f => set_field (fl_Field f) nv.2 o | None => o end.
Definition set_flags c (set : list (string * value)) o : options := foldl (set_flag c) o set.

(** ** The rest of the system *)

(** [clientcmd]: the server of the configuration in a file, or without one of
    those $KUBECONFIG and the home directory give. *)
Class KubeLoader (F : Type) := client_config : option string → F → res string string.
(** A file that holds the encoding of lasd's kubeconfig gives its server. *)
Class KubeLoaderLaws (F : Type) `{FileSystem F} `{KubeEncoder} `{!KubeLoader F} := {
  explicit_config : ∀ p server data f, encode_kube (Config.Build server) = Ok data →
    ReadFile f p = Ok data → client_config (Some p) f = Ok server;
}.

(** [os.Remove] *)
Inductive removal := Removed | NotExist | RemoveFailed (e : string).
Class Remover (F : Type) := os_remove : string → F → F * removal.

(** What a server answers to the dynamic client. *)
Record cluster U := mkCluster {
  cl_List : GVR → res string (list U);
  cl_Get : GVR → string → string → res string U;
}.
Arguments mkCluster {U}.
Arguments cl_List {U}.
Arguments cl_Get {U}.

(** What [app.New] and [Run] meet. *)
Record serving U DB D := mkServing {
  sv_Open : string → res string DB;
  sv_Early : world U DB D → world U DB D;
  sv_During : world U DB D → world U DB D;
  sv_Env : nat → world U DB D → world U DB D;
  sv_Failed : option string;
  sv_Drained : bool;
  sv_Now : Z;
  sv_Wall : Z;
}.
Arguments mkServing {U DB D}.
Arguments sv_Open {U DB D}.
Arguments sv_Early {U DB D}.
Arguments sv_During {U DB D}.
Arguments sv_Env {U DB D}.
Arguments sv_Failed {U DB D}.
Arguments sv_Drained {U DB D}.
Arguments sv_Now {U DB D}.
Arguments sv_Wall {U DB D}.

Record host U DB D := mkHost {
  (** the error of making a Docker client *)
  h_Client : option string;
  h_Kubectl : option string;
  h_Listen : string → option string;
  h_Server : string → cluster U;
  h_Serving : serving U DB D;
}.
Arguments mkHost {U DB D}.
Arguments h_Client {U DB D}.
Arguments h_Kubectl {U DB D}.
Arguments h_Listen {U DB D}.
Arguments h_Server {U DB D}.
Arguments h_Serving {U DB D}.

Record machine F D := mkMachine { m_Files : F; m_Docker : D }.
Arguments mkMachine {F D}.
Arguments m_Files {F D}.
Arguments m_Docker {F D}.

Inductive cli_error :=
| EUsage (e : string)
| EApp (e : app_error)
| EKubeconfig (e : string)
| EConnect (e : string)
| EServer (e : string)
| EClient (e : string)
| EDriver (e : driver_error)
| ERemove (e : string)
| EProblems.

(** A command that ended: the machine, the lines printed, and the error. *)
Record ran F D := mkRan { rn_Machine : machine F D; rn_Out : list string; rn_Result : res cli_error () }.
Arguments mkRan {F D}.
Arguments rn_Machine {F D}.
Arguments rn_Out {F D}.
Arguments rn_Result {F D}.

Section commands.
Context {U DB D F : Type} `{Unstructured U} `{!Codec U} `{Bolt DB} `{Oracle} `{GoRuntime} `{PatchLib}.
Context `{Driver D} `{!Pinger D} `{!RouterConverter U, !BootConverter U}.
Context `{FileSystem F} `{!Remover F} `{KubeEncoder} `{!KubeLoader F} `{Environment} `{Cobra}.
(** [version], which the build sets *)
Context (version : string).
Implicit Types (m : machine F D) (h : host U DB D) (f : F) (d : D) (cfg : Config.t).
#[local] Notation Ran := (ran F D).

(** [driver.NewDockerDriver] *)
Definition docker_client h m : res string D :=
  match h_Client h with Some e => Err e | None => Ok (m_Docker m) end.

(** [dynClient]: $KUBECONFIG goes before lasd's own kubeconfig. *)
Definition dynClient h cfg f : res string (cluster U) :=
  h_Server h <$> client_config (if decide (Getenv "KUBECONFIG" = "") then Some (Config.KubeconfigPath cfg) else None) f.

(** *** serve, kubeconfig, version *)

Definition initial c f : options :=
  mkOptions (match c with
             | CServe => serve_config Config.Defaults (is_ok (Stat f "runtime/Dockerfile"))
             | _ => Config.Defaults
             end) false false false false false.

Definition has {A} (o : option A) : bool := match o with Some _ => true | None => false end.

Definition serveCmd h o m : Ran :=
  let cfg := op_cfg o in
  let '(f, made) := MkdirAll (Config.DataDir cfg) (m_Files m) in
  let sv := h_Serving h in
  match New_app cfg made (sv_Open sv (Config.DBPath cfg)) (docker_client h m) with
  | Err e => mkRan (mkMachine f (m_Docker m)) [] (Err (EApp e))
  | Ok a =>
      let d := default (m_Docker m) (a_driver a) in
      let '(f, w, r) := Run cfg (has (a_driver a)) (h_Listen h) (sv_Early sv) (sv_During sv) (sv_Env sv)
                          (sv_Failed sv) (sv_Drained sv) f (mkWorld (a_store a) d (sv_Now sv) (sv_Wall sv)) in
      mkRan (mkMachine f (w_drv w)) [] (match r with Ok _ => Ok () | Err e => Err (EApp e) end)
  end.

Definition kubeconfigCmd o m : Ran :=
  let '(f, r) := kubeconfig (op_cfg o) (op_write o) (op_printExport o) (m_Files m) in
  let m := mkMachine f (m_Docker m) in
  match r with Ok text => mkRan m [text] (Ok ()) | Err e => mkRan m [] (Err (EKubeconfig e)) end.

Definition versionCmd m : Ran := mkRan m ["lasd " +:+ version] (Ok ()).

(** *** doctor *)

Definition doctor_docker (docker : res string D) : string :=
  match docker with
  | Err e => "✗ docker client: " +:+ e
  | Ok d => match (Ping d).2 with
            | Err e => "✗ docker daemon unreachable: " +:+ driver_msg e
            | Ok _ => "✓ docker daemon reachable"
            end
  end.
Definition doctor_kubectl (lookup : option string) : string :=
  match lookup with
  | None => "• kubectl not found (optional; needed for kubectl/python tunnel mode)"
  | Some _ => "✓ kubectl found"
  end.
Definition doctor_port (listen : string → option string) cfg (p : Z) : string :=
  let addr := JoinHostPort (Config.Bind cfg) (itoa p) in
  match listen addr with
  | Some e => "✗ port " +:+ addr +:+ " in use: " +:+ e
  | None => "✓ port " +:+ addr +:+ " available"
  end.
Definition doctor_dir cfg (made : res string ()) : string :=
  match made with
  | Err e => "✗ data dir " +:+ Config.DataDir cfg +:+ ": " +:+ e
  | Ok _ => "✓ data dir " +:+ Config.DataDir cfg +:+ " writable"
  end.

Definition doctorCmd h o m : Ran :=
  let cfg := op_cfg o in
  let docker := docker_client h m in
  let d := match docker with Ok d => (Ping d).1 | Err _ => m_Docker m end in
  let '(f, made) := MkdirAll (Config.DataDir cfg) (m_Files m) in
  let problems := (doctor cfg docker (has (h_Kubectl h)) (h_Listen h) made).2 in
  mkRan (mkMachine f d)
    [doctor_docker docker; doctor_kubectl (h_Kubectl h);
     doctor_port (h_Listen h) cfg (Config.APIPort cfg); doctor_port (h_Listen h) cfg (Config.RouterPort cfg);
     doctor_dir cfg made]
    (if problems then Err EProblems else Ok ()).

(** *** status, ls *)

Definition nat_text (n : nat) : string := itoa (Z.of_nat n).
Definition status_line (counts : list nat) : string :=
  let n i := nat_text (nth i counts 0) in
  "templates=" +:+ n 0 +:+ " warmpools=" +:+ n 1 +:+ " claims=" +:+ n 2 +:+ " sandboxes=" +:+ n 3.

(** The state after [ListManaged] through a client that can be made. *)
Definition listed_docker (docker : res string D) d : D :=
  match docker with Ok d => (ListManaged d).1 | Err _ => d end.

Definition statusCmd h o m : Ran :=
  let cfg := op_cfg o in
  match dynClient h cfg (m_Files m) with
  | Err e => mkRan m [] (Err (EConnect e))
  | Ok cl =>
      let docker := docker_client h m in
      let '(counts, managed) := status (λ g, ok_val (cl_List cl g)) (ok_val docker) in
      mkRan (mkMachine (m_Files m) (listed_docker docker (m_Docker m)))
        (["API:    " +:+ Config.APIServerURL cfg; "Router: " +:+ Config.RouterURL cfg; status_line counts]
         ++ match managed with Some n => ["managed containers: " +:+ nat_text n] | None => [] end)%list
        (Ok ())
  end.

(** The rows as they are handed to [text/tabwriter]. *)
Definition tab : string := String (Ascii.ascii_of_nat 9) "".
Definition table_line (cells : list string) : string := String.concat tab cells.

Definition lsCmd h o m : Ran :=
  let cfg := op_cfg o in
  match dynClient h cfg (m_Files m) with
  | Err e => mkRan m [] (Err (EConnect e))
  | Ok cl =>
      match cl_List cl SandboxGVR with
      | Err e => mkRan m [] (Err (EServer e))
      | Ok items =>
          let docker := docker_client h m in
          let cs := match docker with Ok d => ok_val (ListManaged d).2 | Err _ => None end in
          mkRan (mkMachine (m_Files m) (listed_docker docker (m_Docker m)))
            (table_line <$> ["NAMESPACE"; "NAME"; "READY"; "CONTAINER"; "HOSTPORT"]
                            :: ls (Config.ServerPort cfg) items cs)
            (Ok ())
      end
  end.

(** *** gc, purge *)

Definition dryRunLabel (dry : bool) : string := if dry then " (dry-run)" else " removed".

Definition orphan_line (c : ContainerInfo) : string :=
  "orphan container " +:+ ci_Name c +:+ " (" +:+ ci_Namespace c +:+ "/" +:+ ci_Sandbox c +:+ ")".

(** The request that asks for the sandbox fails, for whatever reason. *)
Definition gc_exists (cl : cluster U) (ns name : string) : bool := is_ok (cl_Get cl SandboxGVR ns name).
Definition gc_keeps (cl : cluster U) (c : ContainerInfo) : bool :=
  bool_decide (ci_Sandbox c = "") || gc_exists cl (ci_Namespace c) (ci_Sandbox c).

Definition gcCmd h o m : Ran :=
  match docker_client h m with
  | Err e => mkRan m [] (Err (EClient e))
  | Ok d =>
      match dynClient h (op_cfg o) (m_Files m) with
      | Err e => mkRan m [] (Err (EConnect e))
      | Ok cl =>
          let listed := default [] (ok_val (ListManaged d).2) in
          let '(d, r) := gc (gc_exists cl) (op_dryRun o) d in
          let m := mkMachine (m_Files m) d in
          match r with
          | Err e => mkRan m [] (Err (EDriver e))
          | Ok n => mkRan m ((orphan_line <$> filter (λ i : ContainerInfo, gc_keeps cl i = false) listed)
                       ++ [itoa n +:+ " orphaned containers" +:+ dryRunLabel (op_dryRun o)])%list (Ok ())
          end
      end
  end.

Definition purgeCmd h o m : Ran :=
  match docker_client h m with
  | Err e => mkRan m [] (Err (EClient e))
  | Ok d =>
      let '(d, (nc, nv)) := purge d in
      let line := "removed " +:+ nat_text nc +:+ " containers, " +:+ nat_text nv +:+ " volumes" in
      if op_withState o then
        match os_remove (Config.DBPath (op_cfg o)) (m_Files m) with
        | (f, RemoveFailed e) => mkRan (mkMachine f d) [line] (Err (ERemove e))
        | (f, _) => mkRan (mkMachine f d) [line; "removed state db"] (Ok ())
        end
      else mkRan (mkMachine (m_Files m) d) [line] (Ok ())
  end.

(** *** main *)

Definition run_command c h o m : Ran :=
  match c with
  | CServe => serveCmd h o m
  | CKubeconfig => kubeconfigCmd o m
  | CVersion => versionCmd m
  | CStatus => statusCmd h o m
  | CLs => lsCmd h o m
  | CGc => gcCmd h o m
  | CPurge => purgeCmd h o m
  | CDoctor => doctorCmd h o m
  end.

(** The variables of a command once its flags are parsed. *)
Definition parsed_options c (set : list (string * value)) f : options := set_flags c set (initial c f).

Definition Execute h (argv : list string) m : Ran :=
  match parse_args root_table argv with
  | PHelp text => mkRan m [text] (Ok ())
  | PUsage e => mkRan m [] (Err (EUsage e))
  | PRun use set =>
      match find_command use with
      | None => mkRan m [] (Err (EUsage use))
      | Some c => run_command c h (parsed_options c set (m_Files m)) m
      end
  end.

(** [main]: the exit status. *)
Definition main h (argv : list string) m : machine F D * list string * Z :=
  let r := Execute h argv m in
  (rn_Machine r, rn_Out r, if is_ok (rn_Result r) then 0%Z else 1%Z).
End commands.

(** ** Flags set their own variable *)

Lemma get_set x y v o : field_kind x = kind_of v →
  get_field y (set_field x v o) = if decide (y = x) then v else get_field y o.
Proof. destruct o as [[] ? ? ? ? ?], x, v; try discriminate; intros _; by destruct y. Qed.

(** The last value a command line gives a variable. *)
Definition sets c x (set : list (string * value)) : option value :=
  last (omap (λ nv, f ← find_flag c nv.1; if decide (fl_Field f = x) then Some nv.2 else None) set).
Definition well_kinded c (set : list (string * value)) : Prop :=
  Forall (λ nv, ∃ f, find_flag c nv.1 = Some f ∧ field_kind (fl_Field f) = kind_of nv.2) set.

Lemma set_flags_last c x set o : well_kinded c set →
  get_field x (set_flags c set o) = default (get_field x o) (sets c x set).
Proof.
  unfold sets, set_flags. induction set as [|nv set IH] using rev_ind; [done|].
  intros [Hs (f & Hf & Hk)%Forall_singleton]%Forall_app. rewrite foldl_app, omap_app. cbn [foldl].
  unfold set_flag at 1. cbn. rewrite Hf, get_set, IH by done. cbn.
  destruct (decide (x = fl_Field f)) as [->|Hx].
  - rewrite decide_True by done. cbn. by rewrite last_snoc.
  - rewrite decide_False by congruence. cbn. by rewrite app_nil_r.
Qed.

Lemma declared_found c : Forall (λ f, find_flag c (fl_Name f) = Some f) (Flags c).
Proof. destruct c; repeat constructor. Qed.

Lemma parsed_command `{CobraLaws} argv use set : parse_args root_table argv = PRun use set →
  ∃ c, find_command use = Some c ∧ Use c = use ∧ well_kinded c set.
Proof.
  intros (fs & Ht & Hset)%parsed_run. unfold root_table in Ht.
  apply list_elem_of_fmap in Ht as (c & [= -> ->] & _). exists c.
  split; [by destruct c|]. split; [done|]. eapply Forall_impl; [exact Hset|]. intros nv (sh & Hin). cbn in Hin.
  apply list_elem_of_fmap in Hin as (f & Hf & Hin). unfold declared in Hf. injection Hf as Hn _ Hk. exists f.
  rewrite Hn. split; [|done]. by apply (proj1 (Forall_forall _ _) (declared_found c)).
Qed.

(** ** What a command may change *)

Class PingerLaws (D : Type) `{Pinger D} := { ping_pure : ∀ d : D, (Ping d).1 = d }.
Class RemoverLaws (F : Type) `{FileSystem F} `{!Remover F} := {
  remove_frame : ∀ p q (f : F), q ≠ p → ReadFile (os_remove p f).1 q = ReadFile f q;
}.

Section spec.
Context {U DB D F : Type} `{Unstructured U} `{!Codec U} `{Bolt DB} `{Oracle} `{GoRuntime} `{PatchLib}.
Context `{DriverLaws D, !ListingLaws D} `{!Pinger D, !PingerLaws D} `{!RouterConverter U, !BootConverter U}.
Context `{FileSystemLaws F} `{!Remover F, !RemoverLaws F} `{KubeEncoder} `{!KubeLoader F, !KubeLoaderLaws F}.
Context `{Environment} `{CobraLaws}.
Context (version : string).
Implicit Types (m : machine F D) (h : host U DB D) (f : F) (d : D) (cfg : Config.t).

(** The command an invocation runs, and its variables. *)
Definition invoked (argv : list string) f : option (command * options) :=
  match parse_args root_table argv with
  | PRun use set => (λ c, (c, parsed_options c set f)) <$> find_command use
  | _ => None
  end.

Lemma Write_frame server path q f : q ≠ path → ReadFile (Config.Write server path f).1 q = ReadFile f q.
Proof.
  intros Hq. unfold Config.Write. destruct (Config.Bytes server); [|done].
  destruct (MkdirAll _ f) as [f1 r] eqn:E. pose proof (mkdir_frame (Dir path) q f) as Hm. rewrite E in Hm.
  destruct r; [|done]. by rewrite write_frame by done.
Qed.

Lemma Run_files cfg b listen early during env failed drained f (w : world U DB D) :
  (Run cfg b listen early during env failed drained f w).1.1
  = (Config.Write (Config.APIServerURL cfg) (Config.KubeconfigPath cfg) f).1.
Proof. unfold Run. by repeat case_match. Qed.

Lemma gc_foldl_volumes ex dry l d n : volume_of (foldl (gc_one ex dry) (d, n) l).1 = volume_of d.
Proof.
  revert d n; induction l as [|i l IH]; intros d n; [done|]. cbn. unfold gc_one at 2. destruct (_ || _); [apply IH|].
  destruct dry; cbn; rewrite IH; [done|]. by rewrite remove_volumes.
Qed.

Lemma gc_pure ex dry d : volume_of (gc ex dry d).1 = volume_of d ∧ (dry = true → (gc ex dry d).1 = d).
Proof.
  unfold gc. pose proof (list_pure d) as Hp. destruct (ListManaged d) as [d1 [l|e]]; cbn in Hp; subst d1; [|done].
  pose proof (gc_foldl_volumes ex dry l d 0) as Hv. split; [by destruct (foldl _ _ _)|]. intros ->.
  pose proof (gc_dry ex l d 0) as Hd. by destruct (foldl _ _ _).
Qed.

(** What a command with its variables may do to the backend, and to which
    files. *)
Definition touches_containers c o : Prop := c = CServe ∨ c = CPurge ∨ c = CGc ∧ op_dryRun o = false.
Definition touches_volumes c : Prop := c = CServe ∨ c = CPurge.
Definition touches_file c o (p : string) : Prop :=
  p = Config.KubeconfigPath (op_cfg o) ∧ (c = CServe ∨ c = CKubeconfig ∧ op_write o = true) ∨
  p = Config.DBPath (op_cfg o) ∧ c = CPurge ∧ op_withState o = true.

Definition footprint c o m m' : Prop :=
  (m_Docker m' = m_Docker m ∨ touches_containers c o) ∧
  (volume_of (m_Docker m') = volume_of (m_Docker m) ∨ touches_volumes c) ∧
  (∀ p, ReadFile (m_Files m') p = ReadFile (m_Files m) p ∨ touches_file c o p).

Lemma footprint_files c o m f : (∀ p, ReadFile f p = ReadFile (m_Files m) p ∨ touches_file c o p) →
  footprint c o m (mkMachine f (m_Docker m)).
Proof. intros Hf. split; [by left|]. split; [by left|exact Hf]. Qed.

Lemma footprint_refl c o m : footprint c o m m.
Proof. destruct m as [f d]. apply (footprint_files c o (mkMachine f d)). by left. Qed.

Lemma footprint_write c o m f : (c = CServe ∨ c = CKubeconfig ∧ op_write o = true) →
  (∀ p, ReadFile f p = ReadFile (m_Files m) p) →
  ∀ p, ReadFile (Config.Write (Config.APIServerURL (op_cfg o)) (Config.KubeconfigPath (op_cfg o)) f).1 p
       = ReadFile (m_Files m) p ∨ touches_file c o p.
Proof.
  intros Hc Hf p. destruct (decide (p = Config.KubeconfigPath (op_cfg o))) as [->|Hp]; [right; left; by split|].
  left. by rewrite Write_frame.
Qed.

Lemma serve_footprint h o m : footprint CServe o m (rn_Machine (serveCmd h o m)).
Proof.
  unfold serveCmd. destruct (MkdirAll _ (m_Files m)) as [f made] eqn:E.
  assert (∀ p, ReadFile f p = ReadFile (m_Files m) p) as Hf
    by (intros p; rewrite <-(mkdir_frame (Config.DataDir (op_cfg o)) p (m_Files m)); by rewrite E).
  destruct (New_app _ _ _ _) as [a|e]; [|apply footprint_files; by left].
  destruct (Run _ _ _ _ _ _ _ _ _ _) as [[f' w] r] eqn:R. cbn [rn_Machine].
  split; [right; by left|]. split; [right; by left|]. cbn [m_Files].
  assert (f' = (Config.Write (Config.APIServerURL (op_cfg o)) (Config.KubeconfigPath (op_cfg o)) f).1) as ->.
  { by rewrite <-(Run_files (op_cfg o) (has (a_driver a)) (h_Listen h) (sv_Early (h_Serving h)) (sv_During (h_Serving h))
      (sv_Env (h_Serving h)) (sv_Failed (h_Serving h)) (sv_Drained (h_Serving h)) f
      (mkWorld (a_store a) (default (m_Docker m) (a_driver a)) (sv_Now (h_Serving h)) (sv_Wall (h_Serving h)))), R. }
  apply footprint_write; [by left|done].
Qed.

Lemma kubeconfig_footprint o m : footprint CKubeconfig o m (rn_Machine (kubeconfigCmd o m)).
Proof.
  unfold kubeconfigCmd. destruct (kubeconfig _ _ _ _) as [f r] eqn:E.
  assert (∀ p, ReadFile f p = ReadFile (m_Files m) p ∨ touches_file CKubeconfig o p) as Hf.
  { unfold kubeconfig in E. destruct (op_write o) eqn:Hw.
    - pose proof (footprint_write CKubeconfig o m (m_Files m) (or_intror (conj eq_refl Hw)) (λ _, eq_refl)) as Hp.
      destruct (Config.Write _ _ _) as [f1 [[]|]]; [destruct (op_printExport o)|]; injection E as <- _; exact Hp.
    - destruct (op_printExport o); injection E as <- _; by left. }
  destruct r; by apply footprint_files.
Qed.

Lemma doctor_footprint h o m : footprint CDoctor o m (rn_Machine (doctorCmd h o m)).
Proof.
  unfold doctorCmd. destruct (MkdirAll _ (m_Files m)) as [f made] eqn:E. cbn [rn_Machine].
  assert (match docker_client h m with Ok d => (Ping d).1 | Err _ => m_Docker m end = m_Docker m) as ->
    by (unfold docker_client; destruct (h_Client h); [done|apply ping_pure]).
  apply footprint_files. intros p. left. rewrite <-(mkdir_frame (Config.DataDir (op_cfg o)) p (m_Files m)). by rewrite E.
Qed.

Lemma listed_docker_pure h m : listed_docker (docker_client h m) (m_Docker m) = m_Docker m.
Proof. unfold listed_docker, docker_client. destruct (h_Client h); [done|apply list_pure]. Qed.

Lemma listing_footprint h c o m : footprint c o m (mkMachine (m_Files m) (listed_docker (docker_client h m) (m_Docker m))).
Proof. rewrite listed_docker_pure. destruct m; apply footprint_refl. Qed.

Lemma gc_footprint h o m : footprint CGc o m (rn_Machine (gcCmd h o m)).
Proof.
  unfold gcCmd, docker_client. destruct (h_Client h); [apply footprint_refl|].
  destruct (dynClient _ _ _) as [cl|]; [|apply footprint_refl].
  pose proof (gc_pure (gc_exists cl) (op_dryRun o) (m_Docker m)) as [Hv Hd].
  destruct (gc _ _ _) as [d r]. cbn in Hv, Hd.
  assert (footprint CGc o m (mkMachine (m_Files m) d)) as Hf.
  { split; [|split; [by left|by left]]. destruct (op_dryRun o) eqn:Hr; [left; by apply Hd|right; by right; right]. }
  by destruct r.
Qed.

Lemma purge_footprint h o m : footprint CPurge o m (rn_Machine (purgeCmd h o m)).
Proof.
  unfold purgeCmd, docker_client. destruct (h_Client h); [apply footprint_refl|].
  destruct (purge _) as [d [nc nv]].
  assert (∀ f, (∀ p, ReadFile f p = ReadFile (m_Files m) p ∨ touches_file CPurge o p) →
    footprint CPurge o m (mkMachine f d)) as Hf by (split; [right; by right; left|split; [right; by right|done]]).
  destruct (op_withState o) eqn:Hs; [|apply Hf; by left].
  pose proof (λ p Hp, remove_frame (Config.DBPath (op_cfg o)) p (m_Files m) Hp) as Hr.
  assert (∀ f, f = (os_remove (Config.DBPath (op_cfg o)) (m_Files m)).1 → footprint CPurge o m (mkMachine f d)) as Hg.
  { intros f ->. apply Hf. intros p. destruct (decide (p = Config.DBPath (op_cfg o))) as [->|Hp]; [right; by right|].
    left. by apply Hr. }
  destruct (os_remove _ _) as [f [| |e]]; by apply Hg.
Qed.

(** Only [serve], [purge] and a [gc] that is not a dry run change
    containers, only [serve] and [purge] change volumes, and the only files that
    change are the kubeconfig (under [serve] and [kubeconfig --write]) and the
    database (under [purge --state]), each in the data directory the command line
    names; a command line that runs no command changes nothing. *)
Theorem command_footprint h argv m :
  let m' := (main version h argv m).1.1 in
  match invoked argv (m_Files m) with
  | Some (c, o) => footprint c o m m'
  | None => m' = m
  end.
Proof.
  unfold main, Execute, invoked. destruct (parse_args _ _) as [t|e|use set]; [done|done|].
  destruct (find_command use) as [c|]; [|done]. cbn. set (o := parsed_options _ _ _). destruct c; cbn [run_command].
  - apply serve_footprint.
  - apply kubeconfig_footprint.
  - apply footprint_refl.
  - unfold statusCmd. destruct (dynClient _ _ _); [|apply footprint_refl].
    destruct (status _ _) as [n k]. apply listing_footprint.
  - unfold lsCmd. destruct (dynClient _ _ _); [|apply footprint_refl].
    destruct (cl_List _ _); [apply listing_footprint|apply footprint_refl].
  - apply gc_footprint.
  - apply purge_footprint.
  - apply doctor_footprint.
Qed.

(** ** A client finds the server *)

Lemma sets_field c x set f v : well_kinded c set → sets c x set = Some v →
  get_field x (parsed_options c set f) = v.
Proof. intros Hk Hs. unfold parsed_options. by rewrite set_flags_last, Hs. Qed.

(** The value a command line gives a variable, or the default. *)
Definition chosen c x (set : list (string * value)) f : value := default (get_field x (initial c f)) (sets c x set).

Lemma chosen_field c x set f : well_kinded c set → get_field x (parsed_options c set f) = chosen c x set f.
Proof. apply set_flags_last. Qed.

Lemma same_data_dir c c' set set' f f' : well_kinded c set → well_kinded c' set' →
  sets c FDataDir set = sets c' FDataDir set' →
  Config.DataDir (op_cfg (parsed_options c set f)) = Config.DataDir (op_cfg (parsed_options c' set' f')).
Proof.
  intros Hk Hk' E. pose proof (chosen_field c FDataDir set f Hk) as Hd1. pose proof (chosen_field c' FDataDir set' f' Hk') as Hd2.
  assert (∀ c f, get_field FDataDir (initial c f) = VString (Config.DataDir Config.Defaults)) as Hi.
  { intros k g. destruct k; try done. cbn. unfold serve_config. by repeat case_match. }
  unfold chosen in Hd1, Hd2. rewrite E, Hi in Hd1. rewrite Hi, <-Hd1 in Hd2. by injection Hd2.
Qed.

Lemma kubeconfig_leaves o m : op_write o = true → rn_Result (kubeconfigCmd o m) = Ok () →
  ∃ data, encode_kube (Config.Build (Config.APIServerURL (op_cfg o))) = Ok data ∧
    ReadFile (m_Files (rn_Machine (kubeconfigCmd o m))) (Config.KubeconfigPath (op_cfg o)) = Ok data.
Proof.
  intros Hw. unfold kubeconfigCmd, kubeconfig. rewrite Hw.
  destruct (Config.Write _ _ _) as [f1 [[]|e]] eqn:E; [|done].
  apply kubeconfig_written in E as (_ & data & Henc & Hread). intros _. exists data. split; [done|].
  destruct (op_printExport o); [|destruct (Config.Bytes _)]; done.
Qed.

Lemma main_ran h argv use set c m m' out : parse_args root_table argv = PRun use set → find_command use = Some c →
  main version h argv m = (m', out, 0%Z) →
  let r := run_command version c h (parsed_options c set (m_Files m)) m in rn_Machine r = m' ∧ rn_Result r = Ok ().
Proof.
  intros Hp Hc. unfold main, Execute. rewrite Hp, Hc. cbv zeta. set (r := run_command _ _ _ _ _).
  intros [[<- _]%pair_eq Hr]%pair_eq. split; [done|]. destruct (rn_Result r) as [[]|]; done.
Qed.

(** The containers [ls] can show: those docker lists, if it can be asked. *)
Definition shown_containers h m : list ContainerInfo :=
  default [] (match docker_client h m with Ok d => ok_val (ListManaged d).2 | Err _ => None end).

(** A row for each sandbox, in order. *)
Definition row_of (port : Z) (cs : list ContainerInfo) (u : U) (row : string) : Prop :=
  ∃ state hp, row = table_line [GetNamespace u; GetName u; conditionStatus u "Ready"; state; hp] ∧
    row_columns port cs (GetNamespace u +:+ "/" +:+ GetName u) state hp.

Lemma ls_rows port (items : list U) cs : Forall2 (row_of port (default [] cs)) items (table_line <$> ls port items cs).
Proof.
  unfold ls. induction items as [|u items IH]; constructor; [|exact IH].
  do 2 eexists. split; [reflexivity|]. apply row_columns_maps.
Qed.

End spec.

(** ** Doctor and gc *)

Section doctor_gc.
Context {U DB D F : Type} `{Unstructured U} `{DriverLaws D, !ListingLaws D} `{!Pinger D}.
Context `{FileSystem F} `{!KubeLoader F} `{Environment}.
Implicit Types (m : machine F D) (h : host U DB D).

(** [doctor] fails exactly when a line it printed starts with the cross. *)
Lemma doctor_marks h o m :
  let r := doctorCmd h o m in
  is_ok (rn_Result r) = negb (existsb (has_prefix "✗") (rn_Out r)).
Proof.
  cbv zeta. unfold doctorCmd. destruct (MkdirAll _ _) as [f made]. cbn [rn_Result rn_Out existsb].
  set (docker := docker_client h m). unfold doctor. cbn [snd forallb].
  assert (∀ p, has_prefix "✗" (doctor_port (h_Listen h) (op_cfg o) p)
    = negb (bool_decide (h_Listen h (JoinHostPort (Config.Bind (op_cfg o)) (itoa p)) = None))) as Hport.
  { intros p. unfold doctor_port. by destruct (h_Listen h _). }
  assert (has_prefix "✗" (doctor_kubectl (h_Kubectl h)) = false) as -> by (by destruct (h_Kubectl h)).
  assert (has_prefix "✗" (doctor_dir (op_cfg o) made) = negb (is_ok made)) as -> by (by destruct made).
  assert (has_prefix "✗" (doctor_docker docker) = negb (match docker with Err _ => false | Ok d => is_ok (Ping d).2 end)) as ->.
  { unfold doctor_docker. destruct docker as [d|]; [|done]. by destruct (Ping d).2. }
  rewrite !Hport. do 2 destruct (bool_decide _); destruct docker as [d|]; cbn [snd]; try destruct (is_ok (Ping d).2);
    by destruct made.
Qed.

(** [gc] keeps the containers whose sandbox the server it asks gives it, asks for
    the removal of those of every other sandbox, and they are gone when the daemon
    granted it. *)
Lemma gc_by_server h o m cl l :
  h_Client h = None → op_dryRun o = false → dynClient h (op_cfg o) (m_Files m) = Ok cl →
  listing (m_Docker m) l → labelled (m_Docker m) →
  let r := gcCmd h o m in
  is_ok (rn_Result r) = true ∧
  ∀ ns n info, container_of (m_Docker m) ns n = Some info →
    let d' := m_Docker (rn_Machine r) in
    let asked := removals (gc_keep (gc_exists cl)) (m_Docker m) l in
    if is_ok (cl_Get cl SandboxGVR ns n) then container_of d' ns n = Some info
    else (∃ x : res driver_error (), (ci_ID info, x) ∈ asked) ∧ ((ci_ID info, Ok ()) ∈ asked → container_of d' ns n = None).
Proof.
  intros Hc Hd Hcl Hl Hlab. cbv zeta. unfold gcCmd, docker_client. rewrite Hc, Hcl, Hd.
  pose proof (λ d' k, gc_collects (gc_exists cl) (m_Docker m) d' l k Hl Hlab) as Hg.
  assert (∃ d' k, gc (gc_exists cl) false (m_Docker m) = (d', Ok k)) as (d' & k & E).
  { destruct Hl as [Hl _]. unfold gc. destruct (ListManaged _) as [d1 r]. cbn in Hl. subst r.
    destruct (foldl _ _ _) as [d2 k]. eauto. }
  rewrite E. split; [done|]. apply (proj1 (Hg _ _ E)).
Qed.
End doctor_gc.

(** ** Witnesses *)

(** Long flags as [--name=value], and [--name] for a switch. *)
Definition demo_value (k : kind) (s : option string) : option value :=
  match k, s with
  | KString, Some s => Some (VString s)
  | KInt, Some s => VInt <$> atoi s
  | KBool, None => Some (VBool true)
  | KBool, Some "true" => Some (VBool true)
  | KBool, Some "false" => Some (VBool false)
  | _, _ => None
  end.
Definition demo_flag (fs : list flag_decl) (arg : string) : option (string * value) :=
  match split_byte (Ascii.ascii_of_nat 61) arg with
  | n :: rest =>
      d ← List.find (λ d : flag_decl, bool_decide ("--" +:+ d.1.1 = n)) fs;
      v ← demo_value d.2 (head rest);
      Some (d.1.1, v)
  | [] => None
  end.
#[local] Instance demo_cobra : Cobra := λ t argv,
  match argv with
  | [] => PHelp "Local agent-sandbox controller backed by Docker"
  | use :: args =>
      match List.find (λ e, bool_decide (e.1 = use)) t with
      | None => PUsage ("unknown command " +:+ use)
      | Some (_, fs) => match mapM (demo_flag fs) args with Some set => PRun use set | None => PUsage "flag" end
      end
  end.

Lemma demo_value_kind (k : kind) (s : option string) v : demo_value k s = Some v → kind_of v = k.
Proof.
  destruct k, s as [s|]; cbn; try discriminate; try (by intros [= <-]).
  - destruct (atoi s); cbn; [by intros [= <-]|done].
  - repeat case_match; intros; simplify_eq; done.
Qed.

#[local] Instance demo_cobra_laws : CobraLaws.
Proof.
  split. intros t argv use set. unfold parse_args, demo_cobra. destruct argv as [|use' args]; [done|].
  destruct (List.find _ t) as [[u fs]|] eqn:E; [|done]. apply find_some in E as [Hin Hu].
  apply bool_decide_eq_true in Hu. cbn in Hu. subst u. destruct (mapM _ args) as [set'|] eqn:Em; [|done].
  intros [= <- <-]. exists fs. split; [by apply list_elem_of_In|]. apply mapM_Some in Em.
  induction Em as [|arg nv args set' Hf Em IH]; constructor; [|done].
  unfold demo_flag in Hf. destruct (split_byte _ _) as [|n rest]; [done|].
  destruct (List.find _ fs) as [[[n' sh] k]|] eqn:Ef; [|done]. cbn in Hf.
  destruct (demo_value k (head rest)) as [v|] eqn:Ev; [|done]. injection Hf as <-. cbn.
  apply demo_value_kind in Ev as ->. exists sh. apply list_elem_of_In. by apply find_some in Ef as [? _].
Qed.

(** A kubeconfig file holds the address. *)
#[local] Notation memfs := (gmap string string).
#[local] Instance demo_encoder : KubeEncoder := λ k, of_opt "no cluster" (kc_Clusters k !! "lasd").
#[local] Instance demo_loader : KubeLoader memfs := λ p f,
  match p with
  | Some p => of_opt "no kubeconfig" (f !! p)
  | None => Ok "https://cloud.example"
  end.
#[local] Instance demo_loader_laws : KubeLoaderLaws memfs.
Proof.
  split. intros p server data f. unfold encode_kube, demo_encoder, Config.Build. cbn. rewrite lookup_singleton_eq.
  intros [= <-]. unfold client_config, demo_loader. by destruct (f !! p) as [x|].
Qed.
#[local] Instance demo_remover : Remover memfs := λ p f,
  match f !! p with Some _ => (delete p f, Removed) | None => (f, NotExist) end.
#[local] Instance demo_remover_laws : RemoverLaws memfs.
Proof.
  split. intros p q f Hq. unfold os_remove, demo_remover. destruct (f !! p); [|done]. cbn. by rewrite lookup_delete_ne.
Qed.
#[local] Instance fake_pinger_laws : PingerLaws Fake.FakeDriver.
Proof. by split. Qed.

(** The server at port 7000 has the sandbox [c], any other has none. *)
Definition demo_cluster (url : string) : cluster cobj :=
  if decide (url = "http://127.0.0.1:7000") then
    mkCluster (λ g, Ok (if decide (g = SandboxGVR) then [demo_cr "Sandbox" "default" "c" "u2" [] GNil] else []))
      (λ g ns n, if decide (g = SandboxGVR ∧ ns = "default" ∧ n = "c")
                 then Ok (demo_cr "Sandbox" "default" "c" "u2" [] GNil) else Err "not found")
  else mkCluster (λ _, Ok []) (λ _ _ _, Err "not found").
Definition demo_host : host cobj demo_db Fake.FakeDriver :=
  mkHost None (Some "/usr/bin/kubectl") (λ _, None) demo_cluster
    (mkServing (λ _, Err "timeout") (λ w, w) (λ w, w) (λ _ w, w) None true 0 0).
Definition demo_machine : machine memfs Fake.FakeDriver := mkMachine ∅ demo_leftover.

Definition demo_write : list string := ["kubeconfig"; "--api-port=7000"; "--data-dir=/tmp/las"; "--write"; "--print-export"].
Definition demo_written : machine memfs Fake.FakeDriver := (main "dev" demo_host demo_write demo_machine).1.1.

Lemma command_footprint_witness :
  m_Docker (main "dev" demo_host ["gc"; "--data-dir=/tmp/las"; "--dry-run"] demo_written).1.1 = demo_leftover.
Proof.
  pose proof (command_footprint "dev" demo_host ["gc"; "--data-dir=/tmp/las"; "--dry-run"] demo_written) as Hf.
  cbv zeta in Hf.
  assert (invoked ["gc"; "--data-dir=/tmp/las"; "--dry-run"] (m_Files demo_written)
    = Some (CGc, parsed_options CGc [("data-dir", VString "/tmp/las"); ("dry-run", VBool true)] (m_Files demo_written)))
    as E by (vm_compute; reflexivity).
  rewrite E in Hf. destruct Hf as [[Hd|[Hc|[Hc|[_ Hd]]]] _]; [|discriminate..]. exact Hd.
Defined.


Example doctor_output :
  (main "dev" demo_host ["doctor"; "--data-dir=/tmp/las"] demo_machine).1.2 =
  ["✓ docker daemon reachable"; "✓ kubectl found"; "✓ port 127.0.0.1:6644 available";
   "✓ port 127.0.0.1:8880 available"; "✓ data dir /tmp/las writable"].
Proof. vm_compute. reflexivity. Qed.

Example gc_output :
  (main "dev" demo_host ["gc"; "--data-dir=/tmp/las"] demo_written).1.2 =
  ["orphan container las-default-gone-u9 (default/gone)"; "1 orphaned containers removed"].
Proof. vm_compute. reflexivity. Qed.

(** With $KUBECONFIG set to another cluster, [gc] asks that cluster for the
    sandboxes, and removes the container of a sandbox lasd has. *)
Section other_cluster.
#[local] Instance other_environment : Environment :=
  {| Getenv := λ k, if decide (k = "KUBECONFIG") then "/home/u/.kube/config" else "";
     UserHomeDir := Ok "/home/u"; TempDir := "/tmp" |}.
Example gc_other_cluster :
  is_ok (cl_Get (demo_cluster "http://127.0.0.1:7000") SandboxGVR "default" "c") = true ∧
  is_Some (container_of (m_Docker demo_written) "default" "c") ∧
  container_of (m_Docker (main "dev" demo_host ["gc"; "--data-dir=/tmp/las"] demo_written).1.1) "default" "c" = None.
Proof. vm_compute. eauto. Qed.
End other_cluster.
