(* ===== verification/PortForward.v ===== *)
(** [internal/portforward/server.go]: bridging the streams of a port-forward
    connection to the router.

    [onStream] pairs the streams of a connection by request id; [forward] copies
    a pair's data stream to and from the router.  The two copiers run as their
    own goroutines, so [bridge_step] takes any interleaving of arrivals, ends,
    copies and failures.  The SPDY connection itself is a library's. *)

From S2P Require Import Prelude GoStrings.
Local Open Scope string_scope.

(** ** Streams *)

Notation StreamHeader := (gmap string string).

(** A stream of the connection; [st_Id] is its identity. *)
Record stream := mkStream { st_Id : Z; st_Header : StreamHeader }.
#[export] Instance stream_eq_dec : EqDecision stream.
Proof. solve_decision. Defined.

Definition PortForwardRequestIDHeader := "requestID".
Definition StreamType := "streamType".
Definition StreamTypeError := "error".
Definition StreamTypeData := "data".

(** [stream.Headers().Get(k)] *)
Definition header (s : stream) (k : string) : string := default "" (st_Header s !! k).
Definition request_id (s : stream) : string := header s PortForwardRequestIDHeader.
Definition stream_type (s : stream) : string := header s StreamType.

Record streamPair := mkPair {
  sp_requestID : string;
  dataStream : option stream;
  errorStream : option stream;
}.

(** What handling a stream does besides the map: reset it, or start [forward]
    on a completed pair. *)
Inductive action :=
| AReset (s : stream)
| AForward (p : streamPair).

(** [connHandler]'s pairs *)
Notation pairs_t := (gmap string streamPair).

Definition add_stream (s : stream) (p : streamPair) : option streamPair :=
  if decide (stream_type s = StreamTypeError) then Some (mkPair (sp_requestID p) (dataStream p) (Some s))
  else if decide (stream_type s = StreamTypeData) then Some (mkPair (sp_requestID p) (Some s) (errorStream p))
  else None.

Definition complete (p : streamPair) : bool :=
  match dataStream p, errorStream p with Some _, Some _ => true | _, _ => false end.

(** A new pair is in the map before the type is looked at, and stays there
    when the type is unknown. *)
Definition onStream (pairs : pairs_t) (s : stream) : pairs_t * list action :=
  let requestID := request_id s in
  if decide (requestID = "") then (pairs, [AReset s])
  else
    let p := default (mkPair requestID None None) (pairs !! requestID) in
    match add_stream s p with
    | None => (<[requestID := p]> pairs, [AReset s])
    | Some p =>
        if complete p then (delete requestID pairs, [AForward p])
        else (<[requestID := p]> pairs, [])
    end.

(** [run]: the streams of the connection in order of arrival. *)
Definition run_from (acc : pairs_t * list action) (l : list stream) : pairs_t * list action :=
  foldl (λ acc s, let '(pairs, out) := onStream acc.1 s in (pairs, acc.2 ++ out)%list) acc l.
Definition run : list stream → pairs_t * list action := run_from (∅, []).

(** ** ServeHTTP *)

Definition RouterPodName := "sandbox-router-0".

Inductive pf_outcome :=
| PFNotFound (msg : string)
| PFNoHandshake
| PFNoUpgrade
| PFServed (actions : list action).

(** [handshake] and [upgraded] are the library's answers; [streams] are those
    the client opens until the connection closes. *)
Definition ServeHTTP (name : string) (handshake upgraded : bool) (streams : list stream) : pf_outcome :=
  if decide (name ≠ RouterPodName)
  then PFNotFound ("port-forward only supported for pod " +:+ go_quote RouterPodName)
  else if negb handshake then PFNoHandshake
  else if negb upgraded then PFNoUpgrade
  else PFServed (run streams).2.

(** ** forward *)

(** One [io.Copy]: what its source still holds and whether it has ended, what
    the destination was given, and whether the copier has returned. *)
Record pipe := mkPipe { pp_src : string; pp_eof : bool; pp_dst : string; pp_done : bool }.
Definition pipe0 : pipe := mkPipe "" false "" false.

Inductive dir := ToRouter | ToClient.
#[export] Instance dir_eq_dec : EqDecision dir.
Proof. solve_decision. Defined.

Inductive event :=
| Arrive (d : dir) (s : string)
| Eof (d : dir)
| Copy (d : dir) (n : nat)
| Break (d : dir).

#[export] Instance event_eq_dec : EqDecision event.
Proof. solve_decision. Defined.

Definition event_dir (e : event) : dir :=
  match e with Arrive d _ | Eof d | Copy d _ | Break d => d end.

(** Bytes that arrive, the end of the source, one read and write of up to [n]
    bytes (at the end of the source the copier returns), and a failed one. *)
Definition pipe_step (e : event) (p : pipe) : pipe :=
  match e with
  | Arrive _ s => if pp_eof p then p else mkPipe (pp_src p +:+ s) false (pp_dst p) (pp_done p)
  | Eof _ => mkPipe (pp_src p) true (pp_dst p) (pp_done p)
  | Copy _ n =>
      if pp_done p then p
      else if decide (pp_src p = "") then mkPipe "" (pp_eof p) (pp_dst p) (pp_eof p)
      else mkPipe (str_drop n (pp_src p)) (pp_eof p) (pp_dst p +:+ str_take n (pp_src p)) false
  | Break _ => mkPipe (pp_src p) (pp_eof p) (pp_dst p) true
  end.

Record bridge := mkBridge { to_router : pipe; to_client : pipe }.
Definition bridge0 : bridge := mkBridge pipe0 pipe0.

Definition pipe_of (b : bridge) (d : dir) : pipe :=
  match d with ToRouter => to_router b | ToClient => to_client b end.

Definition bridge_step (b : bridge) (e : event) : bridge :=
  match event_dir e with
  | ToRouter => mkBridge (pipe_step e (to_router b)) (to_client b)
  | ToClient => mkBridge (to_router b) (pipe_step e (to_client b))
  end.
Definition bridge_run : bridge → list event → bridge := foldl bridge_step.

(** [CloseWrite] on the router's connection follows the first copier. *)
Definition half_closed (b : bridge) : bool := pp_done (to_router b).
(** Both [<-done] received: the deferred closes run. *)
Definition closed (b : bridge) : bool := pp_done (to_router b) && pp_done (to_client b).

(** What a client sees of a forward: the error text of a failed dial, or the
    bridge; either way both its streams are closed at the end. *)
Inductive forwarded :=
| DialFailed (msg : string)
| Bridged (b : bridge).

Definition forward (dial : res string ()) (events : list event) : forwarded :=
  match dial with
  | Err e => DialFailed ("error dialing router: " +:+ e)
  | Ok _ => Bridged (bridge_run bridge0 events)
  end.
