(* ===== verification/PortForwardSpec.v ===== *)
(** Port forwarding is correct: streams are paired by request id whatever the
    order they arrive in, and a bridge delivers each direction's bytes whole
    and in order whatever the interleaving of its copiers. *)

From S2P Require Import Prelude GoStrings PortForward.
Local Open Scope string_scope.

(** ** Pairing *)

Definition action_request (a : action) : string :=
  match a with AReset s => request_id s | AForward p => sp_requestID p end.

(** The actions about one request. *)
Definition about (r : string) (l : list action) : list action :=
  filter (λ a, action_request a = r) l.

(** The map holds each pair under its request id. *)
Definition pairs_ok (pairs : pairs_t) : Prop := map_Forall (λ r p, sp_requestID p = r) pairs.

Lemma add_stream_id s p p' : add_stream s p = Some p' → sp_requestID p' = sp_requestID p.
Proof. unfold add_stream. repeat case_decide; naive_solver. Qed.

Lemma onStream_pair pairs s :
  pairs_ok pairs → sp_requestID (default (mkPair (request_id s) None None) (pairs !! request_id s)) = request_id s.
Proof. intros Hok. destruct (pairs !! request_id s) eqn:E; [by apply (Hok _ _ E)|done]. Qed.

(** A stream only touches its own request. *)
Lemma onStream_own pairs s :
  pairs_ok pairs →
  pairs_ok (onStream pairs s).1 ∧
  (∀ r, r ≠ request_id s → (onStream pairs s).1 !! r = pairs !! r) ∧
  Forall (λ a, action_request a = request_id s) (onStream pairs s).2.
Proof.
  intros Hok. pose proof (onStream_pair pairs s Hok) as Hp. unfold onStream.
  case_decide as Hr; [split_and!; by repeat constructor|].
  set (p := default _ _) in *.
  destruct (add_stream s p) as [p'|] eqn:E; [|split_and!; [by apply map_Forall_insert_2| |by repeat constructor]].
  - apply add_stream_id in E as Hid. destruct (complete p').
    + split_and!; [by apply map_Forall_delete| |repeat constructor; simpl; congruence].
      intros r Hne. by apply lookup_delete_ne.
    + split_and!; [apply map_Forall_insert_2; [congruence|done]| |constructor].
      intros r Hne. by apply lookup_insert_ne.
  - intros r Hne. by apply lookup_insert_ne.
Qed.

(** What a stream does depends on its own request's pair alone. *)
Lemma onStream_local pairs pairs' s :
  pairs !! request_id s = pairs' !! request_id s →
  (onStream pairs s).2 = (onStream pairs' s).2 ∧
  (onStream pairs s).1 !! request_id s = (onStream pairs' s).1 !! request_id s.
Proof.
  intros E. unfold onStream. rewrite <-E. case_decide; [done|].
  destruct (add_stream _ _) as [p|]; [destruct (complete p)|];
    simpl; by rewrite ?lookup_insert_eq, ?lookup_delete_eq.
Qed.

Lemma about_app r l k : about r (l ++ k)%list = (about r l ++ about r k)%list.
Proof. apply filter_app. Qed.

Lemma run_from_local r l : ∀ acc acc',
  pairs_ok acc.1 → pairs_ok acc'.1 → acc.1 !! r = acc'.1 !! r → about r acc.2 = about r acc'.2 →
  (run_from acc l).1 !! r = (run_from acc' (filter (λ s, request_id s = r) l)).1 !! r ∧
  about r (run_from acc l).2 = about r (run_from acc' (filter (λ s, request_id s = r) l)).2.
Proof.
  induction l as [|s l IH]; intros [ps out] [ps' out'] Hok Hok' Hr Ha; [done|]. simpl in *.
  destruct (onStream_own ps s Hok) as (Hok1 & Hne & Hown). rewrite filter_cons.
  destruct (onStream ps s) as [ps1 out1] eqn:E1. simpl in *. case_decide as Hs; simpl.
  - destruct (onStream_own ps' s Hok') as (Hok2 & _ & Hown').
    destruct (onStream_local ps ps' s ltac:(by rewrite Hs)) as [Ho Hl]. rewrite E1 in Ho, Hl. simpl in *.
    destruct (onStream ps' s) as [ps2 out2]. simpl in *. subst out2.
    apply IH; simpl; [done|done|by rewrite <-Hs|by rewrite !about_app, Ha].
  - apply IH; simpl; [done|done|by rewrite Hne|].
    rewrite about_app. unfold about at 2. rewrite (filter_none _ out1), app_nil_r; [done|].
    intros a Hin E. rewrite Forall_forall in Hown. apply Hown in Hin. congruence.
Qed.

(** The streams of other requests do not matter to a request. *)
Lemma run_local r l :
  (run l).1 !! r = (run (filter (λ s, request_id s = r) l)).1 !! r ∧
  about r (run l).2 = about r (run (filter (λ s, request_id s = r) l)).2.
Proof. by apply run_from_local. Qed.

Lemma onStream_first (pairs : pairs_t) s :
  request_id s ≠ "" → pairs !! request_id s = None →
  stream_type s = StreamTypeData ∨ stream_type s = StreamTypeError →
  onStream pairs s =
  (<[request_id s := if decide (stream_type s = StreamTypeError) then mkPair (request_id s) None (Some s)
                     else mkPair (request_id s) (Some s) None]> pairs, []).
Proof.
  intros Hr Hn Ht. unfold onStream, add_stream. rewrite decide_False, Hn by done. simpl.
  destruct Ht as [-> | ->]; reflexivity.
Qed.

(** C20. Every request gets its bridge: when a client opens one data and one
    error stream for a request, in either order and among any streams of other
    requests, exactly one bridge is started, on those two streams, and no
    half-open pair of the request is left. *)
Theorem requests_bridged (l : list stream) r (d e : stream) :
  r ≠ "" → filter (λ s, request_id s = r) l ≡ₚ [d; e] →
  stream_type d = StreamTypeData → stream_type e = StreamTypeError →
  (run l).1 !! r = None ∧ about r (run l).2 = [AForward (mkPair r (Some d) (Some e))].
Proof.
  intros Hr Hp Hd He.
  assert (request_id d = r ∧ request_id e = r) as [Hdr Her].
  { split; [assert (d ∈ filter (λ s, request_id s = r) l) as [? _]%list_elem_of_filter
             by (rewrite Hp; set_solver); done|].
    assert (e ∈ filter (λ s, request_id s = r) l) as [? _]%list_elem_of_filter
      by (rewrite Hp; set_solver); done. }
  destruct (run_local r l) as [-> ->].
  assert (filter (λ s, request_id s = r) l = [d; e] ∨ filter (λ s, request_id s = r) l = [e; d]) as Ho.
  { apply Permutation_length_2_inv. by symmetry. }
  assert (∀ a b : stream, request_id a = r → request_id b = r →
    stream_type a = StreamTypeData ∧ stream_type b = StreamTypeError ∨
    stream_type a = StreamTypeError ∧ stream_type b = StreamTypeData →
    (run [a; b]).1 !! r = None ∧
    (run [a; b]).2 = [AForward (if decide (stream_type a = StreamTypeError) then mkPair r (Some b) (Some a)
                                else mkPair r (Some a) (Some b))]) as Hpair.
  { intros a b Ha Hb Ht. unfold run, run_from. simpl.
    rewrite (onStream_first ∅ a) by (first [congruence | apply lookup_empty | tauto]). simpl.
    unfold onStream. rewrite Ha, Hb, decide_False, lookup_insert_eq by done. simpl.
    destruct Ht as [[-> Hbt]|[-> Hbt]]; unfold add_stream; rewrite Hbt; simpl; by rewrite lookup_delete_eq. }
  destruct Ho as [-> | ->].
  - destruct (Hpair d e) as [-> ->]; [done|done|tauto|]. rewrite Hd. simpl.
    unfold about. rewrite filter_cons, filter_nil. simpl. by rewrite decide_True.
  - destruct (Hpair e d) as [-> ->]; [done|done|tauto|]. rewrite He. simpl.
    unfold about. rewrite filter_cons, filter_nil. simpl. by rewrite decide_True.
Qed.

Definition demo_stream (id : Z) (r t : string) : stream :=
  mkStream id {[PortForwardRequestIDHeader := r; StreamType := t]}.

(** Two requests with interleaved streams, and a stream without an id. *)
Lemma requests_bridged_witness :
  let l := [demo_stream 1 "a" "error"; demo_stream 3 "b" "data"; mkStream 5 ∅;
            demo_stream 7 "a" "data"; demo_stream 9 "b" "error"] in
  (run l).1 !! "b" = None ∧
  about "b" (run l).2 =
    [AForward (mkPair "b" (Some (demo_stream 3 "b" "data")) (Some (demo_stream 9 "b" "error")))].
Proof.
  intros l. apply requests_bridged; [done| |reflexivity|reflexivity]. vm_compute. reflexivity.
Defined.

(** Streams of a pair are of their kinds and of its request. *)
Definition typed (l : list stream) (p : streamPair) : Prop :=
  (∀ d, dataStream p = Some d → d ∈ l ∧ request_id d = sp_requestID p ∧ stream_type d = StreamTypeData) ∧
  (∀ e, errorStream p = Some e → e ∈ l ∧ request_id e = sp_requestID p ∧ stream_type e = StreamTypeError).

Definition action_typed (l : list stream) (a : action) : Prop :=
  match a with
  | AReset s => s ∈ l
  | AForward p => typed l p ∧ is_Some (dataStream p) ∧ is_Some (errorStream p)
  end.

Lemma add_stream_typed l s p p' :
  s ∈ l → request_id s = sp_requestID p → typed l p → add_stream s p = Some p' → typed l p'.
Proof. unfold add_stream, typed. intros Hs Hr [Hd He]. repeat case_decide; naive_solver. Qed.

Lemma onStream_typed l pairs s :
  s ∈ l → pairs_ok pairs → map_Forall (λ _, typed l) pairs →
  map_Forall (λ _, typed l) (onStream pairs s).1 ∧ Forall (action_typed l) (onStream pairs s).2.
Proof.
  intros Hs Hok Ht. pose proof (onStream_pair pairs s Hok) as Hp. unfold onStream.
  case_decide; [split; [done|by apply Forall_singleton]|].
  assert (typed l (default (mkPair (request_id s) None None) (pairs !! request_id s))) as Htp.
  { destruct (pairs !! request_id s) eqn:E; [by apply (Ht _ _ E)|done]. }
  set (p := default _ _) in *.
  destruct (add_stream s p) as [p'|] eqn:E; [|split; [by apply map_Forall_insert_2|by apply Forall_singleton]].
  apply (add_stream_typed l) in E; [|done|congruence|done].
  destruct (complete p') eqn:Hc; simpl; split; try done.
  - by apply map_Forall_delete.
  - apply Forall_singleton. split; [done|]. unfold complete in Hc.
    destruct (dataStream p'), (errorStream p'); by eauto.
  - by apply map_Forall_insert_2.
Qed.

Lemma run_from_typed l k : k ⊆ l → ∀ acc,
  pairs_ok acc.1 → map_Forall (λ _, typed l) acc.1 → Forall (action_typed l) acc.2 →
  Forall (action_typed l) (run_from acc k).2.
Proof.
  induction k as [|s k IH]; intros Hk [ps out] Hok Ht Ha; [done|]. simpl in *.
  destruct (onStream_typed l ps s) as [Ht' Ha']; [apply Hk; left|done|done|].
  destruct (onStream_own ps s Hok) as (Hok' & _). destruct (onStream ps s) as [ps' out'].
  apply IH; simpl in *; [|done|done|by apply Forall_app]. intros x Hx. apply Hk. by right.
Qed.

(** No bridge is started on streams the client did not open for its request. *)
Lemma forwards_typed l : Forall (action_typed l) (run l).2.
Proof. by apply run_from_typed. Qed.

(** ** The bridge *)

(** What the source of a direction sends, up to its end. *)
Fixpoint sent (d : dir) (l : list event) : string :=
  match l with
  | [] => ""
  | e :: l =>
      if decide (event_dir e = d) then
        match e with
        | Arrive _ s => s +:+ sent d l
        | Eof _ => ""
        | _ => sent d l
        end
      else sent d l
  end.

Definition ended (d : dir) (l : list event) : bool := existsb (λ e, bool_decide (e = Eof d)) l.
Definition broken (d : dir) (l : list event) : bool := existsb (λ e, bool_decide (e = Break d)) l.

(** One direction: its events are the steps of its pipe. *)
Definition pipe_run : pipe → list event → pipe := foldl (λ p e, pipe_step e p).

Lemma bridge_run_pipe b l d :
  pipe_of (bridge_run b l) d = pipe_run (pipe_of b d) (filter (λ e, event_dir e = d) l).
Proof.
  revert b; induction l as [|e l IH]; intros b; [done|]. simpl. rewrite IH, filter_cons.
  unfold bridge_step. by destruct (event_dir e) eqn:E, d; simpl.
Qed.

Lemma take_drop_str n s : str_take n s +:+ str_drop n s = s.
Proof. revert s; induction n as [|n IH]; intros [|c s]; simpl; [done..|]. by rewrite IH. Qed.

(** Nothing is lost, added or reordered between the source and what is
    delivered. *)
Lemma pipe_run_fifo d l : Forall (λ e, event_dir e = d) l → ∀ p,
  pp_dst (pipe_run p l) +:+ pp_src (pipe_run p l)
  = pp_dst p +:+ pp_src p +:+ (if pp_eof p then "" else sent d l).
Proof.
  induction 1 as [|e l He _ IH]; intros p; simpl.
  { destruct (pp_eof p); by rewrite str_app_nil_r. }
  rewrite decide_True, IH by done. destruct e as [d' s|d'|d' n|d']; simpl in *.
  - destruct (pp_eof p) eqn:E; simpl; rewrite ?E; [done|]. by rewrite !str_app_assoc.
  - destruct (pp_eof p); done.
  - destruct (pp_done p); [done|]. case_decide as Hs; simpl; [by rewrite Hs|].
    by rewrite !str_app_assoc, <-(str_app_assoc (str_take n _)), take_drop_str.
  - done.
Qed.

Lemma pipe_step_done e p : pp_done p = true → pp_done (pipe_step e p) = true.
Proof. intros E. destruct e; simpl; rewrite ?E; [by destruct (pp_eof p)|done..]. Qed.

(** A copier that has returned without a failure has reached the end and
    delivered everything. *)
Definition clean (p : pipe) : Prop := pp_done p = true → pp_eof p = true ∧ pp_src p = "".

Lemma pipe_step_clean e p : e ≠ Break (event_dir e) → clean p → clean (pipe_step e p).
Proof.
  intros He Hc. destruct e as [d s|d|d n|d]; simpl in *; unfold clean in *.
  - destruct (pp_eof p) eqn:E; simpl; [by rewrite E|]. naive_solver.
  - naive_solver.
  - destruct (pp_done p) eqn:E; simpl; [by rewrite E|]. by case_decide.
  - done.
Qed.

Lemma pipe_run_clean d l p :
  Forall (λ e, event_dir e = d) l → broken d l = false → clean p → clean (pipe_run p l).
Proof.
  intros Hl. revert p. induction Hl as [|e l He Hl IH]; intros p; [done|]. cbn. rewrite orb_false_iff.
  intros [Hb Hbs] Hc. apply IH; [done|]. apply pipe_step_clean; [|done].
  rewrite He. by apply bool_decide_eq_false in Hb.
Qed.

Lemma existsb_dir (f : event → bool) d l :
  (∀ e, f e = true → event_dir e = d) → existsb f (filter (λ e, event_dir e = d) l) = existsb f l.
Proof.
  intros Hf. induction l as [|e l IH]; [done|]. rewrite filter_cons. case_decide as Hd; simpl; rewrite IH; [done|].
  destruct (f e) eqn:E; [by apply Hf in E|done].
Qed.

Lemma sent_dir d l : sent d (filter (λ e, event_dir e = d) l) = sent d l.
Proof.
  induction l as [|e l IH]; [done|]. rewrite filter_cons. case_decide as Hd; cbn [sent].
  - rewrite !decide_True by done. destruct e; by rewrite ?IH.
  - by rewrite decide_False.
Qed.

Lemma pipe_run_eof d l p :
  Forall (λ e, event_dir e = d) l → pp_eof (pipe_run p l) = pp_eof p || ended d l.
Proof.
  intros Hl. revert p. induction Hl as [|e l He Hl IH]; intros p; simpl; [by rewrite orb_false_r|].
  rewrite IH. destruct e as [d' s|d'|d' n|d']; simpl in *; subst.
  - by destruct (pp_eof p) eqn:E; simpl; rewrite ?E.
  - by rewrite bool_decide_eq_true_2, !orb_true_r.
  - destruct (pp_done p); [done|]. by case_decide.
  - done.
Qed.

Lemma bridge_pipe d l :
  let p := pipe_of (bridge_run bridge0 l) d in
  pp_dst p +:+ pp_src p = sent d l ∧ pp_eof p = ended d l ∧ (broken d l = false → clean p).
Proof.
  set (k := filter (λ e, event_dir e = d) l).
  assert (Forall (λ e, event_dir e = d) k) as Hk by (apply Forall_forall; intros e [? _]%list_elem_of_filter; done).
  cbv zeta. rewrite bridge_run_pipe. fold k. replace (pipe_of bridge0 d) with pipe0 by (by destruct d). split_and!.
  - rewrite (pipe_run_fifo d) by done. simpl. apply sent_dir.
  - rewrite (pipe_run_eof d) by done. simpl. apply existsb_dir. intros e He. apply bool_decide_eq_true in He. by subst.
  - intros Hb. apply (pipe_run_clean d); [done| |done]. rewrite <-Hb. apply existsb_dir.
    intros e He. apply bool_decide_eq_true in He. by subst.
Qed.

(** Once both sources have ended, draining both pipes closes the bridge. *)
Lemma drain p d : pp_eof p = true → ∃ n, pp_done (pipe_step (Copy d 1) (pipe_step (Copy d n) p)) = true.
Proof.
  intros He. exists (String.length (pp_src p)). cbn. destruct (pp_done p) eqn:Hd; cbn; [by rewrite Hd|].
  destruct (decide (pp_src p = "")) as [Hs|Hs]; cbn; [by rewrite He|].
  assert (str_drop (String.length (pp_src p)) (pp_src p) = "") as ->; [|by cbn; rewrite ?He].
  generalize (pp_src p). intros s. induction s as [|c s IH]; [done|apply IH].
Qed.

(** C21. Port forwarding is transparent: whatever the interleaving of the two
    copiers, what each side was given is a prefix of what the other sent; a
    bridge that closes without a failed read or write delivered both directions
    whole, and the router's half-close comes after the client's last byte; and
    from any moment at which both sides have ended, the copiers can finish. *)
Theorem bridge_transparent (l : list event) :
  let b := bridge_run bridge0 l in
  (∀ d, ∃ rest, sent d l = pp_dst (pipe_of b d) +:+ rest) ∧
  (broken ToRouter l = false → half_closed b = true →
   ended ToRouter l = true ∧ pp_dst (to_router b) = sent ToRouter l) ∧
  ((∀ d, broken d l = false) → closed b = true →
   ∀ d, ended d l = true ∧ pp_dst (pipe_of b d) = sent d l) ∧
  ((∀ d, ended d l = true) → ∃ k, Forall (λ e, ∃ d n, e = Copy d n) k ∧ closed (bridge_run b k) = true).
Proof.
  intros b.
  assert (∀ d, broken d l = false → pp_done (pipe_of b d) = true →
          ended d l = true ∧ pp_dst (pipe_of b d) = sent d l) as Hdone.
  { intros d Hb Hd. destruct (bridge_pipe d l) as (Hs & He & Hc). fold b in Hs, He, Hc.
    destruct (Hc Hb Hd) as [Heof Hsrc]. by rewrite <-He, <-Hs, Hsrc, str_app_nil_r. }
  split_and!.
  - intros d. destruct (bridge_pipe d l) as (Hs & _). eexists. symmetry. exact Hs.
  - intros Hb Hh. by apply (Hdone ToRouter).
  - intros Hb [H1 H2]%andb_true_iff d. apply Hdone; [done|by destruct d].
  - intros He. destruct (bridge_pipe ToRouter l) as (_ & Er & _). destruct (bridge_pipe ToClient l) as (_ & Ec & _).
    fold b in Er, Ec. rewrite He in Er, Ec.
    destruct (drain _ ToRouter Er) as [n1 Hn1], (drain _ ToClient Ec) as [n2 Hn2].
    exists [Copy ToRouter n1; Copy ToRouter 1; Copy ToClient n2; Copy ToClient 1].
    split; [repeat constructor; eauto|]. unfold closed. cbn in *. by rewrite Hn1, Hn2.
Qed.

(** A request and its answer, interleaved. *)
Lemma bridge_transparent_witness :
  let l := [Arrive ToRouter "GET "; Copy ToRouter 2; Arrive ToRouter "/"; Arrive ToClient "200"; Copy ToClient 9;
            Eof ToRouter; Copy ToRouter 9; Copy ToRouter 1; Eof ToClient; Copy ToClient 1] in
  closed (bridge_run bridge0 l) = true ∧ pp_dst (to_router (bridge_run bridge0 l)) = "GET /".
Proof.
  intros l. assert (closed (bridge_run bridge0 l) = true) as Hc by (vm_compute; reflexivity). split; [exact Hc|].
  destruct (bridge_transparent l) as (_ & _ & Hdone & _).
  exact (proj2 (Hdone ltac:(intros []; vm_compute; reflexivity) Hc ToRouter)).
Defined.
